(** * Agent mesh messaging and resilience layer

    A shallow embedding of the inter-agent messaging core of the agent mesh
    ([lib/utils/communication.py], [lib/utils/retry.py] and
    [lib/tools/delegation_tool.py]) and the properties established for it.

    Modelling conventions.
    - Python floats holding wall-clock seconds or token counts are exact
      rationals ([Q]); rounding of IEEE arithmetic is not part of the model.
    - Python [int]s are [Z]; [str] is [string] (ASCII text); a [dict] with
      string keys whose contents are inspected is a [gmap string _]; a [dict]
      that is only built and handed back is an insertion-ordered association
      list inside [value].
    - [time.time()] is the clock of the modelled process; only sleeping
      and waiting on a timer advance it. The time that deliveries and
      queries take in a real run comes on top of what this clock shows.
    - Coroutines run by [asyncio.gather] are tasks of an event loop that
      takes up one task at a time, from one suspension point to the next,
      in an order that is a parameter ([schedule]); what is proved of a
      broadcast holds for every order.
    - An INTEGER column of the ledger takes any Python [int] (or [bool])
      and a TEXT column a [str] or [None]; any other value makes the
      statement fail. The 32-bit range of INTEGER is not part of the
      model.
    - Exceptions are the [Raise] outcome of the [M] monad; state changes made
      before a [raise] persist, as they do in Python. *)

From Stdlib Require Import QArith Qround Lqa ZArith Lia String Ascii List Bool.
From stdpp Require Import gmap strings list fin_maps pretty.

Local Open Scope string_scope.

(** ** Rational comparisons as used by the source ([>], [<], [>=]) *)

Definition Qgtb (x y : Q) : bool := negb (Qle_bool x y).
Definition Qltb (x y : Q) : bool := negb (Qle_bool y x).
Definition Qgeb (x y : Q) : bool := Qle_bool y x.

(** ** Circuit breaker ([class CircuitBreaker]) *)

Module CircuitBreaker.

Inductive state := CLOSED | OPEN | HALF_OPEN.

Definition state_eqb (a b : state) : bool :=
  match a, b with
  | CLOSED, CLOSED | OPEN, OPEN | HALF_OPEN, HALF_OPEN => true
  | _, _ => false
  end.

Definition CIRCUIT_FAILURE_THRESHOLD : Z := 3.
Definition CIRCUIT_RESET_TIMEOUT : Q := 60.
Definition CIRCUIT_HALF_OPEN_MAX : Z := 1.

(** [agent_name -> (state, failure_count, last_failure_time, half_open_attempts)] *)
Abbreviation circuit := (state * Z * Q * Z)%type.

Definition cold : circuit := (CLOSED, 0%Z, 0%Q, 0%Z).

(** [get_state]: reading the state performs the OPEN -> HALF_OPEN
    transition once the reset timeout has passed. [now] is [time.time()]. *)
Definition get_state (now : Q) (agent_name : string) (cs : gmap string circuit)
  : state * gmap string circuit :=
  match cs !! agent_name with
  | None => (CLOSED, cs)
  | Some (st, failures, last_failure, _) =>
      if state_eqb st OPEN && Qgtb (now - last_failure) CIRCUIT_RESET_TIMEOUT
      then (HALF_OPEN, <[agent_name := (HALF_OPEN, failures, last_failure, 0%Z)]> cs)
      else (st, cs)
  end.

Definition record_success (agent_name : string) (cs : gmap string circuit)
  : gmap string circuit :=
  <[agent_name := (CLOSED, 0%Z, 0%Q, 0%Z)]> cs.

Definition record_failure (now : Q) (agent_name : string) (cs : gmap string circuit)
  : gmap string circuit :=
  match cs !! agent_name with
  | None => <[agent_name := (CLOSED, 1%Z, now, 0%Z)]> cs
  | Some (st, failures, _, half_open_attempts) =>
      let new_failures := (failures + 1)%Z in
      if state_eqb st HALF_OPEN
      then <[agent_name := (OPEN, new_failures, now, 0%Z)]> cs
      else if (CIRCUIT_FAILURE_THRESHOLD <=? new_failures)%Z
      then <[agent_name := (OPEN, new_failures, now, 0%Z)]> cs
      else <[agent_name := (CLOSED, new_failures, now, 0%Z)]> cs
  end.

Definition allow_request (now : Q) (agent_name : string) (cs : gmap string circuit)
  : bool * gmap string circuit :=
  let '(st, cs1) := get_state now agent_name cs in
  match st with
  | CLOSED => (true, cs1)
  | OPEN => (false, cs1)
  | HALF_OPEN =>
      match cs1 !! agent_name with
      | Some (_, failures, last_failure, attempts) =>
          if (attempts <? CIRCUIT_HALF_OPEN_MAX)%Z
          then (true, <[agent_name := (HALF_OPEN, failures, last_failure, (attempts + 1)%Z)]> cs1)
          else (false, cs1)
      | None => (false, cs1) (* unreachable: HALF_OPEN is only read from an entry *)
      end
  end.

(** A run of [allow_request] calls at the given times, oldest first. *)
Fixpoint allow_requests (times : list Q) (agent_name : string)
    (cs : gmap string circuit) : list bool * gmap string circuit :=
  match times with
  | [] => ([], cs)
  | t :: rest =>
      let '(b, cs1) := allow_request t agent_name cs in
      let '(bs, cs2) := allow_requests rest agent_name cs1 in
      (b :: bs, cs2)
  end.

(** A run of [record_failure] calls at the given times, oldest first. *)
Fixpoint record_failures (times : list Q) (agent_name : string)
    (cs : gmap string circuit) : gmap string circuit :=
  match times with
  | [] => cs
  | t :: rest => record_failures rest agent_name (record_failure t agent_name cs)
  end.

End CircuitBreaker.

(** ** Incident-id extraction ([extract_incident_id])

    The two regular expressions of the source are matched by hand-written
    matchers over ASCII text. Both patterns are deterministic for the
    purposes of [re.search]: every repetition is followed by a character
    class disjoint from the repeated one (or by the end of the pattern), so
    the greedy choice is the only one that can succeed and no backtracking
    is lost. *)

Module IncidentId.

Definition in_range (lo hi : nat) (c : ascii) : bool :=
  let n := nat_of_ascii c in (lo <=? n)%nat && (n <=? hi)%nat.

Definition is_char (x c : ascii) : bool := Ascii.eqb x c.

(** [[A-Z]], [[0-9]], [[a-z]] *)
Definition is_upper : ascii -> bool := in_range 65 90.
Definition is_digit : ascii -> bool := in_range 48 57.
Definition is_lower : ascii -> bool := in_range 97 122.

(** [\s] on ASCII: tab, newline, vertical tab, form feed, carriage return,
    the four separators 0x1c-0x1f, and space. *)
Definition is_space (c : ascii) : bool :=
  in_range 9 13 c || in_range 28 31 c || is_char " " c.

(** [\w] on ASCII: letters, digits and underscore. *)
Definition is_word (c : ascii) : bool :=
  is_upper c || is_lower c || is_digit c || is_char "_" c.

(** [[A-Z0-9]] and [[A-Z0-9_-]] *)
Definition is_upper_digit (c : ascii) : bool := is_upper c || is_digit c.
Definition is_id_char (c : ascii) : bool :=
  is_upper c || is_digit c || is_char "_" c || is_char "-" c.

(** Greedy [p*]: the longest prefix of characters satisfying [p], and the
    rest of the text. *)
Fixpoint take_while (p : ascii -> bool) (s : string) : string * string :=
  match s with
  | String c rest =>
      if p c then let '(run, tl) := take_while p rest in (String c run, tl)
      else (EmptyString, s)
  | EmptyString => (EmptyString, EmptyString)
  end.

(** One character of class [p]. *)
Definition expect (p : ascii -> bool) (s : string) : option string :=
  match s with
  | String c rest => if p c then Some rest else None
  | EmptyString => None
  end.

(** A literal. *)
Fixpoint expect_lit (lit s : string) : option string :=
  match lit with
  | EmptyString => Some s
  | String a lit' =>
      match s with
      | String c rest => if Ascii.eqb a c then expect_lit lit' rest else None
      | EmptyString => None
      end
  end.

Definition one_of (a b : ascii) (c : ascii) : bool := is_char a c || is_char b c.

(** Pattern 1 anchored at the start of [s]:
    [[Ii]ncident\s*[Ii][Dd][:=]\s*([A-Z0-9_-]+)]; returns group 1. *)
Definition match_label_at (s : string) : option string :=
  s1 ← expect (one_of "I" "i") s;
  s2 ← expect_lit "ncident" s1;
  let s3 := snd (take_while is_space s2) in
  s4 ← expect (one_of "I" "i") s3;
  s5 ← expect (one_of "D" "d") s4;
  s6 ← expect (one_of ":" "=") s5;
  let s7 := snd (take_while is_space s6) in
  let '(g, _) := take_while is_id_char s7 in
  if String.eqb g "" then None else Some g.

(** [re.search] with pattern 1: the leftmost position where it matches. *)
Fixpoint search_label (s : string) : option string :=
  match match_label_at s with
  | Some g => Some g
  | None =>
      match s with
      | String _ rest => search_label rest
      | EmptyString => None
      end
  end.

(** Greedy [(?:_[A-Z0-9]+)*]: the text consumed, how many groups were
    taken, and the rest. [fuel] bounds the number of groups; the length of
    the text always suffices. *)
Fixpoint take_groups (fuel : nat) (s : string) : string * nat * string :=
  match fuel with
  | O => (EmptyString, O, s)
  | S fuel' =>
      match s with
      | String c rest =>
          if is_char "_" c then
            let '(seg, tl) := take_while is_upper_digit rest in
            if String.eqb seg "" then (EmptyString, O, s)
            else
              let '(more, n, tl') := take_groups fuel' tl in
              (String c (seg ++ more), S n, tl')
          else (EmptyString, O, s)
      | EmptyString => (EmptyString, O, s)
      end
  end.

(** [\b] after a word character: the text ends or continues with a
    non-word character. *)
Definition at_word_end (s : string) : bool :=
  match s with
  | String c _ => negb (is_word c)
  | EmptyString => true
  end.

(** [\b] before a word character: the text starts here or the previous
    character is a non-word character. *)
Definition at_word_start (prev : option ascii) : bool :=
  match prev with
  | Some c => negb (is_word c)
  | None => true
  end.

(** Pattern 2 anchored at the start of [s], [prev] being the character
    before it: [\b([A-Z][A-Z0-9]*(?:_[A-Z0-9]+){2,})\b]; returns group 1. *)
Definition match_caps_at (prev : option ascii) (s : string) : option string :=
  if at_word_start prev then
    match s with
    | String c rest =>
        if is_upper c then
          let '(head, tl) := take_while is_upper_digit rest in
          let '(groups, n, tl') := take_groups (String.length tl) tl in
          if (2 <=? n)%nat && at_word_end tl'
          then Some (String c (head ++ groups))
          else None
        else None
    | EmptyString => None
    end
  else None.

(** [re.search] with pattern 2. *)
Fixpoint search_caps (prev : option ascii) (s : string) : option string :=
  match match_caps_at prev s with
  | Some g => Some g
  | None =>
      match s with
      | String c rest => search_caps (Some c) rest
      | EmptyString => None
      end
  end.

Definition extract_incident_id (text : string) : option string :=
  if String.eqb text "" then None
  else
    match search_label text with
    | Some g => Some g
    | None =>
        match search_caps None text with
        | Some g => Some g
        | None => None
        end
    end.

End IncidentId.

(** ** Cross-process token bucket ([class FileLockRateLimiter]) *)

Inductive exn :=
| TimeoutError                (* asyncio.TimeoutError *)
| ZeroDivisionError
| Exception (msg : string).
    (* any other exception, [TypeError] included; [msg] is [str(e)] *)

(** What a call does: return, raise, or still be running when the fuel that
    bounds its [while] loops is used up. *)
Inductive outcome (A : Type) :=
| Ok (a : A)
| Raise (e : exn)
| OutOfFuel.
Arguments Ok {A} a.
Arguments Raise {A} e.
Arguments OutOfFuel {A}.

(** Python's [min(a, b)]: the first of the smallest arguments. *)
Definition pymin (a b : Q) : Q := if Qltb b a then b else a.

Module RateLimiter.

Local Open Scope Q_scope.

(** The instance attributes set by [__init__] that [acquire] reads. *)
Record limiter := { rate : Q; max_tokens : Q }.

Definition new (requests_per_minute : Z) : limiter :=
  {| rate := inject_Z requests_per_minute / 60;
     max_tokens := inject_Z requests_per_minute |}.

(** What the processes share: the JSON state file ([None] when it is
    missing or unreadable), the wall clock, and the outcomes of the coming
    attempts to take the lock file ([true]: taken; an exhausted list means
    no contention). *)
Record shared := {
  state_file : option (gmap string Q);
  clock : Q;
  lock_outcomes : list bool;
}.

Definition _read_state (self : limiter) (now : Q) (file : option (gmap string Q))
  : gmap string Q :=
  match file with
  | Some st => st
  | None => <["last_update" := now]> (<["tokens" := max_tokens self]> ∅)
  end.

(** The body of the [try] block of [acquire], run under the lock at time
    [now]: the wait time it computes and the state it persists. [None] is
    the [ZeroDivisionError] of [(1.0 - new_tokens) / self.rate], raised
    before anything is written. *)
Definition acquire_pass (self : limiter) (now : Q) (file : option (gmap string Q))
  : option (Q * gmap string Q) :=
  let state := _read_state self now file in
  let tokens := default (max_tokens self) (state !! "tokens") in
  let last_update := default now (state !! "last_update") in
  let elapsed := now - last_update in
  let new_tokens := pymin (max_tokens self) (tokens + elapsed * rate self) in
  if Qgeb new_tokens 1 then
    Some (0, <["last_update" := now]> (<["tokens" := new_tokens - 1]> state))
  else if Qeq_bool (rate self) 0 then None
  else
    Some ((1 - new_tokens) / rate self,
          <["last_update" := now]> (<["tokens" := new_tokens]> state)).

Definition _acquire_lock (s : shared) : bool * shared :=
  match lock_outcomes s with
  | [] => (true, s)
  | true :: rest =>
      (true, {| state_file := state_file s; clock := clock s; lock_outcomes := rest |})
  | false :: rest =>
      (* gave up after its own 10 s timeout *)
      (false, {| state_file := state_file s; clock := clock s + 10; lock_outcomes := rest |})
  end.

Definition sleep (d : Q) (s : shared) : shared :=
  {| state_file := state_file s; clock := clock s + d; lock_outcomes := lock_outcomes s |}.

Definition _write_state (st : gmap string Q) (s : shared) : shared :=
  {| state_file := Some st; clock := clock s; lock_outcomes := lock_outcomes s |}.

(** [acquire]: the [while True] loop, bounded by [fuel] passes. *)
Fixpoint acquire (fuel : nat) (self : limiter) (s : shared) : outcome Q * shared :=
  match fuel with
  | O => (OutOfFuel, s)
  | S fuel' =>
      let '(locked, s1) := _acquire_lock s in
      if negb locked then acquire fuel' self (sleep 1 s1)
      else
        match acquire_pass self (clock s1) (state_file s1) with
        | None => (Raise ZeroDivisionError, s1)
        | Some (wait_time, st) =>
            let s2 := _write_state st s1 in
            if Qle_bool wait_time 0 then (Ok 0, s2)
            else acquire fuel' self (sleep (wait_time + (1 # 10)) s2)
        end
  end.

(** A sequence of [acquire] calls, each with its own fuel. *)
Fixpoint acquires (fuels : list nat) (self : limiter) (s : shared)
  : list (outcome Q) * shared :=
  match fuels with
  | [] => ([], s)
  | fuel :: rest =>
      let '(r, s1) := acquire fuel self s in
      let '(rs, s2) := acquires rest self s1 in
      (r :: rs, s2)
  end.

(** The bucket invariant on the shared file as [acquire] would read it at
    time [now]: the token count lies in [[0, capacity]] and the recorded
    refill time is not in the future. *)
Definition bucket_ok (self : limiter) (now : Q) (file : option (gmap string Q)) : Prop :=
  let state := _read_state self now file in
  let tokens := default (max_tokens self) (state !! "tokens") in
  let last_update := default now (state !! "last_update") in
  0 <= tokens /\ tokens <= max_tokens self /\ last_update <= now.

Definition shared_ok (self : limiter) (s : shared) : Prop :=
  bucket_ok self (clock s) (state_file s).

End RateLimiter.

(** ** Python values carried in messages and results

    JSON text is identified with the value it encodes: [json.dumps] followed
    by [json.loads] is the identity on these values. *)

#[local] Set Warnings "-register-all".

Inductive value :=
| VNone
| VBool (b : bool)
| VInt (n : Z)
| VStr (s : string)
| VList (l : list value)
| VDict (d : list (string * value)).

(** Truth value of an object as tested by [if x:]. *)
Definition truthy (v : value) : bool :=
  match v with
  | VNone => false
  | VBool b => b
  | VInt n => negb (n =? 0)%Z
  | VStr s => negb (String.eqb s "")
  | VList l => match l with [] => false | _ => true end
  | VDict d => match d with [] => false | _ => true end
  end.

Fixpoint assoc (k : string) (d : list (string * value)) : option value :=
  match d with
  | [] => None
  | (k', v) :: rest => if String.eqb k k' then Some v else assoc k rest
  end.

(** [d.get(k)] when [d] is a dict; [None] for a missing key or a non-dict. *)
Definition dict_get (v : value) (k : string) : option value :=
  match v with
  | VDict d => assoc k d
  | _ => None
  end.

Definition is_dict (v : value) : bool :=
  match v with VDict _ => true | _ => false end.

(** ** The messaging client ([class GlobalA2AClient]) and its world *)

Module World.

Import CircuitBreaker.

(** Observable effects of the client, oldest first: a delivery attempt over
    the transport ([client.send_message]) and an [asyncio.sleep]. *)
Inductive event :=
| Delivery (target : string) (message : value)
| Sleep (seconds : Q).

(** A row of table [handshakes], keyed by [cid]. *)
Record handshake_row := {
  hs_status : string;
  hs_result : value;         (* [VNone] is SQL NULL *)
}.

(** A row of table [delegation_logs]. *)
Record delegation_log := {
  correlation_id : string;
  source_agent : string;
  target_agent : string;
  request_text : string;
  incident_id : option string;
  created_at : Q;
  completed_at : option Q;
  duration_ms : option Z;
  tools_called : value;
  tool_results : value;
  prompt_tokens : Z;
  completion_tokens : Z;
  total_tokens : Z;
  final_response : value;    (* [VNone] is SQL NULL *)
  status : string;
}.

Record database := {
  handshakes : gmap string handshake_row;
  delegation_logs : list delegation_log;   (* in insertion order *)
}.

(** A resolution that the environment will post: at [res_time] (or at the
    first suspension point after it) [resolve_handshake(res_cid,
    res_result)] runs, in this process when [res_local], in another
    process otherwise. *)
Record resolution := {
  res_time : Q;
  res_local : bool;
  res_cid : string;
  res_result : value;
}.

Record world := {
  circuits : gmap string circuit;      (* _circuit_breaker._circuits *)
  now : Q;                             (* time.time() *)
  a2a_clients : gset string;           (* keys of _a2a_clients and _httpx_clients *)
  pending_handshakes : gset string;    (* keys of _pending_handshakes *)
  futures : gmap string (option value);
    (* the future created for each correlation id: [Some None] while
       pending, [Some (Some r)] once [set_result(r)] has run *)
  db : option database;                (* [None]: DATABASE_URL is not set *)
  agenda : list resolution;
  trace : list event;
}.

Definition set_circuits (x : gmap string circuit) (w : world) : world :=
  {| circuits := x; now := now w; a2a_clients := a2a_clients w;
     pending_handshakes := pending_handshakes w; futures := futures w;
     db := db w; agenda := agenda w; trace := trace w |}.
Definition set_now (x : Q) (w : world) : world :=
  {| circuits := circuits w; now := x; a2a_clients := a2a_clients w;
     pending_handshakes := pending_handshakes w; futures := futures w;
     db := db w; agenda := agenda w; trace := trace w |}.
Definition set_a2a_clients (x : gset string) (w : world) : world :=
  {| circuits := circuits w; now := now w; a2a_clients := x;
     pending_handshakes := pending_handshakes w; futures := futures w;
     db := db w; agenda := agenda w; trace := trace w |}.
Definition set_pending_handshakes (x : gset string) (w : world) : world :=
  {| circuits := circuits w; now := now w; a2a_clients := a2a_clients w;
     pending_handshakes := x; futures := futures w;
     db := db w; agenda := agenda w; trace := trace w |}.
Definition set_futures (x : gmap string (option value)) (w : world) : world :=
  {| circuits := circuits w; now := now w; a2a_clients := a2a_clients w;
     pending_handshakes := pending_handshakes w; futures := x;
     db := db w; agenda := agenda w; trace := trace w |}.
Definition set_db (x : option database) (w : world) : world :=
  {| circuits := circuits w; now := now w; a2a_clients := a2a_clients w;
     pending_handshakes := pending_handshakes w; futures := futures w;
     db := x; agenda := agenda w; trace := trace w |}.
Definition set_agenda (x : list resolution) (w : world) : world :=
  {| circuits := circuits w; now := now w; a2a_clients := a2a_clients w;
     pending_handshakes := pending_handshakes w; futures := futures w;
     db := db w; agenda := x; trace := trace w |}.
Definition set_trace (x : list event) (w : world) : world :=
  {| circuits := circuits w; now := now w; a2a_clients := a2a_clients w;
     pending_handshakes := pending_handshakes w; futures := futures w;
     db := db w; agenda := agenda w; trace := x |}.

Definition set_handshakes (x : gmap string handshake_row) (d : database) : database :=
  {| handshakes := x; delegation_logs := delegation_logs d |}.
Definition set_delegation_logs (x : list delegation_log) (d : database) : database :=
  {| handshakes := handshakes d; delegation_logs := x |}.

(** *** The state-and-exception monad of the client's coroutines *)

Definition M (A : Type) : Type := world -> outcome A * world.

#[export] Instance M_ret : MRet M := fun A a w => (Ok a, w).

#[export] Instance M_bind : MBind M := fun A B k m w =>
  match m w with
  | (Ok a, w1) => k a w1
  | (Raise e, w1) => (Raise e, w1)
  | (OutOfFuel, w1) => (OutOfFuel, w1)
  end.

Definition raise {A} (e : exn) : M A := fun w => (Raise e, w).

(** [try: body  except Exception as e: handler e]. The exceptions of the
    model are all subclasses of [Exception]. *)
Definition try_except {A} (body : M A) (handler : exn -> M A) : M A := fun w =>
  match body w with
  | (Raise e, w1) => handler e w1
  | r => r
  end.

Definition modify (f : world -> world) : M unit := fun w => (Ok tt, f w).
Definition get_now : M Q := fun w => (Ok (now w), w).

(** *** Handshake resolution, as run by the environment or by a caller *)

(** [_update_handshake_record]: [UPDATE handshakes SET status =
    'COMPLETED', result = $2 WHERE cid = $1]. *)
Definition _update_handshake_record (cid : string) (result : value) (w : world) : world :=
  match db w with
  | None => w
  | Some d =>
      let completed := {| hs_status := "COMPLETED"; hs_result := result |} in
      set_db (Some (set_handshakes (alter (fun _ => completed) cid (handshakes d)) d)) w
  end.

Definition future_done (cid : string) (w : world) : bool :=
  match futures w !! cid with
  | Some (Some _) => true
  | _ => false
  end.

(** [resolve_handshake], called in this process. *)
Definition resolve_handshake (cid : string) (result : value) (w : world) : world :=
  let w1 :=
    if decide (cid ∈ pending_handshakes w) then
      let w' := if future_done cid w then w
                else set_futures (<[cid := Some result]> (futures w)) w in
      set_pending_handshakes (pending_handshakes w' ∖ {[cid]}) w'
    else w in
  _update_handshake_record cid result w1.

Definition apply_resolution (r : resolution) (w : world) : world :=
  if res_local r then resolve_handshake (res_cid r) (res_result r) w
  else _update_handshake_record (res_cid r) (res_result r) w.

(** Runs every resolution of [ag] that is due at time [t], in agenda
    order, and returns the ones that are not. *)
Fixpoint run_due (t : Q) (ag : list resolution) (w : world) : world * list resolution :=
  match ag with
  | [] => (w, [])
  | r :: rest =>
      if Qle_bool (res_time r) t then run_due t rest (apply_resolution r w)
      else let '(w1, later) := run_due t rest w in (w1, r :: later)
  end.

(** A suspension point: the rest of the system catches up to [now]. *)
Definition sync (w : world) : world :=
  let '(w1, later) := run_due (now w) (agenda w) w in set_agenda later w1.

(** [await asyncio.sleep(d)] *)
Definition sleep (d : Q) : M unit := fun w =>
  (Ok tt, sync (set_now (now w + d) (set_trace (trace w ++ [Sleep d]) w))).

(** A process that has just started at time [t]. *)
Definition empty_database : database := {| handshakes := ∅; delegation_logs := [] |}.

Definition fresh (t : Q) (d : option database) : world :=
  {| circuits := ∅; now := t; a2a_clients := ∅; pending_handshakes := ∅;
     futures := ∅; db := d; agenda := []; trace := [] |}.

(** *** Relations between worlds used to state properties *)

(** The fields a resolution never touches. *)
Record same_process_state (w w' : world) : Prop := {
  same_circuits : circuits w' = circuits w;
  same_now : now w' = now w;
  same_clients : a2a_clients w' = a2a_clients w;
  same_trace : trace w' = trace w;
  same_agenda : agenda w' = agenda w;
  same_ledger : delegation_logs <$> db w' = delegation_logs <$> db w;
}.

(** No resolution for [cid] is ever posted. *)
Definition no_resolution_for (cid : string) (ag : list resolution) : Prop :=
  Forall (fun r => res_cid r <> cid) ag.

End World.

Module Client.

Import CircuitBreaker World.

(** [name.replace("_", "-")] *)
Fixpoint _normalize_name (name : string) : string :=
  match name with
  | EmptyString => EmptyString
  | String c rest =>
      String (if Ascii.eqb c "_" then "-"%char else c) (_normalize_name rest)
  end.

Definition client_key (source_agent target_agent : string) : string :=
  source_agent ++ "->" ++ target_agent.

(** How many delivery attempts to [target] the trace records. *)
Fixpoint deliveries_to (target : string) (tr : list event) : nat :=
  match tr with
  | [] => O
  | Delivery t _ :: rest =>
      if String.eqb t target then S (deliveries_to target rest)
      else deliveries_to target rest
  | Sleep _ :: rest => deliveries_to target rest
  end.

Definition slept (e : event) : bool :=
  match e with Sleep _ => true | Delivery _ _ => false end.

(** The seconds of sleep the trace records. *)
Fixpoint sleep_total (tr : list event) : Q :=
  match tr with
  | [] => 0
  | Sleep d :: rest => d + sleep_total rest
  | Delivery _ _ :: rest => sleep_total rest
  end.

(** The circuit breaker operations on the process-wide instance. *)
Definition allow_request (agent_name : string) : M bool := fun w =>
  let '(b, cs) := CircuitBreaker.allow_request (now w) agent_name (circuits w) in
  (Ok b, set_circuits cs w).

Definition record_success (agent_name : string) : M unit :=
  modify (fun w => set_circuits (CircuitBreaker.record_success agent_name (circuits w)) w).

Definition record_failure (agent_name : string) : M unit :=
  modify (fun w =>
    set_circuits (CircuitBreaker.record_failure (now w) agent_name (circuits w)) w).

(** [get_client]: creates and caches the client of the pair on first use.
    Resolution falls back to localhost, so it does not fail. *)
Definition get_client (source_agent target_agent : string) : M unit :=
  modify (fun w =>
    set_a2a_clients ({[client_key source_agent target_agent]} ∪ a2a_clients w) w).

(** The cache invalidation of the [except] branch of [send_message]. *)
Definition drop_client (source_agent target_agent : string) : M unit :=
  modify (fun w =>
    set_a2a_clients (a2a_clients w ∖ {[client_key source_agent target_agent]}) w).

(** *** Coroutines run side by side

    [asyncio.gather] makes a task of every coroutine it is given, and the
    event loop runs one task at a time, from one suspension point to the
    next. A [send_message] without health check is suspended in two
    places: where it awaits the reply to a delivery attempt, and where it
    sleeps before the next attempt. A task is such a call between two of
    these points, or after its end. *)
Inductive task :=
| Sending (attempt : Z) (reply : value + string)
    (* in [await client.send_message(...)] of attempt [attempt]: the request
       is out and [reply] is what the network has for it *)
| Backoff (attempt : Z) (wake : Q)
    (* in [await asyncio.sleep(backoff)] until [wake], before attempt
       [attempt] *)
| Returned (result : value)
| Raised (e : exn).

Definition finished (t : task) : bool :=
  match t with
  | Returned _ | Raised _ => true
  | Sending _ _ | Backoff _ _ => false
  end.

(** A task can go on when its reply is there (the network takes no time)
    or its sleep is over. *)
Definition runnable (now : Q) (t : task) : bool :=
  match t with
  | Sending _ _ => true
  | Backoff _ wake => Qle_bool wake now
  | Returned _ | Raised _ => false
  end.

(** The positions of the tasks that can go on at time [now]. *)
Definition ready (now : Q) (tasks : list (string * task)) : list nat :=
  List.filter
    (fun i => match tasks !! i with
              | Some (_, t) => runnable now t
              | None => false
              end)
    (seq 0 (length tasks)).

(** The earliest time at which a sleeping task wakes. *)
Fixpoint next_wake (tasks : list (string * task)) : option Q :=
  match tasks with
  | [] => None
  | (_, Backoff _ wake) :: rest =>
      match next_wake rest with
      | Some t => Some (pymin wake t)
      | None => Some wake
      end
  | _ :: rest => next_wake rest
  end.

(** [asyncio.sleep(d)] is entered: the time to wake up at. *)
Definition begin_sleep (d : Q) : M Q := fun w =>
  (Ok (now w + d)%Q, set_trace (trace w ++ [Sleep d]) w).

(** What [failover_call] makes of the end of its [send_message]. *)
Definition failover_result (agent_name : string) (t : task) : value :=
  match t with
  | Returned result => result
  | _ => VDict [("status", VStr "unreachable"); ("agent", VStr agent_name)]
  end.

Section Transport.

(** The network: what the [k]-th delivery attempt to a target yields,
    the remote response or the message of the transport exception. *)
Variable transport : string -> nat -> value + string.

(** The outcome of [check_agent_health]. *)
Variable healthy : string -> bool.

(** The identifier [uuid.uuid4()] yields when a handshake has none. *)
Variable uuid4 : string.

(** The order in which the event loop takes up the tasks that can go on:
    at its [n]-th choice among [k] of them it takes the one at position
    [schedule n mod k]. *)
Variable schedule : nat -> nat.

(** [await client.send_message(request=request)] *)
Definition deliver (target_agent : string) (message : value) : M value := fun w =>
  let k := deliveries_to target_agent (trace w) in
  let w1 := set_trace (trace w ++ [Delivery target_agent message]) w in
  match transport target_agent k with
  | inl response => (Ok response, w1)
  | inr msg => (Raise (Exception msg), w1)
  end.

(** The body of [for attempt in range(retries + 1)], [n] iterations
    remaining. Running off the end of the loop returns [None]. *)
Fixpoint send_attempts (n : nat) (attempt retries : Z)
    (source_agent target_agent : string) (message_text : value) : M value :=
  match n with
  | O => mret VNone
  | S n' =>
      try_except
        (get_client source_agent target_agent;;
         response ← deliver target_agent message_text;
         record_success target_agent;;
         mret (VDict [("status", VStr "delivered"); ("agent", VStr target_agent);
                      ("response", response)]))
        (fun e =>
           record_failure target_agent;;
           drop_client source_agent target_agent;;
           if (attempt =? retries)%Z then raise e
           else
             let backoff := Z.min 32 (2 ^ attempt) in
             sleep (inject_Z backoff);;
             send_attempts n' (attempt + 1)%Z retries source_agent target_agent
               message_text)
  end.

(** [send_message]. The correlation and context ids only label the
    request and are left out. *)
Definition send_message (source_agent target_agent : string) (message_text : value)
    (retries : Z) (check_health : bool) : M value :=
  let target_agent := _normalize_name target_agent in
  let source_agent := _normalize_name source_agent in
  allowed ← allow_request target_agent;
  if negb allowed then
    mret (VDict [("status", VStr "circuit_open"); ("agent", VStr target_agent);
                 ("error", VStr "Circuit breaker is open")])
  else if check_health && negb (healthy target_agent) then
    record_failure target_agent;;
    mret (VDict [("status", VStr "unhealthy"); ("agent", VStr target_agent)])
  else
    send_attempts (Z.to_nat (retries + 1)) 0 retries source_agent target_agent
      message_text.

(** [failover_call], awaited by itself. *)
Definition failover_call (source_agent agent_name : string) (message_text : value)
  : M value :=
  try_except
    (send_message source_agent agent_name message_text 1 false)
    (fun _ => mret (VDict [("status", VStr "unreachable"); ("agent", VStr agent_name)])).

(** *** [asyncio.gather] over the [failover_call]s of a broadcast *)

(** The request of a delivery attempt goes out, and its reply is
    awaited. *)
Definition request (target_agent : string) (message_text : value) (attempt : Z)
  : M task := fun w =>
  (Ok (Sending attempt (transport target_agent (deliveries_to target_agent (trace w)))),
   set_trace (trace w ++ [Delivery target_agent message_text]) w).

(** An attempt of the retry loop, up to its suspension. *)
Definition issue (source_agent target_agent : string) (message_text : value)
    (attempt : Z) : M task :=
  get_client source_agent target_agent;;
  request target_agent message_text attempt.

(** A [send_message] without health check, from its start to its first
    suspension: the circuit gate and the request of the first attempt. *)
Definition start (source_agent target_agent : string) (message_text : value) : M task :=
  let target_agent := _normalize_name target_agent in
  let source_agent := _normalize_name source_agent in
  allowed ← allow_request target_agent;
  if negb allowed then
    mret (Returned (VDict [("status", VStr "circuit_open"); ("agent", VStr target_agent);
                           ("error", VStr "Circuit breaker is open")]))
  else issue source_agent target_agent message_text 0.

(** The same call taken up again where it was suspended, up to its next
    suspension or its end. *)
Definition resume (source_agent target_agent : string) (message_text : value)
    (retries : Z) (t : task) : M task :=
  let target_agent := _normalize_name target_agent in
  let source_agent := _normalize_name source_agent in
  match t with
  | Sending attempt (inl response) =>
      record_success target_agent;;
      mret (Returned (VDict [("status", VStr "delivered"); ("agent", VStr target_agent);
                             ("response", response)]))
  | Sending attempt (inr msg) =>
      record_failure target_agent;;
      drop_client source_agent target_agent;;
      if (attempt =? retries)%Z then mret (Raised (Exception msg))
      else
        let backoff := Z.min 32 (2 ^ attempt) in
        wake ← begin_sleep (inject_Z backoff);
        mret (Backoff (attempt + 1)%Z wake)
  | Backoff attempt _ => issue source_agent target_agent message_text attempt
  | Returned _ | Raised _ => mret t
  end.

(** The coroutines are started in the order of the arguments: each runs
    up to its first suspension before the next one starts. *)
Fixpoint start_all (source_agent : string) (agents : list string) (message_text : value)
  : M (list (string * task)) :=
  match agents with
  | [] => mret []
  | agent :: rest =>
      t ← start source_agent agent message_text;
      ts ← start_all source_agent rest message_text;
      mret ((agent, t) :: ts)
  end.

(** The event loop, until every task has ended. It takes up one of the
    tasks that can go on, whichever the schedule says; when none can, time
    passes until the first sleeper wakes. [n] bounds the number of times a
    task is taken up. *)
Fixpoint run_tasks (n step : nat) (source_agent : string) (message_text : value)
    (retries : Z) (tasks : list (string * task)) : M (list (string * task)) := fun w =>
  if forallb (fun p => finished p.2) tasks then (Ok tasks, w)
  else
    match n with
    | O => (OutOfFuel, w)
    | S n' =>
        let w1 :=
          match ready (now w) tasks, next_wake tasks with
          | [], Some t => sync (set_now t w)
          | _, _ => w
          end in
        let candidates := ready (now w1) tasks in
        match candidates with
        | [] => (OutOfFuel, w1)
        | first :: _ =>
            let i := nth (schedule step mod length candidates) candidates first in
            match tasks !! i with
            | Some (agent, t) =>
                (t' ← resume source_agent agent message_text retries t;
                 run_tasks n' (S step) source_agent message_text retries
                   (<[i := (agent, t')]> tasks)) w1
            | None => (OutOfFuel, w1)
            end
        end
    end.

(** [asyncio.gather], awaited, over [failover_call(source_agent, agent,
    message_text)] for the agents given: the results of the calls, in the
    order of the agents. Every call is a [send_message] with [retries=1],
    which is taken up three times at most. *)
Definition gather (source_agent : string) (agents : list string) (message_text : value)
  : M (list value) :=
  tasks ← start_all source_agent agents message_text;
  tasks ← run_tasks (3 * length agents) 0 source_agent message_text 1 tasks;
  mret ((fun p => failover_result p.1 p.2) <$> tasks).

(** [{k: v for k, v in pairs}]: a later pair replaces an earlier one. *)
Definition py_dict (pairs : list (string * value)) : gmap string value :=
  foldl (fun m kv => <[kv.1 := kv.2]> m) ∅ pairs.

Definition broadcast (source_agent : string) (agents : list string)
    (message_text : value) : M (gmap string value) :=
  results ← gather source_agent agents message_text;
  mret (py_dict (zip agents results)).

(** *** Handshake coordinator *)

(** [_create_handshake_record]: [INSERT ... ON CONFLICT (cid) DO UPDATE
    SET status = 'PENDING', result = NULL]. *)
Definition _create_handshake_record (cid : string) : M bool := fun w0 =>
  let w := sync w0 in
  match db w with
  | None => (Ok false, w)
  | Some d =>
      let pending := {| hs_status := "PENDING"; hs_result := VNone |} in
      (Ok true, set_db (Some (set_handshakes (<[cid := pending]> (handshakes d)) d)) w)
  end.

(** [DELETE FROM handshakes WHERE cid = $1] *)
Definition delete_handshake (cid : string) (w : world) : world :=
  match db w with
  | None => w
  | Some d => set_db (Some (set_handshakes (delete cid (handshakes d)) d)) w
  end.

(** [SELECT status, result FROM handshakes WHERE cid = $1] *)
Definition fetch_handshake (cid : string) (w : world) : option handshake_row :=
  match db w with
  | None => None
  | Some d => handshakes d !! cid
  end.

(** The [while (time.time() - start_time) < timeout] loop of
    [_poll_handshake_result] and the cleanup after it. [None] is
    [VNone]. *)
Fixpoint _poll_loop (fuel : nat) (cid : string) (timeout : Z) (start_time : Q)
  : M value := fun w =>
  if Qltb (now w - start_time) (inject_Z timeout) then
    match fuel with
    | O => (OutOfFuel, w)
    | S fuel' =>
        let w1 := sync w in
        let again := (sleep 1;; _poll_loop fuel' cid timeout start_time) in
        match fetch_handshake cid w1 with
        | Some row =>
            if String.eqb (hs_status row) "COMPLETED"
            then (Ok (hs_result row), delete_handshake cid w1)
            else again w1
        | None => again w1
        end
    end
  else (Ok VNone, delete_handshake cid (sync w)).

Definition _poll_handshake_result (fuel : nat) (cid : string) (timeout : Z)
  : M value := fun w =>
  match db w with
  | None => (Ok VNone, w)
  | Some _ => _poll_loop fuel cid timeout (now w) w
  end.

(** [loop.create_future()] registered under the correlation id. *)
Definition register_future (cid : string) : M unit :=
  modify (fun w =>
    set_pending_handshakes ({[cid]} ∪ pending_handshakes w)
      (set_futures (<[cid := None]> (futures w)) w)).

(** [self._pending_handshakes.pop(correlation_id, None)] *)
Definition pop_pending (cid : string) : M unit :=
  modify (fun w => set_pending_handshakes (pending_handshakes w ∖ {[cid]}) w).

(** The earliest time at which one of the resolutions is posted. *)
Fixpoint earliest (rs : list resolution) : option Q :=
  match rs with
  | [] => None
  | r :: rest =>
      match earliest rest with
      | Some t => Some (pymin (res_time r) t)
      | None => Some (res_time r)
      end
  end.

(** The resolutions that complete the future of [cid] if they run before
    [deadline]: the calls of [resolve_handshake] in this process. *)
Definition wakes (cid : string) (deadline : Q) (r : resolution) : bool :=
  res_local r && String.eqb (res_cid r) cid && Qltb (res_time r) deadline.

(** [await asyncio.wait_for(future, timeout=timeout)] on the future of
    [cid]: returns as soon as the future is done, raises
    [asyncio.TimeoutError] at the deadline otherwise. *)
Definition wait_for (cid : string) (timeout : Q) : M value := fun w0 =>
  let w := sync w0 in
  match futures w !! cid with
  | Some (Some r) => (Ok r, w)
  | _ =>
      let deadline := (now w + (if Qltb timeout 0 then 0 else timeout))%Q in
      let expire w' := (Raise TimeoutError, sync (set_now deadline w')) in
      match earliest (filter (fun r => wakes cid deadline r = true) (agenda w)) with
      | Some t =>
          let w1 := sync (set_now t w) in
          match futures w1 !! cid with
          | Some (Some r) => (Ok r, w1)
          | _ => expire w1
          end
      | None => expire w
      end
  end.

(** [if not correlation_id: correlation_id = str(uuid.uuid4())] *)
Definition new_if_absent (correlation_id : option string) : string :=
  match correlation_id with
  | Some cid => if String.eqb cid "" then uuid4 else cid
  | None => uuid4
  end.

(** The envelope of a handshake request. *)
Definition handshake_envelope (source_agent : string) (payload : value)
    (correlation_id : string) : value :=
  VDict [("type", VStr "HANDSHAKE_REQUEST"); ("source", VStr source_agent);
         ("payload", payload); ("correlation_id", VStr correlation_id)].

(** The [try] block of [send_request_with_handshake] with its two
    [except] clauses: send the request, wait for the result on the durable
    record or on the future, and account for the outcome. *)
Definition handshake_attempt (fuel : nat) (source_agent target_agent : string)
    (payload : value) (correlation_id : string) (timeout : Z) (db_available : bool)
  : M value :=
  try_except
    (let message_content := handshake_envelope source_agent payload correlation_id in
     send_message source_agent target_agent message_content 3 false;;
     if db_available then
       result ← _poll_handshake_result fuel correlation_id timeout;
       if truthy result then
         record_success target_agent;;
         pop_pending correlation_id;;
         mret result
       else raise TimeoutError
     else
       result ← wait_for correlation_id (inject_Z timeout);
       record_success target_agent;;
       mret result)
    (fun e =>
       match e with
       | TimeoutError =>
           record_failure target_agent;;
           pop_pending correlation_id;;
           raise (Exception ("Agent " ++ target_agent ++ " did not respond within "
                             ++ pretty timeout ++ "s"))
       | _ =>
           record_failure target_agent;;
           pop_pending correlation_id;;
           raise e
       end).

(** [send_request_with_handshake] *)
Definition send_request_with_handshake (fuel : nat) (source_agent target_agent : string)
    (payload : value) (correlation_id : option string) (timeout : Z) : M value :=
  let correlation_id := new_if_absent correlation_id in
  let target_agent := _normalize_name target_agent in
  allowed ← allow_request target_agent;
  if negb allowed then
    raise (Exception ("Circuit breaker OPEN for " ++ target_agent))
  else
    db_available ← _create_handshake_record correlation_id;
    register_future correlation_id;;
    handshake_attempt fuel source_agent target_agent payload correlation_id timeout
      db_available.

End Transport.

End Client.

(** ** Delegation tool and ledger ([create_delegation_tool]) *)

Module Delegation.

Import World Client.

(** [needle in hay] for strings. *)
Fixpoint contains (needle hay : string) : bool :=
  String.prefix needle hay ||
  match hay with
  | String _ rest => contains needle rest
  | EmptyString => false
  end.

(** [s.lower()] on ASCII. *)
Fixpoint lower (s : string) : string :=
  match s with
  | EmptyString => EmptyString
  | String c rest =>
      String (if IncidentId.is_upper c
              then ascii_of_nat (nat_of_ascii c + 32) else c) (lower rest)
  end.

(** [str(e)] *)
Definition exn_str (e : exn) : string :=
  match e with
  | TimeoutError => ""
  | ZeroDivisionError => "float division by zero"
  | Exception msg => msg
  end.

(** [int(x)] of a float: truncation towards zero. *)
Definition py_int (q : Q) : Z := if Qltb q 0 then Qceiling q else Qfloor q.

(** [x or []] *)
Definition or_empty_list (v : value) : value := if truthy v then v else VList [].

(** [type(x).__name__] *)
Definition type_name (v : value) : string :=
  match v with
  | VNone => "NoneType"
  | VBool _ => "bool"
  | VInt _ => "int"
  | VStr _ => "str"
  | VList _ => "list"
  | VDict _ => "dict"
  end.

(** The integer a Python [int] stands for; [bool] is a subclass of
    [int]. *)
Definition as_int (v : value) : option Z :=
  match v with
  | VInt n => Some n
  | VBool b => Some (if b then 1 else 0)%Z
  | _ => None
  end.

(** The character that delimits the type name in some messages. *)
Definition dquote : string := String (ascii_of_nat 34) EmptyString.

(** [a + b]: the sum of two integers, the concatenation of two strings or
    of two lists, and for any other pair of operands the message of the
    [TypeError] that Python raises. *)
Definition py_add (a b : value) : value + string :=
  match as_int a, as_int b with
  | Some x, Some y => inl (VInt (x + y))
  | _, _ =>
      match a, b with
      | VStr x, VStr y => inl (VStr (x ++ y))
      | VList x, VList y => inl (VList (x ++ y))
      | VStr _, _ =>
          inr ("can only concatenate str (not " ++ dquote ++ type_name b ++ dquote
               ++ ") to str")
      | VList _, _ =>
          inr ("can only concatenate list (not " ++ dquote ++ type_name b ++ dquote
               ++ ") to list")
      | _, _ =>
          inr ("unsupported operand type(s) for +: '" ++ type_name a ++ "' and '"
               ++ type_name b ++ "'")
      end
  end.

(** What the driver takes for a TEXT column: a [str], or [None] for
    NULL. *)
Definition is_text (v : value) : bool :=
  match v with
  | VStr _ | VNone => true
  | _ => false
  end.

(** Who can act as backup for whom. *)
Definition failover_agents : gmap string string :=
  list_to_map [
    ("medical-agent", "police-chief-agent");
    ("civic-alert-agent", "police-chief-agent");
    ("fire-chief-agent", "police-chief-agent");
    ("utility-agent", "fire-chief-agent");
    ("police-chief-agent", "fire-chief-agent")
  ].

(** The agent reached from [a] by following the mapping [n] times. *)
Fixpoint failover_chain (n : nat) (a : string) : option string :=
  match n with
  | O => Some a
  | S n' =>
      match failover_agents !! a with
      | Some b => failover_chain n' b
      | None => None
      end
  end.

(** No agent is its own backup, however many steps are followed. *)
Definition failover_acyclic : Prop :=
  forall (a : string) (n : nat), (0 < n)%nat -> failover_chain n a <> Some a.

(** *** The ledger: table [delegation_logs] *)

(** [create_delegation_log]: the INSERT with the column defaults of the
    table (columns [id] and [started_at] are not modelled). *)
Definition create_delegation_log (cid source_agent target_agent request_text : string)
    (incident_id : option string) : M bool := fun w0 =>
  let w := sync w0 in
  match db w with
  | None => (Ok false, w)
  | Some d =>
      let row := {|
        correlation_id := cid; source_agent := source_agent;
        target_agent := target_agent; request_text := request_text;
        incident_id := incident_id; created_at := now w;
        completed_at := None; duration_ms := None;
        tools_called := VList []; tool_results := VList [];
        prompt_tokens := 0; completion_tokens := 0; total_tokens := 0;
        final_response := VNone; status := "PENDING" |} in
      (Ok true, set_db (Some (set_delegation_logs (delegation_logs d ++ [row]) d)) w)
  end.

(** The UPDATE of [update_delegation_log], once its parameters are
    encoded: every row with that correlation id is overwritten. *)
Definition update_rows (cid : string) (tools_called tool_results : value)
    (final_response : value) (duration_ms : option Z)
    (prompt_tokens completion_tokens total_tokens : Z) (status : string) (now : Q)
    (rows : list delegation_log) : list delegation_log :=
  let upd (r : delegation_log) :=
    if String.eqb (correlation_id r) cid then {|
      correlation_id := correlation_id r; source_agent := World.source_agent r;
      target_agent := World.target_agent r; request_text := request_text r;
      incident_id := incident_id r; created_at := created_at r;
      completed_at := Some now; duration_ms := duration_ms;
      tools_called := or_empty_list tools_called;
      tool_results := or_empty_list tool_results;
      prompt_tokens := prompt_tokens; completion_tokens := completion_tokens;
      total_tokens := total_tokens;
      final_response := final_response; status := status |}
    else r in
  map upd rows.

(** [update_delegation_log]. Everything after the pool is obtained runs
    inside [try ... except Exception: return False]: the [TypeError] of
    [prompt_tokens + completion_tokens], and the error of the driver when a
    parameter does not fit its column (an INTEGER column takes an [int], a
    TEXT column a [str] or [None]); in either case no row is changed. *)
Definition update_delegation_log (cid : string) (tools_called tool_results : value)
    (final_response : value) (duration_ms : option Z)
    (prompt_tokens completion_tokens : value) (status : string) : M bool := fun w0 =>
  let w := sync w0 in
  match db w with
  | None => (Ok false, w)
  | Some d =>
      match py_add prompt_tokens completion_tokens with
      | inr _ => (Ok false, w)
      | inl total_tokens =>
          match as_int prompt_tokens, as_int completion_tokens, as_int total_tokens with
          | Some p, Some c, Some total =>
              if is_text final_response then
                (Ok true,
                 set_db (Some (set_delegation_logs
                                 (update_rows cid tools_called tool_results final_response
                                    duration_ms p c total status (now w)
                                    (delegation_logs d)) d)) w)
              else (Ok false, w)
          | _, _, _ => (Ok false, w)
          end
      end
  end.

(** The WHERE clause of [check_delegation_exists], evaluated at [now]. *)
Definition dedup_match (incident_id target_agent : string) (max_age_seconds : Z)
    (now : Q) (r : delegation_log) : bool :=
  match World.incident_id r with
  | Some i => String.eqb i incident_id
  | None => false
  end
  && String.eqb (World.target_agent r) target_agent
  && Qgtb (created_at r) (now - inject_Z max_age_seconds)
  && (String.eqb (status r) "PENDING" || String.eqb (status r) "COMPLETED").

(** [ORDER BY created_at DESC LIMIT 1]. SQL leaves the order of rows
    created at the same instant open; here the one inserted first wins. *)
Fixpoint latest (rows : list delegation_log) : option delegation_log :=
  match rows with
  | [] => None
  | r :: rest =>
      match latest rest with
      | Some r' => if Qltb (created_at r) (created_at r') then Some r' else Some r
      | None => Some r
      end
  end.

Definition check_delegation_exists (incident_id target_agent : string)
    (max_age_seconds : Z) : M (option delegation_log) := fun w0 =>
  if String.eqb incident_id "" then (Ok None, w0)
  else
    let w := sync w0 in
    match db w with
    | None => (Ok None, w)
    | Some d =>
        let target_agent := _normalize_name target_agent in
        (Ok (latest (List.filter
                       (dedup_match incident_id target_agent max_age_seconds (now w))
                       (delegation_logs d))), w)
    end.

(** *** [delegate_to_agent], the tool built by [create_delegation_tool] *)

Section Tool.

Variable transport : string -> nat -> value + string.
Variable healthy : string -> bool.
Variable uuid4 : string.

(** [str(x)] of a response object that is not a string. *)
Variable py_str : value -> string.

(** [f"{x}"] *)
Definition fmt (v : value) : string :=
  match v with
  | VStr s => s
  | _ => py_str v
  end.

Definition is_connection_failure (error_str : string) : bool :=
  contains "503" error_str
  || contains "connection" (lower error_str)
  || contains "timeout" (lower error_str).

Definition delegation_payload (source_agent request : string) : list (string * value) :=
  [("type", VStr "DELEGATION_REQUEST"); ("request", VStr request);
   ("source", VStr source_agent); ("requires_response", VBool true)].

(** [int((time.time() - start_time) * 1000)] *)
Definition elapsed_ms (start_time : Q) : M Z := fun w =>
  (Ok (py_int ((now w - start_time) * 1000)), w).

(** The [try] block: the handshake with the target, the telemetry read
    from its response, the COMPLETED update and the result. The token
    counts are whatever the response holds under their keys; building the
    result adds them up, which raises [TypeError] when they cannot be
    added. *)
Definition delegate_primary (fuel : nat) (source_agent target_agent cid request : string)
    (start_time : Q) : M value :=
  response ← send_request_with_handshake transport healthy uuid4 fuel
               source_agent target_agent
               (VDict (delegation_payload source_agent request)) (Some cid) 60;
  duration_ms ← elapsed_ms start_time;
  let tools_called :=
    if is_dict response then default (VList []) (dict_get response "tools_called")
    else VList [] in
  let tool_results :=
    if is_dict response then default (VList []) (dict_get response "tool_results")
    else VList [] in
  let prompt_tokens :=
    if is_dict response then default (VInt 0) (dict_get response "prompt_tokens")
    else VInt 0 in
  let completion_tokens :=
    if is_dict response then default (VInt 0) (dict_get response "completion_tokens")
    else VInt 0 in
  let final_response :=
    if is_dict response then
      default (default (VStr (py_str response)) (dict_get response "result"))
              (dict_get response "message")
    else VStr (fmt response) in
  update_delegation_log cid tools_called tool_results final_response
    (Some duration_ms) prompt_tokens completion_tokens "COMPLETED";;
  match py_add prompt_tokens completion_tokens with
  | inl total_tokens =>
      mret (VDict [
        ("status", VStr "delegated");
        ("delegated_to", VStr target_agent);
        ("response", final_response);
        ("telemetry", VDict [
           ("duration_ms", VInt duration_ms);
           ("tools_called", tools_called);
           ("tokens", VDict [("prompt", prompt_tokens);
                             ("completion", completion_tokens);
                             ("total", total_tokens)])])])
  | inr msg => raise (Exception msg)   (* the [TypeError] of the sum *)
  end.

(** [except asyncio.TimeoutError] *)
Definition delegate_timed_out (target_agent cid : string) (start_time : Q) : M value :=
  duration_ms ← elapsed_ms start_time;
  update_delegation_log cid VNone VNone VNone (Some duration_ms) (VInt 0) (VInt 0)
    "TIMEOUT";;
  mret (VDict [
    ("status", VStr "timeout");
    ("delegated_to", VStr target_agent);
    ("error", VStr (target_agent ++ " did not respond within timeout."));
    ("telemetry", VDict [("duration_ms", VInt duration_ms)])]).

(** The [try] block of the failover: one handshake with the backup, the
    FAILOVER_SUCCESS update and the result. *)
Definition delegate_failover (fuel : nat)
    (source_agent target_agent failover_target cid request : string)
    (start_time : Q) : M value :=
  failover_response ← send_request_with_handshake transport healthy uuid4 fuel
    source_agent failover_target
    (VDict [("type", VStr "DELEGATION_REQUEST");
            ("request", VStr ("[FAILOVER from " ++ target_agent ++ "] " ++ request));
            ("source", VStr source_agent);
            ("requires_response", VBool true);
            ("is_failover", VBool true);
            ("original_target", VStr target_agent)])
    (Some cid) 60;
  failover_duration_ms ← elapsed_ms start_time;
  let final_response :=
    if is_dict failover_response then
      default (VStr (py_str failover_response)) (dict_get failover_response "message")
    else VStr (fmt failover_response) in
  update_delegation_log cid VNone VNone
    (VStr ("[FAILOVER to " ++ failover_target ++ "] " ++ fmt final_response))
    (Some failover_duration_ms) (VInt 0) (VInt 0) "FAILOVER_SUCCESS";;
  mret (VDict [
    ("status", VStr "failover");
    ("original_target", VStr target_agent);
    ("handled_by", VStr failover_target);
    ("response", final_response);
    ("message", VStr (target_agent ++ " was unreachable. " ++ failover_target
                      ++ " handled the request."));
    ("telemetry", VDict [("duration_ms", VInt failover_duration_ms)])]).

(** The end of [except Exception as e]: the FAILED update and result. *)
Definition delegate_failed (target_agent cid : string) (e : exn) (duration_ms : Z)
  : M value :=
  update_delegation_log cid VNone VNone (VStr (exn_str e)) (Some duration_ms)
    (VInt 0) (VInt 0) "FAILED";;
  mret (VDict [
    ("status", VStr "failed");
    ("delegated_to", VStr target_agent);
    ("error", VStr (exn_str e));
    ("telemetry", VDict [("duration_ms", VInt duration_ms)])]).

(** [except Exception as e]: failover when the error looks like a
    connection failure and a backup is configured, else failure. *)
Definition delegate_on_error (fuel : nat) (source_agent target_agent cid request : string)
    (start_time : Q) (e : exn) : M value :=
  duration_ms ← elapsed_ms start_time;
  let error_str := exn_str e in
  match failover_agents !! target_agent with
  | Some failover_target =>
      if is_connection_failure error_str && negb (String.eqb failover_target "") then
        try_except
          (delegate_failover fuel source_agent target_agent failover_target cid request
             start_time)
          (fun failover_error => delegate_failed target_agent cid e duration_ms)
      else delegate_failed target_agent cid e duration_ms
  | None => delegate_failed target_agent cid e duration_ms
  end.

(** Everything after the deduplication check. *)
Definition delegate_new (fuel : nat) (source_agent target_agent cid request : string)
    (incident_id : option string) (start_time : Q) : M value :=
  create_delegation_log cid source_agent target_agent request incident_id;;
  try_except
    (delegate_primary fuel source_agent target_agent cid request start_time)
    (fun e =>
       match e with
       | TimeoutError => delegate_timed_out target_agent cid start_time
       | _ => delegate_on_error fuel source_agent target_agent cid request start_time e
       end).

(** [delegate_to_agent(request)] of the tool for the pair
    [(source_agent, target_agent)]; [cid] is what [get_cid()] returns. *)
Definition delegate_to_agent (fuel : nat) (source_agent target_agent cid request : string)
  : M value :=
  start_time ← get_now;
  let incident_id := IncidentId.extract_incident_id request in
  let proceed :=
    delegate_new fuel source_agent target_agent cid request incident_id start_time in
  match incident_id with
  | Some iid =>
      if String.eqb iid "" then proceed
      else
        existing ← check_delegation_exists iid target_agent 300;
        match existing with
        | Some row =>
            mret (VDict [
              ("status", VStr "already_handled");
              ("delegated_to", VStr target_agent);
              ("handled_by", VStr (World.source_agent row));
              ("incident_id", VStr iid);
              ("message", VStr (target_agent ++ " was already contacted for incident "
                                ++ iid ++ " by " ++ World.source_agent row
                                ++ ". No duplicate action needed."))])
        | None => proceed
        end
  | None => proceed
  end.

End Tool.

End Delegation.

(** ** Notions used to state properties of coroutines *)

Module Spec.

Import World Client.

(** At most [n] delivery attempts to [T] and none to anyone else. *)
Definition only (T : string) (n : nat) : string -> nat :=
  fun t => if String.eqb t T then n else O.

Definition nothing : string -> nat := fun _ => O.

Definition plus (b1 b2 : string -> nat) : string -> nat := fun t => (b1 t + b2 t)%nat.

(** Whatever the world, [m] only appends to the trace, and the delivery
    attempts it appends stay within the bound [b] for every target. *)
Definition footprint {A} (m : M A) (b : string -> nat) : Prop :=
  forall w, exists evs,
    trace (m w).2 = (trace w ++ evs)%list /\ forall t, (deliveries_to t evs <= b t)%nat.

(** [m] never runs out of fuel. *)
Definition terminates {A} (m : M A) : Prop := forall w, (m w).1 <> OutOfFuel.

(** [m] always returns a value. *)
Definition total {A} (m : M A) : Prop := forall w, exists a, (m w).1 = Ok a.

(** Whenever [m] returns, [Q] holds of the value and the final world. *)
Definition ensures {A} (m : M A) (Q : A -> world -> Prop) : Prop :=
  forall w, match m w with
            | (Ok a, w') => Q a w'
            | _ => True
            end.

(** What a call concerning target [T] can see of the world: the circuit
    of [T], the clock, and how many delivery attempts to [T] were made. *)
Definition view (T : string) (w : world)
  : option CircuitBreaker.circuit * Q * nat :=
  (circuits w !! T, now w, deliveries_to T (trace w)).

(** The outcome of [m] and what it leaves of the view of [T] depend on the
    view of [T] only. *)
Definition local_to {A} (T : string) (m : M A) : Prop :=
  forall w1 w2, view T w1 = view T w2 ->
                (m w1).1 = (m w2).1 /\ view T (m w1).2 = view T (m w2).2.

(** [m] leaves the circuit of every target other than [T] alone and does
    not turn the clock back. *)
Definition frames {A} (T : string) (m : M A) : Prop :=
  forall w, (now w <= now (m w).2)%Q
            /\ forall T', T' <> T -> circuits (m w).2 !! T' = circuits w !! T'.


(** What the handshake waiting on [cid] can observe: its durable record,
    whether its waiter is registered, and the state of its future. *)
Definition handshake_view (cid : string) (w : world)
  : option handshake_row * bool * option (option value) :=
  (fetch_handshake cid w, bool_decide (cid ∈ pending_handshakes w), futures w !! cid).

(** The durable record of [cid], if any, is not COMPLETED. *)
Definition not_completed (cid : string) (w : world) : Prop :=
  forall row, fetch_handshake cid w = Some row -> hs_status row <> "COMPLETED".

(** As long as nobody resolves [cid], [m] changes nothing the handshake of
    [cid] can observe, and leaves a durable store where there was one. *)
Definition quiet {A} (cid : string) (m : M A) : Prop :=
  forall w, no_resolution_for cid (agenda w) ->
            handshake_view cid (m w).2 = handshake_view cid w
            /\ no_resolution_for cid (agenda (m w).2)
            /\ (is_Some (db (m w).2) <-> is_Some (db w)).

(** [m] only appends to the trace, and the time it takes is the time it
    sleeps. *)
Definition timed {A} (m : M A) : Prop :=
  forall w, exists evs,
    trace (m w).2 = (trace w ++ evs)%list /\ (now (m w).2 == now w + sleep_total evs)%Q.





(** One of the [n] next delivery attempts to [T] gets through. *)
Definition reachable_within (transport : string -> nat -> value + string)
    (T : string) (n : nat) (w : world) : Prop :=
  exists i response, (i < n)%nat /\ transport T (deliveries_to T (trace w) + i)%nat = inl response.

(** Every ledger entry of the correlation id has the given status. *)
Definition ledger_status (cid st : string) (w : world) : Prop :=
  forall d row, db w = Some d -> row ∈ delegation_logs d ->
                correlation_id row = cid -> status row = st.

(** What a result with status [failed] stands for: the ledger says FAILED. *)
Definition failed_means_recorded (cid : string) (result : value) (w : world) : Prop :=
  dict_get result "status" = Some (VStr "failed") -> ledger_status cid "FAILED" w.

(** The rows of the ledger, when there is one. *)
Definition ledger (w : world) : option (list delegation_log) :=
  delegation_logs <$> db w.

(** The ledger has an entry for the correlation id. *)
Definition has_entry (cid : string) (w : world) : Prop :=
  exists rows row, ledger w = Some rows /\ row ∈ rows /\ correlation_id row = cid.

(** The delegation is on record with the given status: the ledger has an
    entry for its correlation id, and every such entry has that status. *)
Definition recorded (cid st : string) (w : world) : Prop :=
  has_entry cid w /\ ledger_status cid st w.

(** [m] keeps [P] true of the world, however it ends. *)
Definition preserves {A} (P : world -> Prop) (m : M A) : Prop :=
  forall w, P w -> P (m w).2.

(** [m] leaves the rows of the ledger as they are. *)
Definition keeps_ledger {A} (m : M A) : Prop :=
  forall w, ledger (m w).2 = ledger w.

(** The delivery attempts a failover may make: four to the configured
    backup of [T], if there is one. *)
Definition backup_bound (T : string) : string -> nat :=
  match Delegation.failover_agents !! T with
  | Some F => only (_normalize_name F) 4
  | None => nothing
  end.

End Spec.

(** ** Notions used to follow the tasks of a broadcast *)

Module Tasks.

Import World Client.

(** The attempts that a call with one retry makes. *)
Definition well_formed (t : task) : Prop :=
  match t with
  | Sending attempt _ => attempt = 0%Z \/ attempt = 1%Z
  | Backoff attempt _ => attempt = 1%Z
  | Returned _ | Raised _ => True
  end.

(** How many more times a task of such a call is taken up. *)
Definition turns (t : task) : nat :=
  match t with
  | Sending attempt _ => if (attempt =? 0)%Z then 3 else 1
  | Backoff _ _ => 2
  | Returned _ | Raised _ => 0
  end.

(** How many delivery attempts it may still make. *)
Definition to_come (t : task) : nat :=
  match t with
  | Sending attempt _ => if (attempt =? 0)%Z then 1 else 0
  | Backoff _ _ => 1
  | Returned _ | Raised _ => 0
  end.

Definition turns_of (tasks : list (string * task)) : nat :=
  sum_list_with (fun p => turns p.2) tasks.

(** The delivery attempts to [T] that the tasks may still make. *)
Definition pending_to (T : string) (tasks : list (string * task)) : nat :=
  sum_list_with
    (fun p => if String.eqb (_normalize_name p.1) T then to_come p.2 else O) tasks.

(** How many times the target [T] is listed. *)
Definition listed (T : string) (agents : list string) : nat :=
  length (filter (fun a => _normalize_name a = T) agents).

Definition circuit_open (T : string) : value :=
  VDict [("status", VStr "circuit_open"); ("agent", VStr T);
         ("error", VStr "Circuit breaker is open")].

Definition delivered (T : string) (response : value) : value :=
  VDict [("status", VStr "delivered"); ("agent", VStr T); ("response", response)].

Definition unreachable (agent_name : string) : value :=
  VDict [("status", VStr "unreachable"); ("agent", VStr agent_name)].

(** What the network and the circuit of its target in the world [w] have
    for a [failover_call] to [agent_name]: refused by the breaker,
    delivered at the first attempt or at the one retry, or unreachable. *)
Definition lone_result (transport : string -> nat -> value + string) (w : world)
    (agent_name : string) : value :=
  let T := _normalize_name agent_name in
  let k := deliveries_to T (trace w) in
  if (CircuitBreaker.allow_request (now w) T (circuits w)).1 then
    match transport T k with
    | inl response => delivered T response
    | inr _ =>
        match transport T (S k) with
        | inl response => delivered T response
        | inr _ => unreachable agent_name
        end
    end
  else circuit_open T.

(** In the world [w], the task of the call to [p.1] that was started in
    the world [w0] is where that call, run by itself, would be. *)
Definition on_course (transport : string -> nat -> value + string) (w0 w : world)
    (p : string * task) : Prop :=
  let T := _normalize_name p.1 in
  let k := deliveries_to T (trace w0) in
  let admitted := (CircuitBreaker.allow_request (now w0) T (circuits w0)).1 = true in
  match p.2 with
  | Sending attempt reply =>
      admitted
      /\ ((attempt = 0%Z /\ reply = transport T k /\ deliveries_to T (trace w) = S k)
          \/ (attempt = 1%Z /\ (exists msg, transport T k = inr msg)
              /\ reply = transport T (S k) /\ deliveries_to T (trace w) = S (S k)))
  | Backoff attempt _ =>
      admitted /\ attempt = 1%Z /\ (exists msg, transport T k = inr msg)
      /\ deliveries_to T (trace w) = S k
  | Returned result => result = lone_result transport w0 p.1
  | Raised _ => lone_result transport w0 p.1 = unreachable p.1
  end.

(** The call to [agent_name] has not been started in [w]: nothing the
    call looks at has changed since [w0]. *)
Definition untouched (w0 w : world) (agent_name : string) : Prop :=
  let T := _normalize_name agent_name in
  circuits w !! T = circuits w0 !! T
  /\ deliveries_to T (trace w) = deliveries_to T (trace w0).

End Tasks.

(** ** Circuit status report ([GlobalA2AClient.get_circuit_status]) *)

Module CircuitStatus.

Import CircuitBreaker.

(** One step of the dict comprehension: [get_state(agent)] is called on
    the breaker, which may move the circuit of [agent], and its answer is
    stored under [agent]. *)
Definition status_step (now : Q) (acc : gmap string state * gmap string circuit)
    (agent : string) : gmap string state * gmap string circuit :=
  let '(st, cs1) := get_state now agent acc.2 in (<[agent := st]> acc.1, cs1).

(** [{agent: _circuit_breaker.get_state(agent) for agent in
    _circuit_breaker._circuits}], the dict yielding its keys in the order
    [agents]: the report and the circuits it leaves. *)
Definition get_circuit_status (now : Q) (agents : list string)
    (cs : gmap string circuit) : gmap string state * gmap string circuit :=
  foldl (status_step now) (∅, cs) agents.

(** [agents] lists the keys of the dict, each once. *)
Definition keys_of (cs : gmap string circuit) (agents : list string) : Prop :=
  NoDup agents /\ forall a, a ∈ agents <-> is_Some (cs !! a).

End CircuitStatus.

(** ** Service resolution ([ConsulRegistry], [GlobalA2AClient.get_client]) *)

Module Registry.

(** [self.static_mesh_map] *)
Definition static_mesh_map : gmap string (string * Z) :=
  list_to_map [
    ("human-intake-agent", ("localhost", 9001%Z));
    ("dispatch-agent", ("localhost", 9002%Z));
    ("fire-chief-agent", ("localhost", 9003%Z));
    ("civic-alert-agent", ("localhost", 9004%Z));
    ("medical-agent", ("localhost", 9005%Z));
    ("police-chief-agent", ("localhost", 9006%Z));
    ("utility-agent", ("localhost", 9007%Z));
    ("iot-sensor-agent", ("localhost", 9008%Z));
    ("camera-agent", ("localhost", 9009%Z))
  ].

(** [_get_port_offset] *)
Definition _get_port_offset (name : string) : Z :=
  let offsets : gmap string Z :=
    list_to_map [
      ("human-intake-agent", 9001%Z); ("dispatch-agent", 9002%Z);
      ("fire-chief-agent", 9003%Z); ("civic-alert-agent", 9004%Z);
      ("medical-agent", 9005%Z); ("police-chief-agent", 9006%Z);
      ("utility-agent", 9007%Z); ("iot-sensor-agent", 9008%Z);
      ("camera-agent", 9009%Z)
    ] in
  default 9000%Z (offsets !! name).

(** [s.endswith(suffix)] *)
Fixpoint endswith (s suffix : string) : bool :=
  String.eqb s suffix ||
  match s with
  | String _ rest => endswith rest suffix
  | EmptyString => false
  end.

(** [s.rstrip("/")] *)
Fixpoint rstrip_slash (s : string) : string :=
  match s with
  | EmptyString => EmptyString
  | String c rest =>
      match rstrip_slash rest with
      | EmptyString => if Ascii.eqb c "/" then EmptyString else String c EmptyString
      | kept => String c kept
      end
  end.

(** [self._cache.pop(service_name)] when it is there. *)
Definition invalidate_cache (service_name : string) (cache : gmap string string)
  : gmap string string :=
  delete service_name cache.

Section Consul.

(** What [GET /v1/catalog/service/{name}] yields: the decoded body of a
    response with status 200; [None] for any other status and when the
    request or the decoding raises. *)
Variable catalog : string -> option value.

(** [str(x)] of a list or a dict. *)
Variable py_str : value -> string.

(** [f"{x}"] *)
Definition format (v : value) : string :=
  match v with
  | VStr s => s
  | VInt n => pretty n
  | VNone => "None"
  | VBool true => "True"
  | VBool false => "False"
  | _ => py_str v
  end.

(** [d.get(k1) or d.get(k2)] *)
Definition get_or (d : list (string * value)) (k1 k2 : string) : value :=
  let a := default VNone (assoc k1 d) in
  if truthy a then a else default VNone (assoc k2 d).

(** The URL read from the catalog entry. Anything but a non-empty list
    whose first element is a dict raises inside the [try] and leaves no
    URL. *)
Definition consul_url (services : value) : option string :=
  match services with
  | VList (VDict svc :: _) =>
      let address := get_or svc "ServiceAddress" "Address" in
      let port := default VNone (assoc "ServicePort" svc) in
      Some ("http://" ++ format address ++ ":" ++ format port)
  | _ => None
  end.

(** [not url] for an optional string. *)
Definition no_url (url : option string) : bool :=
  match url with
  | Some u => String.eqb u ""
  | None => true
  end.

(** [get_service_url]: the URL, if any, and the cache afterwards. *)
Definition get_service_url (service_name : string) (cache : gmap string string)
  : option string * gmap string string :=
  match cache !! service_name with
  | Some url => (Some url, cache)
  | None =>
      let url := services ← catalog service_name; consul_url services in
      let url :=
        if no_url url then
          match static_mesh_map !! service_name with
          | Some (host, port) => Some ("http://" ++ host ++ ":" ++ pretty port)
          | None => url
          end
        else url in
      match url with
      | Some u => if no_url url then (None, cache)
                  else (Some u, <[service_name := u]> cache)
      | None => (None, cache)
      end
  end.

(** The URL [get_client] builds its HTTP client with when the pair has no
    client yet. *)
Definition client_url (target_agent : string) (cache : gmap string string)
  : string * gmap string string :=
  let target_agent := Client._normalize_name target_agent in
  let '(url, cache1) := get_service_url target_agent cache in
  let url :=
    match url with
    | Some u =>
        if no_url url then
          "http://localhost:" ++ pretty (_get_port_offset target_agent) ++ "/a2a/"
        else if negb (endswith u "/a2a/") then rstrip_slash u ++ "/a2a/"
        else u
    | None => "http://localhost:" ++ pretty (_get_port_offset target_agent) ++ "/a2a/"
    end in
  (url, cache1).

End Consul.

End Registry.

(** ** Retrying on rate limits ([lib/utils/retry.py]) *)

Module Retry.

Local Open Scope Q_scope.

Definition RATE_LIMIT_INDICATORS : list string :=
  ["429"; "TooManyRequests"; "RESOURCE_EXHAUSTED"; "rate limit"; "quota"]%string.

(** [is_rate_limit_error] *)
Definition is_rate_limit_error (error : exn) : bool :=
  let error_str := Delegation.lower (Delegation.exn_str error) in
  existsb (fun indicator => Delegation.contains (Delegation.lower indicator) error_str)
          RATE_LIMIT_INDICATORS.

(** What the consumer of a retrying generator sees when it reads it to the
    end: the items, the sleeps between attempts, how many times the wrapped
    generator was started, and the exception that ends the iteration, if
    any. *)
Record run (A : Type) := {
  yielded : list A;
  sleeps : list Q;
  calls : nat;
  ending : option exn;
}.
Arguments yielded {A} _.
Arguments sleeps {A} _.
Arguments calls {A} _.
Arguments ending {A} _.

(** [attempt_session_id] of [RateLimitRetryRunner.run_async] *)
Definition attempt_session_id (session_id : string) (attempt : Z) : string :=
  if (attempt =? 0)%Z then session_id
  else (session_id ++ "_retry_" ++ pretty attempt)%string.

Section Generator.

Context {A : Type}.

(** What the [k]-th start of the wrapped generator yields, and the
    exception that ends it, if any. *)
Variable gen : nat -> list A * option exn.

(** The [k]-th value of [random.random()]. *)
Variable random : nat -> Q.

(** The [for attempt in range(max_retries + 1)] loop of
    [retry_with_backoff] with [n] iterations left, and the
    [if last_error: raise last_error] after it. *)
Fixpoint retry_loop (n : nat) (attempt max_retries : Z) (base_delay max_delay jitter : Q)
    (last_error : option exn) : run A :=
  match n with
  | O => {| yielded := []; sleeps := []; calls := 0; ending := last_error |}
  | S n' =>
      let '(items, raised) := gen (Z.to_nat attempt) in
      match raised with
      | None => {| yielded := items; sleeps := []; calls := 1; ending := None |}
      | Some e =>
          if negb (is_rate_limit_error e) then
            {| yielded := items; sleeps := []; calls := 1; ending := Some e |}
          else if (max_retries <=? attempt)%Z then
            {| yielded := items; sleeps := []; calls := 1; ending := Some e |}
          else
            let delay := pymin (base_delay * inject_Z (2 ^ attempt)) max_delay in
            let jitter_amount := delay * jitter * random (Z.to_nat attempt) in
            let total_delay := delay + jitter_amount in
            let rest := retry_loop n' (attempt + 1)%Z max_retries base_delay max_delay
                          jitter (Some e) in
            {| yielded := (items ++ yielded rest)%list;
               sleeps := total_delay :: sleeps rest;
               calls := S (calls rest);
               ending := ending rest |}
      end
  end.

(** [retry_with_backoff(async_gen_func, max_retries, base_delay, max_delay,
    jitter)] *)
Definition retry_with_backoff (max_retries : Z) (base_delay max_delay jitter : Q) : run A :=
  retry_loop (Z.to_nat (max_retries + 1)) 0 max_retries base_delay max_delay jitter None.

End Generator.

Section Runner.

Context {A : Type}.

(** What [runner.run_async] yields on its [k]-th start, for the session it
    is given, and the exception that ends it, if any. *)
Variable run_async_of : nat -> string -> list A * option exn.

Variable random : nat -> Q.

(** What [RateLimitRetryRunner.run_async] is seen to do, besides the
    items: the sessions it runs the attempts in and the ones it asks the
    session service to create. *)
Record runner_run := {
  seen : run A;
  sessions_used : list string;
  sessions_created : list string;
}.

(** The loop of [RateLimitRetryRunner.run_async], [n] iterations left. *)
Fixpoint runner_loop (n : nat) (attempt max_retries : Z) (base_delay : Q)
    (session_id : string) (last_error : option exn) : runner_run :=
  match n with
  | O => {| seen := {| yielded := []; sleeps := []; calls := 0; ending := last_error |};
            sessions_used := []; sessions_created := [] |}
  | S n' =>
      let sid := attempt_session_id session_id attempt in
      let created := if (0 <? attempt)%Z then [sid] else [] in
      let '(items, raised) := run_async_of (Z.to_nat attempt) sid in
      let stop (e : option exn) :=
        {| seen := {| yielded := items; sleeps := []; calls := 1; ending := e |};
           sessions_used := [sid]; sessions_created := created |} in
      match raised with
      | None => stop None
      | Some e =>
          if negb (is_rate_limit_error e) then stop (Some e)
          else if (max_retries <=? attempt)%Z then stop (Some e)
          else
            let delay := pymin (base_delay * inject_Z (2 ^ attempt)) 60 in
            let jitter_amount := delay * (1 # 2) * random (Z.to_nat attempt) in
            let total_delay := delay + jitter_amount in
            let rest := runner_loop n' (attempt + 1)%Z max_retries base_delay session_id
                          (Some e) in
            {| seen := {| yielded := (items ++ yielded (seen rest))%list;
                          sleeps := total_delay :: sleeps (seen rest);
                          calls := S (calls (seen rest));
                          ending := ending (seen rest) |};
               sessions_used := sid :: sessions_used rest;
               sessions_created := (created ++ sessions_created rest)%list |}
      end
  end.

(** [RateLimitRetryRunner(runner, max_retries, base_delay).run_async(
    user_id, session_id, new_message)] *)
Definition run_async (max_retries : Z) (base_delay : Q) (session_id : string)
  : runner_run :=
  runner_loop (Z.to_nat (max_retries + 1)) 0 max_retries base_delay session_id None.

End Runner.

End Retry.

(** ** Tools of the agents that broadcast *)

Module Tools.

Import World Client.

(** [agency_map] of [assign_incident_commander] *)
Definition agency_map : gmap string string :=
  list_to_map [("fire", "fire-chief-agent"); ("medical", "medical-agent");
               ("police", "police-chief-agent"); ("utility", "utility-agent")].

(** The agents [agency_map] maps to. *)
Definition mapped_agents : list string :=
  ["fire-chief-agent"; "medical-agent"; "police-chief-agent"; "utility-agent"].

(** The agents [assign_incident_commander] notifies. [involved_agencies]
    is [None] when the argument is left out. *)
Definition agents_to_notify (lead_agency : string) (involved_agencies : option (list string))
  : list string :=
  match involved_agencies with
  | Some (a :: rest) => omap (fun a => agency_map !! Delegation.lower a) (a :: rest)
  | _ =>
      let lead_lower := Delegation.lower lead_agency in
      if Delegation.contains "fire" lead_lower then ["fire-chief-agent"]
      else if Delegation.contains "medical" lead_lower
              || Delegation.contains "hospital" lead_lower then ["medical-agent"]
      else if Delegation.contains "police" lead_lower then ["police-chief-agent"]
      else ["fire-chief-agent"]
  end.

Section Transport.

Variable transport : string -> nat -> value + string.
Variable schedule : nat -> nat.

(** [assign_incident_commander] of the dispatch agent *)
Definition assign_incident_commander (incident_id lead_agency : string)
    (involved_agencies : option (list string)) : M value :=
  let notified := agents_to_notify lead_agency involved_agencies in
  (match notified with
   | [] => mret tt
   | _ =>
       broadcast transport schedule "dispatch-agent" notified
         (VStr ("COMMAND UPDATE: " ++ lead_agency ++ " is now Incident Commander for "
                ++ incident_id ++ "."));;
       mret tt
   end);;
  mret (VDict [("status", VStr "commander_assigned");
               ("incident_id", VStr incident_id);
               ("lead_agency", VStr lead_agency);
               ("notified_agents", VList (VStr <$> notified))]).

(** [broadcast_hazard] of the camera agent *)
Definition broadcast_hazard (hazard_type location : string) : M value :=
  try_except
    (let targets := ["fire-chief-agent"; "police-chief-agent"; "dispatch-agent"] in
     broadcast transport schedule "camera-agent" targets
       (VStr ("VISUAL ALERT: " ++ hazard_type ++ " confirmed at " ++ location ++ "."));;
     mret (VDict [("status", VStr "broadcast_sent"); ("targets", VList (VStr <$> targets))]))
    (fun e => mret (VDict [("status", VStr "failed");
                           ("error", VStr (Delegation.exn_str e))])).

End Transport.

End Tools.

(** ** Notions used to state which way a call ends *)

Module Outcomes.

Import World.

(** Every exception [m] raises satisfies [P]. *)
Definition raises_only {A} (P : exn -> Prop) (m : M A) : Prop :=
  forall w e, (m w).1 = Raise e -> P e.

(** Any exception but [asyncio.TimeoutError]. *)
Definition not_timeout (e : exn) : Prop := e <> TimeoutError.

(** The [status] of a result dict is one of [statuses]. *)
Definition status_among (statuses : list string) (result : value) : Prop :=
  exists st, dict_get result "status" = Some (VStr st) /\ st ∈ statuses.

(** The statuses [delegate_to_agent] ends with. *)
Definition final_statuses : list string :=
  ["already_handled"; "delegated"; "failover"; "failed"].

(** The deduplication check of a delegation of [request] to [T] finds no
    earlier delegation. *)
Definition not_yet_delegated (request T : string) (w : world) : Prop :=
  forall iid, IncidentId.extract_incident_id request = Some iid ->
              (Delegation.check_delegation_exists iid T 300 w).1 = Ok None.

End Outcomes.

(** ** Histories of calls on the circuit breaker *)

Module CircuitHistory.

Import CircuitBreaker.

(** One call of a method of [CircuitBreaker], with the time it is made at
    where the method reads the clock. *)
Inductive call :=
  | Failure (t : Q) (agent_name : string)
  | Success (agent_name : string)
  | Allow (t : Q) (agent_name : string)
  | State (t : Q) (agent_name : string).

Definition step (c : call) (cs : gmap string circuit) : gmap string circuit :=
  match c with
  | Failure t a => record_failure t a cs
  | Success a => record_success a cs
  | Allow t a => (allow_request t a cs).2
  | State t a => (get_state t a cs).2
  end.

(** The calls of a history, oldest first. *)
Fixpoint run (history : list call) (cs : gmap string circuit) : gmap string circuit :=
  match history with
  | [] => cs
  | c :: rest => run rest (step c cs)
  end.

(** How many failures of [dest] a history records. *)
Fixpoint failures_of (dest : string) (history : list call) : Z :=
  match history with
  | [] => 0
  | Failure _ a :: rest =>
      if String.eqb a dest then 1 + failures_of dest rest else failures_of dest rest
  | _ :: rest => failures_of dest rest
  end.

End CircuitHistory.

(** ** What callers may expect of an extracted incident id *)

Module Extracted.

Import IncidentId.

(** Every character of [g] is in the class [p]. *)
Definition chars (p : ascii -> bool) (g : string) : Prop :=
  Forall (fun c => p c = true) (list_ascii_of_string g).

(** [g] is a piece of [text]: not empty, made of the characters of
    [[A-Z0-9_-]], and found in [text] as it stands. *)
Definition piece_of (text g : string) : Prop :=
  g <> "" /\ chars is_id_char g /\ exists pre post, text = pre ++ g ++ post.

End Extracted.

(** * Properties *)

(** ** Comparisons *)

Lemma Qgtb_true (x y : Q) : Qgtb x y = true <-> (y < x)%Q.
Proof.
  unfold Qgtb. rewrite negb_true_iff. split.
  - intros H. apply Qnot_le_lt. intros Hle. apply Qle_bool_iff in Hle. congruence.
  - intros H. destruct (Qle_bool x y) eqn:E; [|reflexivity].
    apply Qle_bool_iff in E. exfalso. apply (Qlt_not_le _ _ H E).
Qed.

Lemma Qgtb_false (x y : Q) : Qgtb x y = false <-> (x <= y)%Q.
Proof.
  unfold Qgtb. rewrite negb_false_iff. apply Qle_bool_iff.
Qed.

Lemma Qltb_true (x y : Q) : Qltb x y = true <-> (x < y)%Q.
Proof. apply (Qgtb_true y x). Qed.

Lemma Qltb_false (x y : Q) : Qltb x y = false <-> (y <= x)%Q.
Proof. apply (Qgtb_false y x). Qed.

Lemma Qgeb_true (x y : Q) : Qgeb x y = true <-> (y <= x)%Q.
Proof. apply Qle_bool_iff. Qed.

Lemma Qgeb_false (x y : Q) : Qgeb x y = false <-> (x < y)%Q.
Proof.
  unfold Qgeb. split.
  - intros H. apply Qnot_le_lt. intros Hle. apply Qle_bool_iff in Hle. congruence.
  - intros H. destruct (Qle_bool y x) eqn:E; [|reflexivity].
    apply Qle_bool_iff in E. exfalso. apply (Qlt_not_le _ _ H E).
Qed.

Lemma pymin_spec (a b : Q) :
  (b < a /\ pymin a b = b)%Q \/ (a <= b /\ pymin a b = a)%Q.
Proof.
  unfold pymin. destruct (Qltb b a) eqn:E.
  - left. apply Qltb_true in E. auto.
  - right. apply Qltb_false in E. auto.
Qed.

(** ** Circuit breaker *)

Module CircuitBreakerFacts.

Import CircuitBreaker.

Implicit Types (cs : gmap string circuit) (a b : string) (now lf : Q) (f h : Z).

Lemma record_failure_cold now a cs :
  cs !! a = None -> record_failure now a cs = <[a := (CLOSED, 1%Z, now, 0%Z)]> cs.
Proof. intros H. unfold record_failure. by rewrite H. Qed.

Lemma record_failure_lookup now a cs st f lf h :
  cs !! a = Some (st, f, lf, h) ->
  record_failure now a cs !! a =
    Some (if state_eqb st HALF_OPEN || (CIRCUIT_FAILURE_THRESHOLD <=? f + 1)%Z
          then OPEN else CLOSED, (f + 1)%Z, now, 0%Z).
Proof.
  intros H. unfold record_failure. rewrite H.
  destruct (state_eqb st HALF_OPEN); simpl; [by rewrite lookup_insert_eq|].
  destruct (CIRCUIT_FAILURE_THRESHOLD <=? f + 1)%Z; by rewrite lookup_insert_eq.
Qed.

Lemma record_failure_other now a b cs :
  a <> b -> record_failure now a cs !! b = cs !! b.
Proof.
  intros H. unfold record_failure.
  destruct (cs !! a) as [[[[st f] lf] h]|]; [|by rewrite lookup_insert_ne].
  destruct (state_eqb st HALF_OPEN); [by rewrite lookup_insert_ne|].
  destruct (CIRCUIT_FAILURE_THRESHOLD <=? f + 1)%Z; by rewrite lookup_insert_ne.
Qed.

Lemma record_success_lookup a cs :
  record_success a cs !! a = Some (CLOSED, 0%Z, 0%Q, 0%Z).
Proof. unfold record_success. by rewrite lookup_insert_eq. Qed.

Lemma record_success_other a b cs : a <> b -> record_success a cs !! b = cs !! b.
Proof. intros H. unfold record_success. by rewrite lookup_insert_ne. Qed.

(** [allow_request] on a destination without an entry or with a CLOSED
    one admits the request and changes nothing. *)
Lemma allow_cold now a cs : cs !! a = None -> allow_request now a cs = (true, cs).
Proof. intros H. unfold allow_request, get_state. by rewrite H. Qed.

Lemma allow_closed now a cs f lf h :
  cs !! a = Some (CLOSED, f, lf, h) -> allow_request now a cs = (true, cs).
Proof. intros H. unfold allow_request, get_state. by rewrite H. Qed.

(** OPEN and the reset timeout has not passed: refused, nothing changes. *)
Lemma allow_open_early now a cs f lf h :
  cs !! a = Some (OPEN, f, lf, h) -> (now - lf <= CIRCUIT_RESET_TIMEOUT)%Q ->
  allow_request now a cs = (false, cs).
Proof.
  intros H Ht. unfold allow_request, get_state. rewrite H. simpl.
  apply Qgtb_false in Ht. by rewrite Ht.
Qed.

(** OPEN and the reset timeout has passed: the one probe is admitted and
    the circuit is HALF_OPEN with its probe counted. *)
Lemma allow_open_late now a cs f lf h :
  cs !! a = Some (OPEN, f, lf, h) -> (CIRCUIT_RESET_TIMEOUT < now - lf)%Q ->
  allow_request now a cs = (true, <[a := (HALF_OPEN, f, lf, 1%Z)]> cs).
Proof.
  intros H Ht. unfold allow_request, get_state. rewrite H. simpl.
  apply Qgtb_true in Ht. rewrite Ht. rewrite lookup_insert_eq. simpl.
  by rewrite insert_insert_eq.
Qed.

(** HALF_OPEN: admitted while fewer than [CIRCUIT_HALF_OPEN_MAX] probes
    were let through, refused without any change afterwards. *)
Lemma allow_half_open now a cs f lf h :
  cs !! a = Some (HALF_OPEN, f, lf, h) ->
  allow_request now a cs =
    if (h <? CIRCUIT_HALF_OPEN_MAX)%Z
    then (true, <[a := (HALF_OPEN, f, lf, (h + 1)%Z)]> cs)
    else (false, cs).
Proof.
  intros H. unfold allow_request, get_state. rewrite H. simpl. rewrite H.
  by destruct (h <? CIRCUIT_HALF_OPEN_MAX)%Z.
Qed.

(** A refusal never changes the circuit map. *)
Lemma allow_refused_unchanged now a cs cs' :
  allow_request now a cs = (false, cs') -> cs' = cs.
Proof.
  unfold allow_request, get_state.
  destruct (cs !! a) as [[[[st f] lf] h]|] eqn:E; [|congruence].
  destruct st; simpl.
  - congruence.
  - destruct (Qgtb (now - lf) CIRCUIT_RESET_TIMEOUT).
    + rewrite lookup_insert_eq. simpl. congruence.
    + congruence.
  - rewrite E. destruct (h <? CIRCUIT_HALF_OPEN_MAX)%Z; congruence.
Qed.

(** [allow_request] only touches the entry of its destination. *)
Lemma allow_other now a b cs : a <> b -> (allow_request now a cs).2 !! b = cs !! b.
Proof.
  intros Hab. unfold allow_request, get_state.
  destruct (cs !! a) as [[[[st f] lf] h]|] eqn:E; [|done].
  destruct st; simpl.
  - done.
  - destruct (Qgtb (now - lf) CIRCUIT_RESET_TIMEOUT); [|done].
    rewrite lookup_insert_eq. simpl. by rewrite !lookup_insert_ne.
  - rewrite E. destruct (h <? CIRCUIT_HALF_OPEN_MAX)%Z; [|done].
    simpl. by rewrite lookup_insert_ne.
Qed.

Lemma allow_requests_all_refused times a cs :
  (forall t, allow_request t a cs = (false, cs)) ->
  allow_requests times a cs = (repeat false (length times), cs).
Proof.
  intros H. induction times as [|t rest IH]; [done|].
  simpl. by rewrite H, IH.
Qed.

Lemma allow_requests_open_early times a cs f lf h :
  cs !! a = Some (OPEN, f, lf, h) ->
  Forall (fun t => t - lf <= CIRCUIT_RESET_TIMEOUT)%Q times ->
  allow_requests times a cs = (repeat false (length times), cs).
Proof.
  intros H Hall. induction Hall as [|t rest Ht _ IH]; [done|].
  simpl. by rewrite (allow_open_early _ _ _ _ _ _ H Ht), IH.
Qed.

End CircuitBreakerFacts.

(** C2. Lifecycle of a circuit. From the cold state a destination is
    admitted until the third consecutive [record_failure]; after it every
    [allow_request] made while no more than 60 s have passed since that
    failure is refused; the first [allow_request] made later is admitted and
    all further ones are refused; a [record_failure] then reopens the
    circuit. A [record_success] on any circuit map whatever, be the circuit
    of the destination CLOSED, OPEN or HALF_OPEN in it or absent from it,
    makes that circuit CLOSED with all counters zero, so that the next
    request is admitted, and leaves the other destinations alone. *)
Theorem circuit_breaker_lifecycle
    (dest : string) (cs : gmap string CircuitBreaker.circuit)
    (t1 t2 t3 t_probe t_fail : Q) (early later : list Q) :
  cs !! dest = None ->
  Forall (fun t => t - t3 <= CircuitBreaker.CIRCUIT_RESET_TIMEOUT)%Q early ->
  (CircuitBreaker.CIRCUIT_RESET_TIMEOUT < t_probe - t3)%Q ->
  let cs1 := CircuitBreaker.record_failure t1 dest cs in
  let cs2 := CircuitBreaker.record_failure t2 dest cs1 in
  let cs3 := CircuitBreaker.record_failure t3 dest cs2 in
  (forall t, (CircuitBreaker.allow_request t dest cs).1 = true
             /\ (CircuitBreaker.allow_request t dest cs1).1 = true
             /\ (CircuitBreaker.allow_request t dest cs2).1 = true)
  /\ cs3 !! dest = Some (CircuitBreaker.OPEN, 3%Z, t3, 0%Z)
  /\ CircuitBreaker.allow_requests early dest cs3 = (repeat false (length early), cs3)
  /\ exists cs4,
       CircuitBreaker.allow_request t_probe dest cs3 = (true, cs4)
       /\ CircuitBreaker.allow_requests later dest cs4 = (repeat false (length later), cs4)
       /\ CircuitBreaker.record_failure t_fail dest cs4 !! dest
          = Some (CircuitBreaker.OPEN, 4%Z, t_fail, 0%Z)
       /\ (CircuitBreaker.allow_request t_fail dest
             (CircuitBreaker.record_failure t_fail dest cs4)).1 = false
       /\ CircuitBreaker.record_success dest cs4 !! dest
          = Some (CircuitBreaker.CLOSED, 0%Z, 0%Q, 0%Z)
       /\ (forall t, (CircuitBreaker.allow_request t dest
                        (CircuitBreaker.record_success dest cs4)).1 = true)
       /\ forall cs0 : gmap string CircuitBreaker.circuit,
            CircuitBreaker.record_success dest cs0 !! dest
            = Some (CircuitBreaker.CLOSED, 0%Z, 0%Q, 0%Z)
            /\ (forall t, CircuitBreaker.allow_request t dest
                            (CircuitBreaker.record_success dest cs0)
                          = (true, CircuitBreaker.record_success dest cs0))
            /\ (forall other, other <> dest ->
                   CircuitBreaker.record_success dest cs0 !! other = cs0 !! other).
Proof.
  intros Hcold Hearly Hprobe cs1 cs2 cs3.
  pose proof (CircuitBreakerFacts.record_failure_cold t1 dest cs Hcold) as E1.
  assert (L1 : cs1 !! dest = Some (CircuitBreaker.CLOSED, 1%Z, t1, 0%Z)).
  { subst cs1. rewrite E1. apply lookup_insert_eq. }
  assert (L2 : cs2 !! dest = Some (CircuitBreaker.CLOSED, 2%Z, t2, 0%Z)).
  { subst cs2. by rewrite (CircuitBreakerFacts.record_failure_lookup _ _ _ _ _ _ _ L1). }
  assert (L3 : cs3 !! dest = Some (CircuitBreaker.OPEN, 3%Z, t3, 0%Z)).
  { subst cs3. by rewrite (CircuitBreakerFacts.record_failure_lookup _ _ _ _ _ _ _ L2). }
  split; [|split; [exact L3|split]].
  - intros t.
    rewrite (CircuitBreakerFacts.allow_cold _ _ _ Hcold).
    rewrite (CircuitBreakerFacts.allow_closed _ _ _ _ _ _ L1).
    by rewrite (CircuitBreakerFacts.allow_closed _ _ _ _ _ _ L2).
  - by apply (CircuitBreakerFacts.allow_requests_open_early _ _ _ _ _ _ L3).
  - set (cs4 := <[dest := (CircuitBreaker.HALF_OPEN, 3%Z, t3, 1%Z)]> cs3).
    assert (L4 : cs4 !! dest = Some (CircuitBreaker.HALF_OPEN, 3%Z, t3, 1%Z))
      by apply lookup_insert_eq.
    exists cs4. split; [|split; [|split; [|split; [|split; [|split]]]]].
    + exact (CircuitBreakerFacts.allow_open_late _ _ _ _ _ _ L3 Hprobe).
    + apply CircuitBreakerFacts.allow_requests_all_refused. intros t.
      by rewrite (CircuitBreakerFacts.allow_half_open _ _ _ _ _ _ L4).
    + by rewrite (CircuitBreakerFacts.record_failure_lookup _ _ _ _ _ _ _ L4).
    + pose proof (CircuitBreakerFacts.record_failure_lookup t_fail _ _ _ _ _ _ L4) as L5.
      simpl in L5. rewrite (CircuitBreakerFacts.allow_open_early _ _ _ _ _ _ L5); [done|].
      unfold CircuitBreaker.CIRCUIT_RESET_TIMEOUT. lra.
    + apply CircuitBreakerFacts.record_success_lookup.
    + intros t.
      by rewrite (CircuitBreakerFacts.allow_closed _ _ _ _ _ _
                    (CircuitBreakerFacts.record_success_lookup dest cs4)).
    + intros cs0. split; [apply CircuitBreakerFacts.record_success_lookup|]. split.
      * intros t.
        exact (CircuitBreakerFacts.allow_closed _ _ _ _ _ _
                 (CircuitBreakerFacts.record_success_lookup dest cs0)).
      * intros other Hne. by apply CircuitBreakerFacts.record_success_other.
Qed.

Lemma circuit_breaker_lifecycle_witness :
  let cs3 := CircuitBreaker.record_failures [0; 1; 2]%Q "medical-agent" ∅ in
  CircuitBreaker.allow_requests [2; 30; 62]%Q "medical-agent" cs3
    = ([false; false; false], cs3)
  /\ (CircuitBreaker.allow_requests [63; 64; 200]%Q "medical-agent" cs3).1
    = [true; false; false]
  /\ (CircuitBreaker.allow_request 3 "medical-agent"
        (CircuitBreaker.record_success "medical-agent" cs3)).1 = true.
Proof.
  destruct (circuit_breaker_lifecycle "medical-agent" ∅ 0 1 2 63 70
              [2; 30; 62]%Q [64; 200]%Q)
    as (_ & _ & Hearly & cs4 & Hprobe & Hlater & _ & _ & _ & _ & Hany).
  - reflexivity.
  - repeat constructor; vm_compute; discriminate.
  - vm_compute. reflexivity.
  - split; [exact Hearly|]. split.
    + simpl in *. rewrite Hprobe. simpl. by rewrite Hlater.
    + destruct (Hany (CircuitBreaker.record_failures [0; 1; 2]%Q "medical-agent" ∅))
        as (_ & Hadmit & _).
      by rewrite Hadmit.
Defined.

(** ** Token bucket *)

Module RateLimiterFacts.

Import RateLimiter.
Local Open Scope Q_scope.

Implicit Types (self : limiter) (file : option (gmap string Q)) (st : gmap string Q)
  (s : shared) (now : Q).

(** Stored quantities become opaque atoms for linear arithmetic. *)
Ltac opaque_lookups :=
  repeat match goal with
    | |- context [@default ?A ?a ?o] =>
        let x := fresh "q" in set (x := @default A a o) in *; clearbody x
    | H : context [@default ?A ?a ?o] |- _ =>
        let x := fresh "q" in set (x := @default A a o) in *; clearbody x
    end.

Lemma new_rate_nonneg rpm : 0 <= max_tokens (new rpm) -> 0 <= rate (new rpm).
Proof.
  simpl. intros H. unfold Qdiv. apply Qmult_le_0_compat; [exact H|].
  vm_compute. discriminate.
Qed.

Lemma fresh_tokens (t m : Q) :
  (<["last_update" := t]> (<["tokens" := m]> (∅ : gmap string Q))) !! "tokens" = Some m.
Proof. by rewrite lookup_insert_ne, lookup_insert_eq. Qed.

Lemma fresh_last_update (t m : Q) :
  (<["last_update" := t]> (<["tokens" := m]> (∅ : gmap string Q))) !! "last_update"
  = Some t.
Proof. apply lookup_insert_eq. Qed.

Lemma bucket_ok_capacity self now file : bucket_ok self now file -> 0 <= max_tokens self.
Proof.
  unfold bucket_ok. cbv zeta. set (tokens := default _ _). intros (H0 & H1 & _). lra.
Qed.

(** The invariant does not depend on when the file is read, as long as
    that is not before its recorded refill time. *)
Lemma bucket_ok_later self now now' file :
  now <= now' -> bucket_ok self now file -> bucket_ok self now' file.
Proof.
  intros Hle. unfold bucket_ok, _read_state. destruct file as [st|].
  - destruct (st !! "last_update"); simpl; intros (H0 & H1 & H2);
      opaque_lookups; repeat split; lra.
  - rewrite !fresh_tokens, !fresh_last_update. simpl.
    intros (H0 & H1 & H2); repeat split; lra.
Qed.

Lemma refill_bounds self now file :
  0 <= rate self -> bucket_ok self now file ->
  let state := _read_state self now file in
  let tokens := default (max_tokens self) (state !! "tokens") in
  let last_update := default now (state !! "last_update") in
  let refill := pymin (max_tokens self) (tokens + (now - last_update) * rate self) in
  0 <= refill /\ refill <= max_tokens self.
Proof.
  intros Hrate (H0 & H1 & H2). cbv zeta.
  set (tokens := default (max_tokens self) _) in *.
  set (last_update := default now _) in *.
  clearbody tokens last_update.
  assert (0 <= (now - last_update) * rate self)
    by (apply Qmult_le_0_compat; [lra|exact Hrate]).
  destruct (pymin_spec (max_tokens self) (tokens + (now - last_update) * rate self))
    as [[Hlt ->]|[Hle ->]]; split; lra.
Qed.

(** What one pass under the lock persists. *)
Lemma acquire_pass_spec self now file :
  0 <= rate self -> bucket_ok self now file ->
  let state := _read_state self now file in
  let tokens := default (max_tokens self) (state !! "tokens") in
  let last_update := default now (state !! "last_update") in
  let refill := pymin (max_tokens self) (tokens + (now - last_update) * rate self) in
  match acquire_pass self now file with
  | Some (wait_time, st) =>
      st !! "last_update" = Some now
      /\ (if Qgeb refill 1
          then wait_time = 0 /\ st !! "tokens" = Some (refill - 1)
          else 0 < wait_time /\ wait_time = (1 - refill) / rate self
               /\ st !! "tokens" = Some refill)
      /\ bucket_ok self now (Some st)
  | None => refill < 1 /\ rate self == 0
  end.
Proof.
  intros Hrate Hok. pose proof (refill_bounds self now file Hrate Hok) as Hb.
  cbv zeta in *. unfold acquire_pass.
  set (state := _read_state self now file) in *.
  set (tokens := default _ (state !! "tokens")) in *.
  set (last_update := default _ (state !! "last_update")) in *.
  set (refill := pymin _ _) in *.
  destruct Hb as [Hb0 Hb1].
  destruct (Qgeb refill 1) eqn:Hge.
  - apply Qgeb_true in Hge. split; [apply lookup_insert_eq|]. split.
    + split; [reflexivity|]. by rewrite lookup_insert_ne, lookup_insert_eq.
    + unfold bucket_ok, _read_state.
      rewrite lookup_insert_eq, lookup_insert_ne, lookup_insert_eq by done. simpl.
      repeat split; lra.
  - apply Qgeb_false in Hge. destruct (Qeq_bool (rate self) 0) eqn:Hz.
    + apply Qeq_bool_iff in Hz. split; [exact Hge|exact Hz].
    + apply Qeq_bool_neq in Hz. split; [apply lookup_insert_eq|]. split.
      * split; [|split; [reflexivity|by rewrite lookup_insert_ne, lookup_insert_eq]].
        apply Qlt_shift_div_l; lra.
      * unfold bucket_ok, _read_state.
        rewrite lookup_insert_eq, lookup_insert_ne, lookup_insert_eq by done. simpl.
        repeat split; lra.
Qed.

(** Taking the lock changes neither the file nor the clock. *)
Lemma lock_taken s :
  hd true (lock_outcomes s) = true ->
  exists s1, _acquire_lock s = (true, s1)
             /\ state_file s1 = state_file s /\ clock s1 = clock s.
Proof.
  unfold _acquire_lock. destruct (lock_outcomes s) as [|[] rest]; [| |done]; eauto.
Qed.

Lemma acquire_lock_ok self s : shared_ok self s -> shared_ok self (_acquire_lock s).2.
Proof.
  unfold _acquire_lock, shared_ok. destruct (lock_outcomes s) as [|[] rest]; simpl; auto.
  apply bucket_ok_later. lra.
Qed.

Lemma sleep_ok self d s : 0 <= d -> shared_ok self s -> shared_ok self (sleep d s).
Proof. unfold shared_ok. simpl. intros Hd. apply bucket_ok_later. lra. Qed.

(** [acquire] keeps the invariant, however it ends. *)
Lemma acquire_ok self fuel s :
  0 <= rate self -> shared_ok self s -> shared_ok self (acquire fuel self s).2.
Proof.
  intros Hrate. revert s. induction fuel as [|fuel IH]; intros s Hok; [exact Hok|].
  simpl. pose proof (acquire_lock_ok self s Hok) as Hok1.
  destruct (_acquire_lock s) as [locked s1]. simpl in Hok1.
  destruct locked; simpl.
  - pose proof (acquire_pass_spec self (clock s1) (state_file s1) Hrate Hok1) as Hp.
    cbv zeta in Hp.
    destruct (acquire_pass self (clock s1) (state_file s1)) as [[wait_time st]|];
      [|exact Hok1].
    destruct Hp as (_ & Hw & Hst).
    assert (Hok2 : shared_ok self (_write_state st s1)) by exact Hst.
    destruct (Qle_bool wait_time 0) eqn:Hwz; [exact Hok2|].
    apply IH. apply sleep_ok; [|exact Hok2].
    assert (0 < wait_time); [|lra].
    apply Qnot_le_lt. intros Hle. apply Qle_bool_iff in Hle. congruence.
  - apply IH. apply sleep_ok; [lra|exact Hok1].
Qed.

Lemma acquires_ok self fuels s :
  0 <= rate self -> shared_ok self s -> shared_ok self (acquires fuels self s).2.
Proof.
  intros Hrate. revert s. induction fuels as [|fuel rest IH]; intros s Hok; [exact Hok|].
  simpl. pose proof (acquire_ok self fuel s Hrate Hok) as Hok1.
  destruct (acquire fuel self s) as [r s1]. simpl in Hok1.
  specialize (IH s1 Hok1). by destruct (acquires rest self s1) as [rs s2].
Qed.

(** With a positive rate, an uncontended lock and no other consumer, a
    call returns after at most two passes. *)
Lemma acquire_returns rpm s fuel :
  (0 < rpm)%Z -> shared_ok (new rpm) s -> lock_outcomes s = [] -> (2 <= fuel)%nat ->
  (acquire fuel (new rpm) s).1 = Ok 0.
Proof.
  intros Hrpm Hok Hlock Hfuel.
  set (self := new rpm) in *.
  assert (Hcap : 1 <= max_tokens self).
  { simpl. change 1 with (inject_Z 1). rewrite <- Zle_Qle. lia. }
  assert (Hrate : 0 < rate self).
  { simpl in *. apply Qlt_shift_div_l; lra. }
  destruct fuel as [|[|fuel]]; [lia|lia|].
  cbn [acquire]. unfold _acquire_lock at 1. rewrite Hlock.
  pose proof (acquire_pass_spec self (clock s) (state_file s) (Qlt_le_weak _ _ Hrate) Hok)
    as Hp. cbv zeta in Hp.
  destruct (acquire_pass self (clock s) (state_file s)) as [[wait_time st]|];
    [|destruct Hp as [_ Hz]; lra].
  cbn [negb]. cbv iota.
  destruct Hp as (Hlu & Hw & Hst).
  destruct (Qgeb _ 1) eqn:Hge.
  { destruct Hw as [-> _]. reflexivity. }
  destruct Hw as (Hpos & Hwait & Htok).
  assert (Qle_bool wait_time 0 = false) as ->.
  { destruct (Qle_bool wait_time 0) eqn:E; [|reflexivity].
    apply Qle_bool_iff in E. lra. }
  unfold _acquire_lock, sleep, _write_state. cbn [lock_outcomes clock state_file].
  rewrite Hlock. cbn [negb]. cbv iota.
  unfold acquire_pass, _read_state. cbn [state_file clock lock_outcomes].
  rewrite Hlu, Htok. cbn [default from_option id].
  apply Qgeb_false in Hge.
  set (refill := pymin _ _) in *.
  assert (Hnew : 1 <= pymin (max_tokens self)
                        (refill + (clock s + (wait_time + (1 # 10)) - clock s) * rate self)).
  { assert (Hmul : wait_time * rate self == 1 - refill).
    { rewrite Hwait. field. lra. }
    destruct (pymin_spec (max_tokens self)
                (refill + (clock s + (wait_time + (1 # 10)) - clock s) * rate self))
      as [[_ ->]|[_ ->]]; [|exact Hcap].
    assert (Hbuf : 0 <= (1 # 10) * rate self) by (apply Qmult_le_0_compat; lra).
    assert (E : (clock s + (wait_time + (1 # 10)) - clock s) * rate self
                == wait_time * rate self + (1 # 10) * rate self) by ring.
    rewrite E. clear E Hwait Htok.
    set (p := wait_time * rate self) in *. set (b := (1 # 10) * rate self) in *.
    clearbody p b refill. lra. }
  apply Qgeb_true in Hnew. rewrite Hnew. reflexivity.
Qed.

End RateLimiterFacts.

(** C5. Token bucket invariant. Whenever the shared bucket holds between 0
    and [capacity] tokens and its refill time is not in the future, one pass
    of [acquire] refills to [min(capacity, tokens + elapsed * rate)], which
    lies in [[0, capacity]]; it consumes exactly one token when (and only
    when) the refilled count is at least 1, and otherwise persists the
    refilled count and asks for a positive wait; the persisted bucket again
    satisfies the invariant, and so does the bucket after any sequence of
    [acquire] calls. What the pass computes is what [acquire] leaves in the
    state file: a call that gets the lock and finds a token returns 0 at
    once, without the clock moving, and the file then holds the refilled
    count less one; a call that gets the lock and finds none has, when its
    first pass is over, written the refilled count to the file and slept
    for the wait plus a tenth of a second; a call that does not get the
    lock leaves the file as it was. *)
Theorem rate_bucket_invariant
    (requests_per_minute : Z) (s : RateLimiter.shared) (fuels : list nat) :
  let self := RateLimiter.new requests_per_minute in
  let now := RateLimiter.clock s in
  let file := RateLimiter.state_file s in
  RateLimiter.bucket_ok self now file ->
  let state := RateLimiter._read_state self now file in
  let tokens := default (RateLimiter.max_tokens self) (state !! "tokens") in
  let last_update := default now (state !! "last_update") in
  let refill :=
    pymin (RateLimiter.max_tokens self)
          (tokens + (now - last_update) * RateLimiter.rate self)%Q in
  (0 <= refill /\ refill <= RateLimiter.max_tokens self)%Q
  /\ match RateLimiter.acquire_pass self now file with
     | Some (wait_time, st) =>
         st !! "last_update" = Some now
         /\ (if Qgeb refill 1
             then wait_time = 0%Q /\ st !! "tokens" = Some (refill - 1)%Q
             else (0 < wait_time)%Q
                  /\ wait_time = ((1 - refill) / RateLimiter.rate self)%Q
                  /\ st !! "tokens" = Some refill)
         /\ RateLimiter.bucket_ok self now (Some st)
     | None => (refill < 1)%Q /\ requests_per_minute = 0%Z
     end
  /\ (let s' := (RateLimiter.acquires fuels self s).2 in
      RateLimiter.bucket_ok self (RateLimiter.clock s') (RateLimiter.state_file s'))
  /\ (hd true (RateLimiter.lock_outcomes s) = true ->
      match RateLimiter.acquire_pass self now file with
      | Some (wait_time, st) =>
          if Qgeb refill 1
          then forall fuel,
                 let r := RateLimiter.acquire (S fuel) self s in
                 r.1 = Ok 0%Q
                 /\ RateLimiter.state_file r.2 = Some st
                 /\ RateLimiter.clock r.2 = now
          else let r := RateLimiter.acquire 1 self s in
               r.1 = OutOfFuel
               /\ RateLimiter.state_file r.2 = Some st
               /\ RateLimiter.clock r.2 = (now + (wait_time + (1 # 10)))%Q
      | None =>
          forall fuel,
            let r := RateLimiter.acquire (S fuel) self s in
            r.1 = Raise ZeroDivisionError /\ RateLimiter.state_file r.2 = file
      end)
  /\ (hd true (RateLimiter.lock_outcomes s) = false ->
      let r := RateLimiter.acquire 1 self s in
      r.1 = OutOfFuel
      /\ RateLimiter.state_file r.2 = file
      /\ RateLimiter.clock r.2 = (now + 10 + 1)%Q).
Proof.
  intros self now file Hok. cbv zeta.
  assert (Hrate : (0 <= RateLimiter.rate self)%Q).
  { apply RateLimiterFacts.new_rate_nonneg.
    exact (RateLimiterFacts.bucket_ok_capacity _ _ _ Hok). }
  pose proof (RateLimiterFacts.acquire_pass_spec self now file Hrate Hok) as Hp.
  cbv zeta in Hp.
  split; [exact (RateLimiterFacts.refill_bounds self now file Hrate Hok)|]. split.
  - destruct (RateLimiter.acquire_pass self now file) as [[wait_time st]|]; [exact Hp|].
    destruct Hp as [Hlt Hz]. split; [exact Hlt|].
    simpl in Hz. unfold Qdiv in Hz.
    destruct (Z.eq_dec requests_per_minute 0%Z) as [E|E]; [exact E|].
    exfalso. apply Qmult_integral in Hz. destruct Hz as [Hz|Hz].
    + apply E. unfold Qeq in Hz. simpl in Hz. lia.
    + vm_compute in Hz. discriminate.
  - split; [exact (RateLimiterFacts.acquires_ok self fuels s Hrate Hok)|]. split.
    + intros Hlock.
      destruct (RateLimiterFacts.lock_taken s Hlock) as (s1 & Hs1 & Hfile & Hclock).
      fold now file in Hfile, Hclock.
      destruct (RateLimiter.acquire_pass self now file) as [[wait_time st]|] eqn:Hpass.
      * destruct Hp as (_ & Hw & _).
        destruct (Qgeb _ 1).
        -- destruct Hw as [-> _]. intros fuel. cbn [RateLimiter.acquire].
           rewrite Hs1. cbn [negb]. cbv iota. rewrite Hclock, Hfile, Hpass.
           change (Qle_bool 0 0) with true. cbv iota. cbn. by rewrite Hclock.
        -- destruct Hw as (Hpos & _ & _). cbn [RateLimiter.acquire].
           rewrite Hs1. cbn [negb]. cbv iota. rewrite Hclock, Hfile, Hpass.
           assert (Hgo : Qle_bool wait_time 0 = false).
           { destruct (Qle_bool wait_time 0) eqn:E; [|done].
             apply Qle_bool_iff in E. lra. }
           rewrite Hgo. cbn. by rewrite Hclock.
      * intros fuel. cbn [RateLimiter.acquire].
        rewrite Hs1. cbn [negb]. cbv iota. rewrite Hclock, Hfile, Hpass. cbn.
        by rewrite Hfile.
    + intros Hlock. cbn [RateLimiter.acquire]. unfold RateLimiter._acquire_lock.
      destruct (RateLimiter.lock_outcomes s) as [|[] rest]; [done|done|]. by cbn.
Qed.

Lemma rate_bucket_invariant_witness :
  let self := RateLimiter.new 8 in
  let st : gmap string Q := <["last_update" := 0%Q]> (<["tokens" := 8%Q]> ∅) in
  let s := {| RateLimiter.state_file := Some st; RateLimiter.clock := 0;
              RateLimiter.lock_outcomes := [] |} in
  let s' := (RateLimiter.acquires [3; 3; 3]%nat self s).2 in
  RateLimiter.bucket_ok self 0 (Some st)
  /\ RateLimiter.bucket_ok self (RateLimiter.clock s') (RateLimiter.state_file s').
Proof.
  intros self st s s'.
  assert (Hok : RateLimiter.bucket_ok self 0 (Some st)).
  { unfold RateLimiter.bucket_ok. repeat split; vm_compute; discriminate. }
  split; [exact Hok|].
  exact (proj1 (proj2 (proj2 (rate_bucket_invariant 8 s [3; 3; 3]%nat Hok)))).
Defined.

(** ** Incident-id extraction *)

Module IncidentIdFacts.

Import IncidentId.

Example label_with_space :
  extract_incident_id "Incident ID: ABC_123" = Some "ABC_123".
Proof. reflexivity. Qed.

Example label_equals_sign :
  extract_incident_id "incident id=ABC-1_x" = Some "ABC-1_".
Proof. reflexivity. Qed.

Example caps_in_sentence :
  extract_incident_id "for ABC_123_456" = Some "ABC_123_456".
Proof. reflexivity. Qed.

Example caps_after_underscore_label :
  extract_incident_id "incident_id: RUSHIKONDA_FIRE_MEDICAL_001 now"
  = Some "RUSHIKONDA_FIRE_MEDICAL_001".
Proof. reflexivity. Qed.

Example caps_needs_boundaries :
  extract_incident_id "xA_B_C" = None
  /\ extract_incident_id "A_B_C_ then D_E_F9." = Some "D_E_F9"
  /\ extract_incident_id "A1_2_3-X_Y_Z" = Some "A1_2_3".
Proof. repeat split; reflexivity. Qed.

Example nothing_to_extract :
  extract_incident_id "Send help to the north gate" = None
  /\ extract_incident_id "Incident ID: abc" = None
  /\ extract_incident_id "" = None.
Proof. repeat split; reflexivity. Qed.

(** The label heuristic has priority over the all-caps heuristic. *)
Lemma label_first text g :
  text <> "" -> search_label text = Some g -> extract_incident_id text = Some g.
Proof.
  intros Hne H. unfold extract_incident_id.
  destruct (String.eqb text "") eqn:E; [by apply String.eqb_eq in E|]. by rewrite H.
Qed.

(** Without a label, the result is that of the all-caps heuristic. *)
Lemma caps_second text :
  search_label text = None -> extract_incident_id text = search_caps None text \/ text = "".
Proof.
  intros H. unfold extract_incident_id.
  destruct (String.eqb text "") eqn:E; [right; by apply String.eqb_eq in E|].
  left. rewrite H. by destruct (search_caps None text).
Qed.

(** A labelled identifier is never empty, so the [if incident_id:] test
    of the caller only separates a match from no match. *)
Lemma match_label_nonempty s g : match_label_at s = Some g -> g <> "".
Proof.
  unfold match_label_at. intros H.
  repeat match type of H with
    | context [expect ?p ?x] =>
        destruct (expect p x); cbn [mbind option_bind] in H; [|discriminate]
    | context [expect_lit ?p ?x] =>
        destruct (expect_lit p x); cbn [mbind option_bind] in H; [|discriminate]
    end.
  destruct (take_while is_id_char _) as [g' tl].
  destruct (String.eqb g' "") eqn:E; [discriminate|].
  injection H as <-. intros ->. discriminate.
Qed.

End IncidentIdFacts.

(** C7. The docstring of [extract_incident_id] lists ["incident_id:
    ABC_123"] among the texts it recognises. The label pattern allows only
    whitespace between [incident] and [id], and the all-caps pattern needs
    two underscores, so that text yields no incident id, while the same
    identifier after ["Incident ID:"] is found. *)
Theorem extract_incident_id_underscore_label :
  IncidentId.extract_incident_id "incident_id: ABC_123" = None
  /\ IncidentId.extract_incident_id "Incident ID: ABC_123" = Some "ABC_123".
Proof. split; reflexivity. Qed.

(** ** The world: what the environment leaves alone *)

Module WorldFacts.

Import CircuitBreaker World.

Implicit Types (w : world) (r : resolution) (ag : list resolution) (cid : string).

Lemma set_circuits_same w : set_circuits (circuits w) w = w.
Proof. by destruct w. Qed.

Lemma same_refl w : same_process_state w w.
Proof. by split. Qed.

Lemma same_trans w1 w2 w3 :
  same_process_state w1 w2 -> same_process_state w2 w3 -> same_process_state w1 w3.
Proof. intros [] []. split; congruence. Qed.

Lemma update_handshake_same cid v w :
  same_process_state w (_update_handshake_record cid v w).
Proof.
  unfold _update_handshake_record. destruct (db w) as [d|] eqn:E; [|apply same_refl].
  split; try reflexivity. simpl. by rewrite E.
Qed.

Lemma resolve_handshake_same cid v w :
  same_process_state w (resolve_handshake cid v w).
Proof.
  unfold resolve_handshake.
  eapply same_trans; [|apply update_handshake_same].
  destruct (decide (cid ∈ pending_handshakes w)); [|apply same_refl].
  destruct (future_done cid w); by split.
Qed.

Lemma apply_resolution_same r w : same_process_state w (apply_resolution r w).
Proof.
  unfold apply_resolution. destruct (res_local r);
    [apply resolve_handshake_same|apply update_handshake_same].
Qed.

Lemma run_due_same t ag w : same_process_state w (run_due t ag w).1.
Proof.
  revert w. induction ag as [|r rest IH]; intros w; simpl; [apply same_refl|].
  destruct (Qle_bool (res_time r) t).
  - eapply same_trans; [apply apply_resolution_same|apply IH].
  - specialize (IH w). by destruct (run_due t rest w).
Qed.

Lemma sync_circuits w : circuits (sync w) = circuits w.
Proof.
  unfold sync. pose proof (run_due_same (now w) (agenda w) w) as [H _ _ _ _ _].
  by destruct (run_due (now w) (agenda w) w).
Qed.

Lemma sync_now w : now (sync w) = now w.
Proof.
  unfold sync. pose proof (run_due_same (now w) (agenda w) w) as [_ H _ _ _ _].
  by destruct (run_due (now w) (agenda w) w).
Qed.

Lemma sync_clients w : a2a_clients (sync w) = a2a_clients w.
Proof.
  unfold sync. pose proof (run_due_same (now w) (agenda w) w) as [_ _ H _ _ _].
  by destruct (run_due (now w) (agenda w) w).
Qed.

Lemma sync_trace w : trace (sync w) = trace w.
Proof.
  unfold sync. pose proof (run_due_same (now w) (agenda w) w) as [_ _ _ H _ _].
  by destruct (run_due (now w) (agenda w) w).
Qed.

Lemma sync_ledger w : delegation_logs <$> db (sync w) = delegation_logs <$> db w.
Proof.
  unfold sync. pose proof (run_due_same (now w) (agenda w) w) as [_ _ _ _ _ H].
  by destruct (run_due (now w) (agenda w) w).
Qed.

Lemma sync_db_none w : db w = None -> db (sync w) = None.
Proof.
  intros H. pose proof (sync_ledger w) as Hs. rewrite H in Hs.
  by destruct (db (sync w)).
Qed.

Lemma sync_db_some w d :
  db w = Some d -> exists d', db (sync w) = Some d' /\ delegation_logs d' = delegation_logs d.
Proof.
  intros H. pose proof (sync_ledger w) as Hs. rewrite H in Hs.
  destruct (db (sync w)) as [d'|]; [|done]. exists d'. split; [done|].
  simpl in Hs. congruence.
Qed.

End WorldFacts.

Create Rewrite HintDb world.

#[export] Hint Rewrite WorldFacts.sync_circuits WorldFacts.sync_now WorldFacts.sync_clients
  WorldFacts.sync_trace : world.

(** ** Messaging client *)

Module ClientFacts.

Import CircuitBreaker World Client.

Implicit Types (w : world) (tr : list event) (t T : string).

Lemma normalize_idem name : _normalize_name (_normalize_name name) = _normalize_name name.
Proof.
  induction name as [|c rest IH]; [reflexivity|]. cbn [_normalize_name]. rewrite IH.
  f_equal. destruct (Ascii.eqb c "_") eqn:E; [reflexivity|by rewrite E].
Qed.

Lemma deliveries_to_app t tr1 tr2 :
  deliveries_to t (tr1 ++ tr2) = (deliveries_to t tr1 + deliveries_to t tr2)%nat.
Proof.
  induction tr1 as [|[t' m|d] tr1 IH]; simpl; [done| |done].
  destruct (String.eqb t' t); simpl; by rewrite IH.
Qed.

Lemma deliveries_to_one t m : deliveries_to t [Delivery t m] = 1%nat.
Proof. simpl. by rewrite String.eqb_refl. Qed.

Lemma deliveries_to_other t t' m : t' <> t -> deliveries_to t [Delivery t' m] = 0%nat.
Proof. intros H. simpl. apply String.eqb_neq in H. by rewrite H. Qed.

Section Transport.

Variable transport : string -> nat -> value + string.
Variable healthy : string -> bool.
Variable uuid4 : string.

(** The world after a delivery attempt that the transport fails: the
    client was created, the attempt is on the trace, the failure is
    recorded and the client dropped again. *)
Lemma send_attempts_failure n attempt retries S T m w msg :
  transport T (deliveries_to T (trace w)) = inr msg ->
  let w1 :=
    set_a2a_clients (({[client_key S T]} ∪ a2a_clients w) ∖ {[client_key S T]})
      (set_circuits (CircuitBreaker.record_failure (now w) T (circuits w))
         (set_trace (trace w ++ [Delivery T m])
            (set_a2a_clients ({[client_key S T]} ∪ a2a_clients w) w))) in
  send_attempts transport (Datatypes.S n) attempt retries S T m w =
    if (attempt =? retries)%Z then (Raise (Exception msg), w1)
    else send_attempts transport n (attempt + 1)%Z retries S T m
           (sleep (inject_Z (Z.min 32 (2 ^ attempt))) w1).2.
Proof.
  intros Hfail. cbn [send_attempts].
  unfold try_except, mbind, M_bind, get_client, modify, deliver. cbn.
  rewrite Hfail. cbn.
  unfold record_failure, drop_client, modify. cbn.
  destruct (attempt =? retries)%Z; reflexivity.
Qed.

(** The world after a delivery attempt that succeeds. *)
Lemma send_attempts_success n attempt retries S T m w response :
  transport T (deliveries_to T (trace w)) = inl response ->
  send_attempts transport (Datatypes.S n) attempt retries S T m w =
    (Ok (VDict [("status", VStr "delivered"); ("agent", VStr T);
                ("response", response)]),
     set_circuits (CircuitBreaker.record_success T (circuits w))
       (set_trace (trace w ++ [Delivery T m])
          (set_a2a_clients ({[client_key S T]} ∪ a2a_clients w) w))).
Proof.
  intros Hok. cbn [send_attempts].
  unfold try_except, mbind, M_bind, get_client, modify, deliver. cbn.
  rewrite Hok. reflexivity.
Qed.

(** A refused [send_message] is a pure rejection. *)
Lemma send_message_refused S T m retries check_health w :
  (CircuitBreaker.allow_request (now w) (_normalize_name T) (circuits w)).1 = false ->
  send_message transport healthy S T m retries check_health w =
    (Ok (VDict [("status", VStr "circuit_open"); ("agent", VStr (_normalize_name T));
                ("error", VStr "Circuit breaker is open")]), w).
Proof.
  intros H. unfold send_message, mbind, M_bind, allow_request.
  destruct (CircuitBreaker.allow_request _ _ _) as [b cs] eqn:E. simpl in H. subst b.
  apply CircuitBreakerFacts.allow_refused_unchanged in E. subst cs.
  by rewrite WorldFacts.set_circuits_same.
Qed.

Lemma handshake_refused fuel S T payload cid timeout w :
  (CircuitBreaker.allow_request (now w) (_normalize_name T) (circuits w)).1 = false ->
  send_request_with_handshake transport healthy uuid4 fuel S T payload cid timeout w =
    (Raise (Exception ("Circuit breaker OPEN for " ++ _normalize_name T)), w).
Proof.
  intros H. unfold send_request_with_handshake, mbind, M_bind, allow_request.
  destruct (CircuitBreaker.allow_request _ _ _) as [b cs] eqn:E. simpl in H. subst b.
  apply CircuitBreakerFacts.allow_refused_unchanged in E. subst cs.
  by rewrite WorldFacts.set_circuits_same.
Qed.

End Transport.

End ClientFacts.

(** C10. A call refused by the circuit breaker. [send_message] returns the
    [circuit_open] dict naming the (normalised) target and leaves the whole
    world as it was: nothing is delivered, no sleep happens, and the circuit
    map records neither a success nor a failure.
    [send_request_with_handshake] raises instead, again without any effect. *)
Theorem circuit_open_rejection
    (transport : string -> nat -> value + string) (healthy : string -> bool)
    (uuid4 : string) (w : World.world)
    (source_agent target_agent : string) (message_text : value) (retries : Z)
    (check_health : bool) (fuel : nat) (payload : value)
    (correlation_id : option string) (timeout : Z) :
  (CircuitBreaker.allow_request (World.now w) (Client._normalize_name target_agent)
     (World.circuits w)).1 = false ->
  Client.send_message transport healthy source_agent target_agent message_text retries
    check_health w
  = (Ok (VDict [("status", VStr "circuit_open");
                ("agent", VStr (Client._normalize_name target_agent));
                ("error", VStr "Circuit breaker is open")]), w)
  /\ Client.send_request_with_handshake transport healthy uuid4 fuel source_agent
       target_agent payload correlation_id timeout w
     = (Raise (Exception ("Circuit breaker OPEN for "
                          ++ Client._normalize_name target_agent)), w).
Proof.
  intros H. split.
  - by apply ClientFacts.send_message_refused.
  - by apply ClientFacts.handshake_refused.
Qed.

Lemma circuit_open_rejection_witness :
  let w := World.set_circuits {["medical-agent" := (CircuitBreaker.OPEN, 3%Z, 100%Q, 0%Z)]}
             (World.fresh 120 None) in
  let unreachable : string -> nat -> value + string := fun _ _ => inr "connection refused" in
  (Client.send_message unreachable (fun _ => true) "fire-chief-agent" "medical_agent"
     (VStr "hello") 3 false w).2 = w
  /\ (Client.send_request_with_handshake unreachable (fun _ => true) "uuid" 61
        "fire-chief-agent" "medical_agent" (VDict []) None 60 w).1
     = Raise (Exception "Circuit breaker OPEN for medical-agent").
Proof.
  intros w unreachable.
  destruct (circuit_open_rejection unreachable (fun _ => true) "uuid" w
              "fire-chief-agent" "medical_agent" (VStr "hello") 3 false 61%nat
              (VDict []) None 60) as [Hsend Hhs].
  - vm_compute. reflexivity.
  - rewrite Hsend, Hhs. split; reflexivity.
Defined.

(** C4, as stated, fails: with [retries=3] the loop is
    [range(retries + 1)], so a target that is unreachable three times and
    reachable on the fourth attempt is reached by that fourth attempt; the
    call returns [delivered] and the success closes the circuit. *)
Lemma send_three_retries_makes_four_attempts :
  let transport : string -> nat -> value + string :=
    fun _ k => if (k <? 3)%nat then inr "All connection attempts failed"
               else inl (VStr "ack") in
  let r := Client.send_message transport (fun _ => true) "A" "B" (VStr "hello") 3 false
             (World.fresh 0 None) in
  r.1 = Ok (VDict [("status", VStr "delivered"); ("agent", VStr "B");
                   ("response", VStr "ack")])
  /\ Client.deliveries_to "B" (World.trace r.2) = 4%nat
  /\ World.circuits r.2 !! "B" = Some (CircuitBreaker.CLOSED, 0%Z, 0%Q, 0%Z).
Proof. vm_compute. repeat split. Qed.

(** C4, amended. A [send_message] with [retries=3] to a target with a cold
    circuit that is unreachable on the first three delivery attempts makes
    a fourth one, with backoff sleeps of 1, 2 and 4 seconds between the
    four, and no more. The circuit breaker has recorded three failures and
    is OPEN when the fourth attempt is made, which is made all the same.
    When the fourth attempt fails too, the call propagates that last
    transport failure, and the circuit has recorded four failures and is
    OPEN; when the target is reachable on the fourth attempt, it is reached
    by it: the call returns [delivered] with the response, and the success
    closes the circuit. *)
Theorem send_retry_bound
    (transport : string -> nat -> value + string) (healthy : string -> bool)
    (w : World.world) (source_agent target_agent : string) (message_text : value)
    (msg : nat -> string) :
  let T := Client._normalize_name target_agent in
  let k := Client.deliveries_to T (World.trace w) in
  let t := World.now w in
  let opened := CircuitBreaker.record_failures [t; t + 1; t + 1 + 2]%Q T (World.circuits w) in
  World.circuits w !! T = None ->
  (forall i, (i < 3)%nat -> transport T (k + i)%nat = inr (msg i)) ->
  exists w',
    Client.send_message transport healthy source_agent target_agent message_text 3 false w
    = (match transport T (k + 3)%nat with
       | inl response =>
           Ok (VDict [("status", VStr "delivered"); ("agent", VStr T);
                      ("response", response)])
       | inr last => Raise (Exception last)
       end, w')
    /\ World.trace w' =
       (World.trace w ++ [World.Delivery T message_text; World.Sleep 1;
                          World.Delivery T message_text; World.Sleep 2;
                          World.Delivery T message_text; World.Sleep 4;
                          World.Delivery T message_text])%list
    /\ Client.deliveries_to T (World.trace w') = (k + 4)%nat
    /\ opened !! T = Some (CircuitBreaker.OPEN, 3%Z, (t + 1 + 2)%Q, 0%Z)
    /\ World.circuits w' =
       match transport T (k + 3)%nat with
       | inl _ => CircuitBreaker.record_success T opened
       | inr _ => CircuitBreaker.record_failure (t + 1 + 2 + 4)%Q T opened
       end
    /\ World.circuits w' !! T =
       match transport T (k + 3)%nat with
       | inl _ => Some (CircuitBreaker.CLOSED, 0%Z, 0%Q, 0%Z)
       | inr _ => Some (CircuitBreaker.OPEN, 4%Z, (t + 1 + 2 + 4)%Q, 0%Z)
       end.
Proof.
  intros T k t opened Hcold Hdown.
  unfold Client.send_message. fold T.
  unfold mbind, World.M_bind, Client.allow_request.
  rewrite (CircuitBreakerFacts.allow_cold _ _ _ Hcold), WorldFacts.set_circuits_same.
  cbn [negb andb]. change (Z.to_nat (3 + 1)) with 4%nat.
  set (S := Client._normalize_name source_agent).
  (* first attempt *)
  rewrite (ClientFacts.send_attempts_failure transport 3 0 3 S T message_text w (msg 0%nat))
    by (rewrite <- (Hdown 0%nat) by lia; f_equal; fold k; lia).
  cbv zeta. change (0 =? 3)%Z with false. cbv iota.
  set (w1 := (World.sleep _ _).2).
  assert (Htr1 : World.trace w1 = (World.trace w ++ [World.Delivery T message_text; World.Sleep 1])%list).
  { subst w1. unfold World.sleep. cbn [snd]. rewrite WorldFacts.sync_trace. cbn.
    by rewrite <- app_assoc. }
  assert (Hnow1 : World.now w1 = (t + 1)%Q).
  { subst w1. unfold World.sleep. cbn [snd]. by rewrite WorldFacts.sync_now. }
  assert (Hcs1 : World.circuits w1 = CircuitBreaker.record_failure t T (World.circuits w)).
  { subst w1. unfold World.sleep. cbn [snd]. by rewrite WorldFacts.sync_circuits. }
  clearbody w1. change (0 + 1)%Z with 1%Z.
  (* second attempt *)
  rewrite (ClientFacts.send_attempts_failure transport 2 1 3 S T message_text w1 (msg 1%nat)).
  2:{ rewrite <- (Hdown 1%nat) by lia. f_equal. rewrite Htr1, ClientFacts.deliveries_to_app.
      fold k. simpl. rewrite String.eqb_refl. lia. }
  cbv zeta. change (1 =? 3)%Z with false. cbv iota.
  set (w2 := (World.sleep _ _).2).
  assert (Htr2 : World.trace w2 =
                 (World.trace w1 ++ [World.Delivery T message_text; World.Sleep 2])%list).
  { subst w2. unfold World.sleep. cbn [snd]. rewrite WorldFacts.sync_trace. cbn.
    by rewrite <- app_assoc. }
  assert (Hnow2 : World.now w2 = (World.now w1 + 2)%Q).
  { subst w2. unfold World.sleep. cbn [snd]. by rewrite WorldFacts.sync_now. }
  assert (Hcs2 : World.circuits w2 =
                 CircuitBreaker.record_failure (World.now w1) T (World.circuits w1)).
  { subst w2. unfold World.sleep. cbn [snd]. by rewrite WorldFacts.sync_circuits. }
  clearbody w2. change (1 + 1)%Z with 2%Z.
  (* third attempt *)
  rewrite (ClientFacts.send_attempts_failure transport 1 2 3 S T message_text w2 (msg 2%nat)).
  2:{ rewrite <- (Hdown 2%nat) by lia. f_equal.
      rewrite Htr2, Htr1, !ClientFacts.deliveries_to_app.
      fold k. simpl. rewrite String.eqb_refl. lia. }
  cbv zeta. change (2 =? 3)%Z with false. cbv iota.
  set (w3 := (World.sleep _ _).2).
  assert (Htr3 : World.trace w3 =
                 (World.trace w2 ++ [World.Delivery T message_text; World.Sleep 4])%list).
  { subst w3. unfold World.sleep. cbn [snd]. rewrite WorldFacts.sync_trace. cbn.
    by rewrite <- app_assoc. }
  assert (Hnow3 : World.now w3 = (World.now w2 + 4)%Q).
  { subst w3. unfold World.sleep. cbn [snd]. by rewrite WorldFacts.sync_now. }
  assert (Hcs3 : World.circuits w3 =
                 CircuitBreaker.record_failure (World.now w2) T (World.circuits w2)).
  { subst w3. unfold World.sleep. cbn [snd]. by rewrite WorldFacts.sync_circuits. }
  assert (Hk3 : Client.deliveries_to T (World.trace w3) = (k + 3)%nat).
  { rewrite Htr3, Htr2, Htr1, !ClientFacts.deliveries_to_app.
    fold k. simpl. rewrite String.eqb_refl. lia. }
  assert (Hopened : World.circuits w3 = opened).
  { subst opened. cbn [CircuitBreaker.record_failures].
    by rewrite Hcs3, Hcs2, Hcs1, Hnow2, Hnow1. }
  clearbody w3. change (2 + 1)%Z with 3%Z.
  assert (L1 : CircuitBreaker.record_failure t T (World.circuits w) !! T
               = Some (CircuitBreaker.CLOSED, 1%Z, t, 0%Z)).
  { rewrite (CircuitBreakerFacts.record_failure_cold _ _ _ Hcold). apply lookup_insert_eq. }
  pose proof (CircuitBreakerFacts.record_failure_lookup (t + 1) _ _ _ _ _ _ L1) as L2.
  pose proof (CircuitBreakerFacts.record_failure_lookup (t + 1 + 2) _ _ _ _ _ _ L2) as L3.
  pose proof (CircuitBreakerFacts.record_failure_lookup (t + 1 + 2 + 4) _ _ _ _ _ _ L3) as L4.
  assert (Htrace : forall cs cl,
            World.trace (World.set_a2a_clients cl (World.set_circuits cs
              (World.set_trace (World.trace w3 ++ [World.Delivery T message_text])
                 (World.set_a2a_clients ({[Client.client_key S T]} ∪ World.a2a_clients w3)
                    w3))))
            = (World.trace w ++ [World.Delivery T message_text; World.Sleep 1;
                                 World.Delivery T message_text; World.Sleep 2;
                                 World.Delivery T message_text; World.Sleep 4;
                                 World.Delivery T message_text])%list).
  { intros cs cl. cbn. rewrite Htr3, Htr2, Htr1. by rewrite <- !app_assoc. }
  (* fourth and last attempt *)
  destruct (transport T (k + 3)%nat) as [response|last] eqn:Hfourth.
  - rewrite (ClientFacts.send_attempts_success transport 0 3 3 S T message_text w3 response)
      by (by rewrite Hk3).
    eexists. split; [reflexivity|].
    cbn [World.trace World.circuits World.set_a2a_clients World.set_circuits
         World.set_trace].
    rewrite Hopened. split.
    { rewrite Htr3, Htr2, Htr1. by rewrite <- !app_assoc. }
    split.
    { rewrite ClientFacts.deliveries_to_app, Hk3, ClientFacts.deliveries_to_one. lia. }
    split; [exact L3|]. split; [reflexivity|].
    apply CircuitBreakerFacts.record_success_lookup.
  - rewrite (ClientFacts.send_attempts_failure transport 0 3 3 S T message_text w3 last)
      by (by rewrite Hk3).
    cbv zeta. change (3 =? 3)%Z with true. cbv iota.
    eexists. split; [reflexivity|].
    cbn [World.trace World.circuits World.set_a2a_clients World.set_circuits
         World.set_trace World.now].
    rewrite Hopened, Hnow3, Hnow2, Hnow1. split.
    { rewrite Htr3, Htr2, Htr1. by rewrite <- !app_assoc. }
    split.
    { rewrite ClientFacts.deliveries_to_app, Hk3, ClientFacts.deliveries_to_one. lia. }
    split; [exact L3|]. split; [reflexivity|exact L4].
Qed.

Lemma send_retry_bound_witness :
  let unreachable : string -> nat -> value + string :=
    fun _ _ => inr "All connection attempts failed" in
  let recovering : string -> nat -> value + string :=
    fun _ k => if (k <? 3)%nat then inr "All connection attempts failed"
               else inl (VStr "ack") in
  let call transport :=
    Client.send_message transport (fun _ => true) "A" "B" (VStr "hello") 3 false
      (World.fresh 0 None) in
  (call unreachable).1 = Raise (Exception "All connection attempts failed")
  /\ Client.deliveries_to "B" (World.trace (call unreachable).2) = 4%nat
  /\ World.circuits (call unreachable).2 !! "B"
     = Some (CircuitBreaker.OPEN, 4%Z, (0 + 1 + 2 + 4)%Q, 0%Z)
  /\ (call recovering).1
     = Ok (VDict [("status", VStr "delivered"); ("agent", VStr "B");
                  ("response", VStr "ack")])
  /\ Client.deliveries_to "B" (World.trace (call recovering).2) = 4%nat.
Proof.
  intros unreachable recovering call.
  destruct (send_retry_bound unreachable (fun _ => true) (World.fresh 0 None) "A" "B"
              (VStr "hello") (fun _ => "All connection attempts failed"))
    as (w1 & Hrun1 & _ & Hd1 & _ & _ & Hopen); [reflexivity|by intros i _|].
  destruct (send_retry_bound recovering (fun _ => true) (World.fresh 0 None) "A" "B"
              (VStr "hello") (fun _ => "All connection attempts failed"))
    as (w2 & Hrun2 & _ & Hd2 & _); [reflexivity| |].
  { intros i Hi. cbn. destruct i as [|[|[|i]]]; [reflexivity..|lia]. }
  subst call. cbv beta. rewrite Hrun1, Hrun2. cbn [fst snd].
  split; [reflexivity|]. split; [exact Hd1|]. split; [exact Hopen|].
  split; [reflexivity|exact Hd2].
Defined.

(** ** Delegation ledger *)

Module DelegationFacts.

Import World Client Delegation.

Implicit Types (w : world) (rows : list delegation_log) (r : delegation_log).

Lemma search_label_nonempty s g : IncidentId.search_label s = Some g -> g <> "".
Proof.
  induction s as [|c s IH]; cbn [IncidentId.search_label].
  - destruct (IncidentId.match_label_at "") eqn:E; [|discriminate].
    intros [= <-]. by apply IncidentIdFacts.match_label_nonempty in E.
  - destruct (IncidentId.match_label_at (String c s)) eqn:E; [|exact IH].
    intros [= <-]. by apply IncidentIdFacts.match_label_nonempty in E.
Qed.

Lemma match_caps_nonempty prev s g : IncidentId.match_caps_at prev s = Some g -> g <> "".
Proof.
  unfold IncidentId.match_caps_at.
  destruct (IncidentId.at_word_start prev); [|discriminate].
  destruct s as [|c rest]; [discriminate|].
  destruct (IncidentId.is_upper c); [|discriminate].
  destruct (IncidentId.take_while _ rest) as [head tl].
  destruct (IncidentId.take_groups _ tl) as [[groups n] tl'].
  destruct (_ && _); [|discriminate]. intros [= <-]. discriminate.
Qed.

Lemma search_caps_nonempty prev s g : IncidentId.search_caps prev s = Some g -> g <> "".
Proof.
  revert prev. induction s as [|c s IH]; intros prev; cbn [IncidentId.search_caps].
  - destruct (IncidentId.match_caps_at prev "") eqn:E; [|discriminate].
    intros [= <-]. by apply match_caps_nonempty in E.
  - destruct (IncidentId.match_caps_at prev (String c s)) eqn:E; [|apply IH].
    intros [= <-]. by apply match_caps_nonempty in E.
Qed.

(** An extracted incident id is never the empty string. *)
Lemma extract_nonempty text g :
  IncidentId.extract_incident_id text = Some g -> String.eqb g "" = false.
Proof.
  unfold IncidentId.extract_incident_id. intros H. apply String.eqb_neq.
  destruct (String.eqb text ""); [discriminate|].
  destruct (IncidentId.search_label text) eqn:E1.
  - injection H as <-. by apply search_label_nonempty in E1.
  - destruct (IncidentId.search_caps None text) eqn:E2; [|discriminate].
    injection H as <-. by apply search_caps_nonempty in E2.
Qed.

(** [latest] picks a row of the list that no other row is newer than. *)
Lemma latest_spec rows r :
  latest rows = Some r ->
  r ∈ rows /\ forall r', r' ∈ rows -> (created_at r' <= created_at r)%Q.
Proof.
  revert r. induction rows as [|r0 rest IH]; intros r; simpl; [discriminate|].
  destruct (latest rest) as [r1|] eqn:E.
  - destruct (IH r1 eq_refl) as [Hin Hmax].
    destruct (Qltb (created_at r0) (created_at r1)) eqn:Hlt; intros [= <-].
    + apply Qltb_true in Hlt. split; [by right|].
      intros r' [->|Hr']%elem_of_cons; [lra|by apply Hmax].
    + apply Qltb_false in Hlt. split; [by left|].
      intros r' [->|Hr']%elem_of_cons; [lra|].
      specialize (Hmax r' Hr'). lra.
  - intros [= <-]. split; [by left|].
    intros r' [->|Hr']%elem_of_cons; [lra|].
    destruct rest; [by apply elem_of_nil in Hr'|]. simpl in E.
    destruct (latest rest); [destruct (Qltb _ _)|]; discriminate.
Qed.

Lemma latest_some rows r : r ∈ rows -> exists r', latest rows = Some r'.
Proof.
  destruct rows as [|r0 rest]; [by intros ?%elem_of_nil|]. intros _. simpl.
  destruct (latest rest); [destruct (Qltb _ _)|]; eauto.
Qed.

Lemma dedup_match_spec iid target max_age now r :
  dedup_match iid target max_age now r = true <->
  incident_id r = Some iid
  /\ target_agent r = target
  /\ (now - inject_Z max_age < created_at r)%Q
  /\ (status r = "PENDING" \/ status r = "COMPLETED").
Proof.
  unfold dedup_match. rewrite !andb_true_iff, orb_true_iff, Qgtb_true, !String.eqb_eq.
  destruct (incident_id r) as [i|]; [rewrite String.eqb_eq|]; intuition congruence.
Qed.

Section Tool.

Variable transport : string -> nat -> value + string.
Variable healthy : string -> bool.
Variable uuid4 : string.
Variable py_str : value -> string.

(** The deduplication hit: the result names the newest matching entry, and
    the only effect is that the environment has caught up. *)
Lemma delegate_dedup_hit fuel source target cid request iid w d row :
  IncidentId.extract_incident_id request = Some iid ->
  db w = Some d ->
  row ∈ delegation_logs d ->
  dedup_match iid (_normalize_name target) 300 (now w) row = true ->
  exists newest,
    delegate_to_agent transport healthy uuid4 py_str fuel source target cid request w
    = (Ok (VDict [
         ("status", VStr "already_handled");
         ("delegated_to", VStr target);
         ("handled_by", VStr (World.source_agent newest));
         ("incident_id", VStr iid);
         ("message", VStr (target ++ " was already contacted for incident " ++ iid
                           ++ " by " ++ World.source_agent newest
                           ++ ". No duplicate action needed."))]), sync w)
    /\ newest ∈ delegation_logs d
    /\ dedup_match iid (_normalize_name target) 300 (now w) newest = true
    /\ (created_at row <= created_at newest)%Q.
Proof.
  intros Hid Hdb Hrow Hmatch.
  unfold delegate_to_agent, mbind, M_bind, get_now. rewrite Hid.
  rewrite (extract_nonempty _ _ Hid).
  unfold check_delegation_exists. rewrite (extract_nonempty _ _ Hid).
  destruct (WorldFacts.sync_db_some w d Hdb) as (d' & -> & Hlogs).
  rewrite WorldFacts.sync_now, Hlogs.
  set (hits := List.filter _ (delegation_logs d)).
  assert (Hin : row ∈ hits).
  { apply list_elem_of_In, filter_In. split; [by apply list_elem_of_In|exact Hmatch]. }
  destruct (latest_some _ _ Hin) as [newest Hnew]. rewrite Hnew.
  destruct (latest_spec _ _ Hnew) as [Hnin Hmax].
  apply list_elem_of_In, filter_In in Hnin as [Hnin Hnm].
  exists newest. split; [reflexivity|]. split; [by apply list_elem_of_In|].
  split; [exact Hnm|by apply Hmax].
Qed.

End Tool.

End DelegationFacts.

(** C1, as stated, fails: the lookup returns the newest matching entry, so
    when two entries for the incident and target are live (two delegators
    passed the check before either wrote its entry), a later attempt names
    the source of the newer one, not of the first. *)
Lemma dedup_names_newest_entry :
  let up : string -> nat -> value + string := fun _ _ => inl (VStr "ack") in
  let request := "Send ambulances for RUSHIKONDA_FIRE_001" in
  let w0 := World.fresh 0 (Some World.empty_database) in
  let w1 := (Delegation.create_delegation_log "cid-1" "fire-chief-agent" "medical-agent"
               request (Some "RUSHIKONDA_FIRE_001") w0).2 in
  let w2 := (Delegation.create_delegation_log "cid-2" "police-chief-agent" "medical-agent"
               request (Some "RUSHIKONDA_FIRE_001") (World.set_now 10 w1)).2 in
  let r := Delegation.delegate_to_agent up (fun _ => true) "uuid" (fun _ => "")
             61 "dispatch-agent" "medical-agent" "cid-3" request (World.set_now 20 w2) in
  exists result,
    r.1 = Ok result
    /\ dict_get result "status" = Some (VStr "already_handled")
    /\ dict_get result "handled_by" = Some (VStr "police-chief-agent")
    /\ dict_get result "handled_by" <> Some (VStr "fire-chief-agent").
Proof. vm_compute. eexists. repeat split. discriminate. Qed.

(** C1, amended. A delegation whose extracted incident id and normalised
    target match a ledger entry created less than 300 s ago with status
    PENDING or COMPLETED returns [already_handled], naming the source agent
    of the newest such entry - the given entry's source when no other
    matching entry is as new - and does nothing else: no delivery attempt,
    no sleep, no handshake record, no change to the circuits or the
    ledger. *)
Theorem delegation_deduplication
    (transport : string -> nat -> value + string) (healthy : string -> bool)
    (uuid4 : string) (py_str : value -> string) (fuel : nat)
    (source target cid request iid : string)
    (w : World.world) (d : World.database) (first : World.delegation_log) :
  IncidentId.extract_incident_id request = Some iid ->
  World.db w = Some d ->
  first ∈ World.delegation_logs d ->
  World.incident_id first = Some iid ->
  World.target_agent first = Client._normalize_name target ->
  (World.now w - 300 < World.created_at first)%Q ->
  World.status first = "PENDING" \/ World.status first = "COMPLETED" ->
  exists newest result w',
    Delegation.delegate_to_agent transport healthy uuid4 py_str fuel source target cid
      request w = (Ok result, w')
    /\ dict_get result "status" = Some (VStr "already_handled")
    /\ dict_get result "handled_by" = Some (VStr (World.source_agent newest))
    /\ newest ∈ World.delegation_logs d
    /\ Delegation.dedup_match iid (Client._normalize_name target) 300 (World.now w) newest
       = true
    /\ (World.created_at first <= World.created_at newest)%Q
    /\ ((forall other, other ∈ World.delegation_logs d ->
           Delegation.dedup_match iid (Client._normalize_name target) 300 (World.now w)
             other = true ->
           (World.created_at first <= World.created_at other)%Q -> other = first) ->
        newest = first)
    /\ w' = World.sync w
    /\ World.trace w' = World.trace w
    /\ World.circuits w' = World.circuits w
    /\ World.pending_handshakes w' = World.pending_handshakes (World.sync w)
    /\ World.delegation_logs <$> World.db w' = Some (World.delegation_logs d).
Proof.
  intros Hid Hdb Hin Hinc Htgt Hage Hst.
  assert (Hmatch : Delegation.dedup_match iid (Client._normalize_name target) 300
                     (World.now w) first = true).
  { apply DelegationFacts.dedup_match_spec. repeat split; try assumption. }
  destruct (DelegationFacts.delegate_dedup_hit transport healthy uuid4 py_str fuel source
              target cid request iid w d first Hid Hdb Hin Hmatch)
    as (newest & Hrun & Hnin & Hnm & Hle).
  exists newest. eexists. eexists. split; [exact Hrun|].
  split; [reflexivity|]. split; [reflexivity|]. split; [exact Hnin|].
  split; [exact Hnm|]. split; [exact Hle|]. split.
  - intros Honly. exact (Honly newest Hnin Hnm Hle).
  - split; [reflexivity|]. split; [apply WorldFacts.sync_trace|].
    split; [apply WorldFacts.sync_circuits|]. split; [reflexivity|].
    by rewrite WorldFacts.sync_ledger, Hdb.
Qed.

Lemma delegation_deduplication_witness :
  let request := "Send ambulances for RUSHIKONDA_FIRE_001" in
  let first := {|
    World.correlation_id := "cid-1"; World.source_agent := "fire-chief-agent";
    World.target_agent := "medical-agent"; World.request_text := request;
    World.incident_id := Some "RUSHIKONDA_FIRE_001"; World.created_at := 0;
    World.completed_at := None; World.duration_ms := None;
    World.tools_called := VList []; World.tool_results := VList [];
    World.prompt_tokens := 0; World.completion_tokens := 0; World.total_tokens := 0;
    World.final_response := VNone; World.status := "PENDING" |} in
  let d := {| World.handshakes := ∅; World.delegation_logs := [first] |} in
  let w := World.fresh 20 (Some d) in
  let down : string -> nat -> value + string := fun _ _ => inr "connection refused" in
  exists result w',
    Delegation.delegate_to_agent down (fun _ => true) "uuid" (fun _ => "") 61
      "police-chief-agent" "medical-agent" "cid-2" request w = (Ok result, w')
    /\ dict_get result "status" = Some (VStr "already_handled")
    /\ dict_get result "handled_by" = Some (VStr "fire-chief-agent")
    /\ World.trace w' = [].
Proof.
  intros request first d w down.
  destruct (delegation_deduplication down (fun _ => true) "uuid" (fun _ => "") 61
              "police-chief-agent" "medical-agent" "cid-2" request "RUSHIKONDA_FIRE_001"
              w d first)
    as (newest & result & w' & Hrun & Hstatus & Hby & _ & _ & _ & Honly & _ & Htrace & _).
  - reflexivity.
  - reflexivity.
  - constructor.
  - reflexivity.
  - reflexivity.
  - vm_compute. reflexivity.
  - left. reflexivity.
  - exists result, w'. split; [exact Hrun|]. split; [exact Hstatus|].
    split; [|exact Htrace].
    rewrite Hby, Honly; [reflexivity|].
    intros other Hother _ _. by apply list_elem_of_singleton in Hother.
Defined.

(** Two attempts end to end. The first delegation is answered and its entry
    becomes COMPLETED; a second delegation for the same incident, 100 s
    later and from another agent, is answered from the ledger. *)
Example dedup_end_to_end :
  let up : string -> nat -> value + string := fun _ _ => inl (VStr "ack") in
  let request := "Send ambulances for RUSHIKONDA_FIRE_001" in
  let answer := {| World.res_time := 2; World.res_local := false;
                   World.res_cid := "cid-1";
                   World.res_result := VDict [("message", VStr "2 ambulances sent")] |} in
  let w0 := World.set_agenda [answer] (World.fresh 0 (Some World.empty_database)) in
  let r1 := Delegation.delegate_to_agent up (fun _ => true) "uuid" (fun _ => "") 61
              "fire-chief-agent" "medical-agent" "cid-1" request w0 in
  let r2 := Delegation.delegate_to_agent up (fun _ => true) "uuid" (fun _ => "") 61
              "police-chief-agent" "medical-agent" "cid-2" request
              (World.set_now 100 r1.2) in
  (exists v, r1.1 = Ok v /\ dict_get v "status" = Some (VStr "delegated"))
  /\ (exists v, r2.1 = Ok v
                /\ dict_get v "status" = Some (VStr "already_handled")
                /\ dict_get v "handled_by" = Some (VStr "fire-chief-agent"))
  /\ World.trace r2.2 = World.trace r1.2.
Proof. vm_compute. split; [|split]; [eexists; split; reflexivity| |reflexivity].
  eexists. repeat split. Qed.

(** The same two attempts through a tool whose target is spelled with an
    underscore. The entry is written under the spelling given, the lookup
    searches for the normalised spelling, and the second delegation goes to
    the network again. *)
Example dedup_misses_underscore_target :
  let up : string -> nat -> value + string := fun _ _ => inl (VStr "ack") in
  let request := "Send ambulances for RUSHIKONDA_FIRE_001" in
  let answer := {| World.res_time := 2; World.res_local := false;
                   World.res_cid := "cid-1";
                   World.res_result := VDict [("message", VStr "2 ambulances sent")] |} in
  let w0 := World.set_agenda [answer] (World.fresh 0 (Some World.empty_database)) in
  let r1 := Delegation.delegate_to_agent up (fun _ => true) "uuid" (fun _ => "") 61
              "fire-chief-agent" "medical_agent" "cid-1" request w0 in
  let r2 := Delegation.delegate_to_agent up (fun _ => true) "uuid" (fun _ => "") 61
              "police-chief-agent" "medical_agent" "cid-2" request
              (World.set_now 100 r1.2) in
  (exists v, r1.1 = Ok v /\ dict_get v "status" = Some (VStr "delegated"))
  /\ (exists v, r2.1 = Ok v /\ dict_get v "status" <> Some (VStr "already_handled"))
  /\ Client.deliveries_to "medical-agent" (World.trace r2.2)
     = S (Client.deliveries_to "medical-agent" (World.trace r1.2)).
Proof. vm_compute. split; [|split]; [eexists; split; reflexivity| |reflexivity].
  eexists. split; [reflexivity|discriminate]. Qed.

(** ** Footprints, termination and postconditions *)

Module SpecFacts.

Import World Client Spec.

Lemma only_same T n : only T n T = n.
Proof. unfold only. by rewrite String.eqb_refl. Qed.

Lemma only_other T n t : t <> T -> only T n t = O.
Proof. intros H. unfold only. apply String.eqb_neq in H. by rewrite H. Qed.

Lemma deliveries_to_sleep t d evs :
  deliveries_to t (Sleep d :: evs) = deliveries_to t evs.
Proof. reflexivity. Qed.

Section Footprint.

Context {A B : Type}.
Implicit Types (m : M A) (k : A -> M B) (b : string -> nat).

Lemma footprint_weaken m b b' :
  (forall t, (b t <= b' t)%nat) -> footprint m b -> footprint m b'.
Proof.
  intros Hle Hm w. destruct (Hm w) as (evs & Htr & Hb).
  exists evs. split; [exact Htr|]. intros t. specialize (Hb t). specialize (Hle t). lia.
Qed.

Lemma footprint_ret (a : A) : footprint (mret a) nothing.
Proof. intros w. exists []. split; [by rewrite app_nil_r|]. intros t. simpl. done. Qed.

Lemma footprint_raise (e : exn) : footprint (raise e : M A) nothing.
Proof. intros w. exists []. split; [by rewrite app_nil_r|]. intros t. simpl. done. Qed.

(** A step that leaves the trace alone. *)
Lemma footprint_quiet m : (forall w, trace (m w).2 = trace w) -> footprint m nothing.
Proof.
  intros H w. exists []. split; [by rewrite app_nil_r, H|]. intros t. simpl. done.
Qed.

Lemma footprint_bind m k b1 b2 :
  footprint m b1 -> (forall a, footprint (k a) b2) -> footprint (m ≫= k) (plus b1 b2).
Proof.
  intros Hm Hk w. unfold mbind, M_bind.
  destruct (Hm w) as (evs1 & Htr1 & Hb1).
  destruct (m w) as [[a|e|] w1]; simpl in Htr1.
  - destruct (Hk a w1) as (evs2 & Htr2 & Hb2).
    exists (evs1 ++ evs2)%list. split; [by rewrite Htr2, Htr1, app_assoc|].
    intros t. rewrite ClientFacts.deliveries_to_app. unfold plus.
    specialize (Hb1 t). specialize (Hb2 t). lia.
  - exists evs1. split; [exact Htr1|]. intros t. unfold plus. specialize (Hb1 t). lia.
  - exists evs1. split; [exact Htr1|]. intros t. unfold plus. specialize (Hb1 t). lia.
Qed.

End Footprint.

Lemma footprint_try_except {A} (body : M A) (handler : exn -> M A) b1 b2 :
  footprint body b1 -> (forall e, footprint (handler e) b2) ->
  footprint (try_except body handler) (plus b1 b2).
Proof.
  intros Hm Hk w. unfold try_except.
  destruct (Hm w) as (evs1 & Htr1 & Hb1).
  destruct (body w) as [[a|e|] w1]; simpl in Htr1.
  - exists evs1. split; [exact Htr1|]. intros t. unfold plus. specialize (Hb1 t). lia.
  - destruct (Hk e w1) as (evs2 & Htr2 & Hb2).
    exists (evs1 ++ evs2)%list. split; [by rewrite Htr2, Htr1, app_assoc|].
    intros t. rewrite ClientFacts.deliveries_to_app. unfold plus.
    specialize (Hb1 t). specialize (Hb2 t). lia.
  - exists evs1. split; [exact Htr1|]. intros t. unfold plus. specialize (Hb1 t). lia.
Qed.

(** *** Termination *)

Lemma terminates_bind {A B} (m : M A) (k : A -> M B) :
  terminates m -> (forall a, terminates (k a)) -> terminates (m ≫= k).
Proof.
  intros Hm Hk w. unfold mbind, M_bind. specialize (Hm w).
  destruct (m w) as [[a|e|] w1]; simpl in *; [apply Hk|done|done].
Qed.

Lemma terminates_try_except {A} (body : M A) (handler : exn -> M A) :
  terminates body -> (forall e, terminates (handler e)) ->
  terminates (try_except body handler).
Proof.
  intros Hm Hk w. unfold try_except. specialize (Hm w).
  destruct (body w) as [[a|e|] w1]; simpl in *; [done|apply Hk|done].
Qed.

Lemma total_terminates {A} (m : M A) : total m -> terminates m.
Proof. intros H w. destruct (H w) as [a ->]. done. Qed.

Lemma total_bind {A B} (m : M A) (k : A -> M B) :
  total m -> (forall a, total (k a)) -> total (m ≫= k).
Proof.
  intros Hm Hk w. unfold mbind, M_bind. destruct (Hm w) as [a Ha].
  destruct (m w) as [r w1]. simpl in Ha. subst r. apply Hk.
Qed.

Lemma total_ret {A} (a : A) : total (mret a).
Proof. intros w. by exists a. Qed.

(** A handler that always returns makes the whole [try] return, provided
    the body terminates. *)
Lemma total_try_except {A} (body : M A) (handler : exn -> M A) :
  terminates body -> (forall e, total (handler e)) -> total (try_except body handler).
Proof.
  intros Hm Hk w. unfold try_except. specialize (Hm w).
  destruct (body w) as [[a|e|] w1]; simpl in *; [by exists a|apply Hk|done].
Qed.

(** *** Postconditions *)

Lemma ensures_bind {A B} (m : M A) (k : A -> M B) Q :
  (forall a, ensures (k a) Q) -> ensures (m ≫= k) Q.
Proof.
  intros Hk w. unfold mbind, M_bind. destruct (m w) as [[a|e|] w1]; [apply Hk|done|done].
Qed.

Lemma ensures_try_except {A} (body : M A) (handler : exn -> M A) Q :
  ensures body Q -> (forall e, ensures (handler e) Q) -> ensures (try_except body handler) Q.
Proof.
  intros Hm Hk w. unfold try_except. specialize (Hm w).
  destruct (body w) as [[a|e|] w1]; [done|apply Hk|done].
Qed.

Lemma ensures_ret {A} (a : A) (Q : A -> world -> Prop) :
  (forall w, Q a w) -> ensures (mret a) Q.
Proof. intros H w. apply H. Qed.

End SpecFacts.

(** ** What the client's operations put on the trace *)

Module ClientSpec.

Import World Client Spec SpecFacts.

Lemma footprint_if {A} (c : bool) (m1 m2 : M A) b1 b2 :
  footprint m1 b1 -> footprint m2 b2 -> footprint (if c then m1 else m2) (plus b1 b2).
Proof.
  intros H1 H2. destruct c.
  - eapply footprint_weaken; [|exact H1]. intros t. unfold plus. lia.
  - eapply footprint_weaken; [|exact H2]. intros t. unfold plus. lia.
Qed.

Lemma footprint_if_same {A} (c : bool) (m1 m2 : M A) b :
  footprint m1 b -> footprint m2 b -> footprint (if c then m1 else m2) b.
Proof. by destruct c. Qed.

(** A step that attempts no delivery does not add to the bound. *)
Lemma footprint_bind_quiet {A B} (m : M A) (k : A -> M B) b :
  footprint m nothing -> (forall a, footprint (k a) b) -> footprint (m ≫= k) b.
Proof.
  intros Hm Hk. eapply footprint_weaken; [|by apply footprint_bind].
  intros t. unfold plus, nothing. lia.
Qed.

Lemma footprint_modify (f : world -> world) :
  (forall w, trace (f w) = trace w) -> footprint (modify f) nothing.
Proof. intros H. apply footprint_quiet. intros w. apply H. Qed.

Lemma footprint_allow_request T : footprint (allow_request T) nothing.
Proof.
  apply footprint_quiet. intros w. unfold allow_request.
  by destruct (CircuitBreaker.allow_request _ _ _).
Qed.

Lemma footprint_record_success T : footprint (record_success T) nothing.
Proof. by apply footprint_modify. Qed.

Lemma footprint_record_failure T : footprint (record_failure T) nothing.
Proof. by apply footprint_modify. Qed.

Lemma footprint_get_client S T : footprint (get_client S T) nothing.
Proof. by apply footprint_modify. Qed.

Lemma footprint_drop_client S T : footprint (drop_client S T) nothing.
Proof. by apply footprint_modify. Qed.

Lemma footprint_sleep d : footprint (sleep d) nothing.
Proof.
  intros w. exists [Sleep d]. split; [|by intros t].
  unfold sleep. cbn [snd]. by rewrite WorldFacts.sync_trace.
Qed.

Lemma footprint_register_future cid : footprint (register_future cid) nothing.
Proof. by apply footprint_modify. Qed.

Lemma footprint_pop_pending cid : footprint (pop_pending cid) nothing.
Proof. by apply footprint_modify. Qed.

Lemma delete_handshake_trace cid w : trace (delete_handshake cid w) = trace w.
Proof. unfold delete_handshake. by destruct (db w). Qed.

Section Transport.

Variable transport : string -> nat -> value + string.
Variable healthy : string -> bool.
Variable uuid4 : string.

Lemma footprint_deliver T m : footprint (deliver transport T m) (only T 1).
Proof.
  intros w. exists [Delivery T m]. split.
  - unfold deliver. by destruct (transport T _).
  - intros t. unfold only. simpl. rewrite (String.eqb_sym T t).
    by destruct (String.eqb t T).
Qed.

(** One attempt of the retry loop makes one delivery attempt. *)
Lemma footprint_send_attempts n attempt retries S T m :
  footprint (send_attempts transport n attempt retries S T m) (only T n).
Proof.
  revert attempt. induction n as [|n IH]; intros attempt.
  - cbn [send_attempts]. eapply footprint_weaken; [|apply footprint_ret].
    intros t. unfold nothing, only. destruct (String.eqb t T); lia.
  - cbn [send_attempts]. eapply footprint_weaken; cycle 1.
    + apply footprint_try_except.
      * apply footprint_bind; [apply footprint_get_client|intros _].
        apply footprint_bind; [apply footprint_deliver|intros response].
        apply footprint_bind; [apply footprint_record_success|intros _].
        apply footprint_ret.
      * intros e.
        apply footprint_bind; [apply footprint_record_failure|intros _].
        apply footprint_bind; [apply footprint_drop_client|intros _].
        apply footprint_if; [apply footprint_raise|].
        apply footprint_bind; [apply footprint_sleep|intros _]. apply IH.
    + intros t. unfold plus, nothing, only. destruct (String.eqb t T); lia.
Qed.

Lemma footprint_send_message S T m retries check_health :
  footprint (send_message transport healthy S T m retries check_health)
    (only (_normalize_name T) (Z.to_nat (retries + 1))).
Proof.
  unfold send_message. eapply footprint_weaken; cycle 1.
  - apply footprint_bind; [apply footprint_allow_request|intros allowed].
    apply footprint_if; [apply footprint_ret|].
    apply footprint_if.
    + apply footprint_bind; [apply footprint_record_failure|intros _].
      apply footprint_ret.
    + apply footprint_send_attempts.
  - intros t. unfold plus, nothing. lia.
Qed.

Lemma footprint_create_handshake_record cid :
  footprint (_create_handshake_record cid) nothing.
Proof.
  apply footprint_quiet. intros w. unfold _create_handshake_record.
  destruct (db (sync w)); cbn; apply WorldFacts.sync_trace.
Qed.

Lemma footprint_poll_loop fuel cid timeout start :
  footprint (_poll_loop fuel cid timeout start) nothing.
Proof.
  induction fuel as [|fuel IH]; intros w; cbn [_poll_loop].
  - destruct (Qltb _ _); exists []; rewrite app_nil_r; (split; [|by intros t]);
      [reflexivity|]. cbn. by rewrite delete_handshake_trace, WorldFacts.sync_trace.
  - destruct (Qltb _ _).
    + assert (Hagain : exists evs,
                trace ((sleep 1;; _poll_loop fuel cid timeout start) (sync w)).2
                = (trace w ++ evs)%list /\ forall t, (deliveries_to t evs <= nothing t)%nat).
      { destruct (footprint_bind (sleep 1) (fun _ => _poll_loop fuel cid timeout start)
                    nothing nothing (footprint_sleep 1) (fun _ => IH) (sync w))
          as (evs & Htr & Hb).
        exists evs. rewrite WorldFacts.sync_trace in Htr. split; [exact Htr|exact Hb]. }
      destruct (fetch_handshake cid (sync w)) as [row|]; [|exact Hagain].
      destruct (String.eqb (hs_status row) "COMPLETED"); [|exact Hagain].
      exists []. rewrite app_nil_r. split; [|by intros t]. cbn.
      by rewrite delete_handshake_trace, WorldFacts.sync_trace.
    + exists []. rewrite app_nil_r. split; [|by intros t]. cbn.
      by rewrite delete_handshake_trace, WorldFacts.sync_trace.
Qed.

Lemma footprint_poll_handshake_result fuel cid timeout :
  footprint (_poll_handshake_result fuel cid timeout) nothing.
Proof.
  intros w. unfold _poll_handshake_result. destruct (db w).
  - apply footprint_poll_loop.
  - exists []. rewrite app_nil_r. split; [reflexivity|by intros t].
Qed.

Lemma footprint_wait_for cid timeout : footprint (wait_for cid timeout) nothing.
Proof.
  apply footprint_quiet. intros w. unfold wait_for.
  destruct (futures (sync w) !! cid) as [[r|]|]; cbn [snd];
    [apply WorldFacts.sync_trace| |].
  all: destruct (earliest _) as [t|]; cbn [snd].
  all: try destruct (futures (sync (set_now t (sync w))) !! cid) as [[r|]|]; cbn [snd].
  all: rewrite ?WorldFacts.sync_trace; cbn [trace set_now];
    rewrite ?WorldFacts.sync_trace; cbn [trace set_now];
    rewrite ?WorldFacts.sync_trace; reflexivity.
Qed.

(** A handshake makes at most the four delivery attempts of its one
    [send_message], all to its (normalised) target. *)
Lemma footprint_handshake fuel S T payload cid timeout :
  footprint (send_request_with_handshake transport healthy uuid4 fuel S T payload cid
               timeout)
    (only (_normalize_name T) 4).
Proof.
  unfold send_request_with_handshake, handshake_attempt. eapply footprint_weaken; cycle 1.
  - apply footprint_bind; [apply footprint_allow_request|intros allowed].
    apply footprint_if; [apply footprint_raise|].
    apply footprint_bind; [apply footprint_create_handshake_record|intros db_available].
    apply footprint_bind; [apply footprint_register_future|intros _].
    apply footprint_try_except.
    + apply footprint_bind; [apply footprint_send_message|intros _].
      apply footprint_if.
      * apply footprint_bind; [apply footprint_poll_handshake_result|intros result].
        apply footprint_if; [|apply footprint_raise].
        apply footprint_bind; [apply footprint_record_success|intros _].
        apply footprint_bind; [apply footprint_pop_pending|intros _].
        apply footprint_ret.
      * apply footprint_bind; [apply footprint_wait_for|intros result].
        apply footprint_bind; [apply footprint_record_success|intros _].
        apply footprint_ret.
    + intros e. instantiate (1 := nothing). destruct e.
      all: apply (footprint_weaken _ (plus nothing (plus nothing nothing)));
        [by intros t|].
      all: apply footprint_bind; [apply footprint_record_failure|intros _].
      all: apply footprint_bind; [apply footprint_pop_pending|intros _].
      all: apply footprint_raise.
  - intros t. unfold plus, nothing, only.
    rewrite ClientFacts.normalize_idem.
    change (Z.to_nat (3 + 1)) with 4%nat. destruct (String.eqb t _); lia.
Qed.

End Transport.

End ClientSpec.

(** ** The time a send takes is the time it sleeps *)

Module ClientClock.

Import World Client Spec SpecFacts.

Lemma sleep_total_app (tr1 tr2 : list event) :
  (sleep_total (tr1 ++ tr2) == sleep_total tr1 + sleep_total tr2)%Q.
Proof.
  induction tr1 as [|[target m|d] tr1 IH]; cbn [sleep_total app].
  - ring.
  - exact IH.
  - rewrite IH. ring.
Qed.

Lemma sleep_total_polls (n : nat) :
  (sleep_total (replicate n (Sleep 1)) == inject_Z (Z.of_nat n))%Q.
Proof.
  induction n as [|n IH]; [reflexivity|].
  cbn [replicate sleep_total]. rewrite IH, Nat2Z.inj_succ, <- Z.add_1_l, inject_Z_plus.
  reflexivity.
Qed.

Lemma timed_still {A} (m : M A) :
  (forall w, trace (m w).2 = trace w /\ now (m w).2 = now w) -> timed m.
Proof.
  intros H w. destruct (H w) as [Htr Hn]. exists [].
  rewrite Htr, Hn, app_nil_r. split; [done|]. cbn. ring.
Qed.

Lemma timed_bind {A B} (m : M A) (k : A -> M B) :
  timed m -> (forall a, timed (k a)) -> timed (m ≫= k).
Proof.
  intros Hm Hk w. unfold mbind, M_bind. destruct (Hm w) as (evs1 & Htr1 & Hn1).
  destruct (m w) as [[a|e|] w1]; cbn [snd] in *; [|by exists evs1|by exists evs1].
  destruct (Hk a w1) as (evs2 & Htr2 & Hn2). exists (evs1 ++ evs2)%list.
  split; [by rewrite Htr2, Htr1, app_assoc|].
  rewrite Hn2, Hn1, sleep_total_app. ring.
Qed.

Lemma timed_try_except {A} (body : M A) (handler : exn -> M A) :
  timed body -> (forall e, timed (handler e)) -> timed (try_except body handler).
Proof.
  intros Hm Hk w. unfold try_except. destruct (Hm w) as (evs1 & Htr1 & Hn1).
  destruct (body w) as [[a|e|] w1]; cbn [snd] in *; [by exists evs1| |by exists evs1].
  destruct (Hk e w1) as (evs2 & Htr2 & Hn2). exists (evs1 ++ evs2)%list.
  split; [by rewrite Htr2, Htr1, app_assoc|].
  rewrite Hn2, Hn1, sleep_total_app. ring.
Qed.

Lemma timed_ret {A} (a : A) : timed (mret a).
Proof. by apply timed_still. Qed.

Lemma timed_raise {A} e : timed (raise e : M A).
Proof. by apply timed_still. Qed.

Lemma timed_if {A} (c : bool) (m1 m2 : M A) :
  timed m1 -> timed m2 -> timed (if c then m1 else m2).
Proof. by destruct c. Qed.

Lemma timed_allow_request T : timed (allow_request T).
Proof.
  apply timed_still. intros w. unfold allow_request.
  by destruct (CircuitBreaker.allow_request _ _ _).
Qed.

Lemma timed_record_success T : timed (record_success T).
Proof. by apply timed_still. Qed.

Lemma timed_record_failure T : timed (record_failure T).
Proof. by apply timed_still. Qed.

Lemma timed_get_client S T : timed (get_client S T).
Proof. by apply timed_still. Qed.

Lemma timed_drop_client S T : timed (drop_client S T).
Proof. by apply timed_still. Qed.

Lemma timed_sleep d : timed (sleep d).
Proof.
  intros w. exists [Sleep d]. unfold sleep. cbn [snd].
  rewrite WorldFacts.sync_trace, WorldFacts.sync_now. split; [done|]. cbn. ring.
Qed.

Section Transport.

Variable transport : string -> nat -> value + string.
Variable healthy : string -> bool.

Lemma timed_deliver T m : timed (deliver transport T m).
Proof.
  intros w. exists [Delivery T m]. unfold deliver.
  destruct (transport T _); cbn; (split; [done|ring]).
Qed.

Lemma timed_send_attempts n attempt retries S T m :
  timed (send_attempts transport n attempt retries S T m).
Proof.
  revert attempt. induction n as [|n IH]; intros attempt; cbn [send_attempts].
  - apply timed_ret.
  - apply timed_try_except.
    + apply timed_bind; [apply timed_get_client|intros _].
      apply timed_bind; [apply timed_deliver|intros response].
      apply timed_bind; [apply timed_record_success|intros _]. apply timed_ret.
    + intros e.
      apply timed_bind; [apply timed_record_failure|intros _].
      apply timed_bind; [apply timed_drop_client|intros _].
      apply timed_if; [apply timed_raise|].
      apply timed_bind; [apply timed_sleep|intros _]. apply IH.
Qed.

Lemma timed_send_message S T m retries check_health :
  timed (send_message transport healthy S T m retries check_health).
Proof.
  unfold send_message.
  apply timed_bind; [apply timed_allow_request|intros allowed].
  apply timed_if; [apply timed_ret|].
  apply timed_if; [|apply timed_send_attempts].
  apply timed_bind; [apply timed_record_failure|intros _]. apply timed_ret.
Qed.

(** What a send with three retries adds to the trace, and the time it
    takes. *)
Lemma send_message_sent S target m w :
  let T := _normalize_name target in
  exists sent,
    trace (send_message transport healthy S T m 3 false w).2 = (trace w ++ sent)%list
    /\ (now (send_message transport healthy S T m 3 false w).2
        == now w + sleep_total sent)%Q
    /\ (forall t, (deliveries_to t sent <= only T 4 t)%nat).
Proof.
  intros T.
  destruct (timed_send_message S T m 3 false w) as (sent & Htr & Hn).
  destruct (ClientSpec.footprint_send_message transport healthy S T m 3 false w)
    as (evs & Htr' & Hb).
  rewrite Htr in Htr'. apply app_inv_head in Htr'. subst evs.
  exists sent. split; [exact Htr|]. split; [exact Hn|].
  intros t. specialize (Hb t).
  replace (_normalize_name T) with T in Hb by (symmetry; apply ClientFacts.normalize_idem).
  exact Hb.
Qed.

(** The polling loop sleeps a second at a time, and no more often than
    there are whole seconds left of the timeout. *)
Lemma poll_loop_sleeps fuel cid timeout start w (j : Z) :
  (now w - start == inject_Z j)%Q ->
  exists n,
    trace (_poll_loop fuel cid timeout start w).2 = (trace w ++ replicate n (Sleep 1))%list
    /\ (n <= Z.to_nat (timeout - j))%nat.
Proof.
  revert w j. induction fuel as [|fuel IH]; intros w j Hnow; cbn [_poll_loop].
  - exists 0%nat. split; [|lia]. rewrite app_nil_r.
    destruct (Qltb _ _); cbn [snd]; [done|].
    by rewrite ClientSpec.delete_handshake_trace, WorldFacts.sync_trace.
  - destruct (Qltb _ _) eqn:Hlt.
    + apply Qltb_true in Hlt. rewrite Hnow, <- Zlt_Qlt in Hlt.
      assert (Hagain : exists n,
                trace ((sleep 1;; _poll_loop fuel cid timeout start) (sync w)).2
                = (trace w ++ replicate n (Sleep 1))%list
                /\ (n <= Z.to_nat (timeout - j))%nat).
      { unfold mbind, M_bind, sleep.
        set (w2 := sync (set_now _ _)).
        destruct (IH w2 (j + 1)%Z) as (n & Htr & Hle).
        { subst w2. rewrite WorldFacts.sync_now. cbn [now set_now set_trace].
          rewrite WorldFacts.sync_now, inject_Z_plus, <- Hnow.
          change (inject_Z 1) with 1%Q. ring. }
        exists (S n). split; [|lia]. rewrite Htr. subst w2.
        rewrite WorldFacts.sync_trace. cbn [trace set_now set_trace].
        rewrite WorldFacts.sync_trace, <- app_assoc. reflexivity. }
      destruct (fetch_handshake cid (sync w)) as [row|]; [|exact Hagain].
      destruct (String.eqb (hs_status row) "COMPLETED"); [|exact Hagain].
      exists 0%nat. split; [|lia]. rewrite app_nil_r. cbn [snd].
      by rewrite ClientSpec.delete_handshake_trace, WorldFacts.sync_trace.
    + exists 0%nat. split; [|lia]. rewrite app_nil_r. cbn [snd].
      by rewrite ClientSpec.delete_handshake_trace, WorldFacts.sync_trace.
Qed.

End Transport.

End ClientClock.

(** ** Termination of the client's operations *)

Module ClientTermination.

Import World Client Spec SpecFacts.

Lemma total_modify (f : world -> world) : total (modify f).
Proof. intros w. by exists tt. Qed.

Lemma total_allow_request T : total (allow_request T).
Proof.
  intros w. unfold allow_request. destruct (CircuitBreaker.allow_request _ _ _) as [b cs].
  by exists b.
Qed.

Lemma total_sleep d : total (sleep d).
Proof. intros w. by exists tt. Qed.

Lemma terminates_raise {A} e : terminates (raise e : M A).
Proof. by intros w. Qed.

Lemma terminates_ret {A} (a : A) : terminates (mret a).
Proof. by intros w. Qed.

Lemma terminates_if {A} (c : bool) (m1 m2 : M A) :
  terminates m1 -> terminates m2 -> terminates (if c then m1 else m2).
Proof. by destruct c. Qed.

Section Transport.

Variable transport : string -> nat -> value + string.
Variable healthy : string -> bool.
Variable uuid4 : string.

Lemma terminates_deliver T m : terminates (deliver transport T m).
Proof. intros w. unfold deliver. by destruct (transport T _). Qed.

Lemma terminates_send_attempts n attempt retries S T m :
  terminates (send_attempts transport n attempt retries S T m).
Proof.
  revert attempt. induction n as [|n IH]; intros attempt; cbn [send_attempts].
  - apply terminates_ret.
  - apply terminates_try_except.
    + apply terminates_bind; [apply total_terminates, total_modify|intros _].
      apply terminates_bind; [apply terminates_deliver|intros response].
      apply terminates_bind; [apply total_terminates, total_modify|intros _].
      apply terminates_ret.
    + intros e.
      apply terminates_bind; [apply total_terminates, total_modify|intros _].
      apply terminates_bind; [apply total_terminates, total_modify|intros _].
      apply terminates_if; [apply terminates_raise|].
      apply terminates_bind; [apply total_terminates, total_sleep|intros _]. apply IH.
Qed.

Lemma terminates_send_message S T m retries check_health :
  terminates (send_message transport healthy S T m retries check_health).
Proof.
  unfold send_message.
  apply terminates_bind; [apply total_terminates, total_allow_request|intros allowed].
  apply terminates_if; [apply terminates_ret|].
  apply terminates_if; [|apply terminates_send_attempts].
  apply terminates_bind; [apply total_terminates, total_modify|intros _].
  apply terminates_ret.
Qed.

Lemma total_create_handshake_record cid : total (_create_handshake_record cid).
Proof.
  intros w. unfold _create_handshake_record. destruct (db (sync w)); eauto.
Qed.

(** The polling loop ends within the fuel whenever the fuel exceeds the
    number of whole seconds left until the timeout: the clock stands [j]
    seconds after the start and every turn sleeps one second. *)
Lemma poll_loop_terminates fuel cid timeout start w (j : Z) :
  (now w - start == inject_Z j)%Q ->
  (Z.to_nat (timeout - j) < fuel)%nat ->
  (_poll_loop fuel cid timeout start w).1 <> OutOfFuel.
Proof.
  revert w j. induction fuel as [|fuel IH]; intros w j Hnow Hfuel; [lia|].
  cbn [_poll_loop]. destruct (Qltb _ _) eqn:Hlt; [|done].
  apply Qltb_true in Hlt. rewrite Hnow, <- Zlt_Qlt in Hlt.
  assert (Hagain : ((sleep 1;; _poll_loop fuel cid timeout start) (sync w)).1 <> OutOfFuel).
  { unfold mbind, M_bind, sleep. apply (IH _ (j + 1)%Z); [|lia].
    rewrite WorldFacts.sync_now. cbn [now set_now set_trace].
    rewrite WorldFacts.sync_now, inject_Z_plus, <- Hnow.
    change (inject_Z 1) with 1%Q. ring. }
  destruct (fetch_handshake cid (sync w)) as [row|]; [|exact Hagain].
  by destruct (String.eqb (hs_status row) "COMPLETED").
Qed.

Lemma terminates_poll_handshake_result fuel cid timeout :
  (Z.to_nat timeout < fuel)%nat -> terminates (_poll_handshake_result fuel cid timeout).
Proof.
  intros Hfuel w. unfold _poll_handshake_result. destruct (db w); [|done].
  apply (poll_loop_terminates _ _ _ _ _ 0%Z); [|by rewrite Z.sub_0_r].
  change (inject_Z 0) with 0%Q. ring.
Qed.

Lemma terminates_wait_for cid timeout : terminates (wait_for cid timeout).
Proof.
  intros w. unfold wait_for.
  destruct (futures (sync w) !! cid) as [[r|]|]; [done| |].
  all: destruct (earliest _) as [t|]; [|done].
  all: by destruct (futures (sync (set_now t (sync w))) !! cid) as [[r|]|].
Qed.

(** A handshake ends - by returning or by raising - when the fuel exceeds
    its timeout in seconds. *)
Lemma terminates_handshake fuel S T payload cid timeout :
  (Z.to_nat timeout < fuel)%nat ->
  terminates (send_request_with_handshake transport healthy uuid4 fuel S T payload cid
                timeout).
Proof.
  intros Hfuel. unfold send_request_with_handshake, handshake_attempt.
  apply terminates_bind; [apply total_terminates, total_allow_request|intros allowed].
  apply terminates_if; [apply terminates_raise|].
  apply terminates_bind; [apply total_terminates, total_create_handshake_record|].
  intros db_available.
  apply terminates_bind; [apply total_terminates, total_modify|intros _].
  apply terminates_try_except.
  - apply terminates_bind; [apply terminates_send_message|intros _].
    apply terminates_if.
    + apply terminates_bind; [by apply terminates_poll_handshake_result|intros result].
      apply terminates_if; [|apply terminates_raise].
      apply terminates_bind; [apply total_terminates, total_modify|intros _].
      apply terminates_bind; [apply total_terminates, total_modify|intros _].
      apply terminates_ret.
    + apply terminates_bind; [apply terminates_wait_for|intros result].
      apply terminates_bind; [apply total_terminates, total_modify|intros _].
      apply terminates_ret.
  - intros e. destruct e.
    all: apply terminates_bind; [apply total_terminates, total_modify|intros _].
    all: apply terminates_bind; [apply total_terminates, total_modify|intros _].
    all: apply terminates_raise.
Qed.

End Transport.

End ClientTermination.

(** ** Footprint, totality and ledger outcome of a delegation *)

Module DelegationSpec.

Import World Client Delegation Spec SpecFacts ClientSpec ClientTermination.

Lemma total_get_now : total get_now.
Proof. intros w. by exists (now w). Qed.

Lemma footprint_get_now : footprint get_now nothing.
Proof. by apply footprint_quiet. Qed.

Lemma total_elapsed_ms start : total (elapsed_ms start).
Proof. intros w. eexists. reflexivity. Qed.

Lemma footprint_elapsed_ms start : footprint (elapsed_ms start) nothing.
Proof. by apply footprint_quiet. Qed.

Lemma total_create_delegation_log cid S T request iid :
  total (create_delegation_log cid S T request iid).
Proof. intros w. unfold create_delegation_log. destruct (db (sync w)); eauto. Qed.

Lemma footprint_create_delegation_log cid S T request iid :
  footprint (create_delegation_log cid S T request iid) nothing.
Proof.
  apply footprint_quiet. intros w. unfold create_delegation_log.
  destruct (db (sync w)); cbn; apply WorldFacts.sync_trace.
Qed.

(** The update either writes the rows or leaves the world as the
    environment left it. *)
Lemma update_delegation_log_cases cid tc tr fr dur pt ct st w :
  update_delegation_log cid tc tr fr dur pt ct st w = (Ok false, sync w)
  \/ exists d p c total,
       db (sync w) = Some d
       /\ as_int pt = Some p /\ as_int ct = Some c /\ is_text fr = true
       /\ update_delegation_log cid tc tr fr dur pt ct st w
          = (Ok true,
             set_db (Some (set_delegation_logs
                             (update_rows cid tc tr fr dur p c total st (now (sync w))
                                (delegation_logs d)) d)) (sync w)).
Proof.
  unfold update_delegation_log.
  destruct (db (sync w)) as [d|]; [|by left].
  destruct (py_add pt ct) as [total|msg]; [|by left].
  destruct (as_int pt) as [p|]; [|by left].
  destruct (as_int ct) as [c|]; [|by left].
  destruct (as_int total) as [n|]; [|by left].
  destruct (is_text fr); [|by left].
  right. by exists d, p, c, n.
Qed.

(** The update made with the token counts left at their default. *)
Lemma update_delegation_log_plain cid tc tr fr dur st w :
  is_text fr = true ->
  update_delegation_log cid tc tr fr dur (VInt 0) (VInt 0) st w
  = match db (sync w) with
    | Some d =>
        (Ok true,
         set_db (Some (set_delegation_logs
                         (update_rows cid tc tr fr dur 0 0 0 st (now (sync w))
                            (delegation_logs d)) d)) (sync w))
    | None => (Ok false, sync w)
    end.
Proof.
  intros Htext. unfold update_delegation_log.
  destruct (db (sync w)) as [d|]; [|done]. cbn. by rewrite Htext.
Qed.

Lemma total_update_delegation_log cid tc tr fr dur pt ct st :
  total (update_delegation_log cid tc tr fr dur pt ct st).
Proof.
  intros w.
  destruct (update_delegation_log_cases cid tc tr fr dur pt ct st w)
    as [->|(d & p & c & n & _ & _ & _ & _ & ->)]; eauto.
Qed.

Lemma footprint_update_delegation_log cid tc tr fr dur pt ct st :
  footprint (update_delegation_log cid tc tr fr dur pt ct st) nothing.
Proof.
  apply footprint_quiet. intros w.
  destruct (update_delegation_log_cases cid tc tr fr dur pt ct st w)
    as [->|(d & p & c & n & _ & _ & _ & _ & ->)]; cbn; apply WorldFacts.sync_trace.
Qed.

Lemma update_rows_status cid tc tr fr dur p c total st now rows row :
  row ∈ update_rows cid tc tr fr dur p c total st now rows ->
  correlation_id row = cid -> status row = st.
Proof.
  unfold update_rows. intros Hrow Hcid.
  apply list_elem_of_fmap in Hrow as (row0 & -> & _).
  destruct (String.eqb (correlation_id row0) cid) eqn:Heq; [reflexivity|].
  apply String.eqb_neq in Heq. done.
Qed.

(** The entries of a correlation id are still there after the UPDATE. *)
Lemma update_rows_entry cid cid' tc tr fr dur p c total st now rows row :
  row ∈ rows -> correlation_id row = cid' ->
  exists row', row' ∈ update_rows cid tc tr fr dur p c total st now rows
               /\ correlation_id row' = cid'.
Proof.
  intros Hrow Hcid. eexists. split.
  - unfold update_rows. apply list_elem_of_fmap. exists row. split; [reflexivity|done].
  - by destruct (String.eqb (correlation_id row) cid).
Qed.

(** After an UPDATE that the store takes, every entry of the correlation
    id carries the new status. The updates made with the token counts at
    their default and a text or no response are taken whenever there is a
    store. *)
Lemma update_delegation_log_status cid tc tr fr dur st w :
  is_text fr = true ->
  ledger_status cid st (update_delegation_log cid tc tr fr dur (VInt 0) (VInt 0) st w).2.
Proof.
  intros Htext. rewrite update_delegation_log_plain by done. unfold ledger_status.
  destruct (db (sync w)) as [d|] eqn:E; cbn [snd]; [|intros d row; congruence].
  intros d' row [= <-] Hrow Hcid. cbn in Hrow.
  by apply update_rows_status in Hrow.
Qed.

(** No update removes the entries of a correlation id. *)
Lemma update_delegation_log_entry cid cid' tc tr fr dur pt ct st :
  preserves (has_entry cid') (update_delegation_log cid tc tr fr dur pt ct st).
Proof.
  intros w (rows & row & Hl & Hrow & Hcid). unfold has_entry, ledger in *.
  rewrite <- WorldFacts.sync_ledger in Hl.
  destruct (update_delegation_log_cases cid tc tr fr dur pt ct st w)
    as [->|(d & p & c & n & Hd & _ & _ & _ & ->)]; cbn [snd].
  - by exists rows, row.
  - rewrite Hd in Hl. cbn in Hl. injection Hl as <-.
    destruct (update_rows_entry cid cid' tc tr fr dur p c n st (now (sync w))
                (delegation_logs d) row Hrow Hcid) as (row' & Hrow' & Hcid').
    eexists _, row'. split; [reflexivity|]. by split.
Qed.

Lemma total_check_delegation_exists iid T age : total (check_delegation_exists iid T age).
Proof.
  intros w. unfold check_delegation_exists.
  destruct (String.eqb iid ""); [eauto|]. destruct (db (sync w)); eauto.
Qed.

Lemma footprint_check_delegation_exists iid T age :
  footprint (check_delegation_exists iid T age) nothing.
Proof.
  apply footprint_quiet. intros w. unfold check_delegation_exists.
  destruct (String.eqb iid ""); [reflexivity|].
  destruct (db (sync w)); cbn; apply WorldFacts.sync_trace.
Qed.

Section Tool.

Variable transport : string -> nat -> value + string.
Variable healthy : string -> bool.
Variable uuid4 : string.
Variable py_str : value -> string.

(** *** The [try] block *)

Lemma footprint_delegate_primary fuel S T cid request start :
  footprint (delegate_primary transport healthy uuid4 py_str fuel S T cid request start)
    (only (_normalize_name T) 4).
Proof.
  unfold delegate_primary. eapply footprint_weaken; cycle 1.
  - apply footprint_bind; [apply footprint_handshake|intros response].
    apply footprint_bind; [apply footprint_elapsed_ms|intros duration_ms].
    apply footprint_bind; [apply footprint_update_delegation_log|intros _].
    destruct (py_add _ _); [apply footprint_ret|apply footprint_raise].
  - intros t. unfold plus, nothing. lia.
Qed.

Lemma terminates_delegate_primary fuel S T cid request start :
  (60 < fuel)%nat ->
  terminates (delegate_primary transport healthy uuid4 py_str fuel S T cid request start).
Proof.
  intros Hfuel. unfold delegate_primary.
  apply terminates_bind; [apply terminates_handshake; simpl; lia|intros response].
  apply terminates_bind; [apply total_terminates, total_elapsed_ms|intros duration_ms].
  apply terminates_bind; [apply total_terminates, total_update_delegation_log|intros _].
  destruct (py_add _ _); [apply terminates_ret|apply terminates_raise].
Qed.

Lemma ensures_delegate_primary fuel S T cid request start :
  ensures (delegate_primary transport healthy uuid4 py_str fuel S T cid request start)
    (failed_means_recorded cid).
Proof.
  unfold delegate_primary.
  apply ensures_bind; intros response. apply ensures_bind; intros duration_ms.
  apply ensures_bind; intros _.
  destruct (py_add _ _); [|by intros w]. apply ensures_ret. intros w. discriminate.
Qed.

(** *** The handlers *)

Lemma total_delegate_timed_out T cid start : total (delegate_timed_out T cid start).
Proof.
  unfold delegate_timed_out.
  apply total_bind; [apply total_elapsed_ms|intros duration_ms].
  apply total_bind; [apply total_update_delegation_log|intros _]. apply total_ret.
Qed.

Lemma footprint_delegate_timed_out T cid start :
  footprint (delegate_timed_out T cid start) nothing.
Proof.
  unfold delegate_timed_out. eapply footprint_weaken; cycle 1.
  - apply footprint_bind; [apply footprint_elapsed_ms|intros duration_ms].
    apply footprint_bind; [apply footprint_update_delegation_log|intros _].
    apply footprint_ret.
  - by intros t.
Qed.

Lemma ensures_delegate_timed_out T cid start :
  ensures (delegate_timed_out T cid start) (failed_means_recorded cid).
Proof.
  unfold delegate_timed_out. apply ensures_bind; intros duration_ms.
  apply ensures_bind; intros _. apply ensures_ret. intros w. discriminate.
Qed.

Lemma total_delegate_failed T cid e duration_ms : total (delegate_failed T cid e duration_ms).
Proof.
  unfold delegate_failed.
  apply total_bind; [apply total_update_delegation_log|intros _]. apply total_ret.
Qed.

Lemma footprint_delegate_failed T cid e duration_ms :
  footprint (delegate_failed T cid e duration_ms) nothing.
Proof.
  unfold delegate_failed. eapply footprint_weaken; cycle 1.
  - apply footprint_bind; [apply footprint_update_delegation_log|intros _].
    apply footprint_ret.
  - by intros t.
Qed.

(** A failed delegation is recorded as FAILED. *)
Lemma ensures_delegate_failed T cid e duration_ms :
  ensures (delegate_failed T cid e duration_ms) (failed_means_recorded cid).
Proof.
  intros w. unfold delegate_failed, mbind, M_bind.
  pose proof (update_delegation_log_status cid VNone VNone (VStr (exn_str e))
                (Some duration_ms) "FAILED" w eq_refl) as Hst.
  destruct (total_update_delegation_log cid VNone VNone (VStr (exn_str e))
              (Some duration_ms) (VInt 0) (VInt 0) "FAILED" w) as [b Hb].
  destruct (update_delegation_log _ _ _ _ _ _ _ _ w) as [r w1]. simpl in Hb. subst r.
  intros _. exact Hst.
Qed.

Lemma footprint_delegate_failover fuel S T F cid request start :
  footprint (delegate_failover transport healthy uuid4 py_str fuel S T F cid request start)
    (only (_normalize_name F) 4).
Proof.
  unfold delegate_failover. eapply footprint_weaken; cycle 1.
  - apply footprint_bind; [apply footprint_handshake|intros response].
    apply footprint_bind; [apply footprint_elapsed_ms|intros duration_ms].
    apply footprint_bind; [apply footprint_update_delegation_log|intros _].
    apply footprint_ret.
  - intros t. unfold plus, nothing. lia.
Qed.

Lemma terminates_delegate_failover fuel S T F cid request start :
  (60 < fuel)%nat ->
  terminates (delegate_failover transport healthy uuid4 py_str fuel S T F cid request
                start).
Proof.
  intros Hfuel. unfold delegate_failover.
  apply terminates_bind; [apply terminates_handshake; simpl; lia|intros response].
  apply terminates_bind; [apply total_terminates, total_elapsed_ms|intros duration_ms].
  apply terminates_bind; [apply total_terminates, total_update_delegation_log|intros _].
  apply terminates_ret.
Qed.

Lemma ensures_delegate_failover fuel S T F cid request start :
  ensures (delegate_failover transport healthy uuid4 py_str fuel S T F cid request start)
    (failed_means_recorded cid).
Proof.
  unfold delegate_failover.
  apply ensures_bind; intros response. apply ensures_bind; intros duration_ms.
  apply ensures_bind; intros _. apply ensures_ret. intros w. discriminate.
Qed.

(** The [except] branch makes one handshake with the backup at most, and
    attempts no delivery to anyone else. *)
Lemma footprint_delegate_on_error fuel S T cid request start e :
  footprint (delegate_on_error transport healthy uuid4 py_str fuel S T cid request start e)
    (backup_bound T).
Proof.
  unfold delegate_on_error, backup_bound.
  destruct (failover_agents !! T) as [F|].
  - eapply footprint_weaken; cycle 1.
    + apply footprint_bind; [apply footprint_elapsed_ms|intros duration_ms].
      apply footprint_if; [|apply footprint_delegate_failed].
      apply footprint_try_except; [apply footprint_delegate_failover|].
      intros _. apply footprint_delegate_failed.
    + intros t. unfold plus, nothing. lia.
  - eapply footprint_weaken; cycle 1.
    + apply footprint_bind; [apply footprint_elapsed_ms|intros duration_ms].
      apply footprint_delegate_failed.
    + by intros t.
Qed.

Lemma total_delegate_on_error fuel S T cid request start e :
  (60 < fuel)%nat ->
  total (delegate_on_error transport healthy uuid4 py_str fuel S T cid request start e).
Proof.
  intros Hfuel. unfold delegate_on_error.
  apply total_bind; [apply total_elapsed_ms|intros duration_ms].
  destruct (failover_agents !! T) as [F|]; [|apply total_delegate_failed].
  destruct (_ && _); [|apply total_delegate_failed].
  apply total_try_except; [by apply terminates_delegate_failover|].
  intros _. apply total_delegate_failed.
Qed.

Lemma ensures_delegate_on_error fuel S T cid request start e :
  ensures (delegate_on_error transport healthy uuid4 py_str fuel S T cid request start e)
    (failed_means_recorded cid).
Proof.
  unfold delegate_on_error. apply ensures_bind; intros duration_ms.
  destruct (failover_agents !! T) as [F|]; [|apply ensures_delegate_failed].
  destruct (_ && _); [|apply ensures_delegate_failed].
  apply ensures_try_except; [apply ensures_delegate_failover|].
  intros _. apply ensures_delegate_failed.
Qed.

End Tool.

End DelegationSpec.

Module DelegationTotal.

Import World Client Delegation Spec SpecFacts ClientSpec ClientTermination DelegationSpec.

Section Tool.

Variable transport : string -> nat -> value + string.
Variable healthy : string -> bool.
Variable uuid4 : string.
Variable py_str : value -> string.

Lemma footprint_delegate_new fuel S T cid request iid start :
  footprint (delegate_new transport healthy uuid4 py_str fuel S T cid request iid start)
    (plus (only (_normalize_name T) 4) (backup_bound T)).
Proof.
  unfold delegate_new. eapply footprint_weaken; cycle 1.
  - apply footprint_bind; [apply footprint_create_delegation_log|intros _].
    apply footprint_try_except; [apply footprint_delegate_primary|].
    intros e. instantiate (1 := backup_bound T). destruct e.
    + eapply footprint_weaken; [|apply footprint_delegate_timed_out].
      intros t. apply Nat.le_0_l.
    + apply footprint_delegate_on_error.
    + apply footprint_delegate_on_error.
  - intros t. unfold plus, nothing. lia.
Qed.

Lemma total_delegate_new fuel S T cid request iid start :
  (60 < fuel)%nat ->
  total (delegate_new transport healthy uuid4 py_str fuel S T cid request iid start).
Proof.
  intros Hfuel. unfold delegate_new.
  apply total_bind; [apply total_create_delegation_log|intros _].
  apply total_try_except; [by apply terminates_delegate_primary|].
  intros e. destruct e;
    [apply total_delegate_timed_out|by apply total_delegate_on_error..].
Qed.

Lemma ensures_delegate_new fuel S T cid request iid start :
  ensures (delegate_new transport healthy uuid4 py_str fuel S T cid request iid start)
    (failed_means_recorded cid).
Proof.
  unfold delegate_new. apply ensures_bind; intros _.
  apply ensures_try_except; [apply ensures_delegate_primary|].
  intros e. destruct e;
    [apply ensures_delegate_timed_out|apply ensures_delegate_on_error..].
Qed.

Lemma footprint_delegate_to_agent fuel S T cid request :
  footprint (delegate_to_agent transport healthy uuid4 py_str fuel S T cid request)
    (plus (only (_normalize_name T) 4) (backup_bound T)).
Proof.
  unfold delegate_to_agent.
  apply footprint_bind_quiet; [apply footprint_get_now|intros start].
  destruct (IncidentId.extract_incident_id request) as [iid|];
    [|apply footprint_delegate_new].
  apply footprint_if_same; [apply footprint_delegate_new|].
  apply footprint_bind_quiet; [apply footprint_check_delegation_exists|intros existing].
  destruct existing as [row|]; [|apply footprint_delegate_new].
  eapply footprint_weaken; [|apply footprint_ret]. intros t. apply Nat.le_0_l.
Qed.

Lemma total_delegate_to_agent fuel S T cid request :
  (60 < fuel)%nat ->
  total (delegate_to_agent transport healthy uuid4 py_str fuel S T cid request).
Proof.
  intros Hfuel. unfold delegate_to_agent.
  apply total_bind; [apply total_get_now|intros start].
  destruct (IncidentId.extract_incident_id request) as [iid|];
    [|by apply total_delegate_new].
  destruct (String.eqb iid ""); [by apply total_delegate_new|].
  apply total_bind; [apply total_check_delegation_exists|intros existing].
  destruct existing as [row|]; [apply total_ret|by apply total_delegate_new].
Qed.

Lemma ensures_delegate_to_agent fuel S T cid request :
  ensures (delegate_to_agent transport healthy uuid4 py_str fuel S T cid request)
    (failed_means_recorded cid).
Proof.
  unfold delegate_to_agent. apply ensures_bind; intros start.
  destruct (IncidentId.extract_incident_id request) as [iid|];
    [|apply ensures_delegate_new].
  destruct (String.eqb iid ""); [apply ensures_delegate_new|].
  apply ensures_bind; intros existing.
  destruct existing as [row|]; [|apply ensures_delegate_new].
  apply ensures_ret. intros w. discriminate.
Qed.

End Tool.

(** No agent is configured as its own backup. *)
Lemma backup_differs a b :
  failover_agents !! a = Some b -> _normalize_name b <> _normalize_name a.
Proof.
  unfold failover_agents. cbn [list_to_map foldr fst snd].
  repeat (rewrite lookup_insert; case_decide;
          [subst; intros [= <-]; by vm_compute|]).
  by rewrite lookup_empty.
Qed.

End DelegationTotal.

(** ** What a delegation leaves in the ledger *)

Module LedgerFacts.

Import World Client Delegation Spec SpecFacts.

(** *** Keeping a property of the world *)

Lemma preserves_bind {A B} P (m : M A) (k : A -> M B) :
  preserves P m -> (forall a, preserves P (k a)) -> preserves P (m ≫= k).
Proof.
  intros Hm Hk w Hw. unfold mbind, M_bind. specialize (Hm w Hw).
  destruct (m w) as [[a|e|] w1]; cbn [snd] in *; [by apply Hk|done|done].
Qed.

Lemma preserves_try_except {A} P (body : M A) (handler : exn -> M A) :
  preserves P body -> (forall e, preserves P (handler e)) ->
  preserves P (try_except body handler).
Proof.
  intros Hm Hk w Hw. unfold try_except. specialize (Hm w Hw).
  destruct (body w) as [[a|e|] w1]; cbn [snd] in *; [done|by apply Hk|done].
Qed.

Lemma preserves_ret {A} P (a : A) : preserves P (mret a).
Proof. by intros w Hw. Qed.

Lemma preserves_raise {A} P e : preserves P (raise e : M A).
Proof. by intros w Hw. Qed.

Lemma preserves_if {A} P (c : bool) (m1 m2 : M A) :
  preserves P m1 -> preserves P m2 -> preserves P (if c then m1 else m2).
Proof. by destruct c. Qed.

(** *** The messaging client does not write to the ledger *)

Lemma keeps_bind {A B} (m : M A) (k : A -> M B) :
  keeps_ledger m -> (forall a, keeps_ledger (k a)) -> keeps_ledger (m ≫= k).
Proof.
  intros Hm Hk w. unfold mbind, M_bind. specialize (Hm w).
  destruct (m w) as [[a|e|] w1]; cbn [snd] in *; [by rewrite Hk|done|done].
Qed.

Lemma keeps_try_except {A} (body : M A) (handler : exn -> M A) :
  keeps_ledger body -> (forall e, keeps_ledger (handler e)) ->
  keeps_ledger (try_except body handler).
Proof.
  intros Hm Hk w. unfold try_except. specialize (Hm w).
  destruct (body w) as [[a|e|] w1]; cbn [snd] in *; [done|by rewrite Hk|done].
Qed.

Lemma keeps_ret {A} (a : A) : keeps_ledger (mret a).
Proof. by intros w. Qed.

Lemma keeps_raise {A} e : keeps_ledger (raise e : M A).
Proof. by intros w. Qed.

Lemma keeps_if {A} (c : bool) (m1 m2 : M A) :
  keeps_ledger m1 -> keeps_ledger m2 -> keeps_ledger (if c then m1 else m2).
Proof. by destruct c. Qed.

Lemma keeps_modify (f : world -> world) :
  (forall w, db (f w) = db w) -> keeps_ledger (modify f).
Proof. intros H w. unfold ledger. cbn. by rewrite H. Qed.

Lemma ledger_sync w : ledger (sync w) = ledger w.
Proof. apply WorldFacts.sync_ledger. Qed.

Lemma ledger_delete_handshake cid w : ledger (delete_handshake cid w) = ledger w.
Proof. unfold delete_handshake, ledger. destruct (db w) eqn:E; cbn; by rewrite ?E. Qed.

Lemma keeps_allow_request T : keeps_ledger (allow_request T).
Proof.
  intros w. unfold allow_request. by destruct (CircuitBreaker.allow_request _ _ _).
Qed.

Lemma keeps_sleep d : keeps_ledger (sleep d).
Proof. intros w. unfold sleep. cbn [snd]. by rewrite ledger_sync. Qed.

Lemma keeps_create_handshake_record cid : keeps_ledger (_create_handshake_record cid).
Proof.
  intros w. unfold _create_handshake_record. rewrite <- (ledger_sync w). unfold ledger.
  destruct (db (sync w)) eqn:E; cbn; by rewrite ?E.
Qed.

Lemma keeps_poll_loop fuel cid timeout start :
  keeps_ledger (_poll_loop fuel cid timeout start).
Proof.
  induction fuel as [|fuel IH]; intros w; cbn [_poll_loop].
  - destruct (Qltb _ _); cbn [snd]; [done|].
    by rewrite ledger_delete_handshake, ledger_sync.
  - destruct (Qltb _ _); cbn [snd];
      [|by rewrite ledger_delete_handshake, ledger_sync].
    assert (Hagain : ledger ((sleep 1;; _poll_loop fuel cid timeout start) (sync w)).2
                     = ledger w).
    { rewrite (keeps_bind (sleep 1) (fun _ => _poll_loop fuel cid timeout start)
                 (keeps_sleep 1) (fun _ => IH)). apply ledger_sync. }
    destruct (fetch_handshake cid (sync w)) as [row|]; [|exact Hagain].
    destruct (String.eqb (hs_status row) "COMPLETED"); [|exact Hagain].
    cbn [snd]. by rewrite ledger_delete_handshake, ledger_sync.
Qed.

Lemma keeps_poll_handshake_result fuel cid timeout :
  keeps_ledger (_poll_handshake_result fuel cid timeout).
Proof.
  intros w. unfold _poll_handshake_result. destruct (db w); [|done].
  apply keeps_poll_loop.
Qed.

Lemma ledger_set_now t w : ledger (set_now t w) = ledger w.
Proof. reflexivity. Qed.

Lemma keeps_wait_for cid timeout : keeps_ledger (wait_for cid timeout).
Proof.
  intros w. unfold wait_for.
  destruct (futures (sync w) !! cid) as [[r|]|]; cbn [snd]; [apply ledger_sync| |].
  all: destruct (earliest _) as [t|]; cbn [snd].
  all: try destruct (futures (sync (set_now t (sync w))) !! cid) as [[r|]|]; cbn [snd].
  all: by rewrite ?ledger_sync, ?ledger_set_now, ?ledger_sync, ?ledger_set_now,
         ?ledger_sync.
Qed.

Section Transport.

Variable transport : string -> nat -> value + string.
Variable healthy : string -> bool.
Variable uuid4 : string.

Lemma keeps_deliver T m : keeps_ledger (deliver transport T m).
Proof. intros w. unfold deliver. by destruct (transport T _). Qed.

Lemma keeps_send_attempts n attempt retries S T m :
  keeps_ledger (send_attempts transport n attempt retries S T m).
Proof.
  revert attempt. induction n as [|n IH]; intros attempt; cbn [send_attempts].
  - apply keeps_ret.
  - apply keeps_try_except.
    + apply keeps_bind; [by apply keeps_modify|intros _].
      apply keeps_bind; [apply keeps_deliver|intros response].
      apply keeps_bind; [by apply keeps_modify|intros _]. apply keeps_ret.
    + intros e.
      apply keeps_bind; [by apply keeps_modify|intros _].
      apply keeps_bind; [by apply keeps_modify|intros _].
      apply keeps_if; [apply keeps_raise|].
      apply keeps_bind; [apply keeps_sleep|intros _]. apply IH.
Qed.

Lemma keeps_send_message S T m retries check_health :
  keeps_ledger (send_message transport healthy S T m retries check_health).
Proof.
  unfold send_message.
  apply keeps_bind; [apply keeps_allow_request|intros allowed].
  apply keeps_if; [apply keeps_ret|].
  apply keeps_if; [|apply keeps_send_attempts].
  apply keeps_bind; [by apply keeps_modify|intros _]. apply keeps_ret.
Qed.

(** A handshake, however it ends, leaves the ledger as it was. *)
Lemma keeps_handshake fuel S T payload cid timeout :
  keeps_ledger (send_request_with_handshake transport healthy uuid4 fuel S T payload cid
                  timeout).
Proof.
  unfold send_request_with_handshake, handshake_attempt.
  apply keeps_bind; [apply keeps_allow_request|intros allowed].
  apply keeps_if; [apply keeps_raise|].
  apply keeps_bind; [apply keeps_create_handshake_record|intros db_available].
  apply keeps_bind; [by apply keeps_modify|intros _].
  apply keeps_try_except.
  - apply keeps_bind; [apply keeps_send_message|intros _].
    apply keeps_if.
    + apply keeps_bind; [apply keeps_poll_handshake_result|intros result].
      apply keeps_if; [|apply keeps_raise].
      apply keeps_bind; [by apply keeps_modify|intros _].
      apply keeps_bind; [by apply keeps_modify|intros _]. apply keeps_ret.
    + apply keeps_bind; [apply keeps_wait_for|intros result].
      apply keeps_bind; [by apply keeps_modify|intros _]. apply keeps_ret.
  - intros e. destruct e.
    all: apply keeps_bind; [by apply keeps_modify|intros _].
    all: apply keeps_bind; [by apply keeps_modify|intros _].
    all: apply keeps_raise.
Qed.

End Transport.

(** *** The entries of a delegation *)

Lemma keeps_entry {A} cid (m : M A) : keeps_ledger m -> preserves (has_entry cid) m.
Proof. intros Hm w. unfold has_entry. by rewrite Hm. Qed.

Lemma keeps_store {A} (m : M A) :
  keeps_ledger m -> preserves (fun w => is_Some (ledger w)) m.
Proof. intros Hm w. by rewrite Hm. Qed.

Lemma keeps_elapsed_ms start : keeps_ledger (elapsed_ms start).
Proof. by intros w. Qed.

Lemma keeps_check_delegation_exists iid T age :
  keeps_ledger (check_delegation_exists iid T age).
Proof.
  intros w. unfold check_delegation_exists. destruct (String.eqb iid ""); [done|].
  rewrite <- (ledger_sync w). unfold ledger.
  destruct (db (sync w)) eqn:E; cbn; by rewrite ?E.
Qed.

(** With a store, the delegation gets its entry; the entries of others
    stay. *)
Lemma create_delegation_log_entry cid S T request iid w :
  is_Some (ledger w) -> has_entry cid (create_delegation_log cid S T request iid w).2.
Proof.
  intros Hs. rewrite <- ledger_sync in Hs. unfold create_delegation_log, has_entry, ledger in *.
  destruct (db (sync w)) as [d|]; [|by destruct Hs]. cbn.
  eexists _, _. split; [reflexivity|].
  split; [apply elem_of_app; right; by apply list_elem_of_singleton|reflexivity].
Qed.

Lemma update_delegation_log_store cid tc tr fr dur pt ct st :
  preserves (fun w => is_Some (ledger w)) (update_delegation_log cid tc tr fr dur pt ct st).
Proof.
  intros w Hs. rewrite <- ledger_sync in Hs.
  destruct (DelegationSpec.update_delegation_log_cases cid tc tr fr dur pt ct st w)
    as [->|(d & p & c & n & Hd & _ & _ & _ & ->)]; cbn [snd]; [done|].
  unfold ledger. cbn. eauto.
Qed.

Section Tool.

Variable transport : string -> nat -> value + string.
Variable healthy : string -> bool.
Variable uuid4 : string.
Variable py_str : value -> string.

Lemma entry_delegate_failed cid' T cid e duration_ms :
  preserves (has_entry cid') (delegate_failed T cid e duration_ms).
Proof.
  unfold delegate_failed.
  apply preserves_bind; [apply DelegationSpec.update_delegation_log_entry|intros _].
  apply preserves_ret.
Qed.

Lemma entry_delegate_failover cid' fuel S T F cid request start :
  preserves (has_entry cid')
    (delegate_failover transport healthy uuid4 py_str fuel S T F cid request start).
Proof.
  unfold delegate_failover.
  apply preserves_bind; [apply keeps_entry, keeps_handshake|intros response].
  apply preserves_bind; [apply keeps_entry, keeps_elapsed_ms|intros duration_ms].
  apply preserves_bind; [apply DelegationSpec.update_delegation_log_entry|intros _].
  apply preserves_ret.
Qed.

Lemma entry_delegate_on_error cid' fuel S T cid request start e :
  preserves (has_entry cid')
    (delegate_on_error transport healthy uuid4 py_str fuel S T cid request start e).
Proof.
  unfold delegate_on_error.
  apply preserves_bind; [apply keeps_entry, keeps_elapsed_ms|intros duration_ms].
  destruct (failover_agents !! T) as [F|]; [|apply entry_delegate_failed].
  apply preserves_if; [|apply entry_delegate_failed].
  apply preserves_try_except; [apply entry_delegate_failover|].
  intros _. apply entry_delegate_failed.
Qed.

Lemma entry_delegate_primary cid' fuel S T cid request start :
  preserves (has_entry cid')
    (delegate_primary transport healthy uuid4 py_str fuel S T cid request start).
Proof.
  unfold delegate_primary.
  apply preserves_bind; [apply keeps_entry, keeps_handshake|intros response].
  apply preserves_bind; [apply keeps_entry, keeps_elapsed_ms|intros duration_ms].
  apply preserves_bind; [apply DelegationSpec.update_delegation_log_entry|intros _].
  destruct (py_add _ _); [apply preserves_ret|apply preserves_raise].
Qed.

Lemma entry_delegate_timed_out cid' T cid start :
  preserves (has_entry cid') (delegate_timed_out T cid start).
Proof.
  unfold delegate_timed_out.
  apply preserves_bind; [apply keeps_entry, keeps_elapsed_ms|intros duration_ms].
  apply preserves_bind; [apply DelegationSpec.update_delegation_log_entry|intros _].
  apply preserves_ret.
Qed.

(** A delegation that is not a duplicate is on the ledger when it ends,
    if there is a ledger. *)
Lemma entry_delegate_new fuel S T cid request iid start w :
  is_Some (ledger w) ->
  has_entry cid
    (delegate_new transport healthy uuid4 py_str fuel S T cid request iid start w).2.
Proof.
  intros Hs. unfold delegate_new. unfold mbind at 1. unfold M_bind at 1.
  pose proof (create_delegation_log_entry cid S T request iid w Hs) as He.
  destruct (DelegationSpec.total_create_delegation_log cid S T request iid w) as [b Hb].
  destruct (create_delegation_log cid S T request iid w) as [r w1].
  cbn [fst snd] in *. subst r. revert He.
  apply (preserves_try_except (has_entry cid)); [apply entry_delegate_primary|].
  intros e. destruct e;
    [apply entry_delegate_timed_out|apply entry_delegate_on_error..].
Qed.

(** A result with status [failed] comes with an entry, if there is a
    ledger. *)
Lemma entry_delegate_to_agent fuel S T cid request w result w' :
  is_Some (ledger w) ->
  delegate_to_agent transport healthy uuid4 py_str fuel S T cid request w
  = (Ok result, w') ->
  dict_get result "status" = Some (VStr "failed") ->
  has_entry cid w'.
Proof.
  intros Hs. unfold delegate_to_agent.
  unfold mbind at 1. unfold M_bind at 1. unfold get_now.
  assert (Hnew : forall iid w0,
            ledger w0 = ledger w ->
            delegate_new transport healthy uuid4 py_str fuel S T cid request iid (now w) w0
            = (Ok result, w') -> has_entry cid w').
  { intros iid w0 Hl Hrun.
    pose proof (entry_delegate_new fuel S T cid request iid (now w) w0) as He.
    rewrite Hrun in He. apply He. by rewrite Hl. }
  destruct (IncidentId.extract_incident_id request) as [iid|];
    [|intros Hrun _; by apply (Hnew None w)].
  destruct (String.eqb iid ""); [intros Hrun _; by apply (Hnew (Some iid) w)|].
  unfold mbind at 1. unfold M_bind at 1.
  pose proof (keeps_check_delegation_exists iid T 300 w) as Hk.
  destruct (DelegationSpec.total_check_delegation_exists iid T 300 w) as [existing He].
  destruct (check_delegation_exists iid T 300 w) as [r0 w0].
  cbn [fst snd] in *. subst r0.
  destruct existing as [row|].
  - cbn. intros [= <- <-]. discriminate.
  - intros Hrun _. by apply (Hnew (Some iid) w0).
Qed.

(** Every backup that is configured has a name. *)
Lemma backup_named a b : failover_agents !! a = Some b -> String.eqb b "" = false.
Proof.
  unfold failover_agents. cbn [list_to_map foldr fst snd].
  repeat (rewrite lookup_insert; case_decide; [intros [= <-]; reflexivity|]).
  by rewrite lookup_empty.
Qed.

(** The [except] branch when the one failover attempt fails: nothing more
    is tried, and the original error is logged and reported. *)
Lemma failover_failed fuel S T F cid request start e w e' wF :
  failover_agents !! T = Some F ->
  is_connection_failure (exn_str e) = true ->
  delegate_failover transport healthy uuid4 py_str fuel S T F cid request start w
  = (Raise e', wF) ->
  let duration_ms := py_int ((now w - start) * 1000) in
  delegate_on_error transport healthy uuid4 py_str fuel S T cid request start e w
  = delegate_failed T cid e duration_ms wF.
Proof.
  intros HF Hconn Hrun duration_ms. unfold delegate_on_error.
  unfold mbind at 1. unfold M_bind at 1. unfold elapsed_ms. fold duration_ms.
  rewrite HF, Hconn, (backup_named T F HF). cbn [negb andb].
  unfold try_except. by rewrite Hrun.
Qed.

(** What [delegate_failed] returns and leaves. *)
Lemma delegate_failed_spec T cid e duration_ms w :
  exists w',
    delegate_failed T cid e duration_ms w
    = (Ok (VDict [("status", VStr "failed"); ("delegated_to", VStr T);
                  ("error", VStr (exn_str e));
                  ("telemetry", VDict [("duration_ms", VInt duration_ms)])]), w')
    /\ trace w' = trace w /\ circuits w' = circuits w
    /\ ledger_status cid "FAILED" w'
    /\ (has_entry cid w -> has_entry cid w').
Proof.
  unfold delegate_failed, mbind, M_bind.
  pose proof (DelegationSpec.update_delegation_log_status cid VNone VNone
                (VStr (exn_str e)) (Some duration_ms) "FAILED" w eq_refl) as Hst.
  pose proof (DelegationSpec.update_delegation_log_entry cid cid VNone VNone
                (VStr (exn_str e)) (Some duration_ms) (VInt 0) (VInt 0) "FAILED" w) as He.
  rewrite DelegationSpec.update_delegation_log_plain in * by done.
  destruct (db (sync w)) as [d|]; cbn [fst snd] in *.
  all: eexists; split; [reflexivity|].
  all: cbn [trace circuits set_db].
  all: rewrite WorldFacts.sync_trace, WorldFacts.sync_circuits; by repeat split.
Qed.

End Tool.

End LedgerFacts.

(** C6, as stated, fails: the mapping is not acyclic. The fire chief's
    backup is the police chief, whose backup is the fire chief. *)
Lemma failover_mapping_has_cycle : ~ Delegation.failover_acyclic.
Proof.
  intros H. apply (H "fire-chief-agent" 2%nat); [lia|]. reflexivity.
Qed.

(** C6, amended. The failover mapping is fixed and gives no agent itself as
    backup. Whatever the network does, a delegation returns a structured
    result (it never raises), and the delivery attempts it makes go to its
    target and to the configured backup of its target only, no more than
    the four attempts of one handshake each: failover is attempted at most
    once and a failed failover is not passed on to the backup's own backup
    (which, for the fire and police chiefs, would be the original target).
    A result with status [failed] means that the ledger entries of the
    delegation are FAILED, and, where there is a ledger, that the
    delegation has such an entry. The same holds of the [except] branch
    taken by itself, where only the backup is tried. When the one failover
    attempt fails, for whatever reason, nothing more is tried: the world is
    the one the failed attempt left but for the ledger, where the entries
    of the delegation are now FAILED, and the result has status [failed]
    and carries the text of the original error. *)
Theorem failover_at_most_once
    (transport : string -> nat -> value + string) (healthy : string -> bool)
    (uuid4 : string) (py_str : value -> string) (fuel : nat)
    (source target cid request : string) (w : World.world) :
  (60 < fuel)%nat ->
  (forall a b, Delegation.failover_agents !! a = Some b ->
               Client._normalize_name b <> Client._normalize_name a)
  /\ (exists result w' evs,
        Delegation.delegate_to_agent transport healthy uuid4 py_str fuel source target cid
          request w = (Ok result, w')
        /\ World.trace w' = (World.trace w ++ evs)%list
        /\ (forall t, (Client.deliveries_to t evs
                       <= Spec.only (Client._normalize_name target) 4 t
                          + Spec.backup_bound target t)%nat)
        /\ (dict_get result "status" = Some (VStr "failed") ->
            Spec.ledger_status cid "FAILED" w'
            /\ (is_Some (World.db w) -> Spec.recorded cid "FAILED" w')))
  /\ (forall (e : exn) (start : Q),
        exists result w' evs,
          Delegation.delegate_on_error transport healthy uuid4 py_str fuel source target
            cid request start e w = (Ok result, w')
          /\ World.trace w' = (World.trace w ++ evs)%list
          /\ (forall t, (Client.deliveries_to t evs <= Spec.backup_bound target t)%nat)
          /\ (dict_get result "status" = Some (VStr "failed") ->
              Spec.ledger_status cid "FAILED" w'
              /\ (Spec.has_entry cid w -> Spec.recorded cid "FAILED" w')))
  /\ (forall (e failover_error : exn) (start : Q) (failover_target : string)
             (wF : World.world),
        Delegation.failover_agents !! target = Some failover_target ->
        Delegation.is_connection_failure (Delegation.exn_str e) = true ->
        Delegation.delegate_failover transport healthy uuid4 py_str fuel source target
          failover_target cid request start w = (Raise failover_error, wF) ->
        exists w',
          Delegation.delegate_on_error transport healthy uuid4 py_str fuel source target
            cid request start e w
          = (Ok (VDict [("status", VStr "failed"); ("delegated_to", VStr target);
                        ("error", VStr (Delegation.exn_str e));
                        ("telemetry",
                         VDict [("duration_ms",
                                 VInt (Delegation.py_int
                                         ((World.now w - start) * 1000)))])]), w')
          /\ World.trace w' = World.trace wF
          /\ World.circuits w' = World.circuits wF
          /\ Spec.ledger_status cid "FAILED" w'
          /\ (Spec.has_entry cid w -> Spec.recorded cid "FAILED" w')).
Proof.
  intros Hfuel. split; [exact DelegationTotal.backup_differs|]. split; [|split].
  - destruct (DelegationTotal.total_delegate_to_agent transport healthy uuid4 py_str fuel
                source target cid request Hfuel w) as [result Hres].
    destruct (DelegationTotal.footprint_delegate_to_agent transport healthy uuid4 py_str
                fuel source target cid request w) as (evs & Htr & Hb).
    pose proof (DelegationTotal.ensures_delegate_to_agent transport healthy uuid4 py_str
                  fuel source target cid request w) as Hens.
    pose proof (LedgerFacts.entry_delegate_to_agent transport healthy uuid4 py_str fuel
                  source target cid request w) as Hent.
    destruct (Delegation.delegate_to_agent _ _ _ _ _ _ _ _ _ w) as [r w'].
    simpl in Hres, Htr. subst r.
    exists result, w', evs. split; [reflexivity|]. split; [exact Htr|].
    split; [exact Hb|]. intros Hfailed. split; [by apply Hens|].
    intros Hdb. split; [|by apply Hens].
    apply (Hent result w'); [|reflexivity|exact Hfailed].
    unfold Spec.ledger. destruct Hdb as [d ->]. by eexists.
  - intros e start.
    destruct (DelegationSpec.total_delegate_on_error transport healthy uuid4 py_str fuel
                source target cid request start e Hfuel w) as [result Hres].
    destruct (DelegationSpec.footprint_delegate_on_error transport healthy uuid4 py_str
                fuel source target cid request start e w) as (evs & Htr & Hb).
    pose proof (DelegationSpec.ensures_delegate_on_error transport healthy uuid4 py_str
                  fuel source target cid request start e w) as Hens.
    pose proof (LedgerFacts.entry_delegate_on_error transport healthy uuid4 py_str cid
                  fuel source target cid request start e w) as Hent.
    destruct (Delegation.delegate_on_error _ _ _ _ _ _ _ _ _ _ _ w) as [r w'].
    simpl in Hres, Htr. subst r.
    exists result, w', evs. split; [reflexivity|]. split; [exact Htr|].
    split; [exact Hb|]. intros Hfailed. split; [by apply Hens|].
    intros Hhas. split; [by apply Hent|by apply Hens].
  - intros e failover_error start failover_target wF Hbackup Hconn Hrun.
    rewrite (LedgerFacts.failover_failed transport healthy uuid4 py_str fuel source target
               failover_target cid request start e w failover_error wF Hbackup Hconn Hrun).
    destruct (LedgerFacts.delegate_failed_spec target cid e
                (Delegation.py_int ((World.now w - start) * 1000)) wF)
      as (w' & Hfail & Htr & Hcs & Hst & Hent).
    exists w'. split; [exact Hfail|]. split; [exact Htr|]. split; [exact Hcs|].
    split; [exact Hst|]. intros Hhas. split; [|exact Hst]. apply Hent.
    pose proof (LedgerFacts.entry_delegate_failover transport healthy uuid4 py_str cid
                  fuel source target failover_target cid request start w Hhas) as HF.
    by rewrite Hrun in HF.
Qed.

Lemma failover_at_most_once_witness :
  let down : string -> nat -> value + string := fun _ _ => inr "connection refused" in
  let r := Delegation.delegate_to_agent down (fun _ => true) "uuid" (fun _ => "") 61
             "medical-agent" "fire-chief-agent" "cid-1" "Fire at the depot"
             (World.fresh 0 (Some World.empty_database)) in
  exists result,
    r.1 = Ok result
    /\ dict_get result "status" = Some (VStr "failed")
    /\ (Client.deliveries_to "fire-chief-agent" (World.trace r.2) <= 4)%nat
    /\ (Client.deliveries_to "police-chief-agent" (World.trace r.2) <= 4)%nat
    /\ Spec.recorded "cid-1" "FAILED" r.2.
Proof.
  intros down r.
  destruct (failover_at_most_once down (fun _ => true) "uuid" (fun _ => "") 61
              "medical-agent" "fire-chief-agent" "cid-1" "Fire at the depot"
              (World.fresh 0 (Some World.empty_database)))
    as (_ & (result & w' & evs & Hrun & Htr & Hb & Hfailed) & _); [lia|].
  assert (Hst : dict_get result "status" = Some (VStr "failed")).
  { assert (E : r.1 = Ok result) by (subst r; by rewrite Hrun).
    vm_compute in E. injection E as <-. reflexivity. }
  exists result. subst r. rewrite Hrun. cbn [fst snd]. split; [reflexivity|].
  split; [exact Hst|]. rewrite Htr. cbn [World.trace World.fresh app].
  split; [exact (Hb "fire-chief-agent")|]. split; [exact (Hb "police-chief-agent")|].
  apply (Hfailed Hst). cbn. eauto.
Defined.

(** ** Isolation of the calls to different targets *)

Module Isolation.

Import World Client Spec SpecFacts.

Implicit Types (cs : gmap string CircuitBreaker.circuit) (T : string) (w : world).

(** *** The circuit of a target is all the breaker looks at *)

Lemma allow_local now T cs1 cs2 :
  cs1 !! T = cs2 !! T ->
  (CircuitBreaker.allow_request now T cs1).1 = (CircuitBreaker.allow_request now T cs2).1
  /\ (CircuitBreaker.allow_request now T cs1).2 !! T
     = (CircuitBreaker.allow_request now T cs2).2 !! T.
Proof.
  intros H. unfold CircuitBreaker.allow_request, CircuitBreaker.get_state. rewrite H.
  destruct (cs2 !! T) as [[[[st f] lf] h]|] eqn:E; [|simpl; by rewrite H, E].
  destruct st; simpl.
  - by rewrite H, E.
  - destruct (Qgtb _ _); simpl; [|by rewrite H, E].
    rewrite !lookup_insert_eq. simpl. by rewrite !lookup_insert_eq.
  - rewrite H, E. destruct (h <? _)%Z; simpl; [by rewrite !lookup_insert_eq|by rewrite H, E].
Qed.

Lemma record_failure_local now T cs1 cs2 :
  cs1 !! T = cs2 !! T ->
  CircuitBreaker.record_failure now T cs1 !! T = CircuitBreaker.record_failure now T cs2 !! T.
Proof.
  intros H. unfold CircuitBreaker.record_failure. rewrite H.
  destruct (cs2 !! T) as [[[[st f] lf] h]|]; [|by rewrite !lookup_insert_eq].
  destruct (CircuitBreaker.state_eqb st _); [by rewrite !lookup_insert_eq|].
  destruct (_ <=? _)%Z; by rewrite !lookup_insert_eq.
Qed.

Lemma record_success_local T cs1 cs2 :
  CircuitBreaker.record_success T cs1 !! T = CircuitBreaker.record_success T cs2 !! T.
Proof. unfold CircuitBreaker.record_success. by rewrite !lookup_insert_eq. Qed.

(** *** Composition *)

Lemma local_bind {A B} T (m : M A) (k : A -> M B) :
  local_to T m -> (forall a, local_to T (k a)) -> local_to T (m ≫= k).
Proof.
  intros Hm Hk w1 w2 Hv. unfold mbind, M_bind.
  destruct (Hm w1 w2 Hv) as [Hr Hv'].
  destruct (m w1) as [r1 w1'], (m w2) as [r2 w2']. simpl in Hr, Hv'. subst r2.
  destruct r1 as [a|e|]; [by apply Hk|done|done].
Qed.

Lemma local_try_except {A} T (body : M A) (handler : exn -> M A) :
  local_to T body -> (forall e, local_to T (handler e)) -> local_to T (try_except body handler).
Proof.
  intros Hm Hk w1 w2 Hv. unfold try_except.
  destruct (Hm w1 w2 Hv) as [Hr Hv'].
  destruct (body w1) as [r1 w1'], (body w2) as [r2 w2']. simpl in Hr, Hv'. subst r2.
  destruct r1 as [a|e|]; [done|by apply Hk|done].
Qed.

Lemma local_ret {A} T (a : A) : local_to T (mret a).
Proof. by intros w1 w2 Hv. Qed.

Lemma local_raise {A} T e : local_to T (raise e : M A).
Proof. by intros w1 w2 Hv. Qed.

Lemma local_if {A} T (c : bool) (m1 m2 : M A) :
  local_to T m1 -> local_to T m2 -> local_to T (if c then m1 else m2).
Proof. by destruct c. Qed.

Lemma frames_bind {A B} T (m : M A) (k : A -> M B) :
  frames T m -> (forall a, frames T (k a)) -> frames T (m ≫= k).
Proof.
  intros Hm Hk w. unfold mbind, M_bind. destruct (Hm w) as [Hn Hc].
  destruct (m w) as [[a|e|] w1]; simpl in *; [|done|done].
  destruct (Hk a w1) as [Hn' Hc']. split; [lra|].
  intros T' HT. by rewrite Hc', Hc.
Qed.

Lemma frames_try_except {A} T (body : M A) (handler : exn -> M A) :
  frames T body -> (forall e, frames T (handler e)) -> frames T (try_except body handler).
Proof.
  intros Hm Hk w. unfold try_except. destruct (Hm w) as [Hn Hc].
  destruct (body w) as [[a|e|] w1]; simpl in *; [done| |done].
  destruct (Hk e w1) as [Hn' Hc']. split; [lra|].
  intros T' HT. by rewrite Hc', Hc.
Qed.

Lemma frames_ret {A} T (a : A) : frames T (mret a).
Proof. intros w. split; [apply Qle_refl|done]. Qed.

Lemma frames_raise {A} T e : frames T (raise e : M A).
Proof. intros w. split; [apply Qle_refl|done]. Qed.

Lemma frames_if {A} T (c : bool) (m1 m2 : M A) :
  frames T m1 -> frames T m2 -> frames T (if c then m1 else m2).
Proof. by destruct c. Qed.

(** *** The operations of [send_message] *)

Lemma local_allow_request T : local_to T (allow_request T).
Proof.
  intros w1 w2 Hv. unfold view in Hv. injection Hv as Hc Hn Hd.
  unfold allow_request. rewrite Hn.
  destruct (allow_local (now w2) T _ _ Hc) as [Hb Hl].
  destruct (CircuitBreaker.allow_request (now w2) T (circuits w1)) as [b1 cs1].
  destruct (CircuitBreaker.allow_request (now w2) T (circuits w2)) as [b2 cs2].
  simpl in *. subst b2. split; [done|]. unfold view. simpl. by rewrite Hl, Hn, Hd.
Qed.

Lemma frames_allow_request T : frames T (allow_request T).
Proof.
  intros w. unfold allow_request.
  pose proof (fun T' => CircuitBreakerFacts.allow_other (now w) T T' (circuits w)) as Ho.
  destruct (CircuitBreaker.allow_request _ _ _) as [b cs]. simpl in *.
  split; [apply Qle_refl|]. intros T' HT. apply Ho. congruence.
Qed.

Lemma local_record_success T : local_to T (record_success T).
Proof.
  intros w1 w2 Hv. unfold view in Hv. injection Hv as Hc Hn Hd.
  split; [done|]. unfold view. simpl.
  by rewrite (record_success_local T (circuits w1) (circuits w2)), Hn, Hd.
Qed.

Lemma frames_record_success T : frames T (record_success T).
Proof.
  intros w. split; [apply Qle_refl|]. intros T' HT. simpl.
  apply CircuitBreakerFacts.record_success_other. congruence.
Qed.

Lemma local_record_failure T : local_to T (record_failure T).
Proof.
  intros w1 w2 Hv. unfold view in Hv. injection Hv as Hc Hn Hd.
  split; [done|]. unfold view. simpl.
  by rewrite Hn, (record_failure_local (now w2) T _ _ Hc), Hd.
Qed.

Lemma frames_record_failure T : frames T (record_failure T).
Proof.
  intros w. split; [apply Qle_refl|]. intros T' HT. simpl.
  apply CircuitBreakerFacts.record_failure_other. congruence.
Qed.

Lemma local_get_client T S T' : local_to T (get_client S T').
Proof. by intros w1 w2 Hv. Qed.

Lemma frames_get_client T S T' : frames T (get_client S T').
Proof. intros w. split; [apply Qle_refl|done]. Qed.

Lemma local_drop_client T S T' : local_to T (drop_client S T').
Proof. by intros w1 w2 Hv. Qed.

Lemma frames_drop_client T S T' : frames T (drop_client S T').
Proof. intros w. split; [apply Qle_refl|done]. Qed.

Lemma local_sleep T d : local_to T (sleep d).
Proof.
  intros w1 w2 Hv. unfold view in Hv. injection Hv as Hc Hn Hd.
  split; [done|]. unfold view, sleep. cbn [snd].
  rewrite !WorldFacts.sync_circuits, !WorldFacts.sync_now, !WorldFacts.sync_trace.
  cbn. by rewrite Hc, Hn, !ClientFacts.deliveries_to_app, Hd.
Qed.

Lemma frames_sleep T d : (0 <= d)%Q -> frames T (sleep d).
Proof.
  intros Hd w. unfold sleep. cbn [snd].
  rewrite WorldFacts.sync_circuits, WorldFacts.sync_now. cbn. split; [lra|done].
Qed.

Section Transport.

Variable transport : string -> nat -> value + string.
Variable healthy : string -> bool.

Lemma local_deliver T m : local_to T (deliver transport T m).
Proof.
  intros w1 w2 Hv. unfold view in Hv. injection Hv as Hc Hn Hd.
  unfold deliver. rewrite Hd.
  assert (Hv' : view T (set_trace (trace w1 ++ [Delivery T m]) w1)
                = view T (set_trace (trace w2 ++ [Delivery T m]) w2)).
  { unfold view. cbn. by rewrite Hc, Hn, !ClientFacts.deliveries_to_app, Hd. }
  by destruct (transport T _).
Qed.

Lemma frames_deliver T m : frames T (deliver transport T m).
Proof.
  intros w. unfold deliver.
  destruct (transport T _); cbn; (split; [apply Qle_refl|done]).
Qed.

Lemma backoff_nonneg attempt : (0 <= inject_Z (Z.min 32 (2 ^ attempt)))%Q.
Proof.
  change 0%Q with (inject_Z 0). rewrite <- Zle_Qle.
  apply Z.min_glb; [lia|]. apply Z.pow_nonneg. lia.
Qed.

Lemma local_send_attempts n attempt retries S T m :
  local_to T (send_attempts transport n attempt retries S T m).
Proof.
  revert attempt. induction n as [|n IH]; intros attempt; cbn [send_attempts].
  - apply local_ret.
  - apply local_try_except.
    + apply local_bind; [apply local_get_client|intros _].
      apply local_bind; [apply local_deliver|intros response].
      apply local_bind; [apply local_record_success|intros _]. apply local_ret.
    + intros e.
      apply local_bind; [apply local_record_failure|intros _].
      apply local_bind; [apply local_drop_client|intros _].
      apply local_if; [apply local_raise|].
      apply local_bind; [apply local_sleep|intros _]. apply IH.
Qed.

Lemma frames_send_attempts n attempt retries S T m :
  frames T (send_attempts transport n attempt retries S T m).
Proof.
  revert attempt. induction n as [|n IH]; intros attempt; cbn [send_attempts].
  - apply frames_ret.
  - apply frames_try_except.
    + apply frames_bind; [apply frames_get_client|intros _].
      apply frames_bind; [apply frames_deliver|intros response].
      apply frames_bind; [apply frames_record_success|intros _]. apply frames_ret.
    + intros e.
      apply frames_bind; [apply frames_record_failure|intros _].
      apply frames_bind; [apply frames_drop_client|intros _].
      apply frames_if; [apply frames_raise|].
      apply frames_bind; [apply frames_sleep, backoff_nonneg|intros _]. apply IH.
Qed.

Lemma local_send_message S T m retries check_health :
  local_to (_normalize_name T) (send_message transport healthy S T m retries check_health).
Proof.
  unfold send_message.
  apply local_bind; [apply local_allow_request|intros allowed].
  apply local_if; [apply local_ret|].
  apply local_if; [|apply local_send_attempts].
  apply local_bind; [apply local_record_failure|intros _]. apply local_ret.
Qed.

Lemma frames_send_message S T m retries check_health :
  frames (_normalize_name T) (send_message transport healthy S T m retries check_health).
Proof.
  unfold send_message.
  apply frames_bind; [apply frames_allow_request|intros allowed].
  apply frames_if; [apply frames_ret|].
  apply frames_if; [|apply frames_send_attempts].
  apply frames_bind; [apply frames_record_failure|intros _]. apply frames_ret.
Qed.

Lemma local_failover_call S a m :
  local_to (_normalize_name a) (failover_call transport healthy S a m).
Proof.
  unfold failover_call. apply local_try_except; [apply local_send_message|].
  intros _. apply local_ret.
Qed.

Lemma frames_failover_call S a m :
  frames (_normalize_name a) (failover_call transport healthy S a m).
Proof.
  unfold failover_call. apply frames_try_except; [apply frames_send_message|].
  intros _. apply frames_ret.
Qed.

(** A single call never raises: the failure of a target is a value. *)
Lemma total_failover_call S a m : total (failover_call transport healthy S a m).
Proof.
  unfold failover_call. apply total_try_except.
  - apply ClientTermination.terminates_send_message.
  - intros _. apply total_ret.
Qed.

Lemma footprint_failover_call S a m :
  footprint (failover_call transport healthy S a m) (only (_normalize_name a) 2).
Proof.
  unfold failover_call. eapply footprint_weaken; cycle 1.
  - apply footprint_try_except; [apply ClientSpec.footprint_send_message|].
    intros _. apply footprint_ret.
  - intros t. unfold plus, nothing. change (Z.to_nat (1 + 1)) with 2%nat. lia.
Qed.

End Transport.

End Isolation.

(** ** Broadcast *)

Module BroadcastFacts.

Import World Client Spec SpecFacts Isolation.


(** *** The dict built from the pairs *)

Lemma py_dict_foldl_absent (l : list (string * value)) (m : gmap string value) k :
  k ∉ l.*1 -> foldl (fun m kv => <[kv.1 := kv.2]> m) m l !! k = m !! k.
Proof.
  revert m. induction l as [|[k' v'] l IH]; intros m Hk; [done|].
  cbn [foldl fst snd]. cbn in Hk. apply not_elem_of_cons in Hk as [Hne Hk].
  rewrite IH by done. by apply lookup_insert_ne.
Qed.



Lemma py_dict_keys (l : list (string * value)) k :
  is_Some (py_dict l !! k) -> k ∈ l.*1.
Proof.
  unfold py_dict. intros Hs. destruct (decide (k ∈ l.*1)) as [|Hn]; [done|].
  rewrite (py_dict_foldl_absent l ∅ k Hn), lookup_empty in Hs. by destruct Hs.
Qed.



End BroadcastFacts.

(** ** The tasks of a broadcast *)

Module GatherFacts.

Import World Client Spec SpecFacts Tasks.

Implicit Types (tasks : list (string * task)) (t : task) (w : world).

(** *** Sums over the tasks *)

Lemma sum_insert {A} (f : A -> nat) (l : list A) (i : nat) (x y : A) :
  l !! i = Some x ->
  (sum_list_with f (<[i := y]> l) + f x = sum_list_with f l + f y)%nat.
Proof.
  revert i. induction l as [|z l IH]; intros [|i] H; try done.
  - injection H as ->. cbn. lia.
  - change (f z + sum_list_with f (<[i := y]> l) + f x
            = f z + sum_list_with f l + f y)%nat.
    specialize (IH i H). lia.
Qed.

Lemma pending_to_listed T tasks :
  (forall p, p ∈ tasks -> (to_come p.2 <= 2)%nat) ->
  (pending_to T tasks <= 2 * listed T tasks.*1)%nat.
Proof.
  unfold pending_to, listed. induction tasks as [|[a t] tasks IH]; intros H; [cbn; lia|].
  cbn [sum_list_with fmap list_fmap fst snd]. rewrite filter_cons.
  assert (IH' := IH (fun p Hp => H p (list_elem_of_further _ _ _ Hp))).
  specialize (H (a, t) (list_elem_of_here _ _)). cbn in H.
  destruct (decide (_normalize_name a = T)) as [<-|Hne].
  - rewrite String.eqb_refl. cbn [length]. lia.
  - apply String.eqb_neq in Hne. rewrite Hne. lia.
Qed.

(** *** Which tasks can go on *)

Lemma ready_spec now tasks i :
  i ∈ ready now tasks <-> exists a t, tasks !! i = Some (a, t) /\ runnable now t = true.
Proof.
  unfold ready. rewrite list_elem_of_In, filter_In, <- list_elem_of_In, elem_of_seq.
  split.
  - intros [_ H]. destruct (tasks !! i) as [[a t]|]; [eauto|done].
  - intros (a & t & Hi & Hr). rewrite Hi. split; [|done].
    apply lookup_lt_Some in Hi. lia.
Qed.

Lemma pick_in (n : nat) (l : list nat) (d : nat) :
  l <> [] -> nth (n mod length l) l d ∈ l.
Proof.
  intros Hl. apply list_elem_of_In, nth_In, Nat.mod_upper_bound.
  destruct l; [done|]. cbn. lia.
Qed.

Lemma next_wake_elem tasks wake :
  next_wake tasks = Some wake -> exists i a attempt, tasks !! i = Some (a, Backoff attempt wake).
Proof.
  revert wake. induction tasks as [|[a t] tasks IH]; intros wake; cbn [next_wake]; [done|].
  assert (Hrest : next_wake tasks = Some wake ->
                  exists i a' attempt, ((a, t) :: tasks) !! i = Some (a', Backoff attempt wake)).
  { intros H. destruct (IH wake H) as (i & a' & attempt & Hi). by exists (S i), a', attempt. }
  destruct t as [attempt reply|attempt wake'|result|e]; try exact Hrest.
  destruct (next_wake tasks) as [t'|] eqn:E.
  - unfold pymin. destruct (Qltb t' wake'); intros [= <-].
    + destruct (IH t' eq_refl) as (i & a' & attempt' & Hi). by exists (S i), a', attempt'.
    + by exists O, a, attempt.
  - intros [= <-]. by exists O, a, attempt.
Qed.

Lemma next_wake_some tasks i a attempt wake :
  tasks !! i = Some (a, Backoff attempt wake) -> is_Some (next_wake tasks).
Proof.
  revert i. induction tasks as [|[a' t] tasks IH]; intros [|i] H; cbn in *; try done.
  - injection H as -> ->. destruct (next_wake tasks); eauto.
  - specialize (IH i H). destruct t; [done| |done|done]. destruct (next_wake tasks); eauto.
Qed.

Lemma unfinished_elem tasks :
  forallb (fun p => finished p.2) tasks = false ->
  exists i a t, tasks !! i = Some (a, t) /\ finished t = false.
Proof.
  induction tasks as [|[a t] tasks IH]; cbn; [done|].
  destruct (finished t) eqn:E; cbn.
  - intros H. destruct (IH H) as (i & a' & t' & Hi & Hf). by exists (S i), a', t'.
  - intros _. by exists O, a, t.
Qed.

Lemma finished_all tasks :
  forallb (fun p => finished p.2) tasks = true -> Forall (fun p => finished p.2 = true) tasks.
Proof.
  intros H. apply Forall_forall. intros p Hp.
  rewrite forallb_forall in H. apply H. by apply list_elem_of_In.
Qed.

(** The world in which the event loop takes up its next task: the one at
    hand if a task can go on, and the one at the time the first sleeper
    wakes if none can. One can go on in it, and nothing but the clock (and
    what the environment did meanwhile) has changed. *)
Lemma loop_world tasks w :
  forallb (fun p => finished p.2) tasks = false ->
  let w1 := match ready (now w) tasks, next_wake tasks with
            | [], Some wake => sync (set_now wake w)
            | _, _ => w
            end in
  ready (now w1) tasks <> [] /\ trace w1 = trace w /\ circuits w1 = circuits w.
Proof.
  intros Hun. cbv zeta.
  destruct (ready (now w) tasks) as [|i0 rest] eqn:Hready; [|by rewrite Hready].
  destruct (unfinished_elem tasks Hun) as (i & a & t & Hi & Hf).
  assert (Hnot : runnable (now w) t = false).
  { destruct (runnable (now w) t) eqn:E; [|done].
    assert (Hin : i ∈ ready (now w) tasks) by (apply ready_spec; eauto).
    rewrite Hready in Hin. by apply elem_of_nil in Hin. }
  destruct t as [attempt reply|attempt wake|result|e]; try done.
  destruct (next_wake_some tasks i a attempt wake Hi) as [wake' Hw]. rewrite Hw.
  rewrite WorldFacts.sync_trace, WorldFacts.sync_circuits, WorldFacts.sync_now.
  split; [|done]. cbn [now set_now].
  destruct (next_wake_elem tasks wake' Hw) as (j & a' & attempt' & Hj).
  assert (Hin : j ∈ ready wake' tasks).
  { apply ready_spec. exists a', (Backoff attempt' wake'). split; [done|].
    cbn. apply Qle_bool_iff, Qle_refl. }
  intros E. rewrite E in Hin. by apply elem_of_nil in Hin.
Qed.

Section Transport.

Variable transport : string -> nat -> value + string.
Variable healthy : string -> bool.
Variable schedule : nat -> nat.

(** *** One step of a task *)

(** A task stays on course as long as nobody else makes delivery attempts
    to its target. *)
Lemma on_course_same w0 w w' (p : string * task) :
  deliveries_to (_normalize_name p.1) (trace w')
  = deliveries_to (_normalize_name p.1) (trace w) ->
  on_course transport w0 w p -> on_course transport w0 w' p.
Proof. unfold on_course. intros ->. done. Qed.

Lemma on_course_end w0 w (p : string * task) :
  finished p.2 = true -> on_course transport w0 w p ->
  failover_result p.1 p.2 = lone_result transport w0 p.1.
Proof.
  destruct p as [a [attempt reply|attempt wake|result|e]];
    unfold on_course; cbn [fst snd finished failover_result]; done.
Qed.

Lemma start_spec source a message w :
  exists t w' evs,
    start transport source a message w = (Ok t, w')
    /\ well_formed t
    /\ trace w' = (trace w ++ evs)%list
    /\ now w' = now w
    /\ (forall T, T <> _normalize_name a ->
          deliveries_to T evs = 0%nat /\ circuits w' !! T = circuits w !! T)
    /\ (deliveries_to (_normalize_name a) evs + to_come t <= 2)%nat
    /\ (turns t <= 3)%nat
    /\ (forall w0, now w = now w0 -> untouched w0 w a -> on_course transport w0 w' (a, t)).
Proof.
  unfold start. set (T := _normalize_name a). set (src := _normalize_name source).
  unfold mbind at 1. unfold M_bind at 1. unfold allow_request.
  pose proof (fun T' => CircuitBreakerFacts.allow_other (now w) T T' (circuits w)) as Hother.
  assert (Hgate : forall w0, now w = now w0 -> untouched w0 w a ->
            (CircuitBreaker.allow_request (now w0) T (circuits w0)).1
            = (CircuitBreaker.allow_request (now w) T (circuits w)).1).
  { intros w0 Hn [Hc _]. rewrite Hn. symmetry. by apply Isolation.allow_local. }
  destruct (CircuitBreaker.allow_request (now w) T (circuits w)) as [allowed cs].
  cbn [fst snd] in *. destruct allowed; cbn [negb].
  - unfold issue, mbind, M_bind, get_client, modify, request. cbn.
    eexists _, _, [Delivery T message]. split; [reflexivity|].
    split; [by left|]. split; [reflexivity|]. split; [reflexivity|]. split.
    { intros T' HT'. split; [by apply ClientFacts.deliveries_to_other; congruence|].
      apply Hother. congruence. }
    split; [rewrite ClientFacts.deliveries_to_one; cbn; lia|]. split; [cbn; lia|].
    intros w0 Hn Hun. unfold on_course. cbn [fst snd]. fold T.
    split; [by apply Hgate|]. left. destruct Hun as [_ Hd]. fold T in Hd.
    split; [done|]. split; [by rewrite Hd|]. cbn [trace set_trace].
    rewrite ClientFacts.deliveries_to_app, ClientFacts.deliveries_to_one, Hd. lia.
  - eexists _, _, []. split; [reflexivity|]. split; [done|].
    split; [by rewrite app_nil_r|]. split; [reflexivity|]. split.
    { intros T' HT'. split; [done|]. apply Hother. congruence. }
    split; [cbn; lia|]. split; [cbn; lia|].
    intros w0 Hn Hun. unfold on_course, lone_result. cbn [fst snd]. fold T.
    by rewrite (Hgate w0 Hn Hun).
Qed.

Lemma resume_spec source a message t w :
  well_formed t -> finished t = false ->
  exists t' w' evs,
    resume transport source a message 1 t w = (Ok t', w')
    /\ well_formed t'
    /\ (turns t' < turns t)%nat
    /\ trace w' = (trace w ++ evs)%list
    /\ (forall T, T <> _normalize_name a ->
          deliveries_to T evs = 0%nat /\ circuits w' !! T = circuits w !! T)
    /\ (deliveries_to (_normalize_name a) evs + to_come t' <= to_come t)%nat
    /\ (forall w0, on_course transport w0 w (a, t) -> on_course transport w0 w' (a, t')).
Proof.
  intros Hwf Hun. unfold resume. set (T := _normalize_name a).
  set (src := _normalize_name source).
  destruct t as [attempt [response|msg]|attempt wake|result|e]; try done.
  - (* the reply is a response *)
    eexists _, _, []. split; [reflexivity|]. split; [done|].
    split; [cbn; destruct (attempt =? 0)%Z; lia|].
    split; [by rewrite app_nil_r|]. split.
    { intros T' HT'. split; [done|]. cbn.
      apply CircuitBreakerFacts.record_success_other. congruence. }
    split; [cbn; lia|].
    intros w0. unfold on_course, lone_result. cbn [fst snd]. fold T.
    intros [-> [(_ & <- & _)|(_ & (msg & ->) & <- & _)]]; reflexivity.
  - (* the reply is a failure *)
    destruct Hwf as [->| ->].
    + change (0 =? 1)%Z with false. cbv iota.
      eexists _, _, [Sleep _]. split; [reflexivity|]. split; [reflexivity|].
      split; [cbn; lia|]. split; [reflexivity|]. split.
      { intros T' HT'. split; [done|]. cbn.
        apply CircuitBreakerFacts.record_failure_other. congruence. }
      split; [cbn; lia|].
      intros w0. unfold on_course. cbn [fst snd]. fold T.
      intros [Hadm [(_ & Hr & Hd)|(E & _)]]; [|done].
      split; [done|]. split; [done|]. split; [by exists msg|].
      cbn. rewrite ClientFacts.deliveries_to_app. cbn. lia.
    + change (1 =? 1)%Z with true. cbv iota.
      eexists _, _, []. split; [reflexivity|]. split; [done|].
      split; [cbn; lia|]. split; [by rewrite app_nil_r|]. split.
      { intros T' HT'. split; [done|]. cbn.
        apply CircuitBreakerFacts.record_failure_other. congruence. }
      split; [cbn; lia|].
      intros w0. unfold on_course, lone_result. cbn [fst snd]. fold T.
      intros [-> [(E & _)|(_ & (msg1 & ->) & <- & _)]]; [done|reflexivity].
  - (* the sleep is over *)
    cbn in Hwf. subst attempt.
    unfold issue, mbind, M_bind, get_client, modify, request. cbn.
    eexists _, _, [Delivery T message]. split; [reflexivity|].
    split; [by right|]. split; [cbn; lia|]. split; [reflexivity|]. split.
    { intros T' HT'. split; [by apply ClientFacts.deliveries_to_other; congruence|done]. }
    split; [rewrite ClientFacts.deliveries_to_one; cbn; lia|].
    intros w0. unfold on_course. cbn [fst snd]. fold T.
    intros (Hadm & _ & Hfail & Hd). split; [done|]. right.
    split; [done|]. split; [done|]. split; [by rewrite Hd|]. cbn [trace set_trace].
    rewrite ClientFacts.deliveries_to_app, ClientFacts.deliveries_to_one, Hd. lia.
Qed.

(** *** The event loop *)

Lemma run_tasks_S n step source message retries tasks w :
  run_tasks transport schedule (S n) step source message retries tasks w =
    if forallb (fun p => finished p.2) tasks then (Ok tasks, w)
    else
      let w1 :=
        match ready (now w) tasks, next_wake tasks with
        | [], Some wake => sync (set_now wake w)
        | _, _ => w
        end in
      let candidates := ready (now w1) tasks in
      match candidates with
      | [] => (OutOfFuel, w1)
      | first :: _ =>
          let i := nth (schedule step mod length candidates) candidates first in
          match tasks !! i with
          | Some (agent, t) =>
              (t' ← resume transport source agent message retries t;
               run_tasks transport schedule n (S step) source message retries
                 (<[i := (agent, t')]> tasks)) w1
          | None => (OutOfFuel, w1)
          end
      end.
Proof. reflexivity. Qed.

Lemma run_tasks_done n step source message retries tasks w :
  forallb (fun p => finished p.2) tasks = true ->
  run_tasks transport schedule n step source message retries tasks w = (Ok tasks, w).
Proof. intros H. destruct n; cbn [run_tasks]; by rewrite H. Qed.

Lemma turns_lookup tasks i a t :
  tasks !! i = Some (a, t) -> (turns t <= turns_of tasks)%nat.
Proof.
  unfold turns_of. revert i. induction tasks as [|p tasks IH]; intros [|i] H; try done.
  - injection H as ->. cbn. lia.
  - cbn [sum_list_with]. specialize (IH i H). lia.
Qed.

Lemma runnable_unfinished now t : runnable now t = true -> finished t = false.
Proof. by destruct t. Qed.

Lemma unfinished_turns t : finished t = false -> (0 < turns t)%nat.
Proof. destruct t as [attempt ?| | |]; cbn; try done; [destruct (attempt =? 0)%Z|]; lia. Qed.

(** The event loop ends, whatever the schedule: every task has ended,
    the delivery attempts made are those the tasks had to come, and a task
    whose target no other task shares ends as its call would have by
    itself. *)
Lemma run_tasks_spec n step source message tasks w :
  Forall (fun p => well_formed p.2) tasks ->
  (turns_of tasks <= n)%nat ->
  exists tasks' w' evs,
    run_tasks transport schedule n step source message 1 tasks w = (Ok tasks', w')
    /\ tasks'.*1 = tasks.*1
    /\ Forall (fun p => finished p.2 = true) tasks'
    /\ trace w' = (trace w ++ evs)%list
    /\ (forall T, (deliveries_to T evs <= pending_to T tasks)%nat)
    /\ (forall w0, NoDup (_normalize_name <$> tasks.*1) ->
          Forall (on_course transport w0 w) tasks ->
          Forall (on_course transport w0 w') tasks').
Proof.
  revert step tasks w. induction n as [|n IH]; intros step tasks w Hwf Hturns.
  all: destruct (forallb (fun p => finished p.2) tasks) eqn:Hun.
  1, 3: rewrite (run_tasks_done _ _ _ _ _ _ _ Hun); exists tasks, w, [];
        split; [done|]; split; [done|]; split; [by apply finished_all|];
        split; [by rewrite app_nil_r|]; split; [intros T; cbn; lia|done].
  - destruct (unfinished_elem tasks Hun) as (i & a & t & Hi & Hf).
    pose proof (turns_lookup tasks i a t Hi). pose proof (unfinished_turns t Hf). lia.
  - rewrite run_tasks_S, Hun.
    pose proof (loop_world tasks w Hun) as Hw1. cbv zeta in Hw1 |- *.
    set (w1 := match ready (now w) tasks with [] => _ | _ => _ end) in *.
    destruct Hw1 as (Hready & Htr1 & Hcs1).
    destruct (ready (now w1) tasks) as [|first rest] eqn:Hc; [done|clear Hready].
    set (i := nth _ _ _).
    assert (Hin : i ∈ ready (now w1) tasks) by (rewrite Hc; by apply pick_in).
    apply ready_spec in Hin as (a & t & Hi & Hr). rewrite Hi.
    assert (Hwft : well_formed t).
    { rewrite Forall_lookup in Hwf. exact (Hwf i (a, t) Hi). }
    destruct (resume_spec source a message t w1 Hwft (runnable_unfinished _ _ Hr))
      as (t' & w2 & evs1 & Hres & Hwft' & Hlt & Htr2 & Hoth & Hdel & Hcourse).
    unfold mbind, M_bind. rewrite Hres.
    assert (Hsum := sum_insert (fun p => turns p.2) tasks i (a, t) (a, t') Hi).
    cbn [snd] in Hsum. fold (turns_of tasks) in Hsum.
    fold (turns_of (<[i := (a, t')]> tasks)) in Hsum.
    destruct (IH (S step) (<[i := (a, t')]> tasks) w2) as
      (tasks' & w' & evs2 & Hrun & Hkeys & Hfin & Htr' & Hdel' & Hcourse').
    { by apply Forall_insert. }
    { lia. }
    assert (Hnames : (<[i := (a, t')]> tasks).*1 = tasks.*1).
    { rewrite list_fmap_insert. apply list_insert_id. by rewrite list_lookup_fmap, Hi. }
    exists tasks', w', (evs1 ++ evs2)%list. split; [exact Hrun|].
    split; [by rewrite Hkeys|]. split; [done|].
    split; [by rewrite Htr', Htr2, Htr1, app_assoc|]. split.
    + intros T. rewrite ClientFacts.deliveries_to_app. specialize (Hdel' T).
      assert (Hp := sum_insert
                (fun p => if String.eqb (_normalize_name p.1) T then to_come p.2 else O)
                tasks i (a, t) (a, t') Hi).
      cbn [fst snd] in Hp. fold (pending_to T tasks) in Hp.
      fold (pending_to T (<[i := (a, t')]> tasks)) in Hp.
      destruct (decide (T = _normalize_name a)) as [->|Hne].
      * rewrite String.eqb_refl in Hp. lia.
      * destruct (Hoth T Hne) as [-> _].
        assert (E : String.eqb (_normalize_name a) T = false)
          by (apply String.eqb_neq; congruence).
        rewrite E in Hp. lia.
    + intros w0 Hnd Hall. apply Hcourse'; [by rewrite Hnames|].
      apply Forall_lookup. intros j p Hj. rewrite list_lookup_insert in Hj.
      rewrite Forall_lookup in Hall.
      case_decide as Hij.
      * injection Hj as <-. apply Hcourse.
        apply (on_course_same w0 w); [by rewrite Htr1|]. exact (Hall i _ Hi).
      * assert (Hji : i <> j).
        { intros ->. apply Hij. split; [done|]. by apply lookup_lt_Some in Hi. }
        assert (Hne : _normalize_name p.1 <> _normalize_name a).
        { intros E. apply Hji. apply (NoDup_lookup _ i j (_normalize_name a) Hnd).
          - by rewrite !list_lookup_fmap, Hi.
          - by rewrite !list_lookup_fmap, Hj, <- E. }
        apply (on_course_same w0 w); [|exact (Hall j p Hj)].
        rewrite Htr2, Htr1, ClientFacts.deliveries_to_app.
        destruct (Hoth _ Hne) as [-> _]. lia.
Qed.

(** *** The start of the calls *)

Lemma listed_none a (agents : list string) :
  _normalize_name a ∉ _normalize_name <$> agents -> listed (_normalize_name a) agents = 0%nat.
Proof.
  unfold listed. induction agents as [|b agents IH]; intros H; [done|].
  rewrite fmap_cons, not_elem_of_cons in H. destruct H as [Hne Hnot].
  rewrite filter_cons. destruct (decide (_normalize_name b = _normalize_name a)); [congruence|].
  by apply IH.
Qed.

Lemma listed_step a T (agents : list string) :
  listed T (a :: agents)
  = ((if String.eqb (_normalize_name a) T then 1 else 0) + listed T agents)%nat.
Proof.
  unfold listed. rewrite filter_cons.
  destruct (decide (_normalize_name a = T)) as [<-|Hne].
  - by rewrite String.eqb_refl.
  - apply String.eqb_neq in Hne. by rewrite Hne.
Qed.

(** Every call passes its gate and sends its first request before any
    reply is looked at. No time passes meanwhile. *)
Lemma start_all_spec source message agents w :
  exists tasks w' evs,
    start_all transport source agents message w = (Ok tasks, w')
    /\ tasks.*1 = agents
    /\ Forall (fun p => well_formed p.2) tasks
    /\ (turns_of tasks <= 3 * length agents)%nat
    /\ trace w' = (trace w ++ evs)%list
    /\ now w' = now w
    /\ (forall T, (deliveries_to T evs + pending_to T tasks <= 2 * listed T agents)%nat)
    /\ (forall T, listed T agents = 0%nat -> circuits w' !! T = circuits w !! T)
    /\ (forall w0, now w = now w0 -> NoDup (_normalize_name <$> agents) ->
          (forall a, a ∈ agents -> untouched w0 w a) ->
          Forall (on_course transport w0 w') tasks).
Proof.
  revert w. induction agents as [|a agents IH]; intros w.
  - exists [], w, []. cbn [start_all]. split; [done|]. split; [done|]. split; [done|].
    split; [cbn; lia|]. split; [by rewrite app_nil_r|]. split; [done|].
    split; [intros T; cbn; lia|]. split; [done|]. intros; by apply Forall_nil.
  - cbn [start_all]. unfold mbind, M_bind.
    destruct (start_spec source a message w)
      as (t & w1 & evs1 & Hst & Hwf & Htr1 & Hn1 & Hoth & Hdel & Hturns & Hcourse).
    rewrite Hst.
    destruct (IH w1) as (tasks & w' & evs2 & Hrest & Hkeys & Hwfs & Hts & Htr' & Hn' &
                          Hdel' & Hcs' & Hcourse').
    rewrite Hrest. exists ((a, t) :: tasks), w', (evs1 ++ evs2)%list.
    split; [done|]. split; [by rewrite fmap_cons, Hkeys|].
    split; [by apply Forall_cons|].
    split; [unfold turns_of in *; cbn [sum_list_with length snd]; lia|].
    split; [by rewrite Htr', Htr1, app_assoc|]. split; [by rewrite Hn', Hn1|]. split.
    { intros T. rewrite ClientFacts.deliveries_to_app, listed_step. specialize (Hdel' T).
      unfold pending_to in *. cbn [sum_list_with fst snd].
      destruct (decide (T = _normalize_name a)) as [->|Hne].
      - rewrite String.eqb_refl. lia.
      - destruct (Hoth T Hne) as [-> _].
        assert (E : String.eqb (_normalize_name a) T = false)
          by (apply String.eqb_neq; congruence).
        rewrite E. lia. }
    split.
    { intros T HT. rewrite listed_step in HT.
      destruct (String.eqb (_normalize_name a) T) eqn:E; [lia|]. apply String.eqb_neq in E.
      rewrite Hcs' by lia. apply Hoth. congruence. }
    intros w0 Hn0 Hnd Hun. rewrite fmap_cons, NoDup_cons in Hnd. destruct Hnd as [Hnot Hnd].
    apply Forall_cons. split.
    + apply (on_course_same w0 w1).
      * cbn [fst]. rewrite Htr', ClientFacts.deliveries_to_app.
        specialize (Hdel' (_normalize_name a)). rewrite (listed_none _ _ Hnot) in Hdel'. lia.
      * apply Hcourse; [done|]. apply Hun, list_elem_of_here.
    + apply Hcourse'; [by rewrite Hn1|done|].
      intros b Hb. destruct (Hun b (list_elem_of_further _ _ _ Hb)) as [Hc Hd].
      assert (Hne : _normalize_name b <> _normalize_name a).
      { intros E. apply Hnot. rewrite <- E. apply list_elem_of_fmap. by exists b. }
      destruct (Hoth _ Hne) as [Hd1 Hc1]. split; [by rewrite Hc1|].
      rewrite Htr1, ClientFacts.deliveries_to_app, Hd1. lia.
Qed.

(** *** The broadcast as a whole *)

(** [gather] returns, whatever the schedule and whatever the network
    does: one result for each agent in the order given, at most two
    delivery attempts for each time a target is listed, and, where no two
    agents name the same target, for each agent the result its call has
    by itself. *)
Lemma gather_general source message agents w :
  exists results w' evs,
    gather transport schedule source agents message w = (Ok results, w')
    /\ length results = length agents
    /\ trace w' = (trace w ++ evs)%list
    /\ (forall T, (deliveries_to T evs <= 2 * listed T agents)%nat)
    /\ (NoDup (_normalize_name <$> agents) ->
          results = lone_result transport w <$> agents).
Proof.
  unfold gather, mbind, M_bind.
  destruct (start_all_spec source message agents w)
    as (tasks & w1 & evs1 & Hst & Hkeys & Hwf & Hturns & Htr1 & Hn1 & Hdel1 & _ & Hcourse1).
  rewrite Hst.
  assert (Hlen : length tasks = length agents) by (by rewrite <- Hkeys, length_fmap).
  destruct (run_tasks_spec (3 * length agents) 0 source message tasks w1 Hwf Hturns)
    as (tasks' & w' & evs2 & Hrun & Hkeys' & Hfin & Htr' & Hdel2 & Hcourse2).
  rewrite Hrun. cbn [mret M_ret]. eexists _, w', (evs1 ++ evs2)%list. split; [reflexivity|].
  split; [by rewrite length_fmap, <- Hlen, <- (length_fmap fst tasks'), Hkeys', length_fmap|].
  split; [by rewrite Htr', Htr1, app_assoc|]. split.
  - intros T. rewrite ClientFacts.deliveries_to_app.
    specialize (Hdel1 T). specialize (Hdel2 T). lia.
  - intros Hnd. rewrite <- Hkeys, <- Hkeys', <- list_fmap_compose.
    apply list_fmap_ext. intros i p Hp. cbn.
    assert (Hall : Forall (on_course transport w w') tasks').
    { apply Hcourse2; [by rewrite Hkeys|]. apply Hcourse1; [done|done|].
      intros a _. by split. }
    rewrite Forall_lookup in Hall, Hfin.
    by apply (on_course_end w w' p (Hfin i p Hp)), (Hall i p Hp).
Qed.


End Transport.

End GatherFacts.




(** ** Handshakes and the environment *)

Module HandshakeFacts.

Import World Client Spec.

Implicit Types (w : world) (r : resolution) (ag : list resolution) (cid : string).

(** *** Resolutions of other handshakes *)

Lemma update_other cid cid' v w :
  cid' <> cid ->
  handshake_view cid (_update_handshake_record cid' v w) = handshake_view cid w.
Proof.
  intros Hne. unfold handshake_view, fetch_handshake, _update_handshake_record.
  destruct (db w) as [d|] eqn:E; [|by rewrite E]. cbn. by rewrite lookup_alter_ne.
Qed.

Lemma resolve_other cid cid' v w :
  cid' <> cid ->
  handshake_view cid (resolve_handshake cid' v w) = handshake_view cid w.
Proof.
  intros Hne. unfold resolve_handshake. rewrite update_other by done.
  destruct (decide (cid' ∈ pending_handshakes w)); [|done].
  unfold handshake_view, fetch_handshake.
  assert (Hp : bool_decide (cid ∈ pending_handshakes w ∖ {[cid']})
               = bool_decide (cid ∈ pending_handshakes w)).
  { apply bool_decide_ext. rewrite elem_of_difference, elem_of_singleton.
    intuition congruence. }
  destruct (future_done cid' w); cbn; rewrite Hp, ?lookup_insert_ne by done; reflexivity.
Qed.

Lemma apply_resolution_other cid r w :
  res_cid r <> cid -> handshake_view cid (apply_resolution r w) = handshake_view cid w.
Proof.
  intros Hne. unfold apply_resolution.
  destruct (res_local r); [by apply resolve_other|by apply update_other].
Qed.

Lemma run_due_quiet cid t ag w :
  no_resolution_for cid ag ->
  handshake_view cid (run_due t ag w).1 = handshake_view cid w
  /\ no_resolution_for cid (run_due t ag w).2.
Proof.
  intros Hno. revert w. induction Hno as [|r rest Hr _ IH]; intros w; cbn [run_due].
  - split; [done|constructor].
  - destruct (Qle_bool (res_time r) t).
    + destruct (IH (apply_resolution r w)) as [Hv Hrest].
      split; [by rewrite Hv, apply_resolution_other|done].
    + destruct (IH w) as [Hv Hrest]. destruct (run_due t rest w) as [w1 later].
      split; [done|by constructor].
Qed.

(** Views ignore the fields a suspension point does not read. *)
Lemma view_set_agenda cid ag w : handshake_view cid (set_agenda ag w) = handshake_view cid w.
Proof. reflexivity. Qed.

Lemma view_set_now cid t w : handshake_view cid (set_now t w) = handshake_view cid w.
Proof. reflexivity. Qed.

Lemma view_set_trace cid tr w : handshake_view cid (set_trace tr w) = handshake_view cid w.
Proof. reflexivity. Qed.

Lemma view_set_circuits cid cs w :
  handshake_view cid (set_circuits cs w) = handshake_view cid w.
Proof. reflexivity. Qed.

Lemma view_set_a2a_clients cid cl w :
  handshake_view cid (set_a2a_clients cl w) = handshake_view cid w.
Proof. reflexivity. Qed.

(** While nobody resolves [cid], a suspension point changes nothing the
    handshake of [cid] can observe. *)
Lemma sync_quiet cid w :
  no_resolution_for cid (agenda w) ->
  handshake_view cid (sync w) = handshake_view cid w
  /\ no_resolution_for cid (agenda (sync w)).
Proof.
  intros Hno. unfold sync.
  destruct (run_due_quiet cid (now w) (agenda w) w Hno) as [Hv Hrest].
  destruct (run_due (now w) (agenda w) w) as [w1 later]. by split.
Qed.

Lemma view_fetch cid w w' :
  handshake_view cid w' = handshake_view cid w ->
  fetch_handshake cid w' = fetch_handshake cid w.
Proof. unfold handshake_view. congruence. Qed.

Lemma view_pending cid w w' :
  handshake_view cid w' = handshake_view cid w ->
  (cid ∈ pending_handshakes w' <-> cid ∈ pending_handshakes w).
Proof.
  unfold handshake_view. intros [= _ Hp _].
  by rewrite <- (bool_decide_spec (cid ∈ pending_handshakes w')), Hp, bool_decide_spec.
Qed.

Lemma view_future cid w w' :
  handshake_view cid w' = handshake_view cid w -> futures w' !! cid = futures w !! cid.
Proof. unfold handshake_view. congruence. Qed.

Lemma fetch_delete cid w : fetch_handshake cid (delete_handshake cid w) = None.
Proof.
  unfold fetch_handshake, delete_handshake. destruct (db w) as [d|] eqn:E; [|by rewrite E].
  cbn. apply lookup_delete_eq.
Qed.

Lemma db_delete_presence cid w : is_Some (db (delete_handshake cid w)) <-> is_Some (db w).
Proof.
  unfold delete_handshake. destruct (db w) as [d|] eqn:E; cbn; [|by rewrite E].
  split; eauto.
Qed.

Lemma sync_db_presence w : is_Some (db (sync w)) <-> is_Some (db w).
Proof.
  destruct (db w) as [d|] eqn:E.
  - destruct (WorldFacts.sync_db_some w d E) as (d' & -> & _). split; eauto.
  - rewrite (WorldFacts.sync_db_none w E). split; intros [? ?]; done.
Qed.

End HandshakeFacts.

(** ** A handshake that nobody answers *)

Module HandshakeTimeout.

Import World Client Spec HandshakeFacts.

Implicit Types (w : world) (cid : string).

Lemma delete_handshake_circuits cid w : circuits (delete_handshake cid w) = circuits w.
Proof. unfold delete_handshake. by destruct (db w). Qed.

Lemma delete_handshake_now cid w : now (delete_handshake cid w) = now w.
Proof. unfold delete_handshake. by destruct (db w). Qed.

Lemma delete_handshake_pending cid w :
  pending_handshakes (delete_handshake cid w) = pending_handshakes w.
Proof. unfold delete_handshake. by destruct (db w). Qed.

Lemma not_completed_view cid w w' :
  handshake_view cid w' = handshake_view cid w -> not_completed cid w -> not_completed cid w'.
Proof. intros Hv H row. rewrite (view_fetch _ _ _ Hv). apply H. Qed.

(** The polling loop on a record that stays PENDING: it gives up when
    [timeout] whole seconds have passed since [start], deletes the record
    and returns [None]; the clock then stands [max j timeout] seconds after
    the start, where [j] is how far it stood when the loop was entered. *)
Lemma poll_loop_times_out fuel cid timeout start w (j : Z) :
  no_resolution_for cid (agenda w) ->
  not_completed cid w ->
  (now w - start == inject_Z j)%Q ->
  (Z.to_nat (timeout - j) < fuel)%nat ->
  exists w',
    _poll_loop fuel cid timeout start w = (Ok VNone, w')
    /\ fetch_handshake cid w' = None
    /\ circuits w' = circuits w
    /\ (cid ∈ pending_handshakes w' <-> cid ∈ pending_handshakes w)
    /\ (now w' - start == inject_Z (Z.max j timeout))%Q
    /\ (forall t, deliveries_to t (trace w') = deliveries_to t (trace w)).
Proof.
  revert w j. induction fuel as [|fuel IH]; intros w j Hno Hnc Hnow Hfuel.
  - (* no fuel is only enough when the timeout has passed already *)
    cbn [_poll_loop]. destruct (Qltb _ _) eqn:Hlt.
    { apply Qltb_true in Hlt. rewrite Hnow, <- Zlt_Qlt in Hlt. lia. }
    apply Qltb_false in Hlt. rewrite Hnow, <- Zle_Qle in Hlt.
    destruct (sync_quiet cid w Hno) as [Hv _].
    eexists. split; [reflexivity|]. split; [apply fetch_delete|].
    split; [by rewrite delete_handshake_circuits, WorldFacts.sync_circuits|].
    split; [rewrite delete_handshake_pending; by apply view_pending|].
    split; [|intros t; by rewrite ClientSpec.delete_handshake_trace, WorldFacts.sync_trace].
    rewrite delete_handshake_now, WorldFacts.sync_now, Hnow.
    by rewrite Z.max_l by lia.
  - cbn [_poll_loop]. destruct (Qltb _ _) eqn:Hlt.
    + apply Qltb_true in Hlt. rewrite Hnow, <- Zlt_Qlt in Hlt.
      destruct (sync_quiet cid w Hno) as [Hv Hno1].
      set (w1 := sync w) in *.
      assert (Hnc1 : not_completed cid w1) by exact (not_completed_view _ _ _ Hv Hnc).
      (* the record is not COMPLETED: sleep and poll again *)
      assert (Hagain :
        match fetch_handshake cid w1 with
        | Some row =>
            if String.eqb (hs_status row) "COMPLETED"
            then (Ok (hs_result row), delete_handshake cid w1)
            else (sleep 1;; _poll_loop fuel cid timeout start) w1
        | None => (sleep 1;; _poll_loop fuel cid timeout start) w1
        end = (sleep 1;; _poll_loop fuel cid timeout start) w1).
      { destruct (fetch_handshake cid w1) as [row|] eqn:Hrow; [|done].
        specialize (Hnc1 row Hrow). apply String.eqb_neq in Hnc1. by rewrite Hnc1. }
      rewrite Hagain. unfold mbind, M_bind, sleep.
      set (w1' := set_now (now w1 + 1) (set_trace (trace w1 ++ [Sleep 1]) w1)).
      assert (Hno1' : no_resolution_for cid (agenda w1')) by exact Hno1.
      destruct (sync_quiet cid w1' Hno1') as [Hv2 Hno2].
      set (w2 := sync w1') in *.
      assert (Hnow2 : (now w2 - start == inject_Z (j + 1))%Q).
      { subst w2 w1' w1. rewrite WorldFacts.sync_now. cbn [now set_now set_trace].
        rewrite WorldFacts.sync_now, inject_Z_plus, <- Hnow.
        change (inject_Z 1) with 1%Q. ring. }
      destruct (IH w2 (j + 1)%Z Hno2) as (w' & Hrun & Hf & Hc & Hp & Hn & Hd);
        [by apply (not_completed_view _ _ _ Hv2)|exact Hnow2|lia|].
      exists w'. split; [exact Hrun|]. split; [exact Hf|].
      split.
      { rewrite Hc. subst w2 w1' w1.
        rewrite WorldFacts.sync_circuits. cbn. apply WorldFacts.sync_circuits. }
      split.
      { rewrite Hp. rewrite (view_pending _ _ _ Hv2). exact (view_pending _ _ _ Hv). }
      split.
      { rewrite Hn. by rewrite !Z.max_r by lia. }
      intros t. rewrite Hd. subst w2 w1' w1. rewrite WorldFacts.sync_trace. cbn.
      rewrite ClientFacts.deliveries_to_app, WorldFacts.sync_trace. simpl. lia.
    + apply Qltb_false in Hlt. rewrite Hnow, <- Zle_Qle in Hlt.
      destruct (sync_quiet cid w Hno) as [Hv _].
      eexists. split; [reflexivity|]. split; [apply fetch_delete|].
      split; [by rewrite delete_handshake_circuits, WorldFacts.sync_circuits|].
      split; [rewrite delete_handshake_pending; by apply view_pending|].
      split; [|intros t; by rewrite ClientSpec.delete_handshake_trace, WorldFacts.sync_trace].
      rewrite delete_handshake_now, WorldFacts.sync_now, Hnow.
      by rewrite Z.max_l by lia.
Qed.

(** Nothing in the agenda wakes the waiter of [cid]. *)
Lemma nothing_wakes cid deadline ag :
  no_resolution_for cid ag -> filter (fun r => wakes cid deadline r = true) ag = [].
Proof.
  induction 1 as [|r rest Hr _ IH]; [done|].
  rewrite filter_cons_False; [exact IH|].
  unfold wakes. apply String.eqb_neq in Hr. rewrite Hr.
  by destruct (res_local r).
Qed.

(** [wait_for] on a future nobody completes: [asyncio.TimeoutError] at the
    deadline. *)
Lemma wait_for_times_out cid timeout w :
  no_resolution_for cid (agenda w) ->
  futures w !! cid = Some None ->
  exists w',
    wait_for cid timeout w = (Raise TimeoutError, w')
    /\ handshake_view cid w' = handshake_view cid w
    /\ circuits w' = circuits w
    /\ now w' = (now w + (if Qltb timeout 0 then 0 else timeout))%Q
    /\ trace w' = trace w.
Proof.
  intros Hno Hfut. unfold wait_for.
  destruct (sync_quiet cid w Hno) as [Hv Hno1].
  rewrite (view_future _ _ _ Hv), Hfut.
  rewrite (nothing_wakes _ _ _ Hno1). cbn [earliest].
  set (w1' := set_now _ (sync w)).
  assert (Hno1' : no_resolution_for cid (agenda w1')) by exact Hno1.
  destruct (sync_quiet cid w1' Hno1') as [Hv2 _].
  eexists. split; [reflexivity|].
  split; [by rewrite Hv2|].
  split; [rewrite WorldFacts.sync_circuits; cbn; apply WorldFacts.sync_circuits|].
  split; [rewrite WorldFacts.sync_now; cbn; by rewrite WorldFacts.sync_now|].
  rewrite WorldFacts.sync_trace. cbn. apply WorldFacts.sync_trace.
Qed.

End HandshakeTimeout.

Module HandshakeRun.

Import World Client Spec SpecFacts HandshakeFacts HandshakeTimeout.

Implicit Types (w : world) (cid : string).

(** The time [wait_for] and the polling loop wait for is the timeout, or
    nothing when the timeout is negative. *)
Lemma wait_time_max (timeout : Z) :
  ((if Qltb (inject_Z timeout) 0 then 0 else inject_Z timeout) == inject_Z (Z.max 0 timeout))%Q.
Proof.
  destruct (Qltb _ _) eqn:E.
  - apply Qltb_true in E. change 0%Q with (inject_Z 0) in E. rewrite <- Zlt_Qlt in E.
    by rewrite Z.max_l by lia.
  - apply Qltb_false in E. change 0%Q with (inject_Z 0) in E. rewrite <- Zle_Qle in E.
    by rewrite Z.max_r by lia.
Qed.

Lemma popped cid (X : gset string) : cid ∉ X ∖ {[cid]}.
Proof. intros [_ H]%elem_of_difference. by apply H, elem_of_singleton. Qed.

Lemma record_failure_time now T (cs : gmap string CircuitBreaker.circuit) :
  exists st f, CircuitBreaker.record_failure now T cs !! T = Some (st, f, now, 0%Z).
Proof.
  destruct (cs !! T) as [[[[st f] lf] h]|] eqn:E.
  - rewrite (CircuitBreakerFacts.record_failure_lookup _ _ _ _ _ _ _ E). eauto.
  - rewrite (CircuitBreakerFacts.record_failure_cold _ _ _ E), lookup_insert_eq. eauto.
Qed.

(** *** The send leaves the waiting handshake alone *)

Lemma quiet_bind {A B} cid (m : M A) (k : A -> M B) :
  quiet cid m -> (forall a, quiet cid (k a)) -> quiet cid (m ≫= k).
Proof.
  intros Hm Hk w Hno. unfold mbind, M_bind. destruct (Hm w Hno) as (Hv & Hno1 & Hdb).
  destruct (m w) as [[a|e|] w1]; cbn [snd] in *; [|done|done].
  destruct (Hk a w1 Hno1) as (Hv2 & Hno2 & Hdb2).
  split; [congruence|]. split; [done|]. by rewrite Hdb2.
Qed.

Lemma quiet_try_except {A} cid (body : M A) (handler : exn -> M A) :
  quiet cid body -> (forall e, quiet cid (handler e)) -> quiet cid (try_except body handler).
Proof.
  intros Hm Hk w Hno. unfold try_except. destruct (Hm w Hno) as (Hv & Hno1 & Hdb).
  destruct (body w) as [[a|e|] w1]; cbn [snd] in *; [done| |done].
  destruct (Hk e w1 Hno1) as (Hv2 & Hno2 & Hdb2).
  split; [congruence|]. split; [done|]. by rewrite Hdb2.
Qed.

Lemma quiet_ret {A} cid (a : A) : quiet cid (mret a).
Proof. by intros w Hno. Qed.

Lemma quiet_raise {A} cid e : quiet cid (raise e : M A).
Proof. by intros w Hno. Qed.

Lemma quiet_if {A} cid (c : bool) (m1 m2 : M A) :
  quiet cid m1 -> quiet cid m2 -> quiet cid (if c then m1 else m2).
Proof. by destruct c. Qed.

Lemma quiet_allow_request cid T : quiet cid (allow_request T).
Proof.
  intros w Hno. unfold allow_request. by destruct (CircuitBreaker.allow_request _ _ _).
Qed.

Lemma quiet_record_success cid T : quiet cid (record_success T).
Proof. by intros w Hno. Qed.

Lemma quiet_record_failure cid T : quiet cid (record_failure T).
Proof. by intros w Hno. Qed.

Lemma quiet_get_client cid S T : quiet cid (get_client S T).
Proof. by intros w Hno. Qed.

Lemma quiet_drop_client cid S T : quiet cid (drop_client S T).
Proof. by intros w Hno. Qed.

Lemma quiet_sleep cid d : quiet cid (sleep d).
Proof.
  intros w Hno. unfold sleep. cbn [snd].
  set (w1 := set_now _ _).
  assert (Hno1 : no_resolution_for cid (agenda w1)) by exact Hno.
  destruct (sync_quiet cid w1 Hno1) as [Hv Hno2].
  split; [by rewrite Hv|]. split; [done|]. by rewrite sync_db_presence.
Qed.

Section Transport.

Variable transport : string -> nat -> value + string.
Variable healthy : string -> bool.
Variable uuid4 : string.

Lemma quiet_deliver cid T m : quiet cid (deliver transport T m).
Proof. intros w Hno. unfold deliver. by destruct (transport T _). Qed.

Lemma quiet_send_attempts cid n attempt retries S T m :
  quiet cid (send_attempts transport n attempt retries S T m).
Proof.
  revert attempt. induction n as [|n IH]; intros attempt; cbn [send_attempts].
  - apply quiet_ret.
  - apply quiet_try_except.
    + apply quiet_bind; [apply quiet_get_client|intros _].
      apply quiet_bind; [apply quiet_deliver|intros response].
      apply quiet_bind; [apply quiet_record_success|intros _]. apply quiet_ret.
    + intros e.
      apply quiet_bind; [apply quiet_record_failure|intros _].
      apply quiet_bind; [apply quiet_drop_client|intros _].
      apply quiet_if; [apply quiet_raise|].
      apply quiet_bind; [apply quiet_sleep|intros _]. apply IH.
Qed.

Lemma quiet_send_message cid S T m retries check_health :
  quiet cid (send_message transport healthy S T m retries check_health).
Proof.
  unfold send_message.
  apply quiet_bind; [apply quiet_allow_request|intros allowed].
  apply quiet_if; [apply quiet_ret|].
  apply quiet_if; [|apply quiet_send_attempts].
  apply quiet_bind; [apply quiet_record_failure|intros _]. apply quiet_ret.
Qed.

(** *** The send gets through *)

(** The retry loop returns when one of its attempts reaches the target. *)
Lemma send_attempts_reaches n attempt retries S T m w :
  (retries - attempt + 1 = Z.of_nat n)%Z ->
  reachable_within transport T n w ->
  exists v, (send_attempts transport n attempt retries S T m w).1 = Ok v.
Proof.
  revert attempt w. induction n as [|n IH]; intros attempt w Hn (i & response & Hi & Hup);
    [lia|].
  destruct (transport T (deliveries_to T (trace w))) as [r0|msg] eqn:Hfirst.
  - rewrite (ClientFacts.send_attempts_success transport n attempt retries S T m w r0 Hfirst).
    eauto.
  - rewrite (ClientFacts.send_attempts_failure transport n attempt retries S T m w msg Hfirst).
    cbv zeta.
    destruct i as [|i]; [rewrite Nat.add_0_r in Hup; congruence|].
    destruct (attempt =? retries)%Z eqn:E; [apply Z.eqb_eq in E; lia|].
    apply IH; [lia|]. exists i, response. split; [lia|].
    rewrite <- Hup. f_equal. unfold sleep. cbn [snd]. rewrite WorldFacts.sync_trace. cbn.
    rewrite !ClientFacts.deliveries_to_app. simpl. rewrite String.eqb_refl. lia.
Qed.

Lemma send_message_reaches S target m w :
  let T := _normalize_name target in
  reachable_within transport T 4 w ->
  exists v, (send_message transport healthy S T m 3 false w).1 = Ok v.
Proof.
  intros T Hup. unfold send_message.
  replace (_normalize_name T) with T by (symmetry; apply ClientFacts.normalize_idem).
  unfold mbind, M_bind, allow_request.
  destruct (CircuitBreaker.allow_request _ _ _) as [[] cs]; cbn [negb andb]; [|eauto].
  change (Z.to_nat (3 + 1)) with 4%nat.
  apply send_attempts_reaches; [lia|exact Hup].
Qed.

(** What the send of a handshake leaves behind when the target is reached
    within the retry budget. *)
Lemma send_phase S target m cid w :
  let T := _normalize_name target in
  reachable_within transport T 4 w ->
  no_resolution_for cid (agenda w) ->
  exists v w',
    send_message transport healthy S T m 3 false w = (Ok v, w')
    /\ handshake_view cid w' = handshake_view cid w
    /\ no_resolution_for cid (agenda w')
    /\ (is_Some (db w') <-> is_Some (db w))
    /\ (now w <= now w')%Q
    /\ (forall t, (deliveries_to t (trace w') <= deliveries_to t (trace w) + only T 4 t)%nat).
Proof.
  intros T Hup Hno.
  destruct (send_message_reaches S target m w Hup) as [v Hv].
  destruct (quiet_send_message cid S T m 3 false w Hno) as (Hview & Hno' & Hdb).
  destruct (Isolation.frames_send_message transport healthy S T m 3 false w) as [Hnow _].
  destruct (ClientSpec.footprint_send_message transport healthy S T m 3 false w)
    as (evs & Htr & Hb).
  fold T in Hv.
  destruct (send_message transport healthy S T m 3 false w) as [r w'].
  cbn [fst snd] in *. subst r. exists v, w'. split; [reflexivity|].
  split; [exact Hview|]. split; [exact Hno'|]. split; [exact Hdb|]. split; [exact Hnow|].
  intros t. rewrite Htr, ClientFacts.deliveries_to_app. specialize (Hb t).
  replace (_normalize_name T) with T in Hb by (symmetry; apply ClientFacts.normalize_idem).
  change (Z.to_nat (3 + 1)) with 4%nat in Hb. lia.
Qed.

(** When the first attempt already gets through, the send takes no time. *)
Lemma send_phase_at_once S target m w response :
  let T := _normalize_name target in
  transport T (deliveries_to T (trace w)) = inl response ->
  now (send_message transport healthy S T m 3 false w).2 = now w.
Proof.
  intros T Hup. unfold send_message.
  replace (_normalize_name T) with T by (symmetry; apply ClientFacts.normalize_idem).
  unfold mbind, M_bind, allow_request.
  destruct (CircuitBreaker.allow_request _ _ _) as [[] cs]; cbn [negb andb]; [|done].
  change (Z.to_nat (3 + 1)) with 4%nat.
  by rewrite (ClientFacts.send_attempts_success transport 3 0 3 _ T m _ response) by exact Hup.
Qed.

(** The backoff of a retry loop adds up to less than [2 ^ retries] seconds. *)
Lemma send_attempts_time n attempt retries S T m w :
  (0 <= attempt <= retries)%Z ->
  (retries - attempt + 1 = Z.of_nat n)%Z ->
  (now (send_attempts transport n attempt retries S T m w).2
   <= now w + inject_Z (2 ^ retries - 2 ^ attempt))%Q.
Proof.
  revert attempt w. induction n as [|n IH]; intros attempt w Hat Hn; [lia|].
  assert (Hpow : (2 ^ attempt <= 2 ^ retries)%Z) by (apply Z.pow_le_mono_r; lia).
  assert (Hstay : (now w <= now w + inject_Z (2 ^ retries - 2 ^ attempt))%Q).
  { rewrite <- (Qplus_0_r (now w)) at 1. apply Qplus_le_r.
    change 0%Q with (inject_Z 0). rewrite <- Zle_Qle. lia. }
  destruct (transport T (deliveries_to T (trace w))) as [r0|msg] eqn:Hfirst.
  - by rewrite (ClientFacts.send_attempts_success transport n attempt retries S T m w r0 Hfirst).
  - rewrite (ClientFacts.send_attempts_failure transport n attempt retries S T m w msg Hfirst).
    cbv zeta. destruct (attempt =? retries)%Z eqn:E; [exact Hstay|].
    apply Z.eqb_neq in E.
    eapply Qle_trans; [apply IH; lia|].
    unfold sleep. cbn [snd]. rewrite WorldFacts.sync_now. cbn [now set_now].
    rewrite <- Qplus_assoc. apply Qplus_le_r. rewrite <- inject_Z_plus, <- Zle_Qle.
    rewrite Z.pow_add_r by lia. change (2 ^ 1)%Z with 2%Z. lia.
Qed.

(** A send with three retries returns within seven seconds. *)
Lemma send_message_time S T m w :
  (now (send_message transport healthy S T m 3 false w).2 <= now w + 7)%Q.
Proof.
  assert (Hstay : (now w <= now w + 7)%Q).
  { rewrite <- (Qplus_0_r (now w)) at 1. by apply Qplus_le_r. }
  unfold send_message. unfold mbind, M_bind, allow_request.
  destruct (CircuitBreaker.allow_request _ _ _) as [[] cs]; cbn [negb andb]; [|exact Hstay].
  change (Z.to_nat (3 + 1)) with 4%nat.
  eapply Qle_trans; [apply send_attempts_time; lia|]. cbn [now set_circuits]. apply Qle_refl.
Qed.

(** *** A handshake nobody resolves *)

(** The waiting part of a handshake that nobody resolves: whichever way it
    waits, it ends in the timeout exception with the failure recorded, the
    waiter dropped and no durable record left. [db_available] tells
    whether the PENDING record was written. The wait itself lasts the
    timeout; the send before it lasts as long as its backoff. *)
Lemma handshake_attempt_times_out fuel S target payload cid timeout (db_available : bool) w :
  let T := _normalize_name target in
  reachable_within transport T 4 w ->
  no_resolution_for cid (agenda w) ->
  futures w !! cid = Some None ->
  (if db_available then is_Some (db w) /\ not_completed cid w else db w = None) ->
  (Z.to_nat timeout < fuel)%nat ->
  exists w' cs,
    handshake_attempt transport healthy fuel S T payload cid timeout db_available w
    = (Raise (Exception ("Agent " ++ T ++ " did not respond within " ++ pretty timeout
                         ++ "s")), w')
    /\ circuits w' = CircuitBreaker.record_failure (now w') T cs
    /\ (cid ∉ pending_handshakes w')
    /\ fetch_handshake cid w' = None
    /\ (now w + inject_Z (Z.max 0 timeout) <= now w')%Q
    /\ (now w' <= now w + inject_Z (Z.max 0 timeout) + 7)%Q
    /\ (forall response, transport T (deliveries_to T (trace w)) = inl response ->
                         (now w' - now w == inject_Z (Z.max 0 timeout))%Q)
    /\ (forall t, (deliveries_to t (trace w') <= deliveries_to t (trace w) + only T 4 t)%nat)
    /\ (exists sent n,
          trace w' = (trace w ++ sent ++ replicate n (Sleep 1))%list
          /\ (n <= Z.to_nat timeout)%nat
          /\ (forall t, (deliveries_to t sent <= only T 4 t)%nat)
          /\ (now w' - (now w + sleep_total sent) == inject_Z (Z.max 0 timeout))%Q).
Proof.
  intros T Hup Hno Hfut Hdb Hfuel.
  set (msg := handshake_envelope S payload cid).
  destruct (send_phase S target msg cid w Hup Hno)
    as (v & wD & Hsend & HvD & HnoD & HdbD & HnowD & HdD).
  destruct (ClientClock.send_message_sent transport healthy S target msg w)
    as (sent & HtrD & HclockD & HsentB).
  cbv zeta in HtrD, HclockD, HsentB. rewrite Hsend in HtrD, HclockD.
  cbn [snd] in HtrD, HclockD. fold T in HsentB.
  pose proof (send_message_time S T msg w) as HlateD.
  pose proof (fun response => send_phase_at_once S target msg w response) as HonceD.
  cbv zeta in HonceD. fold T in Hsend, HdD, HonceD.
  rewrite Hsend in HlateD, HonceD. cbn [snd] in HlateD, HonceD.
  unfold handshake_attempt, try_except. cbv zeta. fold msg.
  unfold mbind at 1. unfold M_bind at 1. rewrite Hsend.
  destruct db_available.
  - (* durable record: polled until the timeout, then deleted *)
    destruct Hdb as [Hsome Hnc].
    assert (HncD : not_completed cid wD) by exact (not_completed_view _ _ _ HvD Hnc).
    unfold mbind at 1. unfold M_bind at 1. unfold _poll_handshake_result.
    destruct (db wD) as [d|] eqn:HdD'; [|apply HdbD in Hsome; by destruct Hsome].
    destruct (poll_loop_times_out fuel cid timeout (now wD) wD 0 HnoD HncD)
      as (wE & Hpoll & HfE & HcE & HpE & HnE & HdE).
    { change (inject_Z 0) with 0%Q. ring. }
    { by rewrite Z.sub_0_r. }
    destruct (ClientClock.poll_loop_sleeps fuel cid timeout (now wD) wD 0) as (n & HtrE & Hn).
    { change (inject_Z 0) with 0%Q. ring. }
    rewrite Hpoll in HtrE. cbn [snd] in HtrE. rewrite Z.sub_0_r in Hn.
    rewrite Hpoll. cbn [truthy]. unfold raise.
    unfold mbind, M_bind, record_failure, pop_pending, modify, raise.
    eexists. eexists. split; [reflexivity|]. cbn.
    split; [reflexivity|]. split; [apply popped|]. split; [exact HfE|].
    set (d0 := inject_Z (Z.max 0 timeout)) in *.
    split; [lra|]. split; [lra|]. split.
    { intros response Hfirst. rewrite <- (HonceD response Hfirst). exact HnE. }
    split; [intros t; rewrite HdE; apply HdD|].
    exists sent, n. split; [by rewrite HtrE, HtrD, app_assoc|]. split; [exact Hn|].
    split; [exact HsentB|]. subst d0. rewrite <- HclockD. exact HnE.
  - (* no durable store: the future is awaited until the deadline *)
    unfold mbind at 1. unfold M_bind at 1.
    destruct (wait_for_times_out cid (inject_Z timeout) wD HnoD)
      as (wE & Hwait & HvE & HcE & HnE & HtE); [by rewrite (view_future _ _ _ HvD)|].
    rewrite Hwait.
    unfold mbind, M_bind, record_failure, pop_pending, modify, raise.
    eexists. eexists. split; [reflexivity|]. cbn.
    split; [reflexivity|]. split; [apply popped|]. split.
    { change (fetch_handshake cid wE = None).
      rewrite (view_fetch _ _ _ HvE), (view_fetch _ _ _ HvD). unfold fetch_handshake.
      by rewrite Hdb. }
    assert (HnE' : (now wE - now wD == inject_Z (Z.max 0 timeout))%Q).
    { rewrite HnE, <- wait_time_max. ring. }
    set (d0 := inject_Z (Z.max 0 timeout)) in *.
    split; [lra|]. split; [lra|]. split.
    { intros response Hfirst. rewrite <- (HonceD response Hfirst). exact HnE'. }
    split; [intros t; rewrite HtE; apply HdD|].
    exists sent, 0%nat. split; [by rewrite HtE, HtrD, app_nil_r|]. split; [lia|].
    split; [exact HsentB|]. subst d0. rewrite <- HclockD. exact HnE'.
Qed.

(** A handshake that is admitted and sent but never resolved. *)
Lemma handshake_times_out fuel S target payload correlation_id timeout w :
  let T := _normalize_name target in
  let cid := new_if_absent uuid4 correlation_id in
  (CircuitBreaker.allow_request (now w) T (circuits w)).1 = true ->
  reachable_within transport T 4 w ->
  no_resolution_for cid (agenda w) ->
  (Z.to_nat timeout < fuel)%nat ->
  exists w' cs,
    send_request_with_handshake transport healthy uuid4 fuel S target payload
      correlation_id timeout w
    = (Raise (Exception ("Agent " ++ T ++ " did not respond within " ++ pretty timeout
                         ++ "s")), w')
    /\ circuits w' = CircuitBreaker.record_failure (now w') T cs
    /\ (cid ∉ pending_handshakes w')
    /\ fetch_handshake cid w' = None
    /\ (now w + inject_Z (Z.max 0 timeout) <= now w')%Q
    /\ (now w' <= now w + inject_Z (Z.max 0 timeout) + 7)%Q
    /\ (forall response, transport T (deliveries_to T (trace w)) = inl response ->
                         (now w' - now w == inject_Z (Z.max 0 timeout))%Q)
    /\ (forall t, (deliveries_to t (trace w') <= deliveries_to t (trace w) + only T 4 t)%nat)
    /\ (exists sent n,
          trace w' = (trace w ++ sent ++ replicate n (Sleep 1))%list
          /\ (n <= Z.to_nat timeout)%nat
          /\ (forall t, (deliveries_to t sent <= only T 4 t)%nat)
          /\ (now w' - (now w + sleep_total sent) == inject_Z (Z.max 0 timeout))%Q).
Proof.
  intros T cid Hallow Hup Hno Hfuel.
  unfold send_request_with_handshake. fold T cid.
  unfold mbind at 1. unfold M_bind at 1. unfold allow_request.
  destruct (CircuitBreaker.allow_request (now w) T (circuits w)) as [b cs1].
  simpl in Hallow. subst b. cbn [negb].
  set (wA := set_circuits cs1 w).
  assert (HnoA : no_resolution_for cid (agenda wA)) by exact Hno.
  destruct (sync_quiet cid wA HnoA) as [HvS HnoS].
  unfold mbind at 1. unfold M_bind at 1. unfold _create_handshake_record.
  set (wS := sync wA) in *.
  assert (HtrS : trace wS = trace w) by (subst wS wA; by rewrite WorldFacts.sync_trace).
  assert (HnowS : now wS = now w) by (subst wS wA; by rewrite WorldFacts.sync_now).
  destruct (db wS) as [d|] eqn:Hdb.
  - set (wB := set_db _ wS).
    unfold mbind at 1. unfold M_bind at 1. unfold register_future, modify.
    set (wC := set_pending_handshakes _ _).
    destruct (handshake_attempt_times_out fuel S target payload cid timeout true wC)
      as (w' & cs & Hrun & Hc & Hp & Hf & Hn1 & Hn2 & Hn3 & Hd & Hwait).
    + unfold reachable_within. subst wC wB. cbn. rewrite HtrS. exact Hup.
    + exact HnoS.
    + subst wC. cbn. apply lookup_insert_eq.
    + split; [subst wC wB; cbn; eauto|].
      intros row. subst wC wB. unfold fetch_handshake. cbn. rewrite lookup_insert_eq.
      by intros [= <-].
    + exact Hfuel.
    + fold T in Hrun, Hc, Hn3, Hd, Hwait.
      assert (HnowC : now wC = now w) by (subst wC wB; cbn; exact HnowS).
      assert (HtrC : trace wC = trace w) by (subst wC wB; cbn; exact HtrS).
      rewrite HnowC in Hn1, Hn2, Hn3, Hwait. rewrite HtrC in Hn3, Hd, Hwait.
      exists w', cs. repeat (split; [assumption|]). assumption.
  - unfold mbind at 1. unfold M_bind at 1. unfold register_future, modify.
    set (wC := set_pending_handshakes _ _).
    destruct (handshake_attempt_times_out fuel S target payload cid timeout false wC)
      as (w' & cs & Hrun & Hc & Hp & Hf & Hn1 & Hn2 & Hn3 & Hd & Hwait).
    + unfold reachable_within. subst wC. cbn. rewrite HtrS. exact Hup.
    + exact HnoS.
    + subst wC. cbn. apply lookup_insert_eq.
    + subst wC. cbn. exact Hdb.
    + exact Hfuel.
    + fold T in Hrun, Hc, Hn3, Hd, Hwait.
      assert (HnowC : now wC = now w) by (subst wC; cbn; exact HnowS).
      assert (HtrC : trace wC = trace w) by (subst wC; cbn; exact HtrS).
      rewrite HnowC in Hn1, Hn2, Hn3, Hwait. rewrite HtrC in Hn3, Hd, Hwait.
      exists w', cs. repeat (split; [assumption|]). assumption.
Qed.

End Transport.

End HandshakeRun.

(** ** A handshake that is answered *)

Module HandshakeAnswered.

Import World Client Spec SpecFacts HandshakeFacts HandshakeTimeout.

Implicit Types (w : world) (r : resolution) (ag : list resolution) (cid : string)
  (G : resolution -> Prop).

(** *** What a suspension point leaves of the agenda *)





(** *** What a resolution does to the handshake it answers *)








(** *** What a suspension point does to the record and to the future *)







(** *** What the handshake waits for holds on while the request is sent *)











Section Transport.

Variable transport : string -> nat -> value + string.
Variable healthy : string -> bool.
Variable uuid4 : string.





End Transport.

(** *** Polling the durable record *)


(** *** Waiting on the future *)



(** *** The whole handshake *)

Section Handshake.

Variable transport : string -> nat -> value + string.
Variable healthy : string -> bool.
Variable uuid4 : string.



End Handshake.

End HandshakeAnswered.

(** C8. Handshake cleanup on timeout. A handshake request that the circuit
    admits, whose message gets through within the retry budget and for
    which no resolution is ever posted ends in the exception
    [Agent T did not respond within {timeout}s]. When it does, the last
    thing recorded on the circuit of the target is a failure at that very
    time, the waiter of the correlation id is gone and the store holds no
    handshake record for it. The exception is raised [max 0 timeout]
    seconds after the call when the first delivery attempt gets through,
    and at most the seven seconds of retry backoff later otherwise. *)
Theorem handshake_timeout_cleanup
    (transport : string -> nat -> value + string) (healthy : string -> bool)
    (uuid4 : string) (fuel : nat) (source_agent target_agent : string) (payload : value)
    (correlation_id : option string) (timeout : Z) (w : World.world) :
  let T := Client._normalize_name target_agent in
  let cid := Client.new_if_absent uuid4 correlation_id in
  (CircuitBreaker.allow_request (World.now w) T (World.circuits w)).1 = true ->
  Spec.reachable_within transport T 4 w ->
  World.no_resolution_for cid (World.agenda w) ->
  (Z.to_nat timeout < fuel)%nat ->
  exists w' cs,
    Client.send_request_with_handshake transport healthy uuid4 fuel source_agent
      target_agent payload correlation_id timeout w
    = (Raise (Exception ("Agent " ++ T ++ " did not respond within " ++ pretty timeout
                         ++ "s")), w')
    /\ World.circuits w' = CircuitBreaker.record_failure (World.now w') T cs
    /\ (cid ∉ World.pending_handshakes w')
    /\ Client.fetch_handshake cid w' = None
    /\ (World.now w + inject_Z (Z.max 0 timeout) <= World.now w')%Q
    /\ (World.now w' <= World.now w + inject_Z (Z.max 0 timeout) + 7)%Q
    /\ (forall response,
          transport T (Client.deliveries_to T (World.trace w)) = inl response ->
          (World.now w' - World.now w == inject_Z (Z.max 0 timeout))%Q).
Proof.
  intros T cid Hallow Hup Hno Hfuel.
  destruct (HandshakeRun.handshake_times_out transport healthy uuid4 fuel source_agent
              target_agent payload correlation_id timeout w Hallow Hup Hno Hfuel)
    as (w' & cs & Hrun & Hc & Hp & Hf & Hn1 & Hn2 & Hn3 & _).
  exists w', cs. repeat (split; [assumption|]). assumption.
Qed.

Lemma handshake_timeout_cleanup_witness :
  let silent : string -> nat -> value + string := fun _ _ => inl (VStr "ack") in
  let r := Client.send_request_with_handshake silent (fun _ => true) "uuid" 6
             "fire" "medical" (VDict [("incident", VStr "FIRE_DEPOT_01")]) None 5
             (World.fresh 0 (Some World.empty_database)) in
  r.1 = Raise (Exception "Agent medical did not respond within 5s")
  /\ (World.now r.2 == 5)%Q
  /\ Client.fetch_handshake "uuid" r.2 = None
  /\ ("uuid" ∉ World.pending_handshakes r.2)
  /\ exists st f, World.circuits r.2 !! "medical" = Some (st, f, World.now r.2, 0%Z).
Proof.
  intros silent r.
  destruct (handshake_timeout_cleanup silent (fun _ => true) "uuid" 6 "fire" "medical"
              (VDict [("incident", VStr "FIRE_DEPOT_01")]) None 5
              (World.fresh 0 (Some World.empty_database)))
    as (w' & cs & Hrun & Hc & Hp & Hf & _ & _ & Hn).
  - reflexivity.
  - exists 0%nat, (VStr "ack"). split; [lia|reflexivity].
  - constructor.
  - simpl. lia.
  - fold r in Hrun. rewrite Hrun. cbn [fst snd].
    split; [reflexivity|]. split.
    { specialize (Hn (VStr "ack") eq_refl). cbn in Hn.
      assert (E : (World.now w' == World.now w' - 0)%Q) by ring.
      rewrite E. exact Hn. }
    split; [exact Hf|]. split; [exact Hp|].
    rewrite Hc. apply HandshakeRun.record_failure_time.
Defined.


(** A resolution whose result is falsy (an empty dict, say) is taken for
    no result at all by the polling branch: the call raises the timeout
    exception as soon as it has read the result, two seconds into a wait of
    five. *)
Example handshake_empty_result_times_out :
  let transport : string -> nat -> value + string := fun _ _ => inl (VStr "ack") in
  let empty : World.resolution :=
    {| World.res_time := 2; World.res_local := false; World.res_cid := "cid-1";
       World.res_result := VDict [] |} in
  let request :=
    Client.send_request_with_handshake transport (fun _ => true) "uuid" 6
      "fire" "medical" (VDict []) (Some "cid-1") 5
      (World.set_agenda [empty] (World.fresh 0 (Some World.empty_database))) in
  request.1 = Raise (Exception "Agent medical did not respond within 5s")
  /\ (World.now request.2 == 2)%Q.
Proof. vm_compute. repeat split. Qed.

(** A request that needs a retry and is answered twice: the first
    delivery attempt fails, so the wait starts a second into the call, and
    two processes post an answer, at 2 s and at 3 s. The call returns the
    answer the poll at 2 s finds. *)
Example handshake_retry_then_first_answer :
  let transport : string -> nat -> value + string :=
    fun _ k => if Nat.eqb k 0 then inr "connection refused" else inl (VStr "ack") in
  let answer (n : Z) : World.resolution :=
    {| World.res_time := inject_Z (n + 1); World.res_local := false;
       World.res_cid := "cid-1"; World.res_result := VDict [("answer", VInt n)] |} in
  let request :=
    Client.send_request_with_handshake transport (fun _ => true) "uuid" 6
      "fire" "medical" (VDict []) (Some "cid-1") 5
      (World.set_agenda [answer 2%Z; answer 1%Z]
         (World.fresh 0 (Some World.empty_database))) in
  request.1 = Ok (VDict [("answer", VInt 1%Z)])
  /\ (World.now request.2 == 2)%Q.
Proof. vm_compute. repeat split. Qed.



(** * Further properties of the code *)

(** ** Circuit status report *)

Module CircuitStatusFacts.

Import CircuitBreaker CircuitStatus.

Implicit Types (cs : gmap string circuit) (a b : string) (agents : list string).

Lemma get_state_other now a b cs : a <> b -> (get_state now a cs).2 !! b = cs !! b.
Proof.
  intros Hab. unfold get_state.
  destruct (cs !! a) as [[[[st f] lf] h]|]; [|done].
  destruct (_ && _); [|done]. cbn. by rewrite lookup_insert_ne.
Qed.

Lemma get_state_local now a cs1 cs2 :
  cs1 !! a = cs2 !! a ->
  (get_state now a cs1).1 = (get_state now a cs2).1
  /\ (get_state now a cs1).2 !! a = (get_state now a cs2).2 !! a.
Proof.
  intros H. unfold get_state. rewrite H.
  destruct (cs2 !! a) as [[[[st f] lf] h]|] eqn:E; [|cbn; by rewrite H, E].
  destruct (_ && _); cbn; [by rewrite !lookup_insert_eq|by rewrite H, E].
Qed.

Lemma get_state_keys now a b cs : is_Some ((get_state now a cs).2 !! b) <-> is_Some (cs !! b).
Proof.
  destruct (decide (a = b)) as [<-|Hab]; [|by rewrite get_state_other].
  unfold get_state. destruct (cs !! a) as [[[[st f] lf] h]|] eqn:E; [|cbn; by rewrite E].
  destruct (_ && _); cbn; [rewrite lookup_insert_eq|rewrite E]; split; eauto.
Qed.

(** Reading a state a second time at the same moment changes nothing. *)
Lemma get_state_again now a cs :
  let '(st, cs1) := get_state now a cs in get_state now a cs1 = (st, cs1).
Proof.
  unfold get_state. destruct (cs !! a) as [[[[st f] lf] h]|] eqn:E; [|by rewrite E].
  destruct (state_eqb st OPEN && _) eqn:Hgo; [|by rewrite E, Hgo].
  by rewrite lookup_insert_eq.
Qed.

(** The comprehension asks every listed agent once; what it reports for
    an agent and what it leaves of its circuit is what [get_state] on the
    initial circuits gives. *)
Lemma fold_status now agents report0 cs0 :
  NoDup agents ->
  let r := foldl (status_step now) (report0, cs0) agents in
  (forall a, a ∈ agents ->
     r.1 !! a = Some (get_state now a cs0).1 /\ r.2 !! a = (get_state now a cs0).2 !! a)
  /\ (forall a, a ∉ agents -> r.1 !! a = report0 !! a /\ r.2 !! a = cs0 !! a).
Proof.
  intros Hnd. revert report0 cs0.
  induction Hnd as [|x rest Hx Hnd IH]; intros report0 cs0; cbn [foldl].
  - split; [intros a Ha; by apply elem_of_nil in Ha|done].
  - destruct (get_state now x cs0) as [st cs1] eqn:Hst.
    assert (Hstep : status_step now (report0, cs0) x = (<[x := st]> report0, cs1)).
    { unfold status_step. cbn [fst snd]. by rewrite Hst. }
    rewrite Hstep.
    destruct (IH (<[x := st]> report0) cs1) as [Hin Hout].
    assert (Hcs1 : forall b, b <> x -> cs1 !! b = cs0 !! b).
    { intros b Hb. change cs1 with (st, cs1).2. rewrite <- Hst.
      apply get_state_other. congruence. }
    split.
    + intros a [->|Ha]%elem_of_cons.
      * destruct (Hout x Hx) as [H1 H2]. rewrite H1, H2, lookup_insert_eq, Hst. done.
      * assert (Hax : a <> x) by (intros ->; done).
        destruct (Hin a Ha) as [H1 H2]. rewrite H1, H2.
        destruct (get_state_local now a cs1 cs0 (Hcs1 a Hax)) as [E1 E2].
        by rewrite E1, E2.
    + intros a Ha. apply not_elem_of_cons in Ha as [Hax Ha].
      destruct (Hout a Ha) as [H1 H2]. rewrite H1, H2, lookup_insert_ne by done.
      split; [done|by apply Hcs1].
Qed.

(** At no later time does a read of the state change whether a request
    is admitted. *)
Lemma allow_after_get_state now t a cs :
  (now <= t)%Q ->
  (allow_request t a (get_state now a cs).2).1 = (allow_request t a cs).1.
Proof.
  intros Ht. unfold get_state at 1.
  destruct (cs !! a) as [[[[st f] lf] h]|] eqn:E; [|done].
  destruct (state_eqb st OPEN && Qgtb (now - lf) CIRCUIT_RESET_TIMEOUT) eqn:Hgo; [|done].
  apply andb_true_iff in Hgo as [Hst Hlate]. destruct st; try discriminate.
  apply Qgtb_true in Hlate. cbn [snd].
  rewrite (CircuitBreakerFacts.allow_half_open t a _ f lf 0) by apply lookup_insert_eq.
  rewrite (CircuitBreakerFacts.allow_open_late t a cs f lf h E); [done|].
  unfold CIRCUIT_RESET_TIMEOUT in *. lra.
Qed.

End CircuitStatusFacts.

(** X1. [get_circuit_status] is not a plain read: for every agent of the
    breaker it reports what [get_state] answers, and, like [get_state], it
    moves the circuits that are due from OPEN to HALF_OPEN. In whatever
    order the dict yields its keys, the report covers exactly the agents of
    the breaker, asking again at the same moment gives the same report and
    changes nothing more, and at no later time does the report change
    whether [allow_request] admits a request. *)
Theorem circuit_status_report (now : Q) (agents : list string)
    (cs : gmap string CircuitBreaker.circuit) :
  CircuitStatus.keys_of cs agents ->
  let report := (CircuitStatus.get_circuit_status now agents cs).1 in
  let cs' := (CircuitStatus.get_circuit_status now agents cs).2 in
  (forall a, report !! a = (fun _ => (CircuitBreaker.get_state now a cs).1) <$> cs !! a)
  /\ (forall a, cs' !! a = (CircuitBreaker.get_state now a cs).2 !! a)
  /\ CircuitStatus.get_circuit_status now agents cs' = (report, cs')
  /\ (forall a t, (now <= t)%Q ->
        (CircuitBreaker.allow_request t a cs').1 = (CircuitBreaker.allow_request t a cs).1).
Proof.
  intros [Hnd Hkeys] report cs'.
  destruct (CircuitStatusFacts.fold_status now agents ∅ cs Hnd) as [Hin Hout].
  fold (CircuitStatus.get_circuit_status now agents cs) in Hin, Hout.
  fold report cs' in Hin, Hout.
  assert (Hrep : forall a,
            report !! a = (fun _ => (CircuitBreaker.get_state now a cs).1) <$> cs !! a).
  { intros a. destruct (cs !! a) as [c|] eqn:E.
    - destruct (Hin a) as [H _]; [apply Hkeys; by rewrite E|]. by rewrite H.
    - destruct (Hout a) as [H _]; [rewrite Hkeys, E; by intros [? ?]|]. by rewrite H. }
  assert (Hcs : forall a, cs' !! a = (CircuitBreaker.get_state now a cs).2 !! a).
  { intros a. destruct (decide (a ∈ agents)) as [Ha|Ha].
    - by destruct (Hin a Ha).
    - destruct (Hout a Ha) as [_ H]. rewrite H.
      unfold CircuitBreaker.get_state.
      destruct (cs !! a) as [c|] eqn:E; [|cbn; by rewrite E].
      exfalso. apply Ha, Hkeys. by rewrite E. }
  split; [exact Hrep|]. split; [exact Hcs|]. split.
  - destruct (CircuitStatusFacts.fold_status now agents ∅ cs' Hnd) as [Hin2 Hout2].
    fold (CircuitStatus.get_circuit_status now agents cs') in Hin2, Hout2.
    assert (Hagain : forall a,
              (CircuitBreaker.get_state now a cs').1 = (CircuitBreaker.get_state now a cs).1
              /\ (CircuitBreaker.get_state now a cs').2 !! a = cs' !! a).
    { intros a.
      pose proof (CircuitStatusFacts.get_state_again now a cs) as Hag.
      destruct (CircuitBreaker.get_state now a cs) as [st cs1] eqn:Hst.
      destruct (CircuitStatusFacts.get_state_local now a cs' cs1) as [E1 E2].
      { rewrite Hcs, Hst. done. }
      rewrite E1, E2, Hag, Hcs, Hst. done. }
    destruct (CircuitStatus.get_circuit_status now agents cs') as [report2 cs2].
    cbn [fst snd] in *. f_equal; apply map_eq; intros a.
    + rewrite Hrep. destruct (decide (a ∈ agents)) as [Ha|Ha].
      * destruct (Hin2 a Ha) as [H _]. rewrite H. destruct (Hagain a) as [-> _].
        apply Hkeys in Ha as [c ->]. done.
      * destruct (Hout2 a Ha) as [H _]. rewrite H, lookup_empty.
        destruct (cs !! a) as [c|] eqn:E; [|done].
        exfalso. apply Ha, Hkeys. by rewrite E.
    + destruct (decide (a ∈ agents)) as [Ha|Ha].
      * destruct (Hin2 a Ha) as [_ H]. rewrite H. by destruct (Hagain a) as [_ ->].
      * by destruct (Hout2 a Ha) as [_ H].
  - intros a t Ht.
    destruct (Isolation.allow_local t a cs' (CircuitBreaker.get_state now a cs).2 (Hcs a))
      as [-> _].
    by apply CircuitStatusFacts.allow_after_get_state.
Qed.

Lemma circuit_status_report_witness :
  let cs : gmap string CircuitBreaker.circuit :=
    {[ "medical-agent" := (CircuitBreaker.OPEN, 3%Z, 10%Q, 0%Z);
       "fire-chief-agent" := (CircuitBreaker.CLOSED, 1%Z, 50%Q, 0%Z) ]} in
  let r := CircuitStatus.get_circuit_status 100 ["medical-agent"; "fire-chief-agent"] cs in
  r.1 !! "medical-agent" = Some CircuitBreaker.HALF_OPEN
  /\ r.1 !! "fire-chief-agent" = Some CircuitBreaker.CLOSED
  /\ r.1 !! "police-chief-agent" = None
  /\ r.2 !! "medical-agent" = Some (CircuitBreaker.HALF_OPEN, 3%Z, 10%Q, 0%Z).
Proof.
  intros cs r.
  destruct (circuit_status_report 100 ["medical-agent"; "fire-chief-agent"] cs)
    as (Hrep & Hcs & _ & _).
  - split; [apply (bool_decide_unpack _); vm_compute; exact I|].
    intros a. subst cs. rewrite !elem_of_cons, elem_of_nil.
    rewrite lookup_insert_is_Some, lookup_singleton_is_Some. intuition congruence.
  - subst r. rewrite !Hrep, Hcs. vm_compute. repeat split.
Defined.

(** ** Health checks and the circuit breaker *)

Module HealthFacts.

Import World Client.

Section Transport.

Variable transport : string -> nat -> value + string.
Variable healthy : string -> bool.

(** An admitted [send_message] whose health check fails: the failure is
    recorded on the circuit and nothing else happens. *)
Lemma send_unhealthy S target m retries w cs1 :
  let T := _normalize_name target in
  CircuitBreaker.allow_request (now w) T (circuits w) = (true, cs1) ->
  healthy T = false ->
  send_message transport healthy S target m retries true w
  = (Ok (VDict [("status", VStr "unhealthy"); ("agent", VStr T)]),
     set_circuits (CircuitBreaker.record_failure (now w) T cs1) w).
Proof.
  intros T Hallow Hsick. unfold send_message. fold T.
  unfold mbind at 1. unfold M_bind at 1. unfold allow_request. rewrite Hallow.
  cbn [negb andb]. rewrite Hsick. reflexivity.
Qed.

End Transport.

End HealthFacts.

(** X2. Failed health checks count as failures of the target. From a
    target without a circuit entry, three calls of [send_message] with
    [check_health=True] whose health check fails each return the
    [unhealthy] dict and record one failure; the third opens the circuit,
    and a fourth call is turned away with [circuit_open]. None of the four
    makes a delivery attempt or sleeps. *)
Theorem unhealthy_target_opens_circuit
    (transport : string -> nat -> value + string) (healthy : string -> bool)
    (source_agent target_agent : string) (message_text : value) (retries : Z)
    (w : World.world) :
  let T := Client._normalize_name target_agent in
  let call := Client.send_message transport healthy source_agent target_agent message_text
                retries true in
  let unhealthy := VDict [("status", VStr "unhealthy"); ("agent", VStr T)] in
  let r1 := call w in
  let r2 := call r1.2 in
  let r3 := call r2.2 in
  let r4 := call r3.2 in
  healthy T = false ->
  World.circuits w !! T = None ->
  r1.1 = Ok unhealthy /\ r2.1 = Ok unhealthy /\ r3.1 = Ok unhealthy
  /\ World.circuits r2.2 !! T = Some (CircuitBreaker.CLOSED, 2%Z, World.now w, 0%Z)
  /\ World.circuits r3.2 !! T = Some (CircuitBreaker.OPEN, 3%Z, World.now w, 0%Z)
  /\ r4.1 = Ok (VDict [("status", VStr "circuit_open"); ("agent", VStr T);
                       ("error", VStr "Circuit breaker is open")])
  /\ World.trace r4.2 = World.trace w
  /\ World.now r4.2 = World.now w.
Proof.
  intros T call unhealthy r1 r2 r3 r4 Hsick Hcold.
  assert (H1 : r1 = (Ok unhealthy,
                     World.set_circuits
                       (CircuitBreaker.record_failure (World.now w) T (World.circuits w)) w)).
  { subst r1 call. apply HealthFacts.send_unhealthy; [|exact Hsick].
    by apply CircuitBreakerFacts.allow_cold. }
  set (w1 := World.set_circuits _ w) in H1.
  assert (Hc1 : World.circuits w1 !! T
                = Some (CircuitBreaker.CLOSED, 1%Z, World.now w, 0%Z)).
  { subst w1. cbn. rewrite CircuitBreakerFacts.record_failure_cold by done.
    apply lookup_insert_eq. }
  assert (H2 : r2 = (Ok unhealthy,
                     World.set_circuits
                       (CircuitBreaker.record_failure (World.now w1) T (World.circuits w1))
                       w1)).
  { subst r2 call. rewrite H1. cbn [snd].
    apply HealthFacts.send_unhealthy; [|exact Hsick].
    by apply (CircuitBreakerFacts.allow_closed _ _ _ _ _ _ Hc1). }
  set (w2 := World.set_circuits _ w1) in H2.
  assert (Hc2 : World.circuits w2 !! T
                = Some (CircuitBreaker.CLOSED, 2%Z, World.now w, 0%Z)).
  { subst w2. cbn [World.circuits World.set_circuits].
    by rewrite (CircuitBreakerFacts.record_failure_lookup _ _ _ _ _ _ _ Hc1). }
  assert (H3 : r3 = (Ok unhealthy,
                     World.set_circuits
                       (CircuitBreaker.record_failure (World.now w2) T (World.circuits w2))
                       w2)).
  { subst r3 call. rewrite H2. cbn [snd].
    apply HealthFacts.send_unhealthy; [|exact Hsick].
    by apply (CircuitBreakerFacts.allow_closed _ _ _ _ _ _ Hc2). }
  set (w3 := World.set_circuits _ w2) in H3.
  assert (Hc3 : World.circuits w3 !! T
                = Some (CircuitBreaker.OPEN, 3%Z, World.now w, 0%Z)).
  { subst w3. cbn [World.circuits World.set_circuits].
    by rewrite (CircuitBreakerFacts.record_failure_lookup _ _ _ _ _ _ _ Hc2). }
  assert (H4 : r4 = (Ok (VDict [("status", VStr "circuit_open"); ("agent", VStr T);
                                ("error", VStr "Circuit breaker is open")]), w3)).
  { subst r4 call. rewrite H3. cbn [snd].
    apply ClientFacts.send_message_refused.
    rewrite (CircuitBreakerFacts.allow_open_early _ _ _ _ _ _ Hc3); [done|].
    change (World.now w3) with (World.now w).
    unfold CircuitBreaker.CIRCUIT_RESET_TIMEOUT. lra. }
  rewrite H1, H2, H3, H4. cbn [fst snd]. by repeat split.
Qed.

Lemma unhealthy_target_opens_circuit_witness :
  let transport : string -> nat -> value + string := fun _ _ => inl (VStr "ack") in
  let call := Client.send_message transport (fun _ => false) "dispatch-agent"
                "medical_agent" (VStr "status?") 3 true in
  let w4 := (call (call (call (World.fresh 0 None)).2).2).2 in
  (call w4).1 = Ok (VDict [("status", VStr "circuit_open"); ("agent", VStr "medical-agent");
                           ("error", VStr "Circuit breaker is open")])
  /\ World.trace (call w4).2 = [].
Proof.
  intros transport call w4.
  destruct (unhealthy_target_opens_circuit transport (fun _ => false) "dispatch-agent"
              "medical_agent" (VStr "status?") 3 (World.fresh 0 None))
    as (_ & _ & _ & _ & _ & H4 & Htr & _); [reflexivity|reflexivity|].
  split; [exact H4|exact Htr].
Defined.

(** ** Handshakes on a circuit that has been open *)

Module HalfOpenHandshake.

Import World Client Spec SpecFacts HandshakeFacts HandshakeTimeout.

Section Transport.

Variable transport : string -> nat -> value + string.
Variable healthy : string -> bool.
Variable uuid4 : string.

(** The waiting part of a handshake whose send is turned away by the
    circuit and which nobody resolves. *)
Lemma handshake_attempt_unsent fuel S target payload cid timeout (db_available : bool) w :
  let T := _normalize_name target in
  (CircuitBreaker.allow_request (now w) T (circuits w)).1 = false ->
  no_resolution_for cid (agenda w) ->
  futures w !! cid = Some None ->
  (if db_available then is_Some (db w) /\ not_completed cid w else db w = None) ->
  (Z.to_nat timeout < fuel)%nat ->
  exists w',
    handshake_attempt transport healthy fuel S T payload cid timeout db_available w
    = (Raise (Exception ("Agent " ++ T ++ " did not respond within " ++ pretty timeout
                         ++ "s")), w')
    /\ circuits w' = CircuitBreaker.record_failure (now w') T (circuits w)
    /\ (cid ∉ pending_handshakes w')
    /\ fetch_handshake cid w' = None
    /\ (now w' - now w == inject_Z (Z.max 0 timeout))%Q
    /\ (forall t, deliveries_to t (trace w') = deliveries_to t (trace w)).
Proof.
  intros T Hshut Hno Hfut Hdb Hfuel.
  set (msg := handshake_envelope S payload cid).
  assert (Hsend : send_message transport healthy S T msg 3 false w
                  = (Ok (VDict [("status", VStr "circuit_open"); ("agent", VStr T);
                                ("error", VStr "Circuit breaker is open")]), w)).
  { pose proof (ClientFacts.send_message_refused transport healthy S T msg 3 false w) as H.
    replace (_normalize_name T) with T in H by (symmetry; apply ClientFacts.normalize_idem).
    exact (H Hshut). }
  unfold handshake_attempt, try_except. cbv zeta. fold msg.
  unfold mbind at 1. unfold M_bind at 1. rewrite Hsend.
  destruct db_available.
  - destruct Hdb as [Hsome Hnc].
    unfold mbind at 1. unfold M_bind at 1. unfold _poll_handshake_result.
    destruct (db w) as [d|] eqn:Hd; [|by destruct Hsome].
    destruct (poll_loop_times_out fuel cid timeout (now w) w 0 Hno Hnc)
      as (wE & Hpoll & HfE & HcE & HpE & HnE & HdE).
    { change (inject_Z 0) with 0%Q. ring. }
    { by rewrite Z.sub_0_r. }
    rewrite Hpoll. cbn [truthy]. unfold raise.
    unfold mbind, M_bind, record_failure, pop_pending, modify, raise.
    eexists. split; [reflexivity|]. cbn.
    split; [by rewrite HcE|]. split; [apply HandshakeRun.popped|]. split; [exact HfE|].
    split; [exact HnE|exact HdE].
  - unfold mbind at 1. unfold M_bind at 1.
    destruct (wait_for_times_out cid (inject_Z timeout) w Hno Hfut)
      as (wE & Hwait & HvE & HcE & HnE & HtE).
    rewrite Hwait.
    unfold mbind, M_bind, record_failure, pop_pending, modify, raise.
    eexists. split; [reflexivity|]. cbn.
    split; [by rewrite HcE|]. split; [apply HandshakeRun.popped|]. split.
    { change (fetch_handshake cid wE = None).
      rewrite (view_fetch _ _ _ HvE). unfold fetch_handshake. by rewrite Hdb. }
    split; [rewrite HnE, <- HandshakeRun.wait_time_max; ring|].
    intros t. by rewrite HtE.
Qed.

End Transport.

End HalfOpenHandshake.

(** X3. A handshake cannot probe a circuit that has been open. When the
    circuit of the target is OPEN and the reset timeout has passed,
    [send_request_with_handshake] is admitted, but its own check uses up the
    one half-open probe, so the [send_message] inside it is turned away:
    no delivery attempt is made, the call waits out its timeout unless
    someone resolves it, raises the timeout exception, and the failure it
    records puts the circuit back to OPEN. *)
Theorem handshake_after_open_circuit_sends_nothing
    (transport : string -> nat -> value + string) (healthy : string -> bool)
    (uuid4 : string) (fuel : nat) (source_agent target_agent : string) (payload : value)
    (correlation_id : option string) (timeout : Z) (w : World.world)
    (failures half_open_attempts : Z) (last_failure : Q) :
  let T := Client._normalize_name target_agent in
  let cid := Client.new_if_absent uuid4 correlation_id in
  World.circuits w !! T
  = Some (CircuitBreaker.OPEN, failures, last_failure, half_open_attempts) ->
  (CircuitBreaker.CIRCUIT_RESET_TIMEOUT < World.now w - last_failure)%Q ->
  World.no_resolution_for cid (World.agenda w) ->
  (Z.to_nat timeout < fuel)%nat ->
  exists w',
    Client.send_request_with_handshake transport healthy uuid4 fuel source_agent
      target_agent payload correlation_id timeout w
    = (Raise (Exception ("Agent " ++ T ++ " did not respond within " ++ pretty timeout
                         ++ "s")), w')
    /\ (forall t, Client.deliveries_to t (World.trace w')
                  = Client.deliveries_to t (World.trace w))
    /\ World.circuits w' !! T
       = Some (CircuitBreaker.OPEN, (failures + 1)%Z, World.now w', 0%Z)
    /\ (World.now w' - World.now w == inject_Z (Z.max 0 timeout))%Q.
Proof.
  intros T cid Hopen Hlate Hno Hfuel.
  unfold Client.send_request_with_handshake. fold T cid.
  unfold mbind at 1. unfold World.M_bind at 1. unfold Client.allow_request.
  rewrite (CircuitBreakerFacts.allow_open_late _ _ _ _ _ _ Hopen Hlate). cbn [negb].
  set (cs1 := <[T := (CircuitBreaker.HALF_OPEN, failures, last_failure, 1%Z)]>
                (World.circuits w)).
  set (wA := World.set_circuits cs1 w).
  assert (HnoA : World.no_resolution_for cid (World.agenda wA)) by exact Hno.
  destruct (HandshakeFacts.sync_quiet cid wA HnoA) as [HvS HnoS].
  unfold mbind at 1. unfold World.M_bind at 1. unfold Client._create_handshake_record.
  set (wS := World.sync wA) in *.
  assert (HtrS : World.trace wS = World.trace w)
    by (subst wS wA; by rewrite WorldFacts.sync_trace).
  assert (HnowS : World.now wS = World.now w)
    by (subst wS wA; by rewrite WorldFacts.sync_now).
  assert (HcsS : World.circuits wS = cs1)
    by (subst wS wA; by rewrite WorldFacts.sync_circuits).
  assert (Hshut : forall now, (CircuitBreaker.allow_request now T cs1).1 = false).
  { intros now. subst cs1.
    by rewrite (CircuitBreakerFacts.allow_half_open now T _ failures last_failure 1)
      by apply lookup_insert_eq. }
  assert (Hrec : forall now,
            CircuitBreaker.record_failure now T cs1 !! T
            = Some (CircuitBreaker.OPEN, (failures + 1)%Z, now, 0%Z)).
  { intros now. subst cs1.
    by rewrite (CircuitBreakerFacts.record_failure_lookup now T _
                  CircuitBreaker.HALF_OPEN failures last_failure 1)
      by apply lookup_insert_eq. }
  destruct (World.db wS) as [d|] eqn:Hdb.
  - set (wB := World.set_db _ wS).
    unfold mbind at 1. unfold World.M_bind at 1. unfold Client.register_future, World.modify.
    set (wC := World.set_pending_handshakes _ _).
    destruct (HalfOpenHandshake.handshake_attempt_unsent transport healthy fuel source_agent
                target_agent payload cid timeout true wC)
      as (w' & Hrun & Hc & _ & _ & Hn & Hd).
    + subst wC wB. cbn. rewrite HcsS. apply Hshut.
    + exact HnoS.
    + subst wC. cbn. apply lookup_insert_eq.
    + split; [subst wC wB; cbn; eauto|].
      intros row. subst wC wB. unfold Client.fetch_handshake. cbn. rewrite lookup_insert_eq.
      by intros [= <-].
    + exact Hfuel.
    + fold T in Hrun, Hc. exists w'. split; [exact Hrun|].
      split; [intros t; rewrite Hd; subst wC wB; cbn; by rewrite HtrS|].
      split; [rewrite Hc; subst wC wB; cbn; rewrite HcsS; apply Hrec|].
      rewrite <- Hn. subst wC wB. cbn. by rewrite HnowS.
  - unfold mbind at 1. unfold World.M_bind at 1. unfold Client.register_future, World.modify.
    set (wC := World.set_pending_handshakes _ _).
    destruct (HalfOpenHandshake.handshake_attempt_unsent transport healthy fuel source_agent
                target_agent payload cid timeout false wC)
      as (w' & Hrun & Hc & _ & _ & Hn & Hd).
    + subst wC. cbn. rewrite HcsS. apply Hshut.
    + exact HnoS.
    + subst wC. cbn. apply lookup_insert_eq.
    + subst wC. cbn. exact Hdb.
    + exact Hfuel.
    + fold T in Hrun, Hc. exists w'. split; [exact Hrun|].
      split; [intros t; rewrite Hd; subst wC; cbn; by rewrite HtrS|].
      split; [rewrite Hc; subst wC; cbn; rewrite HcsS; apply Hrec|].
      rewrite <- Hn. subst wC. cbn. by rewrite HnowS.
Qed.

Lemma handshake_after_open_circuit_sends_nothing_witness :
  let transport : string -> nat -> value + string := fun _ _ => inl (VStr "ack") in
  let w := World.set_circuits {["medical-agent" := (CircuitBreaker.OPEN, 3%Z, 0%Q, 0%Z)]}
             (World.fresh 100 None) in
  let r := Client.send_request_with_handshake transport (fun _ => true) "uuid" 6
             "fire-chief-agent" "medical-agent" (VDict []) None 5 w in
  r.1 = Raise (Exception "Agent medical-agent did not respond within 5s")
  /\ Client.deliveries_to "medical-agent" (World.trace r.2) = 0%nat
  /\ World.circuits r.2 !! "medical-agent"
     = Some (CircuitBreaker.OPEN, 4%Z, World.now r.2, 0%Z).
Proof.
  intros transport w r.
  destruct (handshake_after_open_circuit_sends_nothing transport (fun _ => true) "uuid" 6
              "fire-chief-agent" "medical-agent" (VDict []) None 5 w 3 0 0)
    as (w' & Hrun & Hd & Hc & _).
  - reflexivity.
  - reflexivity.
  - constructor.
  - simpl. lia.
  - fold r in Hrun. rewrite Hrun. cbn [fst snd].
    split; [reflexivity|]. split; [by rewrite Hd|exact Hc].
Defined.

(** ** How a delegation ends *)

Module OutcomeFacts.

Import World Client Delegation Spec SpecFacts Outcomes.

Lemma raises_only_total {A} P (m : M A) : total m -> raises_only P m.
Proof. intros H w e He. destruct (H w) as [a Ha]. congruence. Qed.

Lemma raises_only_bind {A B} P (m : M A) (k : A -> M B) :
  raises_only P m -> (forall a, raises_only P (k a)) -> raises_only P (m ≫= k).
Proof.
  intros Hm Hk w e. unfold mbind, M_bind. specialize (Hm w).
  destruct (m w) as [[a|e'|] w1]; cbn [fst] in *; [apply Hk|intros [= <-]; by apply Hm|done].
Qed.

Lemma raises_only_raise {A} (P : exn -> Prop) e : P e -> raises_only P (raise e : M A).
Proof. intros H w e' [= <-]. exact H. Qed.

Lemma raises_only_if {A} P (c : bool) (m1 m2 : M A) :
  raises_only P m1 -> raises_only P m2 -> raises_only P (if c then m1 else m2).
Proof. by destruct c. Qed.

(** What a [try] raises is what its handlers raise. *)
Lemma raises_only_try_except {A} P (body : M A) (handler : exn -> M A) :
  (forall e, raises_only P (handler e)) -> raises_only P (try_except body handler).
Proof.
  intros Hk w e. unfold try_except. destruct (body w) as [[a|e'|] w1]; [done|apply Hk|done].
Qed.

(** A handler need only be looked at for the exceptions the body raises. *)
Lemma ensures_try_except_only {A} P (body : M A) (handler : exn -> M A) Q :
  ensures body Q -> raises_only P body -> (forall e, P e -> ensures (handler e) Q) ->
  ensures (try_except body handler) Q.
Proof.
  intros Hm Hr Hk w. unfold try_except. specialize (Hm w). specialize (Hr w).
  destruct (body w) as [[a|e|] w1]; [done|by apply Hk, Hr|done].
Qed.

Lemma ensures_weaken {A} (m : M A) (Q Q' : A -> world -> Prop) :
  (forall a w, Q a w -> Q' a w) -> ensures m Q -> ensures m Q'.
Proof. intros H Hm w. specialize (Hm w). destruct (m w) as [[a|e|] w1]; auto. Qed.

Section Tool.

Variable transport : string -> nat -> value + string.
Variable healthy : string -> bool.
Variable uuid4 : string.
Variable py_str : value -> string.

(** [send_request_with_handshake] turns every [asyncio.TimeoutError] into
    a plain [Exception]. *)
Lemma handshake_raises_no_timeout fuel S T payload cid timeout :
  raises_only not_timeout
    (send_request_with_handshake transport healthy uuid4 fuel S T payload cid timeout).
Proof.
  unfold send_request_with_handshake, handshake_attempt.
  apply raises_only_bind;
    [apply raises_only_total, ClientTermination.total_allow_request|intros allowed].
  apply raises_only_if; [by apply raises_only_raise|].
  apply raises_only_bind;
    [apply raises_only_total, ClientTermination.total_create_handshake_record|].
  intros db_available.
  apply raises_only_bind; [apply raises_only_total, ClientTermination.total_modify|].
  intros _. apply raises_only_try_except. intros e.
  destruct e.
  all: apply raises_only_bind; [apply raises_only_total, ClientTermination.total_modify|].
  all: intros _.
  all: apply raises_only_bind; [apply raises_only_total, ClientTermination.total_modify|].
  all: intros _; by apply raises_only_raise.
Qed.

Lemma primary_raises_no_timeout fuel S T cid request start :
  raises_only not_timeout
    (delegate_primary transport healthy uuid4 py_str fuel S T cid request start).
Proof.
  unfold delegate_primary.
  apply raises_only_bind; [apply handshake_raises_no_timeout|intros response].
  apply raises_only_bind;
    [apply raises_only_total, DelegationSpec.total_elapsed_ms|intros duration_ms].
  apply raises_only_bind;
    [apply raises_only_total, DelegationSpec.total_update_delegation_log|intros _].
  destruct (py_add _ _); [apply raises_only_total, total_ret|by apply raises_only_raise].
Qed.

Lemma ensures_status {A} (m : M A) (k : A -> M value) :
  (forall a, ensures (k a) (fun result _ => status_among final_statuses result)) ->
  ensures (m ≫= k) (fun result _ => status_among final_statuses result).
Proof. apply ensures_bind. Qed.

Lemma status_delegate_failed T cid e duration_ms :
  ensures (delegate_failed T cid e duration_ms)
    (fun result _ => status_among final_statuses result).
Proof.
  unfold delegate_failed. apply ensures_bind; intros _. apply ensures_ret. intros _.
  exists "failed". split; [reflexivity|]. unfold final_statuses. set_solver.
Qed.

Lemma status_delegate_new fuel S T cid request iid start :
  ensures (delegate_new transport healthy uuid4 py_str fuel S T cid request iid start)
    (fun result _ => status_among final_statuses result).
Proof.
  unfold delegate_new. apply ensures_bind; intros _.
  apply (ensures_try_except_only not_timeout); [|apply primary_raises_no_timeout|].
  - unfold delegate_primary.
    apply ensures_bind; intros response. apply ensures_bind; intros duration_ms.
    apply ensures_bind; intros _.
    destruct (py_add _ _); [|by intros w]. apply ensures_ret. intros _.
    exists "delegated". split; [reflexivity|]. unfold final_statuses. set_solver.
  - intros e He. destruct e; [done| |].
    all: unfold delegate_on_error; apply ensures_bind; intros duration_ms.
    all: destruct (failover_agents !! T) as [F|]; [|apply status_delegate_failed].
    all: destruct (_ && _); [|apply status_delegate_failed].
    all: apply ensures_try_except; [|intros _; apply status_delegate_failed].
    all: unfold delegate_failover.
    all: apply ensures_bind; intros response; apply ensures_bind; intros dur.
    all: apply ensures_bind; intros _; apply ensures_ret; intros _.
    all: exists "failover"; split; [reflexivity|]; unfold final_statuses; set_solver.
Qed.

Lemma status_delegate_to_agent fuel S T cid request :
  ensures (delegate_to_agent transport healthy uuid4 py_str fuel S T cid request)
    (fun result _ => status_among final_statuses result).
Proof.
  unfold delegate_to_agent. apply ensures_bind; intros start.
  destruct (IncidentId.extract_incident_id request) as [iid|];
    [|apply status_delegate_new].
  destruct (String.eqb iid ""); [apply status_delegate_new|].
  apply ensures_bind; intros existing.
  destruct existing as [row|]; [|apply status_delegate_new].
  apply ensures_ret. intros _.
  exists "already_handled". split; [reflexivity|]. unfold final_statuses. set_solver.
Qed.

End Tool.

End OutcomeFacts.

(** X4. A delegation never reports a timeout. [delegate_to_agent] has an
    [except asyncio.TimeoutError] branch that would answer with status
    [timeout], but [send_request_with_handshake] re-raises every timeout as
    a plain [Exception], so that branch is never taken: the call always
    returns, and the status of its result is [already_handled],
    [delegated], [failover] or [failed]. *)
Theorem delegation_never_reports_timeout
    (transport : string -> nat -> value + string) (healthy : string -> bool)
    (uuid4 : string) (py_str : value -> string) (fuel : nat)
    (source target cid request : string) (w : World.world) :
  (60 < fuel)%nat ->
  exists result w',
    Delegation.delegate_to_agent transport healthy uuid4 py_str fuel source target cid
      request w = (Ok result, w')
    /\ Outcomes.status_among Outcomes.final_statuses result
    /\ dict_get result "status" <> Some (VStr "timeout").
Proof.
  intros Hfuel.
  destruct (DelegationTotal.total_delegate_to_agent transport healthy uuid4 py_str fuel
              source target cid request Hfuel w) as [result Hres].
  pose proof (OutcomeFacts.status_delegate_to_agent transport healthy uuid4 py_str fuel
                source target cid request w) as Hst.
  destruct (Delegation.delegate_to_agent _ _ _ _ _ _ _ _ _ w) as [r w'].
  cbn [fst] in Hres. subst r. exists result, w'. split; [reflexivity|].
  split; [exact Hst|].
  destruct Hst as (st & Hget & Hin). rewrite Hget. intros [= ->].
  unfold Outcomes.final_statuses in Hin.
  rewrite !elem_of_cons, elem_of_nil in Hin. intuition discriminate.
Qed.

Lemma delegation_never_reports_timeout_witness :
  let silent : string -> nat -> value + string := fun _ _ => inl (VStr "ack") in
  let r := Delegation.delegate_to_agent silent (fun _ => true) "uuid" (fun _ => "") 61
             "fire-chief-agent" "medical-agent" "cid-1" "Two casualties at the depot"
             (World.fresh 0 (Some World.empty_database)) in
  exists result, r.1 = Ok result /\ dict_get result "status" <> Some (VStr "timeout").
Proof.
  intros silent r.
  destruct (delegation_never_reports_timeout silent (fun _ => true) "uuid" (fun _ => "") 61
              "fire-chief-agent" "medical-agent" "cid-1" "Two casualties at the depot"
              (World.fresh 0 (Some World.empty_database)))
    as (result & w' & Hrun & _ & Hno); [lia|].
  exists result. subst r. rewrite Hrun. by split.
Defined.

(** A response whose token counts cannot be added (a JSON [null] and a
    number): the sum raises inside the [try] of the tool, so the tool
    answers with status [failed] and the message of the error, and the
    ledger entry of the delegation ends as FAILED. *)
Example delegation_with_null_token_count :
  let transport : string -> nat -> value + string := fun _ _ => inl (VStr "ack") in
  let answer : World.resolution :=
    {| World.res_time := 2; World.res_local := false; World.res_cid := "cid-1";
       World.res_result :=
         VDict [("response", VStr "Ambulance on its way"); ("prompt_tokens", VNone);
                ("completion_tokens", VInt 7)] |} in
  let r := Delegation.delegate_to_agent transport (fun _ => true) "uuid" (fun _ => "") 61
             "fire-chief-agent" "medical-agent" "cid-1" "Two casualties at the depot"
             (World.set_agenda [answer] (World.fresh 0 (Some World.empty_database))) in
  (exists result,
      r.1 = Ok result
      /\ dict_get result "status" = Some (VStr "failed")
      /\ dict_get result "error"
         = Some (VStr "unsupported operand type(s) for +: 'NoneType' and 'int'"))
  /\ match World.db r.2 with
     | Some d => map World.status (World.delegation_logs d)
     | None => []
     end = ["FAILED"].
Proof. vm_compute. split; [eexists; repeat split|reflexivity]. Qed.

Module FailedDelegation.

Import World Client Delegation Spec SpecFacts Outcomes.

Implicit Types (w : world).

(** The ledger operations and the deduplication check leave the circuits,
    the clock and the trace alone, and post no resolution. *)
Lemma create_log_frame cid S T request iid w :
  let w' := (create_delegation_log cid S T request iid w).2 in
  circuits w' = circuits w /\ now w' = now w /\ trace w' = trace w
  /\ forall c, no_resolution_for c (agenda w) -> no_resolution_for c (agenda w').
Proof.
  unfold create_delegation_log.
  assert (Hq : forall c, no_resolution_for c (agenda w) ->
                         no_resolution_for c (agenda (sync w)))
    by (intros c Hc; by destruct (HandshakeFacts.sync_quiet c w Hc)).
  destruct (db (sync w)); cbn;
    by rewrite WorldFacts.sync_circuits, WorldFacts.sync_now, WorldFacts.sync_trace.
Qed.

Lemma update_log_frame cid tc tr fr dur pt ct st w :
  let w' := (update_delegation_log cid tc tr fr dur pt ct st w).2 in
  circuits w' = circuits w /\ now w' = now w /\ trace w' = trace w.
Proof.
  destruct (DelegationSpec.update_delegation_log_cases cid tc tr fr dur pt ct st w)
    as [->|(d & p & c & n & _ & _ & _ & _ & ->)]; cbn;
    by rewrite WorldFacts.sync_circuits, WorldFacts.sync_now, WorldFacts.sync_trace.
Qed.

Lemma check_frame iid T age w :
  let w' := (check_delegation_exists iid T age w).2 in
  circuits w' = circuits w /\ now w' = now w /\ trace w' = trace w
  /\ forall c, no_resolution_for c (agenda w) -> no_resolution_for c (agenda w').
Proof.
  unfold check_delegation_exists.
  assert (Hq : forall c, no_resolution_for c (agenda w) ->
                         no_resolution_for c (agenda (sync w)))
    by (intros c Hc; by destruct (HandshakeFacts.sync_quiet c w Hc)).
  destruct (String.eqb iid ""); [done|].
  destruct (db (sync w)); cbn;
    by rewrite WorldFacts.sync_circuits, WorldFacts.sync_now, WorldFacts.sync_trace.
Qed.

Section Tool.

Variable transport : string -> nat -> value + string.
Variable healthy : string -> bool.
Variable uuid4 : string.
Variable py_str : value -> string.

(** The result and the world of a delegation whose handshake raises an
    exception that does not look like a connection failure: no failover,
    the FAILED update, and the [failed] result carrying the message. *)
Lemma delegate_new_fails fuel S T cid request iid start w msg wE :
  send_request_with_handshake transport healthy uuid4 fuel S T
    (VDict (delegation_payload S request)) (Some cid) 60
    (create_delegation_log cid S T request iid w).2
  = (Raise (Exception msg), wE) ->
  is_connection_failure msg = false ->
  let duration_ms := py_int ((now wE - start) * 1000) in
  delegate_new transport healthy uuid4 py_str fuel S T cid request iid start w
  = (Ok (VDict [("status", VStr "failed"); ("delegated_to", VStr T);
                ("error", VStr msg);
                ("telemetry", VDict [("duration_ms", VInt duration_ms)])]),
     (update_delegation_log cid VNone VNone (VStr msg) (Some duration_ms) (VInt 0)
        (VInt 0) "FAILED" wE).2).
Proof.
  intros Hhs Hplain duration_ms. unfold delegate_new.
  unfold mbind at 1. unfold M_bind at 1.
  destruct (DelegationSpec.total_create_delegation_log cid S T request iid w) as [b Hb].
  destruct (create_delegation_log cid S T request iid w) as [r w1].
  cbn [fst snd] in *. subst r.
  unfold try_except, delegate_primary.
  unfold mbind at 1. unfold M_bind at 1. rewrite Hhs.
  unfold delegate_on_error, elapsed_ms.
  unfold mbind at 1. unfold M_bind at 1. cbn [exn_str]. rewrite Hplain. cbn [andb].
  fold duration_ms.
  assert (Hfail : delegate_failed T cid (Exception msg) duration_ms wE
                  = (Ok (VDict [("status", VStr "failed"); ("delegated_to", VStr T);
                                ("error", VStr msg);
                                ("telemetry", VDict [("duration_ms", VInt duration_ms)])]),
                     (update_delegation_log cid VNone VNone (VStr msg) (Some duration_ms)
                        (VInt 0) (VInt 0) "FAILED" wE).2)).
  { unfold delegate_failed, mbind, M_bind. cbn [exn_str].
    destruct (DelegationSpec.total_update_delegation_log cid VNone VNone (VStr msg)
                (Some duration_ms) (VInt 0) (VInt 0) "FAILED" wE) as [b' Hb'].
    destruct (update_delegation_log _ _ _ _ _ _ _ _ wE) as [r w2].
    cbn [fst snd] in *. by subst r. }
  by destruct (failover_agents !! T).
Qed.

(** The world in which a delegation that is not a duplicate starts its
    work. *)
Lemma delegate_not_duplicate fuel S T cid request w :
  not_yet_delegated request T w ->
  exists w0,
    delegate_to_agent transport healthy uuid4 py_str fuel S T cid request w
    = delegate_new transport healthy uuid4 py_str fuel S T cid request
        (IncidentId.extract_incident_id request) (now w) w0
    /\ circuits w0 = circuits w /\ now w0 = now w /\ trace w0 = trace w
    /\ ledger w0 = ledger w
    /\ forall c, no_resolution_for c (agenda w) -> no_resolution_for c (agenda w0).
Proof.
  intros Hnew. unfold delegate_to_agent.
  unfold mbind at 1. unfold M_bind at 1. unfold get_now.
  destruct (IncidentId.extract_incident_id request) as [iid|] eqn:Hid;
    [|exists w; by repeat split].
  destruct (String.eqb iid ""); [exists w; by repeat split|].
  specialize (Hnew iid Hid).
  unfold mbind at 1. unfold M_bind at 1.
  destruct (check_frame iid T 300 w) as (Hc & Hn & Ht & Ha).
  pose proof (LedgerFacts.keeps_check_delegation_exists iid T 300 w) as Hl.
  destruct (check_delegation_exists iid T 300 w) as [r w0].
  cbn [fst snd] in *. subst r.
  exists w0. by repeat split.
Qed.

(** The ledger after the FAILED update of a delegation that had made its
    entry. *)
Lemma failed_recorded fuel S T payload hcid cid timeout request iid msg dur w0 e wE :
  send_request_with_handshake transport healthy uuid4 fuel S T payload hcid timeout
    (create_delegation_log cid S T request iid w0).2 = (Raise e, wE) ->
  let w' := (update_delegation_log cid VNone VNone (VStr msg) dur (VInt 0) (VInt 0)
               "FAILED" wE).2 in
  ledger_status cid "FAILED" w' /\ (is_Some (ledger w0) -> recorded cid "FAILED" w').
Proof.
  intros Hrun w'.
  assert (Hst : ledger_status cid "FAILED" w')
    by (by apply DelegationSpec.update_delegation_log_status).
  split; [exact Hst|]. intros Hs. split; [|exact Hst].
  apply DelegationSpec.update_delegation_log_entry.
  pose proof (LedgerFacts.keeps_handshake transport healthy uuid4 fuel S T payload hcid
                timeout (create_delegation_log cid S T request iid w0).2) as Hk.
  rewrite Hrun in Hk. cbn [snd] in Hk. unfold has_entry. rewrite Hk.
  by apply LedgerFacts.create_delegation_log_entry.
Qed.

End Tool.

End FailedDelegation.

(** X5. A handshake timeout inside a delegation is reported as a failure,
    without failover. When the target is reached but never answers, the
    exception of the handshake reads [Agent T did not respond within 60s];
    unless the name of the target makes that text look like a connection
    failure, [delegate_to_agent] then answers with status [failed] and that
    text, no sooner than 60 seconds after the call, and has made delivery
    attempts to the target only, none to its backup. The ledger entries of
    the correlation id are FAILED, and where there is a ledger the
    delegation has such an entry. *)
Theorem delegation_timeout_is_reported_failed
    (transport : string -> nat -> value + string) (healthy : string -> bool)
    (uuid4 : string) (py_str : value -> string) (fuel : nat)
    (source target cid request : string) (w : World.world) :
  let T := Client._normalize_name target in
  let text := "Agent " ++ T ++ " did not respond within 60s" in
  (CircuitBreaker.allow_request (World.now w) T (World.circuits w)).1 = true ->
  Spec.reachable_within transport T 4 w ->
  World.no_resolution_for (Client.new_if_absent uuid4 (Some cid)) (World.agenda w) ->
  Outcomes.not_yet_delegated request target w ->
  Delegation.is_connection_failure text = false ->
  (60 < fuel)%nat ->
  exists result w',
    Delegation.delegate_to_agent transport healthy uuid4 py_str fuel source target cid
      request w = (Ok result, w')
    /\ dict_get result "status" = Some (VStr "failed")
    /\ dict_get result "error" = Some (VStr text)
    /\ (forall t, (Client.deliveries_to t (World.trace w')
                   <= Client.deliveries_to t (World.trace w) + Spec.only T 4 t)%nat)
    /\ (World.now w + 60 <= World.now w')%Q
    /\ Spec.ledger_status cid "FAILED" w'
    /\ (is_Some (World.db w) -> Spec.recorded cid "FAILED" w').
Proof.
  intros T text Hallow Hup Hno Hnew Hplain Hfuel.
  destruct (FailedDelegation.delegate_not_duplicate transport healthy uuid4 py_str fuel
              source target cid request w Hnew) as (w0 & -> & Hc0 & Hn0 & Ht0 & Hl0 & Ha0).
  set (iid := IncidentId.extract_incident_id request).
  destruct (FailedDelegation.create_log_frame cid source target request iid w0)
    as (Hc1 & Hn1 & Ht1 & Ha1).
  set (w1 := (Delegation.create_delegation_log cid source target request iid w0).2) in *.
  destruct (HandshakeRun.handshake_times_out transport healthy uuid4 fuel source target
              (VDict (Delegation.delegation_payload source request)) (Some cid) 60 w1)
    as (wE & cs & Hrun & _ & _ & _ & Hlo & _ & _ & Hd & _).
  { by rewrite Hn1, Hc1, Hn0, Hc0. }
  { unfold Spec.reachable_within. rewrite Ht1, Ht0. exact Hup. }
  { by apply Ha1, Ha0. }
  { simpl. lia. }
  fold T in Hrun, Hd. change (pretty 60%Z) with "60" in Hrun. fold text in Hrun.
  rewrite (FailedDelegation.delegate_new_fails transport healthy uuid4 py_str fuel source
             target cid request iid (World.now w) w0 text wE Hrun Hplain).
  set (dur := Delegation.py_int _).
  destruct (FailedDelegation.update_log_frame cid VNone VNone (VStr text) (Some dur)
              (VInt 0) (VInt 0) "FAILED" wE) as (Hc2 & Hn2 & Ht2).
  destruct (FailedDelegation.failed_recorded transport healthy uuid4 fuel source target
              (VDict (Delegation.delegation_payload source request)) (Some cid) cid 60
              request iid text (Some dur) w0 (Exception text) wE Hrun) as [Hst Hrec].
  eexists. eexists. split; [reflexivity|].
  split; [reflexivity|]. split; [reflexivity|].
  split; [intros t; rewrite Ht2, <- Ht0, <- Ht1; apply Hd|].
  rewrite Hn2. rewrite Hn1, Hn0 in Hlo.
  change (inject_Z (Z.max 0 60)) with 60%Q in Hlo.
  split; [exact Hlo|]. split; [exact Hst|].
  intros [d Hdb]. apply Hrec. rewrite Hl0. unfold Spec.ledger. rewrite Hdb. by eexists.
Qed.

Lemma delegation_timeout_is_reported_failed_witness :
  let silent : string -> nat -> value + string := fun _ _ => inl (VStr "ack") in
  let r := Delegation.delegate_to_agent silent (fun _ => true) "uuid" (fun _ => "") 61
             "fire-chief-agent" "medical-agent" "cid-1" "Two casualties at FIRE_DEPOT_01"
             (World.fresh 0 (Some World.empty_database)) in
  exists result,
    r.1 = Ok result
    /\ dict_get result "status" = Some (VStr "failed")
    /\ Client.deliveries_to "police-chief-agent" (World.trace r.2) = 0%nat
    /\ Spec.recorded "cid-1" "FAILED" r.2.
Proof.
  intros silent r.
  destruct (delegation_timeout_is_reported_failed silent (fun _ => true) "uuid" (fun _ => "")
              61 "fire-chief-agent" "medical-agent" "cid-1"
              "Two casualties at FIRE_DEPOT_01" (World.fresh 0 (Some World.empty_database)))
    as (result & w' & Hrun & Hst & _ & Hd & _ & _ & Hrec).
  - reflexivity.
  - exists 0%nat, (VStr "ack"). split; [lia|reflexivity].
  - constructor.
  - intros iid Hid. vm_compute in Hid. injection Hid as <-. reflexivity.
  - reflexivity.
  - lia.
  - exists result. subst r. rewrite Hrun. cbn [fst snd]. split; [reflexivity|].
    split; [exact Hst|]. split; [specialize (Hd "police-chief-agent"); cbn in Hd; lia|].
    apply Hrec. cbn. eauto.
Defined.

(** X6. An open circuit makes a delegation fail without failover and
    without a single delivery attempt. When the breaker refuses the target,
    the handshake raises [Circuit breaker OPEN for T]; unless the name of
    the target makes that text look like a connection failure,
    [delegate_to_agent] answers with status [failed] and that text. No
    delivery attempt is made to the target or to its backup, no backoff
    sleep is taken and the circuits stay as they were. The ledger entries
    of the correlation id are FAILED, and where there is a ledger the
    delegation has such an entry. *)
Theorem delegation_to_open_circuit_fails_fast
    (transport : string -> nat -> value + string) (healthy : string -> bool)
    (uuid4 : string) (py_str : value -> string) (fuel : nat)
    (source target cid request : string) (w : World.world) :
  let T := Client._normalize_name target in
  let text := "Circuit breaker OPEN for " ++ T in
  (CircuitBreaker.allow_request (World.now w) T (World.circuits w)).1 = false ->
  Outcomes.not_yet_delegated request target w ->
  Delegation.is_connection_failure text = false ->
  exists result w',
    Delegation.delegate_to_agent transport healthy uuid4 py_str fuel source target cid
      request w = (Ok result, w')
    /\ dict_get result "status" = Some (VStr "failed")
    /\ dict_get result "delegated_to" = Some (VStr target)
    /\ dict_get result "error" = Some (VStr text)
    /\ World.trace w' = World.trace w
    /\ World.circuits w' = World.circuits w
    /\ Spec.ledger_status cid "FAILED" w'
    /\ (is_Some (World.db w) -> Spec.recorded cid "FAILED" w').
Proof.
  intros T text Hshut Hnew Hplain.
  destruct (FailedDelegation.delegate_not_duplicate transport healthy uuid4 py_str fuel
              source target cid request w Hnew) as (w0 & -> & Hc0 & Hn0 & Ht0 & Hl0 & _).
  set (iid := IncidentId.extract_incident_id request).
  destruct (FailedDelegation.create_log_frame cid source target request iid w0)
    as (Hc1 & Hn1 & Ht1 & _).
  set (w1 := (Delegation.create_delegation_log cid source target request iid w0).2) in *.
  assert (Hrun : Client.send_request_with_handshake transport healthy uuid4 fuel source
                   target (VDict (Delegation.delegation_payload source request)) (Some cid)
                   60 w1 = (Raise (Exception text), w1)).
  { apply ClientFacts.handshake_refused. fold T. by rewrite Hn1, Hc1, Hn0, Hc0. }
  rewrite (FailedDelegation.delegate_new_fails transport healthy uuid4 py_str fuel source
             target cid request iid (World.now w) w0 text w1 Hrun Hplain).
  set (dur := Delegation.py_int _).
  destruct (FailedDelegation.update_log_frame cid VNone VNone (VStr text) (Some dur)
              (VInt 0) (VInt 0) "FAILED" w1) as (Hc2 & Hn2 & Ht2).
  destruct (FailedDelegation.failed_recorded transport healthy uuid4 fuel source target
              (VDict (Delegation.delegation_payload source request)) (Some cid) cid 60
              request iid text (Some dur) w0 (Exception text) w1 Hrun) as [Hst Hrec].
  eexists. eexists. split; [reflexivity|].
  split; [reflexivity|]. split; [reflexivity|]. split; [reflexivity|].
  split; [by rewrite Ht2, Ht1|]. split; [by rewrite Hc2, Hc1|].
  split; [exact Hst|].
  intros [d Hdb]. apply Hrec. rewrite Hl0. unfold Spec.ledger. rewrite Hdb. by eexists.
Qed.

Lemma delegation_to_open_circuit_fails_fast_witness :
  let transport : string -> nat -> value + string := fun _ _ => inl (VStr "ack") in
  let w := World.set_circuits {["medical-agent" := (CircuitBreaker.OPEN, 3%Z, 100%Q, 0%Z)]}
             (World.fresh 120 (Some World.empty_database)) in
  let r := Delegation.delegate_to_agent transport (fun _ => true) "uuid" (fun _ => "") 61
             "fire-chief-agent" "medical-agent" "cid-1" "Two casualties at the depot" w in
  exists result,
    r.1 = Ok result
    /\ dict_get result "error" = Some (VStr "Circuit breaker OPEN for medical-agent")
    /\ World.trace r.2 = []
    /\ Spec.recorded "cid-1" "FAILED" r.2.
Proof.
  intros transport w r.
  destruct (delegation_to_open_circuit_fails_fast transport (fun _ => true) "uuid"
              (fun _ => "") 61 "fire-chief-agent" "medical-agent" "cid-1"
              "Two casualties at the depot" w)
    as (result & w' & Hrun & _ & _ & Herr & Htr & _ & _ & Hrec).
  - reflexivity.
  - intros iid Hid. discriminate Hid.
  - reflexivity.
  - exists result. subst r. rewrite Hrun. cbn [fst snd]. split; [reflexivity|].
    split; [exact Herr|]. split; [exact Htr|]. apply Hrec. cbn. eauto.
Defined.

(** ** Broadcasts to any list of targets, and the tools that make them *)

Module BroadcastAny.

Import World Client Spec SpecFacts.

Lemma py_dict_foldl_some (l : list (string * value)) (m : gmap string value) k :
  k ∈ l.*1 \/ is_Some (m !! k) ->
  is_Some (foldl (fun m kv => <[kv.1 := kv.2]> m) m l !! k).
Proof.
  revert m. induction l as [|[k' v'] l IH]; intros m H; cbn [foldl fst snd].
  - destruct H as [H|H]; [by apply elem_of_nil in H|done].
  - apply IH. cbn in H. rewrite elem_of_cons in H.
    destruct (decide (k = k')) as [->|Hne].
    + right. rewrite lookup_insert_eq. eauto.
    + rewrite lookup_insert_ne by done. intuition.
Qed.

Section Transport.

Variable transport : string -> nat -> value + string.
Variable schedule : nat -> nat.

(** [broadcast] in full generality. *)
Lemma broadcast_any source message agents w :
  exists results w' evs,
    broadcast transport schedule source agents message w = (Ok results, w')
    /\ (forall a, a ∈ agents <-> is_Some (results !! a))
    /\ trace w' = (trace w ++ evs)%list
    /\ (forall t, (deliveries_to t evs
                   <= 2 * length (filter (fun a => _normalize_name a = t) agents))%nat)
    /\ (forall t, t ∉ _normalize_name <$> agents -> deliveries_to t evs = 0%nat).
Proof.
  destruct (GatherFacts.gather_general transport schedule source message agents w)
    as (rs & w' & evs & Hg & Hlen & Htr & Hb & _).
  exists (py_dict (zip agents rs)), w', evs.
  split; [unfold broadcast, mbind, M_bind; by rewrite Hg|].
  split; [|split; [exact Htr|split; [exact Hb|]]].
  - assert (Hkeys : (zip agents rs).*1 = agents) by (apply fst_zip; lia).
    intros a. split.
    + intros Ha. apply py_dict_foldl_some. left. by rewrite Hkeys.
    + intros Hs. apply BroadcastFacts.py_dict_keys in Hs. by rewrite Hkeys in Hs.
  - intros t Ht. specialize (Hb t). unfold Tasks.listed in Hb.
    assert (Hnone : filter (fun a => _normalize_name a = t) agents = []).
    { destruct (filter _ agents) as [|a l] eqn:E; [done|]. exfalso.
      assert (Ha : a ∈ filter (fun a => _normalize_name a = t) agents)
        by (rewrite E; by left).
      apply list_elem_of_filter in Ha as [<- Ha]. apply Ht, list_elem_of_fmap. eauto. }
    rewrite Hnone in Hb. cbn in Hb. lia.
Qed.

End Transport.

End BroadcastAny.

(** X7. A broadcast to any list of targets, repeated ones included, never
    raises, in whatever order the event loop takes up the concurrent calls.
    The dict it returns has an entry for exactly the targets listed; a
    target listed several times is called each time, with at most two
    delivery attempts per listing, and no delivery attempt goes to a
    target that is not listed. *)
Theorem broadcast_any_targets
    (transport : string -> nat -> value + string) (schedule : nat -> nat)
    (source_agent : string) (agents : list string) (message_text : value)
    (w : World.world) :
  exists results w' evs,
    Client.broadcast transport schedule source_agent agents message_text w
    = (Ok results, w')
    /\ (forall a, a ∈ agents <-> is_Some (results !! a))
    /\ World.trace w' = (World.trace w ++ evs)%list
    /\ (forall t, (Client.deliveries_to t evs
                   <= 2 * length (filter (fun a => Client._normalize_name a = t) agents))%nat)
    /\ (forall t, t ∉ Client._normalize_name <$> agents -> Client.deliveries_to t evs = 0%nat).
Proof.
  destruct (BroadcastAny.broadcast_any transport schedule source_agent message_text agents w)
    as (results & w' & evs & Hrun & Hkeys & Htr & Hb & Hnone).
  exists results, w', evs. do 4 (split; [assumption|]). exact Hnone.
Qed.

(** A target listed three times and unreachable gets all six delivery
    attempts: every call has passed the circuit gate before the first
    failure is recorded, so none of them is refused, although the circuit
    opens at the third failure. *)
Example broadcast_repeated_target :
  let transport : string -> nat -> value + string := fun _ _ => inr "connection refused" in
  let r := Client.broadcast transport (fun _ => 0%nat) "dispatch-agent"
             ["medical-agent"; "medical-agent"; "medical-agent"]
             (VStr "COMMAND UPDATE") (World.fresh 0 None) in
  r.1 = Ok {[ "medical-agent" :=
                VDict [("status", VStr "unreachable"); ("agent", VStr "medical-agent")] ]}
  /\ Client.deliveries_to "medical-agent" (World.trace r.2) = 6%nat
  /\ (exists lf, World.circuits r.2 !! "medical-agent" = Some (CircuitBreaker.OPEN, 6%Z, lf, 0%Z)).
Proof.
  vm_compute. split; [reflexivity|]. split; [reflexivity|]. eexists. reflexivity.
Qed.

Module ToolFacts.

Import World Client Tools.


Lemma agency_map_values k v : agency_map !! k = Some v -> v ∈ mapped_agents.
Proof.
  unfold agency_map, mapped_agents. cbn [list_to_map foldr fst snd].
  repeat (rewrite lookup_insert; case_decide;
          [intros [= <-]; rewrite !elem_of_cons; tauto|]).
  by rewrite lookup_empty.
Qed.

Lemma mapped_normal a : a ∈ mapped_agents -> _normalize_name a = a.
Proof.
  unfold mapped_agents. rewrite !elem_of_cons, elem_of_nil.
  intros [->|[->|[->|[->|[]]]]]; reflexivity.
Qed.

Lemma notified_mapped lead involved a :
  a ∈ agents_to_notify lead involved -> a ∈ mapped_agents.
Proof.
  unfold agents_to_notify.
  assert (Hlead : a ∈ (let lead_lower := Delegation.lower lead in
                       if Delegation.contains "fire" lead_lower then ["fire-chief-agent"]
                       else if Delegation.contains "medical" lead_lower
                               || Delegation.contains "hospital" lead_lower
                            then ["medical-agent"]
                       else if Delegation.contains "police" lead_lower
                            then ["police-chief-agent"]
                       else ["fire-chief-agent"]) -> a ∈ mapped_agents).
  { cbv zeta. unfold mapped_agents.
    destruct (Delegation.contains "fire" _); [|destruct (_ || _);
      [|destruct (Delegation.contains "police" _)]].
    all: intros ->%list_elem_of_singleton; rewrite !elem_of_cons; tauto. }
  destruct involved as [[|x rest]|]; [exact Hlead| |exact Hlead].
  intros (y & _ & Hy)%list_elem_of_omap. by apply agency_map_values in Hy.
Qed.

End ToolFacts.

(** X8. The hazard broadcast of the camera agent always reports
    [broadcast_sent]. Since [broadcast] never raises, the [except] branch
    of [broadcast_hazard] is never taken: whatever the network does, be all
    three commanders unreachable or their circuits open, the tool returns
    status [broadcast_sent] with the three targets, having made at most two
    delivery attempts to each of them and none to anyone else. *)
Theorem broadcast_hazard_always_sent
    (transport : string -> nat -> value + string) (schedule : nat -> nat)
    (hazard_type location : string) (w : World.world) :
  let targets := ["fire-chief-agent"; "police-chief-agent"; "dispatch-agent"] in
  exists w' evs,
    Tools.broadcast_hazard transport schedule hazard_type location w
    = (Ok (VDict [("status", VStr "broadcast_sent");
                  ("targets", VList (VStr <$> targets))]), w')
    /\ World.trace w' = (World.trace w ++ evs)%list
    /\ (forall t, (Client.deliveries_to t evs <= 2)%nat)
    /\ (forall t, t ∉ targets -> Client.deliveries_to t evs = 0%nat).
Proof.
  intros targets. unfold Tools.broadcast_hazard, World.try_except. cbv zeta.
  fold targets. unfold mbind at 1. unfold World.M_bind at 1.
  set (msg := VStr _).
  destruct (BroadcastAny.broadcast_any transport schedule "camera-agent" msg targets w)
    as (results & w' & evs & Hrun & _ & Htr & Hb & Hnone).
  rewrite Hrun. exists w', evs. split; [reflexivity|]. split; [exact Htr|]. split.
  - intros t. specialize (Hb t).
    assert (Hone : (length (filter (fun a => Client._normalize_name a = t) targets) <= 1)%nat).
    { subst targets. rewrite !filter_cons, filter_nil.
      repeat case_decide; subst; cbn; try lia; discriminate. }
    lia.
  - intros t Ht. apply Hnone. exact Ht.
Qed.

(** X9. [assign_incident_commander] notifies mapped agents only and never
    fails. Whatever the arguments and the network, it returns status
    [commander_assigned]; the agents it lists as notified are among the
    four that [agency_map] maps to, agencies it does not know are left out
    without an error, and exactly one agent is notified when no agency is
    given. Delivery attempts go to the listed agents only. *)
Theorem incident_commander_notifications
    (transport : string -> nat -> value + string) (schedule : nat -> nat)
    (incident_id lead_agency : string) (involved_agencies : option (list string))
    (w : World.world) :
  let notified := Tools.agents_to_notify lead_agency involved_agencies in
  exists w' evs,
    Tools.assign_incident_commander transport schedule incident_id lead_agency
      involved_agencies w
    = (Ok (VDict [("status", VStr "commander_assigned");
                  ("incident_id", VStr incident_id);
                  ("lead_agency", VStr lead_agency);
                  ("notified_agents", VList (VStr <$> notified))]), w')
    /\ (forall a, a ∈ notified -> a ∈ Tools.mapped_agents)
    /\ (involved_agencies = None \/ involved_agencies = Some [] ->
        exists a, notified = [a])
    /\ World.trace w' = (World.trace w ++ evs)%list
    /\ (forall t, t ∉ notified -> Client.deliveries_to t evs = 0%nat).
Proof.
  intros notified.
  assert (Hmapped : forall a, a ∈ notified -> a ∈ Tools.mapped_agents)
    by (intros a; apply ToolFacts.notified_mapped).
  assert (Hsingle : involved_agencies = None \/ involved_agencies = Some [] ->
                    exists a, notified = [a]).
  { intros Hnone. subst notified. unfold Tools.agents_to_notify.
    assert (Hlead : exists a,
              (let lead_lower := Delegation.lower lead_agency in
               if Delegation.contains "fire" lead_lower then ["fire-chief-agent"]
               else if Delegation.contains "medical" lead_lower
                       || Delegation.contains "hospital" lead_lower
                    then ["medical-agent"]
               else if Delegation.contains "police" lead_lower
                    then ["police-chief-agent"]
               else ["fire-chief-agent"]) = [a]).
    { cbv zeta. destruct (Delegation.contains "fire" _); [eauto|].
      destruct (_ || _); [eauto|]. destruct (Delegation.contains "police" _); eauto. }
    by destruct Hnone as [->| ->]. }
  unfold Tools.assign_incident_commander. cbv zeta. fold notified.
  unfold mbind at 1. unfold World.M_bind at 1.
  destruct notified as [|a rest] eqn:Hn.
  - exists w, []. split; [reflexivity|]. split; [exact Hmapped|]. split; [exact Hsingle|].
    split; [by rewrite app_nil_r|done].
  - unfold mbind at 1. unfold World.M_bind at 1.
    set (msg := VStr _).
    destruct (BroadcastAny.broadcast_any transport schedule "dispatch-agent" msg (a :: rest) w)
      as (results & w' & evs & Hrun & _ & Htr & _ & Hnone).
    rewrite Hrun. exists w', evs. split; [reflexivity|]. split; [exact Hmapped|].
    split; [exact Hsingle|]. split; [exact Htr|].
    intros t Ht. apply Hnone. intros (x & -> & Hx)%list_elem_of_fmap.
    apply Ht. by rewrite (ToolFacts.mapped_normal x (Hmapped x Hx)).
Qed.

(** ** Service resolution *)

Module RegistryFacts.

Import Registry.

Lemma endswith_refl s : endswith s s = true.
Proof. destruct s; cbn [endswith]; by rewrite String.eqb_refl. Qed.

Lemma endswith_app s suffix : endswith (s ++ suffix) suffix = true.
Proof.
  induction s as [|c s IH]; [apply endswith_refl|].
  change (String c s ++ suffix) with (String c (s ++ suffix)).
  cbn [endswith]. rewrite IH. apply orb_true_r.
Qed.

Lemma endswith_app2 a b suffix : endswith (a ++ b ++ suffix) suffix = true.
Proof.
  induction a as [|c a IH]; [apply (endswith_app b suffix)|].
  change (String c a ++ b ++ suffix) with (String c (a ++ b ++ suffix)).
  cbn [endswith]. rewrite IH. apply orb_true_r.
Qed.

(** A URL read from the catalog is never empty. *)
Lemma consul_url_nonempty py_str services u :
  consul_url py_str services = Some u -> no_url (Some u) = false.
Proof.
  unfold consul_url. destruct services as [| | | |[|[| | | | |svc] rest]|]; try discriminate.
  by intros [= <-].
Qed.

(** What the static map gives for an agent of the mesh is the localhost
    URL with the port [_get_port_offset] knows for it. *)
Lemma static_entries k host port :
  static_mesh_map !! k = Some (host, port) ->
  let u := "http://" ++ host ++ ":" ++ pretty port in
  no_url (Some u) = false
  /\ endswith u "/a2a/" = false
  /\ rstrip_slash u ++ "/a2a/"
     = "http://localhost:" ++ pretty (_get_port_offset k) ++ "/a2a/".
Proof.
  assert (Hall : map_Forall (fun k (v : string * Z) =>
            negb (no_url (Some ("http://" ++ v.1 ++ ":" ++ pretty v.2)))
            && negb (endswith ("http://" ++ v.1 ++ ":" ++ pretty v.2) "/a2a/")
            && String.eqb (rstrip_slash ("http://" ++ v.1 ++ ":" ++ pretty v.2) ++ "/a2a/")
                 ("http://localhost:" ++ pretty (_get_port_offset k) ++ "/a2a/")
            = true) static_mesh_map).
  { apply (bool_decide_unpack _). vm_compute. exact I. }
  intros Hk u. specialize (Hall k (host, port) Hk). cbn [fst snd] in Hall. fold u in Hall.
  apply andb_true_iff in Hall as [Hall Heq]. apply andb_true_iff in Hall as [Hsome Hend].
  apply negb_true_iff in Hsome, Hend. apply String.eqb_eq in Heq. done.
Qed.

End RegistryFacts.

(** X10. Service URLs are cached until invalidated, and misses are not
    cached. Once [get_service_url] has returned a URL for a service, the
    next call returns the same URL from the cache, whatever Consul would
    answer by then; a call that finds no URL leaves the cache as it was; no
    call touches the entry of another service; and after
    [invalidate_cache] the catalog is asked again and its answer is
    returned and cached. *)
Theorem service_url_cache
    (catalog catalog' : string -> option value) (py_str : value -> string)
    (service_name : string) (cache : gmap string string) :
  let r := Registry.get_service_url catalog py_str service_name cache in
  (forall u, r.1 = Some u ->
     Registry.get_service_url catalog' py_str service_name r.2 = (Some u, r.2))
  /\ (r.1 = None -> r.2 = cache)
  /\ (forall other, other <> service_name -> r.2 !! other = cache !! other)
  /\ (forall services u,
        catalog' service_name = Some services ->
        Registry.consul_url py_str services = Some u ->
        Registry.get_service_url catalog' py_str service_name
          (Registry.invalidate_cache service_name r.2)
        = (Some u, <[service_name := u]> (Registry.invalidate_cache service_name r.2))).
Proof.
  intros r.
  assert (Hafter : forall c : gmap string string,
            forall services u,
              catalog' service_name = Some services ->
              Registry.consul_url py_str services = Some u ->
              Registry.get_service_url catalog' py_str service_name
                (Registry.invalidate_cache service_name c)
              = (Some u, <[service_name := u]> (Registry.invalidate_cache service_name c))).
  { intros c services u Hcat Hurl.
    unfold Registry.get_service_url, Registry.invalidate_cache.
    rewrite lookup_delete_eq, Hcat. cbn [mbind option_bind]. rewrite Hurl.
    pose proof (RegistryFacts.consul_url_nonempty _ _ _ Hurl) as Hsome.
    rewrite Hsome. by rewrite Hsome. }
  assert (Hhit : forall (c : gmap string string) u,
            c !! service_name = Some u ->
            Registry.get_service_url catalog' py_str service_name c = (Some u, c)).
  { intros c u Hc. unfold Registry.get_service_url. by rewrite Hc. }
  destruct r as [res cache1] eqn:Hr. subst r. cbn [fst snd].
  unfold Registry.get_service_url in Hr.
  destruct (cache !! service_name) as [u0|] eqn:Hc.
  - injection Hr as <- <-.
    split; [intros u [= <-]; by apply Hhit|]. split; [done|]. split; [done|]. apply Hafter.
  - destruct (if Registry.no_url _ then _ else _) as [u|];
      [destruct (Registry.no_url (Some u))|]; injection Hr as <- <-.
    + split; [done|]. split; [done|]. split; [done|]. apply Hafter.
    + split; [intros u' [= <-]; apply Hhit, lookup_insert_eq|]. split; [done|].
      split; [intros other Hne; by rewrite lookup_insert_ne|]. apply Hafter.
    + split; [done|]. split; [done|]. split; [done|]. apply Hafter.
Qed.

Lemma service_url_cache_witness :
  let down : string -> option value := fun _ => None in
  let up : string -> option value := fun _ =>
    Some (VList [VDict [("ServiceAddress", VStr "10.0.0.7"); ("ServicePort", VInt 9105)]]) in
  let r := Registry.get_service_url down (fun _ => "") "medical-agent" ∅ in
  r.1 = Some "http://localhost:9005"
  /\ (Registry.get_service_url up (fun _ => "") "medical-agent" r.2).1
     = Some "http://localhost:9005"
  /\ (Registry.get_service_url up (fun _ => "") "medical-agent"
        (Registry.invalidate_cache "medical-agent" r.2)).1
     = Some "http://10.0.0.7:9105".
Proof.
  intros down up r.
  destruct (service_url_cache down up (fun _ => "") "medical-agent" ∅)
    as (Hhit & _ & _ & Hagain).
  fold r in Hhit, Hagain.
  assert (Hr : r.1 = Some "http://localhost:9005") by (vm_compute; reflexivity).
  split; [exact Hr|]. split.
  - by rewrite (Hhit _ Hr).
  - by rewrite (Hagain _ "http://10.0.0.7:9105" eq_refl eq_refl).
Defined.

(** X11. The URL a client is created with always ends in [/a2a/]. This
    holds whatever the cache holds and whatever Consul answers. When the
    cache has no entry and Consul gives nothing, the URL is
    [http://localhost:{port}/a2a/] with the port [_get_port_offset] assigns
    to the normalised target, 9000 for an agent it does not know: for the
    agents of the mesh the static map of the registry and the port table of
    the client agree. *)
Theorem client_url_shape
    (catalog : string -> option value) (py_str : value -> string)
    (target_agent : string) (cache : gmap string string) :
  let T := Client._normalize_name target_agent in
  let url := (Registry.client_url catalog py_str target_agent cache).1 in
  Registry.endswith url "/a2a/" = true
  /\ (cache !! T = None -> catalog T = None ->
      url = "http://localhost:" ++ pretty (Registry._get_port_offset T) ++ "/a2a/").
Proof.
  intros T url. subst url. unfold Registry.client_url. fold T. split.
  - destruct (Registry.get_service_url catalog py_str T cache) as [[u|] cache1]; cbn [fst].
    + destruct (Registry.no_url (Some u)).
      * apply RegistryFacts.endswith_app2.
      * destruct (Registry.endswith u "/a2a/") eqn:E; cbn [negb]; [exact E|].
        apply RegistryFacts.endswith_app.
    + apply RegistryFacts.endswith_app2.
  - intros Hmiss Hdown. unfold Registry.get_service_url. rewrite Hmiss, Hdown.
    cbn [mbind option_bind Registry.no_url].
    destruct (Registry.static_mesh_map !! T) as [[host port]|] eqn:Hmap; [|reflexivity].
    destruct (RegistryFacts.static_entries T host port Hmap) as (Hsome & Hend & Hurl).
    rewrite Hsome. cbn [fst]. rewrite Hsome, Hend. exact Hurl.
Qed.

Lemma client_url_shape_witness :
  (Registry.client_url (fun _ => None) (fun _ => "") "fire_chief_agent" ∅).1
  = "http://localhost:9003/a2a/"
  /\ (Registry.client_url (fun _ => None) (fun _ => "") "archive-agent" ∅).1
     = "http://localhost:9000/a2a/".
Proof.
  destruct (client_url_shape (fun _ => None) (fun _ => "") "fire_chief_agent" ∅)
    as [_ H1].
  destruct (client_url_shape (fun _ => None) (fun _ => "") "archive-agent" ∅)
    as [_ H2].
  split; [exact (H1 eq_refl eq_refl)|exact (H2 eq_refl eq_refl)].
Defined.

(** ** Retrying on rate limits *)

Module RetryFacts.

Import Retry.

Local Open Scope Q_scope.

Section Generator.

Context {A : Type}.
Variable gen : nat -> list A * option exn.
Variable random : nat -> Q.

(** The loop from attempt [attempt] on: how many times the generator is
    started, what is yielded, and how it ends. *)
Lemma retry_loop_shape n attempt max_retries base_delay max_delay jitter last_error :
  (0 <= attempt)%Z -> n = Z.to_nat (max_retries + 1 - attempt) ->
  let r := retry_loop gen random n attempt max_retries base_delay max_delay jitter
             last_error in
  let a := Z.to_nat attempt in
  (calls r <= n)%nat
  /\ length (sleeps r) = pred (calls r)
  /\ yielded r = concat ((fun k => (gen k).1) <$> seq a (calls r))
  /\ (forall k, (k < pred (calls r))%nat ->
        exists e, (gen (a + k)).2 = Some e /\ is_rate_limit_error e = true)
  /\ ((0 < calls r)%nat -> ending r = (gen (a + pred (calls r))).2)
  /\ (forall e, ending r = Some e -> is_rate_limit_error e = true -> (0 < calls r)%nat ->
        (a + calls r)%nat = Z.to_nat (max_retries + 1))
  /\ (calls r = 0%nat -> n = 0%nat /\ ending r = last_error /\ yielded r = []).
Proof.
  revert attempt last_error.
  induction n as [|n IH]; intros attempt last_error Hat Hn; cbv zeta.
  - cbn. repeat split; try done; lia.
  - cbn [retry_loop].
    destruct (gen (Z.to_nat attempt)) as [items raised] eqn:Hgen.
    assert (Hone : forall e : option exn,
              raised = e ->
              (forall e', e = Some e' -> is_rate_limit_error e' = true ->
                          (max_retries <= attempt)%Z) ->
              let r := {| yielded := items; sleeps := []; calls := 1; ending := e |} in
              (calls r <= S n)%nat
              /\ length (sleeps r) = pred (calls r)
              /\ yielded r
                 = concat ((fun k => (gen k).1) <$> seq (Z.to_nat attempt) (calls r))
              /\ (forall k, (k < pred (calls r))%nat ->
                    exists e, (gen (Z.to_nat attempt + k)).2 = Some e
                              /\ is_rate_limit_error e = true)
              /\ ((0 < calls r)%nat ->
                  ending r = (gen (Z.to_nat attempt + pred (calls r))).2)
              /\ (forall e, ending r = Some e -> is_rate_limit_error e = true ->
                    (0 < calls r)%nat ->
                    (Z.to_nat attempt + calls r)%nat = Z.to_nat (max_retries + 1))
              /\ (calls r = 0%nat -> S n = 0%nat /\ ending r = last_error /\ yielded r = [])).
    { intros e He Hstop. cbn. split; [lia|]. split; [done|].
      split; [by rewrite Hgen, app_nil_r|]. split; [intros k Hk; lia|].
      split; [intros _; by rewrite Nat.add_0_r, Hgen|].
      split; [|done]. intros e' He' Hrate _. specialize (Hstop e' He' Hrate). lia. }
    destruct raised as [e|]; [|by apply Hone].
    destruct (is_rate_limit_error e) eqn:Hrate; cbn [negb];
      [|apply Hone; [done|]; intros e' [= <-]; congruence].
    destruct (max_retries <=? attempt)%Z eqn:Hlast;
      [apply Hone; [done|]; intros _ _ _; by apply Z.leb_le|].
    apply Z.leb_gt in Hlast.
    destruct (IH (attempt + 1)%Z (Some e)) as (H1 & H2 & H3 & H4 & H5 & H6 & H7);
      [lia|lia|].
    set (rest := retry_loop gen random n (attempt + 1)%Z max_retries base_delay max_delay
                   jitter (Some e)) in *.
    replace (Z.to_nat (attempt + 1)) with (S (Z.to_nat attempt)) in * by lia.
    assert (Hpos : (0 < calls rest)%nat).
    { destruct (calls rest) eqn:E; [|lia]. destruct (H7 eq_refl) as [Hn0 _]. lia. }
    cbn [yielded sleeps calls ending].
    split; [lia|]. split; [cbn; lia|].
    split; [cbn; by rewrite Hgen, H3|]. split.
    { intros [|k] Hk.
      - exists e. by rewrite Nat.add_0_r, Hgen.
      - destruct (H4 k) as (e' & He' & Hr'); [cbn in Hk; lia|].
        exists e'. split; [|done]. rewrite <- He'.
        by replace (Z.to_nat attempt + S k)%nat with (S (Z.to_nat attempt) + k)%nat by lia. }
    split.
    { intros _. rewrite (H5 Hpos). cbn [pred].
      by replace (S (Z.to_nat attempt) + pred (calls rest))%nat
        with (Z.to_nat attempt + calls rest)%nat by lia. }
    split; [|done].
    intros e' He' Hr' _. specialize (H6 e' He' Hr' Hpos). lia.
Qed.

(** Each sleep is the capped exponential delay of its attempt plus the
    jitter drawn for it. *)
Lemma retry_loop_sleeps n attempt max_retries base_delay max_delay jitter last_error i d :
  (0 <= attempt)%Z ->
  sleeps (retry_loop gen random n attempt max_retries base_delay max_delay jitter
            last_error) !! i = Some d ->
  let delay := pymin (base_delay * inject_Z (2 ^ (attempt + Z.of_nat i))) max_delay in
  d = delay + delay * jitter * random (Z.to_nat attempt + i).
Proof.
  revert attempt last_error i.
  induction n as [|n IH]; intros attempt last_error i Hat; cbn [retry_loop]; [done|].
  destruct (gen (Z.to_nat attempt)) as [items [e|]]; [|done].
  destruct (negb _); [done|]. destruct (_ <=? _)%Z; [done|].
  cbn [sleeps]. destruct i as [|i]; cbn.
  - intros [= <-]. by rewrite Z.add_0_r, Nat.add_0_r.
  - intros Hd. apply IH in Hd; [|lia]. cbv zeta in Hd. rewrite Hd.
    replace (attempt + 1 + Z.of_nat i)%Z with (attempt + Z.of_nat (S i))%Z by lia.
    replace (Z.to_nat (attempt + 1) + i)%nat with (Z.to_nat attempt + S i)%nat by lia.
    reflexivity.
Qed.

End Generator.

End RetryFacts.

(** X12. [retry_with_backoff] retries rate-limit errors only, and never
    more than [max_retries] times. Read to its end, the wrapper starts the
    generator at most [max_retries + 1] times and sleeps once between two
    starts; every start but the last ended in a rate-limit error, and the
    wrapper ends the way the last start ends. An error that is not a
    rate-limit error is passed on at once; a rate-limit error is passed on
    only when the retries are used up. What is yielded is everything every
    start yielded, in order: the items of an attempt that failed are not
    taken back, so the consumer sees them again from the retry. With a
    negative [max_retries] the generator is never started and the wrapper
    ends without an item or an error. *)
Theorem retry_with_backoff_attempts
    (A : Type) (gen : nat -> list A * option exn) (random : nat -> Q)
    (max_retries : Z) (base_delay max_delay jitter : Q) :
  let r := Retry.retry_with_backoff gen random max_retries base_delay max_delay jitter in
  (Retry.calls r <= Z.to_nat (max_retries + 1))%nat
  /\ length (Retry.sleeps r) = pred (Retry.calls r)
  /\ Retry.yielded r = concat ((fun k => (gen k).1) <$> seq 0 (Retry.calls r))
  /\ (forall k, (k < pred (Retry.calls r))%nat ->
        exists e, (gen k).2 = Some e /\ Retry.is_rate_limit_error e = true)
  /\ ((0 < Retry.calls r)%nat -> Retry.ending r = (gen (pred (Retry.calls r))).2)
  /\ (forall e, Retry.ending r = Some e -> Retry.is_rate_limit_error e = true ->
        Retry.calls r = Z.to_nat (max_retries + 1))
  /\ (Retry.calls r = 0%nat ->
      (max_retries < 0)%Z /\ Retry.ending r = None /\ Retry.yielded r = []).
Proof.
  intros r.
  destruct (RetryFacts.retry_loop_shape gen random (Z.to_nat (max_retries + 1)) 0
              max_retries base_delay max_delay jitter None)
    as (H1 & H2 & H3 & H4 & H5 & H6 & H7); [lia|f_equal; lia|].
  fold (Retry.retry_with_backoff gen random max_retries base_delay max_delay jitter)
    in H1, H2, H3, H4, H5, H6, H7.
  fold r in H1, H2, H3, H4, H5, H6, H7. cbn in H3, H4, H5, H6.
  split; [exact H1|]. split; [exact H2|]. split; [exact H3|]. split; [exact H4|].
  split; [exact H5|]. split.
  - intros e He Hrate. destruct (Retry.calls r) eqn:Hc.
    + destruct (H7 eq_refl) as (_ & Hend & _). congruence.
    + apply (H6 e He Hrate). lia.
  - intros Hc. destruct (H7 Hc) as (Hn & Hend & Hy). split; [lia|done].
Qed.

(** X13. The sleep before the retry that follows attempt [i] of
    [retry_with_backoff] is the delay [min(base_delay * 2^i, max_delay)]
    plus a jitter of at most [jitter] times that delay: it lies between the
    delay and [(1 + jitter)] times the delay, and so never exceeds
    [(1 + jitter) * max_delay], when the delays and the jitter factor are
    not negative and [random.random()] draws from [0, 1). *)
Theorem retry_with_backoff_delays
    (A : Type) (gen : nat -> list A * option exn) (random : nat -> Q)
    (max_retries : Z) (base_delay max_delay jitter : Q) (i : nat) (d : Q) :
  (0 <= base_delay)%Q -> (0 <= max_delay)%Q -> (0 <= jitter)%Q ->
  (forall k, 0 <= random k /\ random k < 1)%Q ->
  Retry.sleeps (Retry.retry_with_backoff gen random max_retries base_delay max_delay jitter)
    !! i = Some d ->
  let delay := pymin (base_delay * inject_Z (2 ^ Z.of_nat i)) max_delay in
  (delay <= d)%Q /\ (d <= (1 + jitter) * delay)%Q /\ (d <= (1 + jitter) * max_delay)%Q.
Proof.
  intros Hbase Hmax Hjit Hrand Hd delay.
  apply RetryFacts.retry_loop_sleeps in Hd; [|lia]. cbv zeta in Hd.
  change (0 + Z.of_nat i)%Z with (Z.of_nat i) in Hd. fold delay in Hd.
  change (Z.to_nat 0 + i)%nat with i in Hd. subst d.
  destruct (Hrand i) as [Hr0 Hr1]. set (x := random i) in *. clearbody x.
  assert (Hpow : (0 <= inject_Z (2 ^ Z.of_nat i))%Q).
  { change 0%Q with (inject_Z 0). rewrite <- Zle_Qle. apply Z.pow_nonneg. lia. }
  assert (Hd0 : (0 <= delay)%Q).
  { subst delay. destruct (pymin_spec (base_delay * inject_Z (2 ^ Z.of_nat i)) max_delay)
      as [[_ ->]|[_ ->]]; [exact Hmax|]. by apply Qmult_le_0_compat. }
  assert (Hdm : (delay <= max_delay)%Q).
  { subst delay. destruct (pymin_spec (base_delay * inject_Z (2 ^ Z.of_nat i)) max_delay)
      as [[_ ->]|[H ->]]; [apply Qle_refl|exact H]. }
  clearbody delay.
  assert (Hdj : (0 <= delay * jitter)%Q) by (by apply Qmult_le_0_compat).
  assert (Hlow : (0 <= delay * jitter * x)%Q) by (by apply Qmult_le_0_compat).
  assert (Hup : (delay * jitter * x <= delay * jitter)%Q).
  { rewrite <- (Qmult_1_r (delay * jitter)) at 2.
    rewrite !(Qmult_comm (delay * jitter)). apply Qmult_le_compat_r; [lra|done]. }
  assert (Hjm : (jitter * delay <= jitter * max_delay)%Q).
  { rewrite !(Qmult_comm jitter). by apply Qmult_le_compat_r. }
  split; [lra|]. split; lra.
Qed.

Lemma retry_with_backoff_delays_witness :
  let gen : nat -> list nat * option exn := fun k =>
    if (k <? 2)%nat then ([k], Some (Exception "429 Too Many Requests")) else ([k], None) in
  let r := Retry.retry_with_backoff gen (fun _ => 1 # 2) 5 2 60 (1 # 2) in
  Retry.yielded r = [0; 1; 2]%nat
  /\ exists d, Retry.sleeps r !! 1%nat = Some d /\ (4 <= d)%Q /\ (d <= 6)%Q.
Proof.
  intros gen r. split; [reflexivity|].
  assert (Hd : Retry.sleeps r !! 1%nat = Some (20 # 4)) by (vm_compute; reflexivity).
  exists (20 # 4). split; [exact Hd|].
  destruct (retry_with_backoff_delays nat gen (fun _ => 1 # 2) 5 2 60 (1 # 2) 1 (20 # 4))
    as (Hlo & Hhi & _).
  - lra.
  - lra.
  - lra.
  - intros k. split; lra.
  - exact Hd.
  - split; [exact Hlo|exact Hhi].
Defined.

Module RunnerFacts.

Import Retry.

Lemma length_app_string (a b : string) :
  String.length (a ++ b) = (String.length a + String.length b)%nat.
Proof.
  induction a as [|c a IH]; [done|].
  change (String c a ++ b) with (String c (a ++ b)). cbn. by rewrite IH.
Qed.

(** Different attempts run in different sessions. *)
Lemma attempt_session_id_inj session_id (k1 k2 : Z) :
  (0 <= k1)%Z -> (0 <= k2)%Z ->
  attempt_session_id session_id k1 = attempt_session_id session_id k2 -> k1 = k2.
Proof.
  assert (Hfirst : forall k : Z, session_id <> session_id ++ "_retry_" ++ pretty k).
  { intros k H. apply (f_equal String.length) in H.
    rewrite !length_app_string in H. cbn in H. lia. }
  intros H1 H2. unfold attempt_session_id.
  destruct (k1 =? 0)%Z eqn:E1, (k2 =? 0)%Z eqn:E2.
  - apply Z.eqb_eq in E1, E2. congruence.
  - intros H. by apply Hfirst in H.
  - intros H. symmetry in H. by apply Hfirst in H.
  - intros H. apply String.app_inj in H. apply (String.app_inj "_retry_") in H.
    by apply pretty_Z_inj in H.
Qed.

Section Runner.

Context {A : Type}.
Variable run_async_of : nat -> string -> list A * option exn.
Variable random : nat -> Q.

(** The sessions of the loop from attempt [attempt] on. *)
Lemma runner_loop_sessions n attempt max_retries base_delay session_id last_error :
  (0 <= attempt)%Z ->
  let r := runner_loop run_async_of random n attempt max_retries base_delay session_id
             last_error in
  length (sessions_used r) = calls (seen r)
  /\ (forall i s, sessions_used r !! i = Some s ->
        s = attempt_session_id session_id (attempt + Z.of_nat i))
  /\ ((0 < attempt)%Z -> sessions_created r = sessions_used r).
Proof.
  revert attempt last_error.
  induction n as [|n IH]; intros attempt last_error Hat; cbv zeta; cbn [runner_loop].
  - by repeat split.
  - set (sid := attempt_session_id session_id attempt).
    destruct (run_async_of (Z.to_nat attempt) sid) as [items raised].
    assert (Hone : forall e : option exn,
              let r := {| seen := {| yielded := items; sleeps := []; calls := 1;
                                     ending := e |};
                          sessions_used := [sid];
                          sessions_created := if (0 <? attempt)%Z then [sid] else [] |} in
              length (sessions_used r) = calls (seen r)
              /\ (forall i s, sessions_used r !! i = Some s ->
                    s = attempt_session_id session_id (attempt + Z.of_nat i))
              /\ ((0 < attempt)%Z -> sessions_created r = sessions_used r)).
    { intros e. cbn. split; [done|]. split.
      - intros [|i] s; [|done]. intros [= <-]. by rewrite Z.add_0_r.
      - intros Hpos. apply Z.ltb_lt in Hpos. by rewrite Hpos. }
    destruct raised as [e|]; [|apply Hone].
    destruct (negb _); [apply Hone|]. destruct (_ <=? _)%Z; [apply Hone|].
    destruct (IH (attempt + 1)%Z (Some e)) as (H1 & H2 & H3); [lia|].
    set (rest := runner_loop run_async_of random n (attempt + 1)%Z max_retries base_delay
                   session_id (Some e)) in *.
    cbn [seen sessions_used sessions_created calls].
    split; [cbn; by rewrite H1|]. split.
    + intros [|i] s; cbn.
      * intros [= <-]. by rewrite Z.add_0_r.
      * intros Hs. rewrite (H2 i s Hs). f_equal. lia.
    + intros Hpos. rewrite H3 by lia. apply Z.ltb_lt in Hpos. by rewrite Hpos.
Qed.

End Runner.

End RunnerFacts.

(** X14. Every attempt of [RateLimitRetryRunner.run_async] runs in a
    session of its own. The first attempt uses the session it was given
    and creates nothing; the [k]-th retry asks for the session
    [{session_id}_retry_{k}] to be created and runs in it. The sessions of
    one call are pairwise distinct, so the message added to the session by
    each attempt is never added twice to the same session, and there are as
    many of them as attempts. *)
Theorem retry_runner_sessions
    (A : Type) (run_async_of : nat -> string -> list A * option exn) (random : nat -> Q)
    (max_retries : Z) (base_delay : Q) (session_id : string) :
  let r := Retry.run_async run_async_of random max_retries base_delay session_id in
  NoDup (Retry.sessions_used r)
  /\ length (Retry.sessions_used r) = Retry.calls (Retry.seen r)
  /\ match Retry.sessions_used r with
     | [] => Retry.sessions_created r = []
     | first :: retries => first = session_id /\ Retry.sessions_created r = retries
     end
  /\ (forall i s, Retry.sessions_created r !! i = Some s ->
        s = session_id ++ "_retry_" ++ pretty (Z.of_nat (S i))).
Proof.
  intros r.
  destruct (RunnerFacts.runner_loop_sessions run_async_of random
              (Z.to_nat (max_retries + 1)) 0 max_retries base_delay session_id None)
    as (Hlen & Hnames & _); [lia|].
  fold (Retry.run_async run_async_of random max_retries base_delay session_id)
    in Hlen, Hnames.
  fold r in Hlen, Hnames.
  assert (Hshape : match Retry.sessions_used r with
                   | [] => Retry.sessions_created r = []
                   | first :: retries =>
                       first = session_id /\ Retry.sessions_created r = retries
                   end).
  { subst r. unfold Retry.run_async.
    destruct (Z.to_nat (max_retries + 1)) as [|n]; [done|]. cbn [Retry.runner_loop].
    change (Retry.attempt_session_id session_id 0) with session_id.
    destruct (run_async_of (Z.to_nat 0) session_id) as [items [e|]]; [|done].
    destruct (negb _); [done|]. destruct (_ <=? _)%Z; [done|].
    cbn [Retry.sessions_used Retry.sessions_created]. split; [done|].
    destruct (RunnerFacts.runner_loop_sessions run_async_of random n (0 + 1) max_retries
                base_delay session_id (Some e)) as (_ & _ & H); [lia|].
    cbn. apply H. lia. }
  split.
  - apply NoDup_alt. intros i j s Hi Hj.
    pose proof (Hnames i s Hi) as Ei. pose proof (Hnames j s Hj) as Ej.
    rewrite Ei in Ej. apply RunnerFacts.attempt_session_id_inj in Ej; lia.
  - split; [exact Hlen|]. split; [exact Hshape|].
    intros i s Hs. destruct (Retry.sessions_used r) as [|first retries] eqn:Hu.
    + rewrite Hshape in Hs. done.
    + destruct Hshape as [_ Hc]. rewrite Hc in Hs.
      rewrite (Hnames (S i) s) by exact Hs.
      unfold Retry.attempt_session_id.
      replace (0 + Z.of_nat (S i) =? 0)%Z with false by (symmetry; apply Z.eqb_neq; lia).
      done.
Qed.

Module MatchFacts.

Import Delegation.

Lemma prefix_spec (needle hay : string) :
  String.prefix needle hay = true <-> exists post, hay = needle ++ post.
Proof.
  revert hay. induction needle as [|c needle IH]; intros hay.
  - destruct hay; simpl; (split; [intros _; by eexists|done]).
  - destruct hay as [|c' hay]; simpl; [split; [done|intros [post [=]]]|].
    destruct (Ascii.ascii_dec c c') as [<-|Hne].
    + rewrite IH. split; intros [post Hp]; exists post.
      * change (String c needle ++ post) with (String c (needle ++ post)). by rewrite Hp.
      * change (String c needle ++ post) with (String c (needle ++ post)) in Hp.
        by injection Hp.
    + split; [done|]. intros [post Hp].
      change (String c needle ++ post) with (String c (needle ++ post)) in Hp.
      injection Hp as -> _. done.
Qed.

(** [needle in hay] holds when [hay] has [needle] somewhere in it. *)
Lemma contains_spec (needle hay : string) :
  contains needle hay = true <-> exists pre post, hay = pre ++ needle ++ post.
Proof.
  induction hay as [|c hay IH]; cbn [contains]; rewrite orb_true_iff, prefix_spec.
  - split.
    + intros [[post Hp]|[=]]. by exists "", post.
    + intros (pre & post & Hp). left. destruct pre as [|c pre]; [by exists post|].
      discriminate Hp.
  - rewrite IH. split.
    + intros [[post Hp]|(pre & post & Hp)]; [by exists "", post|].
      exists (String c pre), post.
      change (String c pre ++ needle ++ post) with (String c (pre ++ needle ++ post)).
      by rewrite Hp.
    + intros (pre & post & Hp). destruct pre as [|c' pre]; [left; by exists post|].
      right. exists pre, post.
      change (String c' pre ++ needle ++ post) with (String c' (pre ++ needle ++ post))
        in Hp. by injection Hp.
Qed.

Lemma lower_app (a b : string) : lower (a ++ b) = lower a ++ lower b.
Proof.
  induction a as [|c a IH]; [done|].
  change (String c a ++ b) with (String c (a ++ b)). cbn [lower]. by rewrite IH.
Qed.

(** A piece of the lower-cased text is the lower-cased piece of the text. *)
Lemma lower_split (hay x y : string) :
  lower hay = x ++ y -> exists a b, hay = a ++ b /\ lower a = x /\ lower b = y.
Proof.
  revert hay. induction x as [|c x IH]; intros hay H; [by exists "", hay|].
  destruct hay as [|c' hay]; [discriminate H|].
  change (String c x ++ y) with (String c (x ++ y)) in H. cbn [lower] in H.
  injection H as Hc Hrest. destruct (IH hay Hrest) as (a & b & -> & Ha & Hb).
  exists (String c' a), b. split; [done|]. split; [|done]. cbn [lower]. by rewrite Hc, Ha.
Qed.

(** A case-insensitive search for [needle]. *)
Lemma contains_lower_spec (needle hay : string) :
  contains (lower needle) (lower hay) = true
  <-> exists pre s post, hay = pre ++ s ++ post /\ lower s = lower needle.
Proof.
  rewrite contains_spec. split.
  - intros (x & y & H). apply lower_split in H as (pre & rest & -> & _ & H).
    apply lower_split in H as (s & post & -> & Hs & _). by exists pre, s, post.
  - intros (pre & s & post & -> & Hs).
    exists (lower pre), (lower post). by rewrite !lower_app, Hs.
Qed.

End MatchFacts.

(** X15. [is_rate_limit_error] is a case-insensitive search of the message
    of the exception: it answers true exactly when the message has, at any
    place, a piece that reads as one of the five indicators once letter
    case is ignored. So any message with [429] anywhere in it counts, and
    an exception without a message never does. *)
Theorem rate_limit_error_matching (e : exn) :
  Retry.is_rate_limit_error e = true
  <-> exists indicator pre s post,
        indicator ∈ Retry.RATE_LIMIT_INDICATORS
        /\ Delegation.exn_str e = pre ++ s ++ post
        /\ Delegation.lower s = Delegation.lower indicator.
Proof.
  unfold Retry.is_rate_limit_error. rewrite existsb_exists. split.
  - intros (indicator & Hin & Hc). apply MatchFacts.contains_lower_spec in Hc
      as (pre & s & post & He & Hs).
    exists indicator, pre, s, post. split; [by apply list_elem_of_In|done].
  - intros (indicator & pre & s & post & Hin & He & Hs).
    exists indicator. split; [by apply list_elem_of_In|].
    apply MatchFacts.contains_lower_spec. by exists pre, s, post.
Qed.

(** ** A burst on the token bucket *)

Module BurstFacts.

Import RateLimiter.
Local Open Scope Q_scope.

Implicit Types (st : gmap string Q) (s : shared).

Lemma inject_Z_pred (n : Z) : inject_Z (n - 1) == inject_Z n - 1.
Proof. unfold Qeq. simpl. lia. Qed.

(** With at least one token in the bucket and no time gone since the last
    refill, a pass takes one token and asks for no wait. *)
Lemma pass_takes rpm now st x u (n : Z) :
  (1 <= n <= rpm)%Z ->
  st !! "tokens" = Some x -> x == inject_Z n ->
  st !! "last_update" = Some u -> u == now ->
  exists x',
    acquire_pass (new rpm) now (Some st)
    = Some (0, <["last_update" := now]> (<["tokens" := x']> st))
    /\ x' == inject_Z (n - 1).
Proof.
  intros Hn Hx Ex Hu Eu. unfold acquire_pass, _read_state. rewrite Hx, Hu.
  cbn [default from_option id max_tokens new rate].
  set (d := (now - u) * (inject_Z rpm / 60)).
  assert (Hd : d == 0) by (subst d; rewrite Eu; field).
  assert (H1 : 1 <= inject_Z n) by (change 1 with (inject_Z 1); rewrite <- Zle_Qle; lia).
  assert (H2 : inject_Z n <= inject_Z rpm) by (rewrite <- Zle_Qle; lia).
  set (refill := pymin (inject_Z rpm) (x + d)).
  assert (Hrefill : refill == inject_Z n).
  { subst refill. destruct (pymin_spec (inject_Z rpm) (x + d)) as [[Hlt ->]|[Hle ->]].
    - rewrite Ex, Hd. ring.
    - apply Qle_antisym; [|exact H2]. rewrite Ex, Hd in Hle. lra. }
  assert (Hge : Qgeb refill 1 = true) by (apply Qgeb_true; by rewrite Hrefill).
  rewrite Hge. exists (refill - 1). split; [reflexivity|].
  rewrite Hrefill. symmetry. apply inject_Z_pred.
Qed.

(** A call on such a bucket returns in its first pass. *)
Lemma acquire_takes rpm s fuel st x u (n : Z) :
  (1 <= n <= rpm)%Z ->
  lock_outcomes s = [] -> state_file s = Some st ->
  st !! "tokens" = Some x -> x == inject_Z n ->
  st !! "last_update" = Some u -> u == clock s ->
  exists x',
    acquire (S fuel) (new rpm) s
    = (Ok 0, _write_state (<["last_update" := clock s]> (<["tokens" := x']> st)) s)
    /\ x' == inject_Z (n - 1).
Proof.
  intros Hn Hlock Hst Hx Ex Hu Eu.
  destruct (pass_takes rpm (clock s) st x u n Hn Hx Ex Hu Eu) as (x' & Hpass & Ex').
  exists x'. split; [|exact Ex'].
  cbn [acquire]. unfold _acquire_lock. rewrite Hlock. cbn [negb]. cbv iota.
  rewrite Hst, Hpass. reflexivity.
Qed.

(** As many calls as there are tokens return at once, one after the other. *)
Lemma burst_run rpm (k : nat) s st x u (n : Z) :
  (Z.of_nat k <= n <= rpm)%Z ->
  lock_outcomes s = [] -> state_file s = Some st ->
  st !! "tokens" = Some x -> x == inject_Z n ->
  st !! "last_update" = Some u -> u == clock s ->
  let r := acquires (repeat 1%nat k) (new rpm) s in
  r.1 = repeat (Ok 0) k
  /\ clock r.2 = clock s
  /\ lock_outcomes r.2 = []
  /\ exists st' x' u',
       state_file r.2 = Some st'
       /\ st' !! "tokens" = Some x' /\ x' == inject_Z (n - Z.of_nat k)
       /\ st' !! "last_update" = Some u' /\ u' == clock s.
Proof.
  revert s st x u n.
  induction k as [|k IH]; intros s st x u n Hn Hlock Hst Hx Ex Hu Eu; cbv zeta.
  - cbn. split; [done|]. split; [done|]. split; [done|].
    exists st, x, u. rewrite Z.sub_0_r. by repeat split.
  - cbn [repeat acquires].
    destruct (acquire_takes rpm s 0 st x u n) as (x1 & Hrun & Ex1); try done; [lia|].
    rewrite Hrun.
    set (s1 := _write_state _ s).
    destruct (IH s1 (<["last_update" := clock s]> (<["tokens" := x1]> st)) x1 (clock s)
                (n - 1)%Z) as (H1 & H2 & H3 & st' & x' & u' & H4 & H5 & H6 & H7 & H8);
      try done; [lia|by rewrite lookup_insert_ne, lookup_insert_eq|apply lookup_insert_eq|].
    destruct (acquires (repeat 1%nat k) (new rpm) s1) as [rs s2]. cbn [fst snd] in *.
    split; [by rewrite H1|]. split; [exact H2|]. split; [exact H3|].
    exists st', x', u'. split; [exact H4|]. split; [exact H5|]. split; [|by split].
    rewrite H6. by replace (n - 1 - Z.of_nat k)%Z with (n - Z.of_nat (S k))%Z by lia.
Qed.

(** A call on an empty bucket sleeps for the time one token takes, and a
    tenth of a second more, and then returns. *)
Lemma acquire_waits rpm s st x u :
  (0 < rpm)%Z ->
  lock_outcomes s = [] -> state_file s = Some st ->
  st !! "tokens" = Some x -> x == 0 ->
  st !! "last_update" = Some u -> u == clock s ->
  exists s',
    acquire 2 (new rpm) s = (Ok 0, s')
    /\ clock s' == clock s + 60 / inject_Z rpm + (1 # 10).
Proof.
  intros Hrpm Hlock Hst Hx Ex Hu Eu.
  assert (Hcap : 1 <= inject_Z rpm)
    by (change 1 with (inject_Z 1); rewrite <- Zle_Qle; lia).
  set (rt := inject_Z rpm / 60).
  assert (Hrate : 0 < rt) by (subst rt; apply Qlt_shift_div_l; lra).
  cbn [acquire]. unfold _acquire_lock at 1. rewrite Hlock. cbn [negb]. cbv iota.
  rewrite Hst. unfold acquire_pass at 1. unfold _read_state. rewrite Hx, Hu.
  cbn [default from_option id max_tokens new rate]. fold rt.
  set (d := (clock s - u) * rt).
  assert (Hd : d == 0) by (subst d; rewrite Eu; ring).
  set (refill := pymin (inject_Z rpm) (x + d)).
  assert (Hrefill : refill == 0).
  { subst refill. destruct (pymin_spec (inject_Z rpm) (x + d)) as [[_ ->]|[Hle _]].
    - rewrite Ex, Hd. ring.
    - rewrite Ex, Hd in Hle. lra. }
  assert (Hlow : Qgeb refill 1 = false) by (apply Qgeb_false; rewrite Hrefill; lra).
  rewrite Hlow.
  assert (Hnz : Qeq_bool rt 0 = false).
  { destruct (Qeq_bool rt 0) eqn:E; [|done]. apply Qeq_bool_iff in E. lra. }
  rewrite Hnz.
  set (wait_time := (1 - refill) / rt).
  assert (Hwait : wait_time * rt == 1).
  { subst wait_time. rewrite Hrefill. field. lra. }
  assert (Hwpos : 0 < wait_time).
  { subst wait_time. apply Qlt_shift_div_l; [exact Hrate|]. rewrite Hrefill. lra. }
  assert (Hgo : Qle_bool wait_time 0 = false).
  { destruct (Qle_bool wait_time 0) eqn:E; [|done]. apply Qle_bool_iff in E. lra. }
  rewrite Hgo.
  unfold _acquire_lock, sleep, _write_state. cbn [lock_outcomes clock state_file].
  rewrite Hlock. cbn [negb]. cbv iota.
  unfold acquire_pass, _read_state. cbn [state_file clock lock_outcomes].
  rewrite lookup_insert_eq, lookup_insert_ne, lookup_insert_eq by done.
  cbn [default from_option id max_tokens new rate]. fold rt.
  set (refill2 := pymin (inject_Z rpm) _).
  assert (Hnew : 1 <= refill2).
  { subst refill2.
    assert (E : (clock s + (wait_time + (1 # 10)) - clock s) * rt
                == wait_time * rt + (1 # 10) * rt) by ring.
    assert (Hbuf : 0 <= (1 # 10) * rt) by (apply Qmult_le_0_compat; lra).
    destruct (pymin_spec (inject_Z rpm)
                (refill + (clock s + (wait_time + (1 # 10)) - clock s) * rt))
      as [[_ ->]|[_ ->]]; [|exact Hcap].
    rewrite E, Hwait, Hrefill. lra. }
  apply Qgeb_true in Hnew. rewrite Hnew.
  change (Qle_bool 0 0) with true. cbv iota.
  eexists. split; [reflexivity|]. cbn [clock].
  assert (Hw : wait_time == 60 / inject_Z rpm).
  { subst wait_time rt. rewrite Hrefill. field. lra. }
  rewrite Hw. ring.
Qed.

End BurstFacts.

(** X16. A burst on a full bucket. Starting from the state that
    [__init__] writes, with [requests_per_minute] positive, nobody else
    at the lock and no time passing between the calls, the first
    [requests_per_minute] calls of [acquire] return at once, each in its
    first pass; the next call finds the bucket empty, sleeps for
    [60 / requests_per_minute] seconds plus the buffer of a tenth of a
    second, and then returns. Every call returns [0.0], the one that
    waited too. *)
Theorem rate_limiter_burst (requests_per_minute : Z) (t0 : Q) :
  (0 < requests_per_minute)%Z ->
  let self := RateLimiter.new requests_per_minute in
  let s0 := {| RateLimiter.state_file :=
                 Some (<["last_update" := t0]>
                         (<["tokens" := RateLimiter.max_tokens self]> ∅));
               RateLimiter.clock := t0;
               RateLimiter.lock_outcomes := [] |} in
  let burst := RateLimiter.acquires (repeat 1%nat (Z.to_nat requests_per_minute)) self s0 in
  let next := RateLimiter.acquire 2 self burst.2 in
  burst.1 = repeat (Ok 0%Q) (Z.to_nat requests_per_minute)
  /\ RateLimiter.clock burst.2 = t0
  /\ next.1 = Ok 0%Q
  /\ (RateLimiter.clock next.2 == t0 + 60 / inject_Z requests_per_minute + (1 # 10))%Q.
Proof.
  intros Hrpm self s0 burst next.
  destruct (BurstFacts.burst_run requests_per_minute (Z.to_nat requests_per_minute) s0
              (<["last_update" := t0]> (<["tokens" := RateLimiter.max_tokens self]> ∅))
              (RateLimiter.max_tokens self) t0 requests_per_minute)
    as (H1 & H2 & H3 & st' & x' & u' & H4 & H5 & H6 & H7 & H8);
    [lia|done|done|apply RateLimiterFacts.fresh_tokens|done
    |apply RateLimiterFacts.fresh_last_update|done|].
  fold self burst in H1, H2, H3, H4. cbn [RateLimiter.clock] in H2, H8.
  split; [exact H1|]. split; [exact H2|].
  destruct (BurstFacts.acquire_waits requests_per_minute burst.2 st' x' u' Hrpm H3 H4 H5)
    as (s' & Hrun & Hclock).
  - rewrite H6. by rewrite Z2Nat.id, Z.sub_diag by lia.
  - exact H7.
  - by rewrite H2.
  - fold self in Hrun. subst next. rewrite Hrun. cbn [fst snd].
    split; [reflexivity|]. by rewrite Hclock, H2.
Qed.

Lemma rate_limiter_burst_witness :
  let self := RateLimiter.new 8 in
  let s0 := {| RateLimiter.state_file :=
                 Some (<["last_update" := 0%Q]> (<["tokens" := 8%Q]> ∅));
               RateLimiter.clock := 0;
               RateLimiter.lock_outcomes := [] |} in
  let burst := RateLimiter.acquires (repeat 1%nat 8) self s0 in
  (RateLimiter.clock (RateLimiter.acquire 2 self burst.2).2 == 76 # 10)%Q.
Proof.
  intros self s0 burst.
  destruct (rate_limiter_burst 8 0) as (_ & _ & _ & H); [lia|].
  cbv zeta in H. change (Z.to_nat 8) with 8%nat in H.
  fold self in H. change (RateLimiter.max_tokens self) with 8%Q in H.
  fold s0 burst in H. rewrite H. reflexivity.
Defined.

(** ** What an extracted incident id looks like *)

Module ExtractFacts.

Import IncidentId Extracted.

Lemma app_cons c (a b : string) : String c a ++ b = String c (a ++ b).
Proof. reflexivity. Qed.

Lemma app_nil (b : string) : "" ++ b = b.
Proof. reflexivity. Qed.

Lemma app_assoc (a b c : string) : (a ++ b) ++ c = a ++ b ++ c.
Proof.
  induction a as [|x a IH]; [by rewrite !app_nil|]. by rewrite !app_cons, IH.
Qed.

Lemma chars_nil p : chars p "".
Proof. apply Forall_nil_2. Qed.

Lemma chars_cons (p : ascii -> bool) c g : p c = true -> chars p g -> chars p (String c g).
Proof. intros Hc Hg. unfold chars. cbn [list_ascii_of_string]. by apply Forall_cons. Qed.

Lemma chars_app (p : ascii -> bool) a b : chars p a -> chars p b -> chars p (a ++ b).
Proof.
  induction a as [|x a IH]; [by rewrite app_nil|].
  unfold chars at 1. cbn [list_ascii_of_string]. intros Ha Hb.
  apply Forall_cons in Ha as [Hx Ha]. rewrite app_cons. apply chars_cons; auto.
Qed.

Lemma chars_weaken (p q : ascii -> bool) g :
  (forall c, p c = true -> q c = true) -> chars p g -> chars q g.
Proof. intros Hpq Hg. eapply Forall_impl; [exact Hg|exact Hpq]. Qed.

Lemma upper_digit_id c : is_upper_digit c = true -> is_id_char c = true.
Proof. unfold is_upper_digit, is_id_char. intros ->. done. Qed.

Lemma upper_id c : is_upper c = true -> is_id_char c = true.
Proof. unfold is_id_char. intros ->. done. Qed.

Lemma underscore_id c : is_char "_" c = true -> is_id_char c = true.
Proof. unfold is_id_char. intros ->. by rewrite !orb_true_r. Qed.

(** The greedy run and the rest make up the text; the run is in the
    class. *)
Lemma take_while_spec p s :
  s = (take_while p s).1 ++ (take_while p s).2 /\ chars p (take_while p s).1.
Proof.
  induction s as [|c s [IH1 IH2]]; cbn [take_while fst snd];
    [split; [done|apply chars_nil]|].
  destruct (p c) eqn:Hc; [|split; [done|apply chars_nil]].
  destruct (take_while p s) as [run tl]. cbn [fst snd] in *. split.
  - by rewrite app_cons, <- IH1.
  - by apply chars_cons.
Qed.

Lemma expect_spec p s r : expect p s = Some r -> exists c, s = String c r.
Proof.
  destruct s as [|c s]; cbn [expect]; [done|]. destruct (p c); [|done].
  intros [= <-]. by exists c.
Qed.

Lemma expect_lit_spec lit s r : expect_lit lit s = Some r -> s = lit ++ r.
Proof.
  revert s. induction lit as [|a lit IH]; intros s; cbn [expect_lit];
    [by intros [= <-]|].
  destruct s as [|c s]; [done|]. destruct (Ascii.eqb a c) eqn:E; [|done].
  apply Ascii.eqb_eq in E as <-. intros H. by rewrite (IH _ H), app_cons.
Qed.

(** The groups taken and the rest make up the text; the groups are made
    of identifier characters. *)
Lemma take_groups_spec fuel s :
  s = (take_groups fuel s).1.1 ++ (take_groups fuel s).2
  /\ chars is_id_char (take_groups fuel s).1.1.
Proof.
  revert s. induction fuel as [|fuel IH]; intros s; cbn [take_groups fst snd];
    [split; [done|apply chars_nil]|].
  destruct s as [|c s]; [split; [done|apply chars_nil]|].
  destruct (is_char "_" c) eqn:Hc; [|split; [done|apply chars_nil]].
  pose proof (take_while_spec is_upper_digit s) as [Hs Hseg].
  destruct (take_while is_upper_digit s) as [seg tl]. cbn [fst snd] in Hs, Hseg.
  destruct (String.eqb seg ""); [split; [done|apply chars_nil]|].
  destruct (IH tl) as [Htl Hmore].
  destruct (take_groups fuel tl) as [[more n] tl']. cbn [fst snd] in *. split.
  - by rewrite app_cons, app_assoc, <- Htl, <- Hs.
  - apply chars_cons; [by apply underscore_id|].
    apply chars_app; [|done]. eapply chars_weaken; [apply upper_digit_id|done].
Qed.

Lemma piece_later c text g : piece_of text g -> piece_of (String c text) g.
Proof.
  intros (Hne & Hch & pre & post & ->). split; [done|]. split; [done|].
  by exists (String c pre), post.
Qed.

(** What the label pattern returns where it matches. *)
Lemma match_label_piece s g : match_label_at s = Some g -> piece_of s g.
Proof.
  unfold match_label_at. intros H.
  destruct (expect (one_of "I" "i") s) as [s1|] eqn:E1;
    cbn [mbind option_bind] in H; [|done].
  destruct (expect_lit "ncident" s1) as [s2|] eqn:E2;
    cbn [mbind option_bind] in H; [|done].
  pose proof (take_while_spec is_space s2) as [W3 _].
  destruct (take_while is_space s2) as [sp3 s3]. cbn [fst snd] in *.
  destruct (expect (one_of "I" "i") s3) as [s4|] eqn:E4;
    cbn [mbind option_bind] in H; [|done].
  destruct (expect (one_of "D" "d") s4) as [s5|] eqn:E5;
    cbn [mbind option_bind] in H; [|done].
  destruct (expect (one_of ":" "=") s5) as [s6|] eqn:E6;
    cbn [mbind option_bind] in H; [|done].
  pose proof (take_while_spec is_space s6) as [W7 _].
  destruct (take_while is_space s6) as [sp7 s7]. cbn [fst snd] in *.
  pose proof (take_while_spec is_id_char s7) as [Wg Hg].
  destruct (take_while is_id_char s7) as [g' tl]. cbn [fst snd] in *.
  destruct (String.eqb g' "") eqn:Eg; [done|]. injection H as <-.
  apply String.eqb_neq in Eg.
  apply expect_spec in E1 as [c1 ->]. apply expect_lit_spec in E2 as ->.
  apply expect_spec in E4 as [c4 E4]. apply expect_spec in E5 as [c5 ->].
  apply expect_spec in E6 as [c6 ->].
  split; [done|]. split; [done|].
  exists (String c1 ("ncident" ++ sp3 ++ String c4 (String c5 (String c6 sp7)))), tl.
  rewrite W3, E4, W7, Wg.
  repeat first [rewrite app_cons | rewrite app_assoc | rewrite app_nil]. reflexivity.
Qed.

Lemma search_label_piece s g : search_label s = Some g -> piece_of s g.
Proof.
  induction s as [|c s IH]; cbn [search_label].
  - destruct (match_label_at "") eqn:E; [|done]. intros [= <-].
    by apply match_label_piece.
  - destruct (match_label_at (String c s)) eqn:E.
    + intros [= <-]. by apply match_label_piece.
    + intros H. apply piece_later. auto.
Qed.

(** What the all-caps pattern returns where it matches. *)
Lemma match_caps_piece prev s g : match_caps_at prev s = Some g -> piece_of s g.
Proof.
  unfold match_caps_at. destruct (at_word_start prev); [|done].
  destruct s as [|c rest]; [done|]. destruct (is_upper c) eqn:Hc; [|done].
  pose proof (take_while_spec is_upper_digit rest) as [Wh Hh].
  destruct (take_while is_upper_digit rest) as [head tl]. cbn [fst snd] in *.
  pose proof (take_groups_spec (String.length tl) tl) as [Wg Hg].
  destruct (take_groups (String.length tl) tl) as [[groups n] tl']. cbn [fst snd] in *.
  destruct ((2 <=? n)%nat && at_word_end tl'); [|done]. intros [= <-].
  split; [done|]. split.
  - apply chars_cons; [by apply upper_id|].
    apply chars_app; [|done]. eapply chars_weaken; [apply upper_digit_id|done].
  - exists "", tl'. by rewrite app_nil, app_cons, app_assoc, <- Wg, <- Wh.
Qed.

Lemma search_caps_piece s : forall prev g, search_caps prev s = Some g -> piece_of s g.
Proof.
  induction s as [|c s IH]; intros prev g; cbn [search_caps].
  - destruct (match_caps_at prev "") eqn:E; [|done]. intros [= <-].
    by apply match_caps_piece in E.
  - destruct (match_caps_at prev (String c s)) eqn:E.
    + intros [= <-]. by apply match_caps_piece in E.
    + intros H. apply piece_later. eauto.
Qed.

End ExtractFacts.

(** X17. Whatever [extract_incident_id] returns is a piece of the text it
    was given: the identifier is not empty, it consists of upper-case
    letters, digits, underscores and hyphens only, and it occurs in the
    text as it stands. This holds for both patterns, so the key under
    which a delegation is looked up and logged is never made up and
    never contains lower-case letters or spaces. *)
Theorem extract_incident_id_sound (text g : string) :
  IncidentId.extract_incident_id text = Some g -> Extracted.piece_of text g.
Proof.
  unfold IncidentId.extract_incident_id. destruct (String.eqb text ""); [done|].
  destruct (IncidentId.search_label text) as [g1|] eqn:E1.
  - intros [= <-]. by apply ExtractFacts.search_label_piece.
  - destruct (IncidentId.search_caps None text) as [g2|] eqn:E2; [|done].
    intros [= <-]. by apply ExtractFacts.search_caps_piece in E2.
Qed.

Lemma extract_incident_id_sound_witness :
  Extracted.piece_of "Dispatch incident id=FIRE-7_A now" "FIRE-7_A".
Proof. apply extract_incident_id_sound. reflexivity. Defined.

(** ** Histories of calls on the circuit breaker *)

Module CircuitHistoryFacts.

Import CircuitBreaker CircuitHistory.

Lemma failures_nonneg dest history : (0 <= failures_of dest history)%Z.
Proof.
  induction history as [|[t a|a|t a|t a] rest IH]; cbn [failures_of]; try lia.
  destruct (String.eqb a dest); lia.
Qed.

(** A closed circuit that has counted [k] failures stays closed through a
    history that brings the count to less than the threshold. *)
Lemma closed_through dest history :
  forall cs k lf h,
    cs !! dest = Some (CLOSED, k, lf, h) ->
    (0 <= k)%Z ->
    (k + failures_of dest history < CIRCUIT_FAILURE_THRESHOLD)%Z ->
    exists k' lf' h',
      run history cs !! dest = Some (CLOSED, k', lf', h')
      /\ (0 <= k' <= k + failures_of dest history)%Z.
Proof.
  induction history as [|c rest IH]; intros cs k lf h Hcs Hk Hlt.
  - cbn [run failures_of]. exists k, lf, h. split; [done|lia].
  - cbn [run]. pose proof (failures_nonneg dest rest) as Hpos.
    destruct c as [t a|a|t a|t a]; cbn [failures_of step] in *.
    + destruct (String.eqb a dest) eqn:E.
      * apply String.eqb_eq in E as ->.
        assert (Hstep : record_failure t dest cs !! dest = Some (CLOSED, (k + 1)%Z, t, 0%Z)).
        { unfold record_failure. rewrite Hcs. cbn [state_eqb].
          replace (CIRCUIT_FAILURE_THRESHOLD <=? k + 1)%Z with false
            by (symmetry; apply Z.leb_gt; lia).
          apply lookup_insert_eq. }
        destruct (IH _ _ _ _ Hstep) as (k' & lf' & h' & Hrun & Hk'); [lia|lia|].
        exists k', lf', h'. split; [done|lia].
      * apply String.eqb_neq in E.
        eapply IH; [|done|done]. by rewrite CircuitBreakerFacts.record_failure_other.
    + destruct (decide (a = dest)) as [->|Hne].
      * assert (Hstep : record_success dest cs !! dest = Some (CLOSED, 0%Z, 0%Q, 0%Z))
          by apply lookup_insert_eq.
        destruct (IH _ _ _ _ Hstep) as (k' & lf' & h' & Hrun & Hk'); [lia|lia|].
        exists k', lf', h'. split; [done|lia].
      * eapply IH; [|done|done]. unfold record_success. by rewrite lookup_insert_ne.
    + destruct (decide (a = dest)) as [->|Hne].
      * eapply IH; [|done|done]. unfold allow_request, get_state. rewrite Hcs.
        cbn [state_eqb andb snd]. exact Hcs.
      * eapply IH; [|done|done]. by rewrite CircuitBreakerFacts.allow_other.
    + destruct (decide (a = dest)) as [->|Hne].
      * eapply IH; [|done|done]. unfold get_state. rewrite Hcs.
        cbn [state_eqb andb snd]. exact Hcs.
      * eapply IH; [|done|done]. by rewrite CircuitStatusFacts.get_state_other.
Qed.

End CircuitHistoryFacts.

(** X18. Fewer than three failures never block a destination. After a
    [record_success] for [dest], whatever the breaker held before, every
    history of calls on the breaker that records fewer than
    [CIRCUIT_FAILURE_THRESHOLD] failures of [dest] leaves its circuit
    CLOSED, and the next request to it is admitted. The history may hold
    any calls for other destinations, those of circuits that open
    included, and any number of [allow_request] and [get_state] calls, at
    any times: the failure count is not aged by the clock, and one
    destination's failures do not count against another. *)
Theorem circuit_tolerates_failures_below_threshold
    (dest : string) (cs : gmap string CircuitBreaker.circuit)
    (history : list CircuitHistory.call) (t : Q) :
  (CircuitHistory.failures_of dest history < CircuitBreaker.CIRCUIT_FAILURE_THRESHOLD)%Z ->
  let cs' := CircuitHistory.run history (CircuitBreaker.record_success dest cs) in
  (CircuitBreaker.get_state t dest cs').1 = CircuitBreaker.CLOSED
  /\ (CircuitBreaker.allow_request t dest cs').1 = true.
Proof.
  intros Hlt cs'.
  destruct (CircuitHistoryFacts.closed_through dest history
              (CircuitBreaker.record_success dest cs) 0%Z 0%Q 0%Z)
    as (k' & lf' & h' & Hrun & _); [apply lookup_insert_eq|lia|lia|].
  fold cs' in Hrun.
  unfold CircuitBreaker.allow_request, CircuitBreaker.get_state. rewrite Hrun.
  by cbn.
Qed.

Lemma circuit_tolerates_failures_below_threshold_witness :
  let history :=
    [CircuitHistory.Failure 1 "medical_agent";
     CircuitHistory.Failure 2 "utility_agent";
     CircuitHistory.Failure 3 "utility_agent";
     CircuitHistory.Allow 4 "medical_agent";
     CircuitHistory.Failure 5 "utility_agent";
     CircuitHistory.Failure 6 "medical_agent";
     CircuitHistory.State 400 "utility_agent"] in
  let cs' :=
    CircuitHistory.run history
      (CircuitBreaker.record_success "medical_agent"
         (<["medical_agent" := (CircuitBreaker.OPEN, 7%Z, 0%Q, 0%Z)]> ∅)) in
  (CircuitBreaker.allow_request 7 "medical_agent" cs').1 = true.
Proof.
  intros history cs'.
  apply (circuit_tolerates_failures_below_threshold "medical_agent" _ history 7).
  vm_compute. reflexivity.
Defined.
